(** * Low-latency internode dispatch / combine: the slot and count protocol

    A shallow embedding of [csrc/kernels/internode_ll.cu] (namespace
    [deep_ep::internode_ll]) and the properties of its dispatch and combine
    kernels.

    Conventions of the embedding.
    - A C [int] is a [Z]; every value that is stored in or read from device
      memory by an arithmetic instruction (slot counters, posted counts,
      reservations) goes through [wrap32].  Index expressions
      ([e * num_ranks + rank] and the like) are evaluated in [Z].
    - C division and remainder truncate: [Z.quot] and [Z.rem].
    - A device buffer is a finite map from cell index to contents; a cell that
      was never written reads as zero (the buffers are zero-initialised by the
      host and by the cleaner).
    - A kernel launch is sequentialised at its barriers: the blocks of a phase
      run one after the other, the warps of a block one after the other.  The
      only cross-thread accesses inside a phase are atomic adds, which commute.
    - An in-kernel [assert(false)] or [EP_DEVICE_ASSERT] aborts the launch: the
      model returns [Fatal]. *)

From Stdlib Require Import ZArith Lia Bool List.
From Stdlib Require Import SpecFloat.
From stdpp Require Import base option list numbers gmap.

Local Open Scope Z_scope.

(** ** Machine integers *)

Definition INT_MIN : Z := -2147483648.
Definition INT_MAX : Z := 2147483647.

Definition in_int32 (z : Z) : Prop := INT_MIN <= z <= INT_MAX.

(** Two's complement wrap-around of a 32-bit signed integer. *)
Definition wrap32 (z : Z) : Z := (z + 2147483648) mod 4294967296 - 2147483648.

(** [static_cast<int>] of an [int64_t]. *)
Definition static_cast_int (z : Z) : Z := wrap32 z.

(** The value of an integer converted to [size_t], 64 bits wide. *)
Definition to_size_t (z : Z) : Z := z mod 18446744073709551616.

(** ** Device buffers *)

Abbreviation buffer := (gmap Z Z).

(** A plain load. *)
Definition ld (m : buffer) (i : Z) : Z := default 0 (m !! i).

(** [atomicAdd(m + i, v)], [atomicAdd_system] and the IBGDA non-fetching
    atomic add all have this effect on the cell; the first also returns the
    old value. *)
Definition atomicAdd (m : buffer) (i v : Z) : Z * buffer :=
  (ld m i, <[i := wrap32 (ld m i + v)]> m).

(** ** Outcomes of a kernel *)

Inductive fault : Type :=
| SlotOverflow        (* "Buffer overflow: Token dispatch buffer is full!" *)
| TokenDrop           (* "Token drop detected! This must never happen." *)
| CountTimeout        (* "Timeout waiting for count - synchronization failure" *)
| RecvOverflow        (* "Receive buffer overflow: Too many tokens for expert!" *)
| SlotIndexOverflow   (* "Token slot index exceeds buffer bounds!" *)
| DeviceAssert        (* EP_DEVICE_ASSERT *)
| HostAssert          (* EP_HOST_ASSERT in the launch wrapper *)
| OutOfBounds.        (* a store past the end of a fixed-size array *)

Inductive result (A : Type) : Type :=
| Ok (a : A)
| Fatal (f : fault).
Arguments Ok {A} a.
Arguments Fatal {A} f.

#[global] Instance result_ret : MRet result := fun A a => Ok a.
#[global] Instance result_bind : MBind result := fun A B k r =>
  match r with
  | Ok a => k a
  | Fatal f => Fatal f
  end.

Definition is_ok {A} (r : result A) : bool :=
  match r with Ok _ => true | Fatal _ => false end.

(** A [for] loop over the successive values of its index, threading the state
    and stopping at the first fault. *)
Fixpoint for_each {A S : Type} (l : list A) (body : A -> S -> result S) (s : S)
  : result S :=
  match l with
  | [] => Ok s
  | a :: l' => s' ← body a s; for_each l' body s'
  end.

(** The index values of [for (i = start; i < bound; i += step)], [step > 0]. *)
Definition strided (start bound step : Z) : list Z :=
  (fun i => start + i * step) <$> seqZ 0 ((bound - start + step - 1) `div` step).

(** ** ExpertSyncInfo (lines 9-18) *)

Module Sync.

(** The two per-rank arrays of the structure are declared with 8 elements. *)
Definition kSyncRanks : Z := 8.

Record ExpertSyncInfo : Type := {
  expected_tokens_per_rank : list Z;   (* int [8] *)
  received_tokens_per_rank : list Z;   (* int [8] *)
  total_expected_tokens : Z;
  total_received_tokens : Z;
  completed_ranks : Z;
  expert_processing_complete : Z;
  combined_x_ptr : Z;                  (* void* *)
  padding : list Z                     (* int [1] *)
}.

(** [memset(&expert_sync_info_buffer[i], 0, sizeof(ExpertSyncInfo))] *)
Definition zeroed : ExpertSyncInfo := {|
  expected_tokens_per_rank := replicate (Z.to_nat kSyncRanks) 0;
  received_tokens_per_rank := replicate (Z.to_nat kSyncRanks) 0;
  total_expected_tokens := 0;
  total_received_tokens := 0;
  completed_ranks := 0;
  expert_processing_complete := 0;
  combined_x_ptr := 0;
  padding := [0]
|}.

Definition well_formed (s : ExpertSyncInfo) : Prop :=
  length (expected_tokens_per_rank s) = Z.to_nat kSyncRanks /\
  length (received_tokens_per_rank s) = Z.to_nat kSyncRanks.

(** An element of an array field: [None] when the index is not an element
    of the array. *)
Definition array_add (a : list Z) (i v : Z) : option (list Z) :=
  if (0 <=? i) && (i <? Z.of_nat (length a))
  then Some (alter (fun old => wrap32 (old + v)) (Z.to_nat i) a)
  else None.

(** Dispatch, lines 339-342:
    [atomicAdd(&info.expected_tokens_per_rank[rank], 1);
     atomicAdd(&info.total_expected_tokens, 1);] *)
Definition dispatch_note_expected (s : ExpertSyncInfo) (rank : Z)
  : option ExpertSyncInfo :=
  a ← array_add (expected_tokens_per_rank s) rank 1;
  Some {| expected_tokens_per_rank := a;
          received_tokens_per_rank := received_tokens_per_rank s;
          total_expected_tokens := wrap32 (total_expected_tokens s + 1);
          total_received_tokens := total_received_tokens s;
          completed_ranks := completed_ranks s;
          expert_processing_complete := expert_processing_complete s;
          combined_x_ptr := combined_x_ptr s;
          padding := padding s |}.

(** Combine, lines 1106-1110:
    [atomicAdd(&info.received_tokens_per_rank[rank], num_tokens_to_send);
     atomicAdd(&info.total_received_tokens, num_tokens_to_send);] *)
Definition combine_note_received (s : ExpertSyncInfo) (rank n : Z)
  : option ExpertSyncInfo :=
  a ← array_add (received_tokens_per_rank s) rank n;
  Some {| expected_tokens_per_rank := expected_tokens_per_rank s;
          received_tokens_per_rank := a;
          total_expected_tokens := total_expected_tokens s;
          total_received_tokens := wrap32 (total_received_tokens s + n);
          completed_ranks := completed_ranks s;
          expert_processing_complete := expert_processing_complete s;
          combined_x_ptr := combined_x_ptr s;
          padding := padding s |}.

(** Byte layout of the structure (4-byte [int], 8-byte aligned pointer):
    the offset of [expected_tokens_per_rank[i]] and of
    [received_tokens_per_rank[i]], and [sizeof(ExpertSyncInfo)]. *)
Definition offset_expected (i : Z) : Z := 4 * i.
Definition offset_received (i : Z) : Z := 32 + 4 * i.
Definition sizeof_ExpertSyncInfo : Z := 96.

End Sync.

(** ** Helpers declared outside this file *)

(** Modelled from the spec: [LOW_LATENCY_SEND_PHASE] and
    [LOW_LATENCY_RECV_PHASE] come from [configs.cuh]; the phases argument "is
    a bitmask of SEND (1) and RECV (2)". *)
Definition LOW_LATENCY_SEND_PHASE : Z := 1.
Definition LOW_LATENCY_RECV_PHASE : Z := 2.

(** Modelled from the spec: [pack2] and [unpack2] come from [utils.cuh]; the
    layout range of a pair is [pack(num, begin)], two [int] halves of one
    [int64_t], the first argument in the low half. *)
Definition wrap64 (z : Z) : Z :=
  (z + 9223372036854775808) mod 18446744073709551616 - 9223372036854775808.
Definition pack2 (a b : Z) : Z :=
  wrap64 (a mod 4294967296 + 4294967296 * (b mod 4294967296)).
Definition unpack2 (p : Z) : Z * Z :=
  let u := p mod 18446744073709551616 in
  (wrap32 (u mod 4294967296), wrap32 (u `div` 4294967296)).

(** Modelled from the spec: [ceil_div] and [align] come from [utils.cuh]. *)
Definition ceil_div (a b : Z) : Z := (a + b - 1) `quot` b.
Definition align (a b : Z) : Z := ceil_div a b * b.

(** ** The dispatch kernel (lines 131-786) *)

Module Dispatch.

(** The arguments of the kernel that the slot protocol reads, with the
    template parameters. *)
Record params : Type := {
  num_tokens : Z;
  num_max_dispatch_tokens_per_rank : Z;
  num_topk : Z;
  num_experts : Z;
  rank : Z;
  num_ranks : Z;
  num_warp_groups : Z;
  num_warps_per_group : Z;
  phases : Z;
  kUseFP8 : bool;
  kUseUE8M0 : bool;
  kHidden : Z
}.

(** A message in a receive slot: the header's source token index, the data
    words that follow it and the FP8 scales stored behind the hidden bytes. *)
Record message : Type := {
  msg_src_idx : Z;
  msg_data : list Z;
  msg_scales : list Z
}.

Definition empty_message : message :=
  {| msg_src_idx := 0; msg_data := []; msg_scales := [] |}.

(** The read-only inputs.  [staged t] is the body the send loop stages for
    token [t] in [rdma_x] (the bf16 words of [x], or their FP8 cast with its
    scales, lines 252-290); [extract_required_scale_format] is the device
    helper of that name. *)
Record inputs : Type := {
  topk_idx : buffer;
  staged : Z -> list Z * list Z;
  num_recv_tokens_per_rank : buffer;
  extract_required_scale_format : Z -> Z
}.

(** The device memory of one rank that the protocol touches. *)
Record memory : Type := {
  atomic_counter_per_expert : buffer;
  rdma_recv_count : buffer;
  rdma_recv_x : gmap Z message;
  packed_recv_x : gmap Z (list Z);
  packed_recv_x_scales : buffer;
  packed_recv_src_info : buffer;
  packed_recv_layout_range : buffer;
  packed_recv_count : buffer;
  cumulative_local_expert_recv_stats : option buffer
}.

Definition set_atomic_counter_per_expert (m : memory) (b : buffer) : memory :=
  {| atomic_counter_per_expert := b;
     rdma_recv_count := rdma_recv_count m;
     rdma_recv_x := rdma_recv_x m;
     packed_recv_x := packed_recv_x m;
     packed_recv_x_scales := packed_recv_x_scales m;
     packed_recv_src_info := packed_recv_src_info m;
     packed_recv_layout_range := packed_recv_layout_range m;
     packed_recv_count := packed_recv_count m;
     cumulative_local_expert_recv_stats := cumulative_local_expert_recv_stats m |}.

Definition set_rdma_recv_count (m : memory) (b : buffer) : memory :=
  {| atomic_counter_per_expert := atomic_counter_per_expert m;
     rdma_recv_count := b;
     rdma_recv_x := rdma_recv_x m;
     packed_recv_x := packed_recv_x m;
     packed_recv_x_scales := packed_recv_x_scales m;
     packed_recv_src_info := packed_recv_src_info m;
     packed_recv_layout_range := packed_recv_layout_range m;
     packed_recv_count := packed_recv_count m;
     cumulative_local_expert_recv_stats := cumulative_local_expert_recv_stats m |}.

Definition set_rdma_recv_x (m : memory) (b : gmap Z message) : memory :=
  {| atomic_counter_per_expert := atomic_counter_per_expert m;
     rdma_recv_count := rdma_recv_count m;
     rdma_recv_x := b;
     packed_recv_x := packed_recv_x m;
     packed_recv_x_scales := packed_recv_x_scales m;
     packed_recv_src_info := packed_recv_src_info m;
     packed_recv_layout_range := packed_recv_layout_range m;
     packed_recv_count := packed_recv_count m;
     cumulative_local_expert_recv_stats := cumulative_local_expert_recv_stats m |}.

Definition set_packed_recv_x (m : memory) (b : gmap Z (list Z)) : memory :=
  {| atomic_counter_per_expert := atomic_counter_per_expert m;
     rdma_recv_count := rdma_recv_count m;
     rdma_recv_x := rdma_recv_x m;
     packed_recv_x := b;
     packed_recv_x_scales := packed_recv_x_scales m;
     packed_recv_src_info := packed_recv_src_info m;
     packed_recv_layout_range := packed_recv_layout_range m;
     packed_recv_count := packed_recv_count m;
     cumulative_local_expert_recv_stats := cumulative_local_expert_recv_stats m |}.

Definition set_packed_recv_x_scales (m : memory) (b : buffer) : memory :=
  {| atomic_counter_per_expert := atomic_counter_per_expert m;
     rdma_recv_count := rdma_recv_count m;
     rdma_recv_x := rdma_recv_x m;
     packed_recv_x := packed_recv_x m;
     packed_recv_x_scales := b;
     packed_recv_src_info := packed_recv_src_info m;
     packed_recv_layout_range := packed_recv_layout_range m;
     packed_recv_count := packed_recv_count m;
     cumulative_local_expert_recv_stats := cumulative_local_expert_recv_stats m |}.

Definition set_packed_recv_src_info (m : memory) (b : buffer) : memory :=
  {| atomic_counter_per_expert := atomic_counter_per_expert m;
     rdma_recv_count := rdma_recv_count m;
     rdma_recv_x := rdma_recv_x m;
     packed_recv_x := packed_recv_x m;
     packed_recv_x_scales := packed_recv_x_scales m;
     packed_recv_src_info := b;
     packed_recv_layout_range := packed_recv_layout_range m;
     packed_recv_count := packed_recv_count m;
     cumulative_local_expert_recv_stats := cumulative_local_expert_recv_stats m |}.

(** The reservation of lines 670-695 updates three buffers at once. *)
Definition set_reservation (m : memory) (count range : buffer)
    (stats : option buffer) : memory :=
  {| atomic_counter_per_expert := atomic_counter_per_expert m;
     rdma_recv_count := rdma_recv_count m;
     rdma_recv_x := rdma_recv_x m;
     packed_recv_x := packed_recv_x m;
     packed_recv_x_scales := packed_recv_x_scales m;
     packed_recv_src_info := packed_recv_src_info m;
     packed_recv_layout_range := range;
     packed_recv_count := count;
     cumulative_local_expert_recv_stats := stats |}.

(** One [atomicAdd] on a slot counter: the cell and the slot it returned. *)
Record reservation : Type := { res_counter_idx : Z; res_slot_idx : Z }.

(** One-sided operations on a peer's symmetric buffers: a message written to
    slot [slot] of its [rdma_recv_x] ([nvshmemi_ibgda_put_nbi_warp], or the
    warp copy through a P2P pointer), and an atomic add on cell [offset] of
    its [rdma_recv_count] ([nvshmemi_ibgda_amo_nonfetch_add], or
    [atomicAdd_system] through a P2P pointer). *)
Inductive net_op : Type :=
| PutMessage (dst_rank slot : Z) (m : message)
| AddCount (dst_rank offset v : Z).

Record send_state : Type := {
  ss_mem : memory;
  ss_log : list reservation;
  ss_out : list net_op
}.

Inductive event : Type :=
| EvPoll (idx v : Z).      (* ld_acquire_sys_global(rdma_recv_count + idx) *)

Definition MAX_WAIT : Z := 100000000.

(** The spin loop of lines 639-660 over the successive values it loads. *)
Inductive poll_result : Type :=
| Arrived (v : Z)
| PollTimeout
| StillWaiting (wait_iterations : Z).

Fixpoint wait_for_count (loads : list Z) (wait_iterations : Z) : poll_result :=
  match loads with
  | [] => StillWaiting wait_iterations
  | num_recv_tokens :: loads' =>
      if negb (num_recv_tokens =? 0) then Arrived num_recv_tokens
      else
        let wait_iterations := wrap32 (wait_iterations + 1) in
        if wait_iterations >? MAX_WAIT then PollTimeout
        else wait_for_count loads' wait_iterations
  end.

(** The same loop when no other thread writes the cell while it spins: every
    load returns [v]. *)
Definition poll_quiescent (v : Z) : result Z :=
  if negb (v =? 0) then Ok v else Fatal CountTimeout.

(** Line 664. *)
Definition decode_count (v : Z) : Z := wrap32 (- v - 1).

Section Kernel.

Variable P : params.
Variable I : inputs.

Definition num_warps : Z := num_warp_groups P * num_warps_per_group P.
Definition num_local_experts : Z := num_experts P `quot` num_ranks P.

(** Line 157. *)
Definition is_pure_ep_mode : bool :=
  num_ranks P =? num_experts P `quot` num_local_experts.

Definition num_scales : Z := kHidden P `quot` 128.

(** Lines 184-195: the sizes of a message in bytes and the assertions on
    them that every thread makes before the phases. *)
Definition num_bytes_per_data : Z :=
  if kUseFP8 P then kHidden P + num_scales * 4 else kHidden P * 2.

Definition num_bytes_per_msg : Z := 16 + num_bytes_per_data.

Definition layout_asserts : bool :=
  (num_bytes_per_msg `rem` 16 =? 0) && (num_bytes_per_data `rem` 16 =? 0).

(** The launch wrapper sets the grid to [num_experts] blocks (line 880). *)
Definition gridDim : Z := num_experts P.

(** *** Phase 1: send (lines 206-373) *)

(** Line 297. *)
Definition owner_rank_for_token (token_idx : Z) : Z :=
  if is_pure_ep_mode then token_idx `rem` num_ranks P else -1.

(** The message staged for a token (lines 231-290). *)
Definition staged_message (token_idx : Z) : message :=
  {| msg_src_idx := token_idx;
     msg_data := fst (staged I token_idx);
     msg_scales := snd (staged I token_idx) |}.

(** Body of the top-k loop (lines 299-371) in the block of
    [responsible_expert_idx]. *)
Definition send_topk_entry (responsible_expert_idx token_idx topk_offset : Z)
    (s : send_state) : result send_state :=
  let dst_expert_idx :=
    static_cast_int (ld (topk_idx I) (token_idx * num_topk P + topk_offset)) in
  if dst_expert_idx <? 0 then Ok s
  else if negb (dst_expert_idx =? responsible_expert_idx) then Ok s
  else if is_pure_ep_mode && negb (rank P =? owner_rank_for_token token_idx)
  then Ok s
  else
    let dst_rank := dst_expert_idx `quot` num_local_experts in
    let dst_expert_local_idx := dst_expert_idx `rem` num_local_experts in
    let counter_idx := dst_expert_idx * num_ranks P + rank P in
    let '(slot_idx, counters) :=
      atomicAdd (atomic_counter_per_expert (ss_mem s)) counter_idx 1 in
    if slot_idx >=? num_max_dispatch_tokens_per_rank P then Fatal SlotOverflow
    else
      let dst_slot :=
        dst_expert_local_idx * num_ranks P * num_max_dispatch_tokens_per_rank P
        + rank P * num_max_dispatch_tokens_per_rank P + slot_idx in
      Ok {| ss_mem := set_atomic_counter_per_expert (ss_mem s) counters;
            ss_log := ss_log s ++
              [{| res_counter_idx := counter_idx; res_slot_idx := slot_idx |}];
            ss_out := ss_out s ++
              [PutMessage dst_rank dst_slot (staged_message token_idx)] |}.

Definition send_token (responsible_expert_idx token_idx : Z)
  : send_state -> result send_state :=
  for_each (seqZ 0 (num_topk P))
           (send_topk_entry responsible_expert_idx token_idx).

(** The assertion of line 213 and the token loop of one processing warp
    (line 230). *)
Definition send_warp (responsible_expert_idx warp_id : Z) (s : send_state)
  : result send_state :=
  if negb (kHidden P `rem` 8 =? 0) then Fatal DeviceAssert
  else
    for_each (strided warp_id (num_tokens P) (num_warps - 1))
             (send_token responsible_expert_idx) s.

(** All warps but the last process tokens (line 217). *)
Definition send_tokens_block (responsible_expert_idx : Z)
  : send_state -> result send_state :=
  for_each (seqZ 0 (num_warps - 1)) (send_warp responsible_expert_idx).

(** The token-drop detector (lines 415-446). *)
Definition expected_count (responsible_expert_idx : Z) : Z :=
  foldl (fun expected_count token_idx =>
    foldl (fun expected_count k =>
      let idx :=
        static_cast_int (ld (topk_idx I) (token_idx * num_topk P + k)) in
      if idx <? 0 then expected_count
      else if idx =? responsible_expert_idx then
        if negb is_pure_ep_mode then expected_count + 1
        else if token_idx `rem` num_ranks P =? rank P
             then expected_count + 1 else expected_count
      else expected_count)
      expected_count (seqZ 0 (num_topk P)))
    0 (seqZ 0 (num_tokens P)).

Definition check_token_drop (responsible_expert_idx : Z) (s : send_state)
  : result send_state :=
  if (responsible_expert_idx <? num_experts P)
     && (ld (atomic_counter_per_expert (ss_mem s))
            (responsible_expert_idx * num_ranks P + rank P)
         <? expected_count responsible_expert_idx)
  then Fatal TokenDrop else Ok s.

Definition dispatch_send_block (responsible_expert_idx : Z) (s : send_state)
  : result send_state :=
  s ← send_tokens_block responsible_expert_idx s;
  check_token_drop responsible_expert_idx s.

(** *** The count handshake (lines 523-574) *)

Definition count_to_post (responsible_expert_idx : Z) (m : memory) : Z :=
  let counter_idx := responsible_expert_idx * num_ranks P + rank P in
  let actual_sent_count := ld (atomic_counter_per_expert m) counter_idx in
  let actual_sent_count :=
    if is_pure_ep_mode && (actual_sent_count <? 0) then 0
    else actual_sent_count in
  wrap32 (- actual_sent_count - 1).

Definition dispatch_count_block (s : send_state) (responsible_expert_idx : Z)
  : send_state :=
  if responsible_expert_idx <? num_experts P then
    let dst_rank := responsible_expert_idx `quot` num_local_experts in
    let dst_expert_local_idx := responsible_expert_idx `rem` num_local_experts in
    let dst_offset := dst_expert_local_idx * num_ranks P + rank P in
    {| ss_mem := ss_mem s;
       ss_log := ss_log s;
       ss_out := ss_out s ++
         [AddCount dst_rank dst_offset
                   (count_to_post responsible_expert_idx (ss_mem s))] |}
  else s.

(** The send phase of a launch: the send loops of all blocks, the grid
    sync of line 501, the count sends of all blocks, the grid sync of line
    579.  Without the SEND bit the kernel jumps over all of it (line 208). *)
Definition dispatch_send_phase (m : memory) : result send_state :=
  let s0 := {| ss_mem := m; ss_log := []; ss_out := [] |} in
  if Z.land (phases P) LOW_LATENCY_SEND_PHASE =? 0 then Ok s0
  else
    s ← for_each (seqZ 0 gridDim) dispatch_send_block s0;
    Ok (foldl dispatch_count_block s (seqZ 0 gridDim)).

(** *** Phase 2: receive (lines 583-786) *)

(** Line 592. *)
Definition should_process : bool :=
  ld (num_recv_tokens_per_rank I) (rank P) >? 0.

(** The wait and the reservation by lane 0 of sub-warp 1 (lines 629-705):
    the new memory, [num_recv_tokens] and [recv_token_begin_idx]. *)
Definition recv_reserve (local_expert_idx src_rank : Z)
    (st : memory * list event) : result (memory * list event * Z * Z) :=
  let '(m, evs) := st in
  let idx := local_expert_idx * num_ranks P + src_rank in
  num_recv_tokens ← poll_quiescent (ld (rdma_recv_count m) idx);
  let evs := evs ++ [EvPoll idx num_recv_tokens] in
  if negb (num_recv_tokens =? 0) then
    let num_recv_tokens := decode_count num_recv_tokens in
    let counter_idx := local_expert_idx * num_ranks P + src_rank in
    let '(recv_token_begin_idx, count) :=
      atomicAdd (packed_recv_count m) counter_idx num_recv_tokens in
    if wrap32 (recv_token_begin_idx + num_recv_tokens)
       >? num_max_dispatch_tokens_per_rank P
    then Fatal RecvOverflow
    else
      let range :=
        <[local_expert_idx * num_ranks P + src_rank :=
            pack2 num_recv_tokens recv_token_begin_idx]>
          (packed_recv_layout_range m) in
      let stats :=
        (fun b => snd (atomicAdd b local_expert_idx num_recv_tokens))
          <$> cumulative_local_expert_recv_stats m in
      Ok (set_reservation m count range stats, evs,
          num_recv_tokens, recv_token_begin_idx)
  else Ok (m, evs, 0, 0).

(** The scale of one lane (lines 761-772). *)
Definition write_scale (local_expert_idx token_idx lane : Z) (src : message)
    (b : buffer) : buffer :=
  let elems := if kUseUE8M0 P then 4 else 1 in
  let num_aligned_scales := align num_scales elems in
  let base :=
    local_expert_idx * num_ranks P * num_max_dispatch_tokens_per_rank P
    * num_aligned_scales in
  let num_elems_per_pack := elems in
  let token_stride := num_elems_per_pack in
  let pack_stride :=
    num_ranks P * num_max_dispatch_tokens_per_rank P * num_elems_per_pack in
  if lane <? num_scales then
    let pack_idx := lane `quot` num_elems_per_pack in
    let elem_idx := lane `rem` num_elems_per_pack in
    let scale :=
      extract_required_scale_format I
        (default 0 (msg_scales src !! Z.to_nat lane)) in
    <[base + token_idx * token_stride + pack_idx * pack_stride + elem_idx
        := scale]> b
  else b.

(** Body of the copy loop (lines 717-774) for message [i] of the pair. *)
Definition recv_copy_token (local_expert_idx src_rank recv_token_begin_idx
    i : Z) (m : memory) : result memory :=
  let pair_base :=
    local_expert_idx * num_ranks P * num_max_dispatch_tokens_per_rank P
    + src_rank * num_max_dispatch_tokens_per_rank P in
  let src := default empty_message (rdma_recv_x m !! (pair_base + i)) in
  let m :=
    set_packed_recv_src_info m
      (<[pair_base + i := msg_src_idx src]> (packed_recv_src_info m)) in
  let token_slot_idx := recv_token_begin_idx + i in
  if token_slot_idx >=? num_max_dispatch_tokens_per_rank P
  then Fatal SlotIndexOverflow
  else
    let m :=
      set_packed_recv_x m
        (<[pair_base + token_slot_idx := msg_data src]> (packed_recv_x m)) in
    if kUseFP8 P then
      let token_idx := recv_token_begin_idx + i in
      Ok (set_packed_recv_x_scales m
            (foldl (fun b lane_id =>
                      write_scale local_expert_idx token_idx (lane_id + 32) src
                        (write_scale local_expert_idx token_idx lane_id src b))
                   (packed_recv_x_scales m) (seqZ 0 32)))
    else Ok m.

(** One warp group of a receiving block: sub-warp 1 reserves, the barrier
    of line 706 publishes the reservation, every sub-warp copies its share
    of the messages. *)
Definition recv_warp_group (local_expert_idx src_rank warp_group_id : Z)
    (st : memory * list event) : result (memory * list event) :=
  '(m, evs, num_recv_tokens, recv_token_begin_idx) ←
    recv_reserve local_expert_idx src_rank st;
  if num_recv_tokens =? 0 then Ok (m, evs)
  else if negb (num_scales <=? 64) then Fatal DeviceAssert
  else
    m ← for_each (seqZ 0 (num_warps_per_group P))
          (fun sub_warp_id =>
             for_each (strided sub_warp_id num_recv_tokens
                               (num_warps_per_group P))
                      (recv_copy_token local_expert_idx src_rank
                                       recv_token_begin_idx))
          m;
    Ok (m, evs).

Definition dispatch_recv_block (responsible_expert_idx : Z)
    (st : memory * list event) : result (memory * list event) :=
  if should_process
     && (responsible_expert_idx <? num_local_experts * num_ranks P)
  then
    let pair_idx := responsible_expert_idx in
    let local_expert_idx := pair_idx `quot` num_ranks P in
    let src_rank := pair_idx `rem` num_ranks P in
    if negb ((local_expert_idx <? num_local_experts)
             && (src_rank <? num_ranks P))
    then Fatal DeviceAssert
    else if negb ((num_warps_per_group P >? 1) && (num_warp_groups P <? 15))
    then Fatal DeviceAssert
    else
      for_each (seqZ 0 (num_warp_groups P))
               (recv_warp_group local_expert_idx src_rank) st
  else Ok st.

(** The receive phase of a launch (skipped without the RECV bit, line 586). *)
Definition dispatch_recv_phase (m : memory) : result (memory * list event) :=
  if Z.land (phases P) LOW_LATENCY_RECV_PHASE =? 0 then Ok (m, [])
  else for_each (seqZ 0 gridDim) dispatch_recv_block (m, []).

End Kernel.

End Dispatch.

(** ** The launch wrapper of dispatch (lines 788-884) *)

Module Host.

Import Dispatch.

Record dispatch_args : Type := {
  a_num_tokens : Z;
  a_hidden : Z;
  a_num_max_dispatch_tokens_per_rank : Z;
  a_num_topk : Z;
  a_num_experts : Z;
  a_rank : Z;
  a_num_ranks : Z;
  a_use_fp8 : bool;
  a_round_scale : bool;
  a_use_ue8m0 : bool;
  a_num_device_sms : Z;
  a_phases : Z
}.

Definition kNumMaxTopK : Z := 9.

(** The search of lines 811-822: the first [wg] in [1..32] that fits, or the
    initial [(1, 32)]. *)
Definition find_warp_config (min_warps_needed num_experts num_device_sms : Z)
  : Z * Z :=
  default (1, 32)
    (head (omap (fun wg =>
                   let wpg := 32 `quot` wg in
                   if (wpg >? 0) && (wg * wpg >=? min_warps_needed)
                      && (wg <=? ceil_div num_experts num_device_sms)
                   then Some (wg, wpg) else None)
                (seqZ 1 32))).

Section Launch.

(** [NUM_WORKSPACE_BYTES] comes from [configs.cuh]; line 848 compares it
    with a [size_t]. *)
Variable NUM_WORKSPACE_BYTES : Z.

(** [SWITCH_HIDDEN] comes from [launch.cuh]: whether the switch of line 882
    has a case for a value of [hidden], the case being the only place that
    launches the kernel. *)
Variable SWITCH_HIDDEN : Z -> bool.

(** The kernel arguments the wrapper launches with; [None] when one of its
    [EP_HOST_ASSERT]s fails or the switch has no case for [hidden]. *)
Definition dispatch (a : dispatch_args) : option params :=
  let min_warps_needed := wrap32 (a_num_topk a + 1) in
  let '(num_warp_groups, num_warps_per_group) :=
    find_warp_config min_warps_needed (a_num_experts a) (a_num_device_sms a) in
  let num_warps := num_warp_groups * num_warps_per_group in
  if num_warps <? min_warps_needed then None
  else if negb ((num_warp_groups >? 0) && (num_warps_per_group >? 0)) then None
  else if negb (kNumMaxTopK + 1 <=? num_warp_groups * num_warps_per_group)
  then None
  else if negb (a_num_topk a <=? kNumMaxTopK) then None
  else
    let counters_per_type := wrap32 (a_num_experts a * a_num_ranks a) in
    if negb (to_size_t (to_size_t (to_size_t counters_per_type * 4) * 2)
             <=? to_size_t NUM_WORKSPACE_BYTES) then None
    else if a_use_ue8m0 a && negb (a_round_scale a) then None
    else if negb (SWITCH_HIDDEN (a_hidden a)) then None
    else
      Some {| num_tokens := a_num_tokens a;
              num_max_dispatch_tokens_per_rank :=
                a_num_max_dispatch_tokens_per_rank a;
              num_topk := a_num_topk a;
              num_experts := a_num_experts a;
              rank := a_rank a;
              num_ranks := a_num_ranks a;
              num_warp_groups := num_warp_groups;
              num_warps_per_group := num_warps_per_group;
              phases := a_phases a;
              kUseFP8 := a_use_fp8 a;
              kUseUE8M0 := a_use_fp8 a && a_use_ue8m0 a;
              kHidden := a_hidden a |}.

End Launch.

End Host.

(** ** A dispatch on all ranks *)

Module World.

Import Dispatch.

(** The call of the launch wrapper on one rank. *)
Record launch : Type := { l_args : Host.dispatch_args; l_inputs : inputs }.

Definition op_dst (op : net_op) : Z :=
  match op with
  | PutMessage dst_rank _ _ => dst_rank
  | AddCount dst_rank _ _ => dst_rank
  end.

(** The effect of a one-sided operation on the memory of its destination. *)
Definition apply_op (op : net_op) (m : memory) : memory :=
  match op with
  | PutMessage _ slot msg =>
      set_rdma_recv_x m (<[slot := msg]> (rdma_recv_x m))
  | AddCount _ offset v =>
      set_rdma_recv_count m (snd (atomicAdd (rdma_recv_count m) offset v))
  end.

(** The world is the list of the ranks' memories, rank [r] at index [r]. *)
Definition deliver_op (w : list memory) (op : net_op) : list memory :=
  if 0 <=? op_dst op then alter (apply_op op) (Z.to_nat (op_dst op)) w else w.

Definition deliver (ops : list net_op) (w : list memory) : list memory :=
  foldl deliver_op w ops.

Fixpoint map_result {A B : Type} (f : A -> result B) (l : list A)
  : result (list B) :=
  match l with
  | [] => Ok []
  | a :: l' => b ← f a; bs ← map_result f l'; Ok (b :: bs)
  end.

Record outcome : Type := {
  o_world : list memory;
  o_logs : list (list reservation);
  o_events : list (list event)
}.

Section Run.

Variable NUM_WORKSPACE_BYTES : Z.
Variable SWITCH_HIDDEN : Z -> bool.

(** The kernel arguments of a launch that passes the assertions of the
    wrapper and those of the first lines of the kernel. *)
Definition launch_params (l : launch) : result params :=
  match Host.dispatch NUM_WORKSPACE_BYTES SWITCH_HIDDEN (l_args l) with
  | Some P => if layout_asserts P then Ok P else Fatal DeviceAssert
  | None => Fatal HostAssert
  end.

Definition rank_send (lm : launch * memory) : result send_state :=
  P ← launch_params lm.1;
  dispatch_send_phase P (l_inputs lm.1) lm.2.

Definition rank_recv (lm : launch * memory) : result (memory * list event) :=
  P ← launch_params lm.1;
  dispatch_recv_phase P (l_inputs lm.1) lm.2.

(** Every rank runs its send phase; the one-sided operations reach their
    destinations; every rank runs its receive phase. *)
Definition dispatch_all (ls : list launch) (w : list memory) : result outcome :=
  sends ← map_result rank_send (zip ls w);
  let w := deliver (concat (ss_out <$> sends)) (ss_mem <$> sends) in
  recvs ← map_result rank_recv (zip ls w);
  Ok {| o_world := fst <$> recvs;
        o_logs := ss_log <$> sends;
        o_events := snd <$> recvs |}.

End Run.

(** The number of atomic increments a log records on a counter cell. *)
Definition increments (log : list reservation) (counter_idx : Z) : Z :=
  Z.of_nat (length (filter (fun r => res_counter_idx r = counter_idx) log)).

Definition zero_memory : memory :=
  {| atomic_counter_per_expert := ∅;
     rdma_recv_count := ∅;
     rdma_recv_x := ∅;
     packed_recv_x := ∅;
     packed_recv_x_scales := ∅;
     packed_recv_src_info := ∅;
     packed_recv_layout_range := ∅;
     packed_recv_count := ∅;
     cumulative_local_expert_recv_stats := None |}.

End World.

(** ** Notions the properties are stated with *)

Module DispatchSpec.

Import Dispatch.

(** The launch of the same kernel on rank [r]. *)
Definition with_rank (P : params) (r : Z) : params :=
  {| num_tokens := num_tokens P;
     num_max_dispatch_tokens_per_rank := num_max_dispatch_tokens_per_rank P;
     num_topk := num_topk P;
     num_experts := num_experts P;
     rank := r;
     num_ranks := num_ranks P;
     num_warp_groups := num_warp_groups P;
     num_warps_per_group := num_warps_per_group P;
     phases := phases P;
     kUseFP8 := kUseFP8 P;
     kUseUE8M0 := kUseUE8M0 P;
     kHidden := kHidden P |}.

(** Whether the top-k loop body performs the [atomicAdd] of line 326 for
    this entry: the log grows, or the overflow assertion that follows the
    [atomicAdd] fires. *)
Definition reserves (P : params) (I : inputs) (e t k : Z) (s : send_state)
  : bool :=
  match send_topk_entry P I e t k s with
  | Ok s' => negb (length (ss_log s') =? length (ss_log s))%nat
  | Fatal _ => true
  end.

(** Every cell of a buffer reads as zero. *)
Definition zeroed (b : buffer) : Prop := forall i, ld b i = 0.

(** The guards of lines 303-315: the entry is not padding, names the
    block's expert and, in Pure EP mode, the token is owned by this rank. *)
Definition entry_selected (P : params) (I : inputs) (e t k : Z) : bool :=
  let idx := static_cast_int (ld (topk_idx I) (t * num_topk P + k)) in
  (0 <=? idx) && (idx =? e)
  && (negb (is_pure_ep_mode P) || (rank P =? t `rem` num_ranks P)).

(** The (token, top-k offset) pairs in the order the warps of a block visit
    them, and in the order of the scan of the token-drop detector. *)
Definition send_schedule (P : params) : list (Z * Z) :=
  w ← seqZ 0 (num_warps P - 1);
  t ← strided w (num_tokens P) (num_warps P - 1);
  k ← seqZ 0 (num_topk P);
  [(t, k)].

Definition scan_schedule (P : params) : list (Z * Z) :=
  t ← seqZ 0 (num_tokens P);
  k ← seqZ 0 (num_topk P);
  [(t, k)].

Definition count_selected (P : params) (I : inputs) (e : Z) (l : list (Z * Z))
  : Z :=
  Z.of_nat (length (filter (fun tk => entry_selected P I e tk.1 tk.2 = true) l)).

(** The faults of the receive phase that are not capacity assertions. *)
Definition benign (f : fault) : Prop := f = CountTimeout \/ f = DeviceAssert.

Definition is_put (op : net_op) : bool :=
  match op with PutMessage _ _ _ => true | AddCount _ _ _ => false end.

(** The count sends of a launch whose counters are those of [m]. *)
Definition count_ops (P : params) (m : memory) : list net_op :=
  (fun e => AddCount (e `quot` num_local_experts P)
                     ((e `rem` num_local_experts P) * num_ranks P + rank P)
                     (count_to_post P e m))
    <$> seqZ 0 (num_experts P).

(** What holds of the state of a send phase that started from memory [m]
    with zeroed slot counters: only the counters changed, every counter
    holds the number of increments the log records for it, no counter
    exceeds the capacity, and only messages were sent so far. *)
Definition send_inv (P : params) (m : memory) (s : send_state) : Prop :=
  ss_mem s = set_atomic_counter_per_expert m (atomic_counter_per_expert (ss_mem s))
  /\ (forall j, ld (atomic_counter_per_expert (ss_mem s)) j
                = World.increments (ss_log s) j)
  /\ (forall j, 0 <= ld (atomic_counter_per_expert (ss_mem s)) j
                <= num_max_dispatch_tokens_per_rank P)
  /\ Forall (fun op => is_put op = true) (ss_out s).

End DispatchSpec.

Module WorldSpec.

Import Dispatch World Host DispatchSpec.

(** The launch of rank [r] in a dispatch of [E] experts over [R] ranks with
    capacity [S], both phases in one call. *)
Definition launch_ok (E R S r : Z) (l : launch) : bool :=
  (a_rank (l_args l) =? r)
  && (a_num_experts (l_args l) =? E)
  && (a_num_ranks (l_args l) =? R)
  && (a_num_max_dispatch_tokens_per_rank (l_args l) =? S)
  && (a_phases (l_args l) =? 3).

Definition launches_ok (E R S : Z) (ls : list launch) : bool :=
  (Z.of_nat (length ls) =? R)
  && forallb (fun rl => launch_ok E R S rl.1 rl.2) (zip (seqZ 0 R) ls).

(** The buffers of the slot protocol are zeroed before the dispatch. *)
Definition clean (m : memory) : Prop :=
  zeroed (atomic_counter_per_expert m)
  /\ zeroed (rdma_recv_count m)
  /\ zeroed (packed_recv_count m).

(** The values the atomic adds of [ops] add to cell [i] of the count
    buffer of rank [d], in order. *)
Definition contribs (d i : Z) (ops : list net_op) : list Z :=
  omap (fun op =>
          match op with
          | AddCount d' i' v => if decide (d' = d /\ i' = i) then Some v else None
          | PutMessage _ _ _ => None
          end) ops.

(** The traffic of every (expert, rank) pair, counted as the token-drop
    detector counts it, fits in the capacity [S]. *)
Definition traffic_fits (NUM_WORKSPACE_BYTES : Z) (SWITCH_HIDDEN : Z -> bool)
    (S : Z) (ls : list launch) : bool :=
  forallb (fun l =>
             match launch_params NUM_WORKSPACE_BYTES SWITCH_HIDDEN l with
             | Ok P => forallb (fun e => expected_count P (l_inputs l) e <=? S)
                               (seqZ 0 (num_experts P))
             | Fatal _ => true
             end) ls.

End WorldSpec.

(** ** Single-precision and bfloat16 arithmetic *)

Module F32.

(** IEEE 754 binary32, round to nearest even, after the specification of
    floating-point numbers of the standard library. *)
Definition prec : Z := 24.
Definition emax : Z := 128.

Definition zero : spec_float := S754_zero false.
Definition add : spec_float -> spec_float -> spec_float := SFadd prec emax.
Definition mul : spec_float -> spec_float -> spec_float := SFmul prec emax.

(** [static_cast<nv_bfloat16>(float)]: rounding to 8 bits of precision.
    [static_cast<float>(nv_bfloat16)] is exact, the identity on values. *)
Definition to_bf16 (v : spec_float) : spec_float :=
  match v with
  | S754_finite s m e => binary_round 8 emax s m e
  | _ => v
  end.

Definition is_zero (v : spec_float) : bool :=
  match v with S754_zero _ => true | _ => false end.

(** Neither an infinity nor a NaN. *)
Definition is_finite (v : spec_float) : bool :=
  match v with S754_zero _ | S754_finite _ _ _ => true | _ => false end.

Definition ldf (m : gmap Z spec_float) (i : Z) : spec_float :=
  default zero (m !! i).

(** A sequence of stores. *)
Definition store_all (writes : list (Z * spec_float)) (m : gmap Z spec_float)
  : gmap Z spec_float :=
  foldl (fun m iv => <[iv.1 := iv.2]> m) m writes.

End F32.

(** ** The receive-and-reduce part of the combine kernel (lines 1246-1525) *)

Module Combine.

Import F32.

Definition kNumElemsPerInt4 : Z := 8.

(** The template argument of the kernel; the launch wrapper instantiates
    [combine<hidden, 9>]. *)
Definition kNumMaxTopk : Z := 9.

Record params : Type := {
  num_combined_tokens : Z;
  hidden : Z;
  num_topk : Z;
  num_max_dispatch_tokens_per_rank : Z;
  num_experts : Z;
  rank : Z;
  num_ranks : Z;
  phases : Z;
  gridDim : Z;      (* num_sms *)
  blockDim : Z      (* num_threads *)
}.

(** [x] is the buffer of expert outputs in the packed layout of dispatch,
    one bfloat16 per cell; [layout_range] may be a null pointer. *)
Record inputs : Type := {
  x : gmap Z spec_float;
  topk_idx : buffer;
  topk_weights : gmap Z spec_float;
  src_info : buffer;
  layout_range : option buffer
}.

Record memory : Type := {
  combined_x : gmap Z spec_float;       (* bfloat16 cells *)
  fp32_workspace : gmap Z spec_float    (* float cells *)
}.

Inductive event : Type :=
| EvCorrupted (safe_num_topk : Z)   (* the printf block of lines 1255-1264 *)
| EvGridSync.                       (* cg::this_grid().sync() *)

Section Kernel.

Variable P : params.
Variable I : inputs.

Definition num_local_experts : Z := num_experts P `quot` num_ranks P.

(** Line 940. *)
Definition is_pure_ep_mode : bool :=
  num_ranks P =? num_experts P `quot` num_local_experts.

(** Lines 949-950. *)
Definition actual_num_int4_per_data : Z := (hidden P * 2) `quot` 16.

Definition elements_per_token : Z := actual_num_int4_per_data * kNumElemsPerInt4.

(** Line 1138. *)
Definition skip_recv_phase : bool :=
  Z.land (phases P) LOW_LATENCY_RECV_PHASE =? 0.

(** The corruption guard (lines 1252-1268): the value of [safe_num_topk]
    after it, and whether the violation is logged. *)
Definition validate_num_topk (safe_num_topk : Z) : Z * bool :=
  let is_corrupted := (safe_num_topk <=? 0) || (safe_num_topk >? 32) in
  (if is_corrupted then 1 else safe_num_topk, is_corrupted).

(** The eight bfloat16 of the [int4] at index [int4_index] of [x]. *)
Definition load_x_vec (int4_index : Z) : list spec_float :=
  (fun j => ldf (x I) (int4_index * kNumElemsPerInt4 + j))
    <$> seqZ 0 kNumElemsPerInt4.

Definition zero_vec : list spec_float :=
  replicate (Z.to_nat kNumElemsPerInt4) zero.

(** Lines 1353-1356. *)
Definition accumulate (combined_values x_bf16 : list spec_float)
    (weight : spec_float) : list spec_float :=
  zip_with (fun c v => add c (mul v weight)) combined_values x_bf16.

(** Lines 1345-1351: the row of the slot, with the bound on the offset
    into the buffer (a [size_t]). *)
Definition load_slot (src_local_expert_idx from_rank packed_slot_idx
    int4_idx : Z) : list spec_float :=
  let S := num_max_dispatch_tokens_per_rank P in
  let buffer_offset :=
    src_local_expert_idx * num_ranks P * S * actual_num_int4_per_data
    + (from_rank * S + packed_slot_idx) * actual_num_int4_per_data
    + int4_idx in
  let max_buffer_size :=
    num_local_experts * num_ranks P * S * actual_num_int4_per_data in
  if (buffer_offset <? 0) || (buffer_offset >=? max_buffer_size)
  then zero_vec else load_x_vec buffer_offset.

(** The slot loop of lines 1335-1359 with its [continue]s and [break]. *)
Fixpoint scan_slots (token_idx int4_idx src_local_expert_idx from_rank
    offset_in_packed : Z) (weight : spec_float) (slots : list Z)
    (combined_values : list spec_float) : list spec_float :=
  match slots with
  | [] => combined_values
  | slot :: slots' =>
      let S := num_max_dispatch_tokens_per_rank P in
      let packed_slot_idx := offset_in_packed + slot in
      if packed_slot_idx >=? S
      then scan_slots token_idx int4_idx src_local_expert_idx from_rank
                      offset_in_packed weight slots' combined_values
      else
        let src_token_id :=
          ld (src_info I)
             (src_local_expert_idx * num_ranks P * S + from_rank * S
              + packed_slot_idx) in
        if negb (src_token_id =? token_idx)
        then scan_slots token_idx int4_idx src_local_expert_idx from_rank
                        offset_in_packed weight slots' combined_values
        else accumulate combined_values
               (load_slot src_local_expert_idx from_rank packed_slot_idx
                          int4_idx)
               weight
  end.

(** Body of the loop over [from_rank] (lines 1331-1360). *)
Definition scan_rank (layout : buffer) (token_idx int4_idx
    src_local_expert_idx : Z) (weight : spec_float)
    (combined_values : list spec_float) (from_rank : Z) : list spec_float :=
  let '(num_tokens_from_rank, offset_in_packed) :=
    unpack2 (ld layout (src_local_expert_idx * num_ranks P + from_rank)) in
  scan_slots token_idx int4_idx src_local_expert_idx from_rank
             offset_in_packed weight (seqZ 0 num_tokens_from_rank)
             combined_values.

(** Body of the loop over the top-k entries (lines 1319-1362). *)
Definition accumulate_entry (safe_num_topk token_idx int4_idx : Z)
    (combined_values : list spec_float) (i : Z) : list spec_float :=
  let src_expert_idx_local :=
    static_cast_int (ld (topk_idx I) (token_idx * safe_num_topk + i)) in
  let weight := ldf (topk_weights I) (token_idx * safe_num_topk + i) in
  if src_expert_idx_local <? 0 then combined_values
  else
    let src_rank_local := src_expert_idx_local `quot` num_local_experts in
    let src_local_expert_idx := src_expert_idx_local `rem` num_local_experts in
    match layout_range I with
    | Some layout =>
        if src_rank_local =? rank P then
          foldl (scan_rank layout token_idx int4_idx src_local_expert_idx weight)
                combined_values (seqZ 0 (num_ranks P))
        else combined_values
    | None => combined_values
    end.

(** The [combined_values] of one [int4] chunk of one token
    (lines 1316-1362). *)
Definition combine_chunk (safe_num_topk token_idx int4_idx : Z)
  : list spec_float :=
  foldl (accumulate_entry safe_num_topk token_idx int4_idx) zero_vec
        (seqZ 0 safe_num_topk).

(** The stores of lines 1364-1390 for one chunk: into [fp32_workspace] in
    Pure EP mode, into [combined_x] otherwise. *)
Definition chunk_writes (token_idx int4_idx : Z)
    (combined_values : list spec_float) : list (Z * spec_float) :=
  if skip_recv_phase then []
  else if token_idx <? num_combined_tokens P then
    if is_pure_ep_mode then
      (fun jv => (token_idx * elements_per_token
                  + (int4_idx * kNumElemsPerInt4 + jv.1), jv.2))
        <$> zip (seqZ 0 kNumElemsPerInt4) combined_values
    else
      (fun jv => ((token_idx * actual_num_int4_per_data + int4_idx)
                  * kNumElemsPerInt4 + jv.1, to_bf16 jv.2))
        <$> zip (seqZ 0 kNumElemsPerInt4) combined_values
  else [].

(** The stores of the reduction loops of all threads of all blocks
    (lines 1272-1397). *)
Definition partial_writes (safe_num_topk : Z) : list (Z * spec_float) :=
  sm_id ← seqZ 0 (gridDim P);
  thread_id ← seqZ 0 (blockDim P);
  token_idx ← strided sm_id (num_combined_tokens P) (gridDim P);
  int4_idx ← strided thread_id actual_num_int4_per_data (blockDim P);
  chunk_writes token_idx int4_idx
               (combine_chunk safe_num_topk token_idx int4_idx).

Definition combine_partial (safe_num_topk : Z) (m : memory) : memory :=
  if is_pure_ep_mode then
    {| combined_x := combined_x m;
       fp32_workspace :=
         store_all (partial_writes safe_num_topk) (fp32_workspace m) |}
  else
    {| combined_x := store_all (partial_writes safe_num_topk) (combined_x m);
       fp32_workspace := fp32_workspace m |}.

(** Lines 1406-1416: block 0 of a rank that skipped its receive phase
    zeroes the workspace. *)
Definition zero_writes : list (Z * spec_float) :=
  token_idx_zero ← seqZ 0 (num_combined_tokens P);
  thread_id ← seqZ 0 (blockDim P);
  e ← strided thread_id elements_per_token (blockDim P);
  [(token_idx_zero * elements_per_token + e, zero)].

(** The workspace a rank enters the collective with. *)
Definition workspace_before_reduce (safe_num_topk : Z) (m : memory)
  : gmap Z spec_float :=
  let m := combine_partial (validate_num_topk safe_num_topk).1 m in
  if skip_recv_phase then store_all zero_writes (fp32_workspace m)
  else fp32_workspace m.

(** [nvshmemx_float_sum_reduce_block(NVSHMEM_TEAM_WORLD, dest, source, n)]
    with [dest = source] is an NVSHMEM collective: every cell of the range
    receives the sum of that cell over all ranks.  The ranks are summed
    in the order own, then [peers]. *)
Definition sum_reduce (peers : list (gmap Z spec_float)) (base count : Z)
    (ws : gmap Z spec_float) : gmap Z spec_float :=
  foldl (fun ws i =>
           <[base + i :=
               foldl (fun acc peer => add acc (ldf peer (base + i)))
                     (ldf ws (base + i)) peers]> ws)
        ws (seqZ 0 count).

(** Lines 1450-1492: block 0 reduces every token chunk by chunk. *)
Definition reduce_all (peers : list (gmap Z spec_float))
    (ws : gmap Z spec_float) : gmap Z spec_float :=
  let chunk_size := 256 in
  let num_chunks := (elements_per_token + chunk_size - 1) `quot` chunk_size in
  foldl (fun ws token_idx =>
    foldl (fun ws chunk_idx =>
             let chunk_start := chunk_idx * chunk_size in
             let chunk_end :=
               Z.min (chunk_start + chunk_size) elements_per_token in
             let chunk_elems := chunk_end - chunk_start in
             sum_reduce peers (token_idx * elements_per_token + chunk_start)
                        chunk_elems ws)
          ws (seqZ 0 num_chunks))
    ws (seqZ 0 (num_combined_tokens P)).

(** Lines 1498-1521: all blocks convert the reduced workspace. *)
Definition convert_writes (ws : gmap Z spec_float) : list (Z * spec_float) :=
  let tokens_per_block :=
    (num_combined_tokens P + gridDim P - 1) `quot` gridDim P in
  let elems_per_thread :=
    (elements_per_token + blockDim P - 1) `quot` blockDim P in
  block ← seqZ 0 (gridDim P);
  let start_token := block * tokens_per_block in
  let end_token := Z.min (start_token + tokens_per_block) (num_combined_tokens P) in
  token_idx ← seqZ start_token (end_token - start_token);
  thread_id ← seqZ 0 (blockDim P);
  let thread_start := thread_id * elems_per_thread in
  let thread_end := Z.min (thread_start + elems_per_thread) elements_per_token in
  elem_idx ← seqZ thread_start (thread_end - thread_start);
  [(token_idx * elements_per_token + elem_idx,
    to_bf16 (ldf ws (token_idx * elements_per_token + elem_idx)))].

(** The kernel from the assertions that precede the corruption guard to
    its end, for the value [safe_num_topk] read back from shared memory
    and the workspaces [peers] the other ranks enter the collective with.
    The register arrays [reg_topk_idx] and [reg_topk_weights] have
    [kNumMaxTopk] cells and the loop of lines 1308-1311 stores to the cells
    below [safe_num_topk]: beyond [kNumMaxTopk] the stores leave the arrays,
    which is the fault [OutOfBounds] here.  The workspace pointer is taken
    to be non-null, and the zero-fill of lines 1439-1445 runs over an empty
    range of tokens. *)
Definition combine_reduce (safe_num_topk : Z)
    (peers : list (gmap Z spec_float)) (m : memory)
  : result (memory * list event) :=
  if negb ((hidden P `rem` kNumElemsPerInt4 =? 0)
           && ((hidden P * 2) `rem` 16 =? 0))
  then Fatal DeviceAssert                                (* lines 953-954 *)
  else if negb (num_topk P <=? 32) then Fatal DeviceAssert
  else if negb (actual_num_int4_per_data <=? blockDim P) then Fatal DeviceAssert
  else
    let '(safe_num_topk', is_corrupted) := validate_num_topk safe_num_topk in
    if safe_num_topk' >? kNumMaxTopk then Fatal OutOfBounds
    else
    let evs := if is_corrupted then [EvCorrupted safe_num_topk] else [] in
    let m := combine_partial safe_num_topk' m in
    if is_pure_ep_mode then
      let evs := evs ++ [EvGridSync] in
      let ws :=
        if skip_recv_phase then store_all zero_writes (fp32_workspace m)
        else fp32_workspace m in
      let evs := evs ++ [EvGridSync] in
      if negb ((elements_per_token >? 0) && (num_combined_tokens P >? 0))
      then Fatal DeviceAssert
      else
        let ws := reduce_all peers ws in
        let evs := evs ++ [EvGridSync] in
        let cx := store_all (convert_writes ws) (combined_x m) in
        let evs := evs ++ [EvGridSync] in
        Ok ({| combined_x := cx; fp32_workspace := ws |}, evs)
    else Ok (m, evs).

End Kernel.

(** The launch of one rank. *)
Record launch : Type := {
  l_params : params;
  l_inputs : inputs;
  l_memory : memory
}.

(** That part of the kernel on all ranks, [safe_num_topk] holding
    [num_topk]: rank [r] reduces against the workspaces of the other
    ranks. *)
Definition combine_all (ls : list launch) : list (result (memory * list event)) :=
  let workspaces :=
    (fun l => workspace_before_reduce (l_params l) (l_inputs l)
                (num_topk (l_params l)) (l_memory l)) <$> ls in
  imap (fun r l =>
          combine_reduce (l_params l) (l_inputs l) (num_topk (l_params l))
                         (delete r workspaces) (l_memory l))
       ls.

End Combine.

(** ** The launch wrapper of combine (lines 1611-1675) *)

Module CombineHost.

Import Combine.

Record combine_args : Type := {
  c_num_combined_tokens : Z;
  c_hidden : Z;
  c_num_max_dispatch_tokens_per_rank : Z;
  c_num_topk : Z;
  c_num_experts : Z;
  c_rank : Z;
  c_num_ranks : Z;
  c_num_device_sms : Z;
  c_phases : Z
}.

Section Launch.

(** [NUM_WORKSPACE_BYTES] comes from [configs.cuh]. *)
Variable NUM_WORKSPACE_BYTES : Z.

(** The kernel arguments and launch configuration of the wrapper; [None]
    when one of its [EP_HOST_ASSERT]s fails.  The buffers are taken to be
    non-null and [SWITCH_HIDDEN] of [launch.cuh] to have a case for
    [hidden]. *)
Definition combine (a : combine_args) : option params :=
  if negb (c_num_combined_tokens a >? 0) then None
  else if negb ((c_hidden a >? 0) && (c_hidden a `rem` 128 =? 0)) then None
  else if negb ((c_num_experts a >? 0)
                && (c_num_experts a `rem` c_num_ranks a =? 0)) then None
  else if negb (c_num_ranks a >? 0) then None
  else if negb ((c_num_topk a >? 0) && (c_num_topk a <=? 9)) then None
  else
    let grid_size := c_num_experts a in
    let num_warp_groups := ceil_div (c_num_experts a) (c_num_device_sms a) in
    let num_warps_per_group := Z.min (32 `quot` num_warp_groups) 32 in
    if negb ((num_warp_groups >? 0) && (num_warps_per_group >? 0)) then None
    else
      let num_warps := Z.min (num_warp_groups * num_warps_per_group) 32 in
      if negb (4 <=? NUM_WORKSPACE_BYTES) then None
      else
        let required_threads_int4 := c_hidden a `quot` 8 in
        let threads_per_block :=
          if num_warps * 32 >? required_threads_int4 then num_warps * 32
          else required_threads_int4 in
        Some {| num_combined_tokens := c_num_combined_tokens a;
                hidden := c_hidden a;
                num_topk := c_num_topk a;
                num_max_dispatch_tokens_per_rank :=
                  c_num_max_dispatch_tokens_per_rank a;
                num_experts := c_num_experts a;
                rank := c_rank a;
                num_ranks := c_num_ranks a;
                phases := c_phases a;
                gridDim := grid_size;
                blockDim := threads_per_block |}.

End Launch.

End CombineHost.

(** ** The local partial of combine, as the specification words it *)

Module CombineSpec.

Import F32 Combine.

Section Spec.

Variable P : params.
Variable I : inputs.
Variable layout : buffer.

(** The first slot of the range of [(l, from_rank)] whose [src_info]
    entry is the token. *)
Definition first_match (l token_idx from_rank : Z) : option Z :=
  let S := num_max_dispatch_tokens_per_rank P in
  let '(num, off) := unpack2 (ld layout (l * num_ranks P + from_rank)) in
  head (omap (fun slot =>
                let packed_slot_idx := off + slot in
                if packed_slot_idx >=? S then None
                else if ld (src_info I)
                           (l * num_ranks P * S + from_rank * S + packed_slot_idx)
                        =? token_idx
                then Some packed_slot_idx else None)
             (seqZ 0 num)).

(** The received slots of local expert [l] that hold the token, one per
    source rank at most, in the order of the source ranks. *)
Definition matching_slots (l token_idx : Z) : list (Z * Z) :=
  omap (fun from_rank =>
          (fun packed_slot_idx => (from_rank, packed_slot_idx))
            <$> first_match l token_idx from_rank)
       (seqZ 0 (num_ranks P)).

(** The received slot whose [src_info] entry is the token. *)
Definition find_slot (l token_idx : Z) : option (Z * Z) :=
  head (matching_slots l token_idx).

(** The payload chunk stored in a slot. *)
Definition payload (l from_rank packed_slot_idx int4_idx : Z) : list spec_float :=
  let S := num_max_dispatch_tokens_per_rank P in
  load_x_vec I
    ((l * num_ranks P * S + from_rank * S + packed_slot_idx)
     * actual_num_int4_per_data P + int4_idx).

(** The top-k entries of a token with their weights. *)
Definition topk_entries (safe_num_topk token_idx : Z) : list (Z * spec_float) :=
  (fun i => (static_cast_int (ld (topk_idx I) (token_idx * safe_num_topk + i)),
             ldf (topk_weights I) (token_idx * safe_num_topk + i)))
    <$> seqZ 0 safe_num_topk.

(** An entry that is not padding and whose expert this rank owns. *)
Definition is_local (ew : Z * spec_float) : bool :=
  (0 <=? ew.1) && (ew.1 `quot` num_local_experts P =? rank P).

(** The sum, over the non-padding entries of local experts in top-k
    order, of the weight times the payload of the slot that holds the
    token, starting from zero. *)
Definition local_partial (safe_num_topk token_idx int4_idx : Z)
  : list spec_float :=
  foldl (fun acc ew =>
           match find_slot (ew.1 `rem` num_local_experts P) token_idx with
           | Some (from_rank, packed_slot_idx) =>
               accumulate acc
                 (payload (ew.1 `rem` num_local_experts P) from_rank
                          packed_slot_idx int4_idx)
                 ew.2
           | None => acc
           end)
        zero_vec
        (filter (fun ew => is_local ew = true)
                (topk_entries safe_num_topk token_idx)).

(** The sum, over the non-padding entries of local experts in top-k
    order and, for each of them, over the source ranks in their order, of
    the weight times the payload of the first slot of the range of the
    source rank that holds the token, starting from zero. *)
Definition local_sum (safe_num_topk token_idx int4_idx : Z)
  : list spec_float :=
  foldl (fun acc ew =>
           foldl (fun acc slot =>
                    accumulate acc
                      (payload (ew.1 `rem` num_local_experts P) slot.1 slot.2
                               int4_idx)
                      ew.2)
                 acc
                 (matching_slots (ew.1 `rem` num_local_experts P) token_idx))
        zero_vec
        (filter (fun ew => is_local ew = true)
                (topk_entries safe_num_topk token_idx)).

(** For every local expert among the entries of the token, at most one
    source rank holds the token. *)
Definition unique_slots (safe_num_topk token_idx : Z) : bool :=
  forallb (fun ew =>
             (length (matching_slots (ew.1 `rem` num_local_experts P) token_idx)
              <=? 1)%nat)
          (filter (fun ew => is_local ew = true)
                  (topk_entries safe_num_topk token_idx)).

(** The ranges of the layout start at non-negative offsets. *)
Definition layout_offsets_ok : bool :=
  forallb (fun l =>
             forallb (fun from_rank =>
                        0 <=? (unpack2 (ld layout (l * num_ranks P + from_rank))).2)
                     (seqZ 0 (num_ranks P)))
          (seqZ 0 (num_local_experts P)).

End Spec.

(** The cells of the [n] tokens of [H] elements hold zero. *)
Definition zero_on (n H : Z) (m : gmap Z spec_float) : Prop :=
  forall t elem, 0 <= t < n -> 0 <= elem < H -> ldf m (t * H + elem) = zero.

(** A launch of the combine of [n] tokens of [H] elements for [E] experts
    on [R] ranks, with a non-empty grid of non-empty blocks and top-k
    entries that fit the register arrays. *)
Definition same_shape (n H E R : Z) (l : launch) : bool :=
  (num_combined_tokens (l_params l) =? n)
  && (hidden (l_params l) =? H)
  && (num_experts (l_params l) =? E)
  && (num_ranks (l_params l) =? R)
  && (0 <? gridDim (l_params l))
  && (0 <? blockDim (l_params l))
  && (num_topk (l_params l) <=? kNumMaxTopk).

(** Element [i] of [combined_x] after a run that completed. *)
Definition output_cell (run : option (result (memory * list event))) (i : Z)
  : option spec_float :=
  match run with
  | Some (Ok (out, _)) => Some (ldf (combined_x out) i)
  | _ => None
  end.

(** Every weight is zero, of either sign. *)
Definition zero_weights (I : inputs) : Prop :=
  forall i, is_zero (ldf (topk_weights I) i) = true.

(** Every expert output is finite. *)
Definition finite_outputs (I : inputs) : Prop :=
  forall i, is_finite (ldf (x I) i) = true.

End CombineSpec.

(** ** Concrete launches *)

Module Scenarios.

Import F32.

(** Scenario S4 of the specification: [R = 4], [E = 4], [L = 1], [K = 1],
    token 5 picks expert 2. *)
Definition s4_params : Dispatch.params :=
  {| Dispatch.num_tokens := 8;
     Dispatch.num_max_dispatch_tokens_per_rank := 8;
     Dispatch.num_topk := 1;
     Dispatch.num_experts := 4;
     Dispatch.rank := 0;
     Dispatch.num_ranks := 4;
     Dispatch.num_warp_groups := 1;
     Dispatch.num_warps_per_group := 32;
     Dispatch.phases := 3;
     Dispatch.kUseFP8 := false;
     Dispatch.kUseUE8M0 := false;
     Dispatch.kHidden := 7168 |}.

Definition s4_inputs : Dispatch.inputs :=
  {| Dispatch.topk_idx := {[5 := 2]};
     Dispatch.staged := fun t => ([t], []);
     Dispatch.num_recv_tokens_per_rank := ∅;
     Dispatch.extract_required_scale_format := fun v => v |}.

Definition fresh_state : Dispatch.send_state :=
  {| Dispatch.ss_mem := World.zero_memory;
     Dispatch.ss_log := [];
     Dispatch.ss_out := [] |}.

(** A memory whose slot counters and count cells hold the given values. *)
Definition memory_with (counters counts : buffer) : Dispatch.memory :=
  Dispatch.set_rdma_recv_count
    (Dispatch.set_atomic_counter_per_expert World.zero_memory counters) counts.

Definition state_with (counters : buffer) : Dispatch.send_state :=
  {| Dispatch.ss_mem := memory_with counters ∅;
     Dispatch.ss_log := [];
     Dispatch.ss_out := [] |}.

(** Rank 1 of two ranks with four experts, and the owner of expert 1. *)
Definition handshake_sender : Dispatch.params :=
  {| Dispatch.num_tokens := 4;
     Dispatch.num_max_dispatch_tokens_per_rank := 8;
     Dispatch.num_topk := 1;
     Dispatch.num_experts := 4;
     Dispatch.rank := 1;
     Dispatch.num_ranks := 2;
     Dispatch.num_warp_groups := 1;
     Dispatch.num_warps_per_group := 32;
     Dispatch.phases := 3;
     Dispatch.kUseFP8 := false;
     Dispatch.kUseUE8M0 := false;
     Dispatch.kHidden := 7168 |}.

Definition handshake_owner : Dispatch.params :=
  DispatchSpec.with_rank handshake_sender 0.

(** Two ranks, one expert each, two tokens: token 0 goes to expert 1 and
    token 1 to expert 0. *)
Definition pair_args (r : Z) : Host.dispatch_args :=
  {| Host.a_num_tokens := 2;
     Host.a_hidden := 7168;
     Host.a_num_max_dispatch_tokens_per_rank := 4;
     Host.a_num_topk := 1;
     Host.a_num_experts := 2;
     Host.a_rank := r;
     Host.a_num_ranks := 2;
     Host.a_use_fp8 := false;
     Host.a_round_scale := false;
     Host.a_use_ue8m0 := false;
     Host.a_num_device_sms := 132;
     Host.a_phases := 3 |}.

Definition pair_inputs : Dispatch.inputs :=
  {| Dispatch.topk_idx := <[0 := 1]> {[1 := 0]};
     Dispatch.staged := fun t => ([t], []);
     Dispatch.num_recv_tokens_per_rank := <[0 := 1]> {[1 := 1]};
     Dispatch.extract_required_scale_format := fun v => v |}.

Definition pair_launches : list World.launch :=
  [ {| World.l_args := pair_args 0; World.l_inputs := pair_inputs |};
    {| World.l_args := pair_args 1; World.l_inputs := pair_inputs |} ].

(** One rank with one expert and one token routed to it, launched with
    [num_recv_tokens_per_rank[0] = 0]. *)
Definition solo_args : Host.dispatch_args :=
  {| Host.a_num_tokens := 1;
     Host.a_hidden := 7168;
     Host.a_num_max_dispatch_tokens_per_rank := 4;
     Host.a_num_topk := 1;
     Host.a_num_experts := 1;
     Host.a_rank := 0;
     Host.a_num_ranks := 1;
     Host.a_use_fp8 := false;
     Host.a_round_scale := false;
     Host.a_use_ue8m0 := false;
     Host.a_num_device_sms := 132;
     Host.a_phases := 3 |}.

Definition solo_inputs : Dispatch.inputs :=
  {| Dispatch.topk_idx := {[0 := 0]};
     Dispatch.staged := fun t => ([t], []);
     Dispatch.num_recv_tokens_per_rank := {[0 := 0]};
     Dispatch.extract_required_scale_format := fun v => v |}.

Definition solo_launches : list World.launch :=
  [ {| World.l_args := solo_args; World.l_inputs := solo_inputs |} ].

(** A build whose switch over [hidden] has the case 7168. *)
Definition switch_7168 (hidden : Z) : bool := hidden =? 7168.

(** The floats 1, 2 and 4. *)
Definition one : spec_float := S754_finite false 8388608 (-23).
Definition two : spec_float := S754_finite false 8388608 (-22).
Definition four : spec_float := S754_finite false 8388608 (-21).

(** A combine of one token of 7168 elements with two top-k entries, for
    two experts on [R] ranks: the call of the wrapper and the launch it
    makes. *)
Definition combine_call (r R : Z) : CombineHost.combine_args :=
  {| CombineHost.c_num_combined_tokens := 1;
     CombineHost.c_hidden := 7168;
     CombineHost.c_num_max_dispatch_tokens_per_rank := 2;
     CombineHost.c_num_topk := 2;
     CombineHost.c_num_experts := 2;
     CombineHost.c_rank := r;
     CombineHost.c_num_ranks := R;
     CombineHost.c_num_device_sms := 132;
     CombineHost.c_phases := 3 |}.

Definition combine_params (r R : Z) : Combine.params :=
  {| Combine.num_combined_tokens := 1;
     Combine.hidden := 7168;
     Combine.num_topk := 2;
     Combine.num_max_dispatch_tokens_per_rank := 2;
     Combine.num_experts := 2;
     Combine.rank := r;
     Combine.num_ranks := R;
     Combine.phases := 3;
     Combine.gridDim := 2;
     Combine.blockDim := 1024 |}.

(** Eight cells from [base] on that hold [v]. *)
Definition row (base : Z) (v : spec_float) (m : gmap Z spec_float)
  : gmap Z spec_float :=
  store_all ((fun j => (base + j, v)) <$> seqZ 0 8) m.

Definition combine_layout : buffer := <[0 := pack2 1 0]> {[1 := pack2 1 0]}.

(** Token 0 sits in slot 0 of local experts 0 and 1; the first eight
    elements of its payload are [v0] for local expert 0 and [v1] for local
    expert 1 (whose rows start at element [2 * 7168] on one rank), and the
    weights of its two entries are [w0] and [w1]. *)
Definition combine_inputs (v0 v1 w0 w1 : spec_float) : Combine.inputs :=
  {| Combine.x := row 0 v0 (row 14336 v1 ∅);
     Combine.topk_idx := <[0 := 0]> {[1 := 1]};
     Combine.topk_weights := <[0 := w0]> {[1 := w1]};
     Combine.src_info := <[0 := 0]> {[2 := 0]};
     Combine.layout_range := Some combine_layout |}.

Definition stale_memory : Combine.memory :=
  {| Combine.combined_x := row 0 one ∅; Combine.fp32_workspace := row 0 two ∅ |}.

Definition combine_launch (r R : Z) (v0 v1 w0 w1 : spec_float) : Combine.launch :=
  {| Combine.l_params := combine_params r R;
     Combine.l_inputs := combine_inputs v0 v1 w0 w1;
     Combine.l_memory := stale_memory |}.

End Scenarios.

(** ** The buffer cleaners (lines 27-130) and the start of dispatch *)

Module Clean.

Import Sync.

(** [kNumThreads] of the two launch wrappers; the grid has one block. *)
Definition kNumThreads : Z := 256.

(** A pointer argument that may be null. *)
Definition is_null {A : Type} (p : option A) : bool :=
  match p with Some _ => false | None => true end.

(** [for (int i = thread_id; i < num_clean_int; i += kNumThreads)
       clean[i] = 0;] by every thread of the block. *)
Definition zero_loop (num_clean_int : Z) (clean : buffer) : buffer :=
  foldl (fun b thread_id =>
           foldl (fun b i => <[i := 0]> b) b
                 (strided thread_id num_clean_int kNumThreads))
        clean (seqZ 0 kNumThreads).

(** The kernel [clean_low_latency_buffer] (lines 27-48). *)
Definition clean_low_latency_buffer_kernel
    (clean_0 : option buffer) (num_clean_int_0 : Z)
    (clean_1 : option buffer) (num_clean_int_1 : Z)
  : option buffer * option buffer :=
  (zero_loop num_clean_int_0 <$> clean_0, zero_loop num_clean_int_1 <$> clean_1).

(** The wrapper [clean_low_latency_buffer] (lines 95-109). *)
Definition clean_low_latency_buffer
    (clean_0 : option buffer) (num_clean_int_0 : Z)
    (clean_1 : option buffer) (num_clean_int_1 : Z)
  : option buffer * option buffer :=
  if (is_null clean_0 || (num_clean_int_0 =? 0))
     && (is_null clean_1 || (num_clean_int_1 =? 0))
  then (clean_0, clean_1)
  else clean_low_latency_buffer_kernel clean_0 num_clean_int_0
                                       clean_1 num_clean_int_1.

(** Lines 76-87: the stores to one structure; [combined_x_ptr] is not among
    them. *)
Definition clear_counters (s : ExpertSyncInfo) : ExpertSyncInfo :=
  {| expected_tokens_per_rank :=
       foldl (fun a rank => <[Z.to_nat rank := 0]> a)
             (expected_tokens_per_rank s) (seqZ 0 8);
     received_tokens_per_rank :=
       foldl (fun a rank => <[Z.to_nat rank := 0]> a)
             (received_tokens_per_rank s) (seqZ 0 8);
     total_expected_tokens := 0;
     total_received_tokens := 0;
     completed_ranks := 0;
     expert_processing_complete := 0;
     combined_x_ptr := combined_x_ptr s;
     padding := foldl (fun a i => <[Z.to_nat i := 0]> a) (padding s) (seqZ 0 1)
  |}.

(** Lines 74-89, over the array of structures. *)
Definition clean_sync (num_experts : Z) (info : list ExpertSyncInfo)
  : list ExpertSyncInfo :=
  foldl (fun l thread_id =>
           foldl (fun l expert_idx => alter clear_counters (Z.to_nat expert_idx) l)
                 l (strided thread_id num_experts kNumThreads))
        info (seqZ 0 kNumThreads).

(** The kernel [clean_low_latency_buffer_with_sync] (lines 50-93): [None]
    when [num_experts] exceeds the array of structures it is given. *)
Definition clean_low_latency_buffer_with_sync_kernel
    (clean_0 : option buffer) (num_clean_int_0 : Z)
    (clean_1 : option buffer) (num_clean_int_1 : Z)
    (expert_sync_info : option (list ExpertSyncInfo)) (num_experts : Z)
  : option (option buffer * option buffer * option (list ExpertSyncInfo)) :=
  let c0 := zero_loop num_clean_int_0 <$> clean_0 in
  let c1 := zero_loop num_clean_int_1 <$> clean_1 in
  match expert_sync_info with
  | Some info =>
      if Z.of_nat (length info) <? num_experts then None
      else Some (c0, c1, Some (clean_sync num_experts info))
  | None => Some (c0, c1, None)
  end.

(** The wrapper [clean_low_latency_buffer_with_sync] (lines 111-129). *)
Definition clean_low_latency_buffer_with_sync
    (clean_0 : option buffer) (num_clean_int_0 : Z)
    (clean_1 : option buffer) (num_clean_int_1 : Z)
    (expert_sync_info : option (list ExpertSyncInfo)) (num_experts : Z)
  : option (option buffer * option buffer * option (list ExpertSyncInfo)) :=
  if (is_null clean_0 || (num_clean_int_0 =? 0))
     && (is_null clean_1 || (num_clean_int_1 =? 0))
     && is_null expert_sync_info
  then Some (clean_0, clean_1, expert_sync_info)
  else clean_low_latency_buffer_with_sync_kernel
         clean_0 num_clean_int_0 clean_1 num_clean_int_1
         expert_sync_info num_experts.

(** Dispatch, lines 160-166: thread 0 of block 0 [memset]s the structure of
    every expert; [None] when [num_experts] exceeds the array. *)
Definition dispatch_init_sync (num_experts : Z)
    (expert_sync_info_buffer : option (list ExpertSyncInfo))
  : option (option (list ExpertSyncInfo)) :=
  match expert_sync_info_buffer with
  | Some info =>
      if Z.of_nat (length info) <? num_experts then None
      else Some (Some (foldl (fun l i => <[Z.to_nat i := zeroed]> l)
                             info (seqZ 0 num_experts)))
  | None => Some None
  end.

(** What a cleaner leaves of a buffer (spec side): the first [n] cells read
    as zero, the others as before; a null pointer stays null. *)
Definition cleaned (before : option buffer) (n : Z) (after : option buffer)
  : Prop :=
  match before, after with
  | Some b, Some b' =>
      forall i, ld b' i = if (0 <=? i) && (i <? n) then 0 else ld b i
  | None, None => True
  | _, _ => False
  end.

(** A structure with every counter at zero and the given pointer. *)
Definition idle_info (ptr : Z) : ExpertSyncInfo :=
  {| expected_tokens_per_rank := replicate 8 0;
     received_tokens_per_rank := replicate 8 0;
     total_expected_tokens := 0;
     total_received_tokens := 0;
     completed_ranks := 0;
     expert_processing_complete := 0;
     combined_x_ptr := ptr;
     padding := [0] |}.

(** The C structure: arrays of 8 and of 1 [int]. *)
Definition is_struct (s : ExpertSyncInfo) : Prop :=
  length (expected_tokens_per_rank s) = 8%nat
  /\ length (received_tokens_per_rank s) = 8%nat
  /\ length (padding s) = 1%nat.

End Clean.

(** ** The output of combine, element by element *)

Module CombineOut.

Import F32 Combine.

(** Lane [j] of a vector of eight. *)
Definition lane (v : list spec_float) (j : Z) : spec_float :=
  default zero (v !! Z.to_nat j).

(** What the reduction loop stores for a lane (lines 1364-1390): the float
    in Pure EP mode, its bfloat16 otherwise. *)
Definition stored (P : params) (v : spec_float) : spec_float :=
  if is_pure_ep_mode P then v else to_bf16 v.

(** What a launch brings to the collective for lane [j] of chunk [c] of
    token [t]: its local partial, or zero when it skips the receive
    phase. *)
Definition contribution (l : launch) (t c j : Z) : spec_float :=
  if skip_recv_phase (l_params l) then zero
  else
    lane (combine_chunk (l_params l) (l_inputs l)
            (validate_num_topk (num_topk (l_params l))).1 t c) j.

End CombineOut.

(** ** The send phase, the wait and the flag reset of combine
       (lines 972-1130, 1145-1226, 1527-1599) *)

Module CombineSend.

Import Sync Combine.

(** The kernel arguments the reduction does not use; [kHidden] is the
    template argument. *)
Record config : Type := {
  num_warp_groups : Z;
  num_warps_per_group : Z;
  zero_copy : bool;
  num_next_clean_int : Z;
  kHidden : Z
}.

(** The memory of a rank the three parts touch.  [expert_sync_info_buffer]
    may be a null pointer. *)
Record memory : Type := {
  next_clean : buffer;
  atomic_clean_flag : Z;
  rdma_recv_flag : buffer;
  expert_sync_info_buffer : option (list ExpertSyncInfo)
}.

(** Where the payload of a row is read from: [x], from an [int4] index on,
    or the send buffer, from a byte offset on. *)
Inductive payload : Type :=
| FromX (x_int4 : Z)
| FromSendBuffer (send_offset : Z).

(** The stores into the memory of another rank: the source index into the
    first [int] at byte [dst_offset] of its [rdma_recv_x], [num_bytes] of
    payload at byte [dst_offset], and the increment of the cell
    [local_expert_idx] of its [rdma_recv_flag]. *)
Inductive net_op : Type :=
| PutHeader (dst_rank dst_offset src_idx : Z)
| PutData (dst_rank dst_offset : Z) (data : payload) (num_bytes : Z)
| AddFlag (dst_rank local_expert_idx : Z).

(** The stores into the send buffer and the message of line 1026. *)
Inductive event : Type :=
| EvStageData (send_offset x_int4 num_int4 : Z)
| EvStageHeader (send_offset src_idx : Z)
| EvSlotOutOfBounds (token_idx offset slot_idx : Z).

Record send_state : Type := {
  s_mem : memory;
  s_out : list net_op;
  s_events : list event
}.

(** How a part of the kernel ends: it completes, an [EP_DEVICE_ASSERT]
    fails, a load or store leaves its object, or a wait loop spins on a
    cell that no thread changes any more. *)
Inductive status (A : Type) : Type :=
| Done (a : A)
| Trap
| Fault
| Hang.

Arguments Done {A} a.
Arguments Trap {A}.
Arguments Fault {A}.
Arguments Hang {A}.

#[global] Instance status_ret : MRet status := fun A a => Done a.
#[global] Instance status_bind : MBind status := fun A B k r =>
  match r with
  | Done a => k a
  | Trap => Trap
  | Fault => Fault
  | Hang => Hang
  end.

Fixpoint for_all {A S : Type} (l : list A) (body : A -> S -> status S) (s : S)
  : status S :=
  match l with
  | [] => Done s
  | a :: l' => s' ← body a s; for_all l' body s'
  end.

Definition set_flag (m : memory) (f : buffer) : memory :=
  {| next_clean := next_clean m;
     atomic_clean_flag := atomic_clean_flag m;
     rdma_recv_flag := f;
     expert_sync_info_buffer := expert_sync_info_buffer m |}.

Definition set_sync (m : memory) (s : option (list ExpertSyncInfo)) : memory :=
  {| next_clean := next_clean m;
     atomic_clean_flag := atomic_clean_flag m;
     rdma_recv_flag := rdma_recv_flag m;
     expert_sync_info_buffer := s |}.

Definition emit (st : send_state) (ops : list net_op) (evs : list event)
  : send_state :=
  {| s_mem := s_mem st;
     s_out := s_out st ++ ops;
     s_events := s_events st ++ evs |}.

Definition with_mem (st : send_state) (m : memory) : send_state :=
  {| s_mem := m; s_out := s_out st; s_events := s_events st |}.

(** [atomicAdd(&info.expert_processing_complete, 1)], line 1125. *)
Definition mark_complete (s : ExpertSyncInfo) : ExpertSyncInfo :=
  {| expected_tokens_per_rank := expected_tokens_per_rank s;
     received_tokens_per_rank := received_tokens_per_rank s;
     total_expected_tokens := total_expected_tokens s;
     total_received_tokens := total_received_tokens s;
     completed_ranks := completed_ranks s;
     expert_processing_complete := wrap32 (expert_processing_complete s + 1);
     combined_x_ptr := combined_x_ptr s;
     padding := padding s |}.

Section Kernel.

Variable P : params.
Variable C : config.
Variable I : inputs.

(** [nvshmemi_get_p2p_ptr(ptr, rank, dst_rank) != 0]: whether the memory of
    [dst_rank] is mapped into the address space of this rank.  The helper
    is declared outside this file. *)
Variable p2p : Z -> bool.

(** Lines 957-958. *)
Definition num_bytes_per_data : Z := kHidden C * 2.
Definition num_bytes_per_msg : Z := 16 + num_bytes_per_data.

(** The warps of a block (lines 907-910); the block is taken to consist of
    whole warps, and [num_warps_per_group] to be positive. *)
Definition warps : list Z := seqZ 0 (ceil_div (blockDim P) 32).
Definition warp_group_id (warp_id : Z) : Z :=
  warp_id `quot` num_warps_per_group C.
Definition sub_warp_id (warp_id : Z) : Z :=
  warp_id `rem` num_warps_per_group C.

(** Lines 977-986, for one warp of block 0. *)
Definition clean_next (warp_id : Z) (m : memory) : memory :=
  if (warp_group_id warp_id =? 0) && (sub_warp_id warp_id =? 0) then
    {| next_clean :=
         foldl (fun b i => <[i := 0]> b) (next_clean m)
               (lane_id ← seqZ 0 32;
                strided lane_id (num_next_clean_int C) 32);
       atomic_clean_flag := wrap32 (atomic_clean_flag m + num_experts P);
       rdma_recv_flag := rdma_recv_flag m;
       expert_sync_info_buffer := expert_sync_info_buffer m |}
  else m.

(** Body of the token loop (lines 1006-1070). *)
Definition send_token (dst_rank local_expert_idx offset token_idx : Z)
    (st : send_state) : send_state :=
  let S := num_max_dispatch_tokens_per_rank P in
  let x_int4 :=
    local_expert_idx * num_ranks P * S * actual_num_int4_per_data P
    + dst_rank * S * actual_num_int4_per_data P
    + token_idx * actual_num_int4_per_data P in
  let send_offset :=
    local_expert_idx * num_ranks P * S * num_bytes_per_data
    + dst_rank * S * num_bytes_per_data + token_idx * num_bytes_per_data in
  let src_idx :=
    ld (src_info I)
       (local_expert_idx * num_ranks P * S + dst_rank * S + token_idx) in
  let slot_idx := token_idx - offset in
  if (slot_idx <? 0) || (slot_idx >=? S)
  then emit st [] [EvSlotOutOfBounds token_idx offset slot_idx]
  else
    let dst_offset :=
      (local_expert_idx * num_ranks P * S + rank P * S + slot_idx)
      * num_bytes_per_msg in
    if negb (p2p dst_rank) then
      emit st
        [PutHeader dst_rank dst_offset src_idx;
         PutData dst_rank (dst_offset + 16) (FromSendBuffer (send_offset + 16))
                 (hidden P * 2)]
        ((if zero_copy C then []
          else [EvStageData (send_offset + 16) x_int4
                            (actual_num_int4_per_data P)])
         ++ [EvStageHeader send_offset src_idx])
    else
      emit st
        [PutHeader dst_rank dst_offset src_idx;
         PutData dst_rank (dst_offset + 16) (FromX x_int4)
                 (actual_num_int4_per_data P * 16)]
        [].

(** The token loop of one warp (line 1006). *)
Definition send_warp (dst_rank local_expert_idx offset num_tokens_to_send
    warp_id : Z) (st : send_state) : send_state :=
  foldl (fun st token_idx =>
           send_token dst_rank local_expert_idx offset token_idx st)
        st
        (strided (offset + sub_warp_id warp_id) (offset + num_tokens_to_send)
                 (num_warps_per_group C)).

(** Lines 1106-1110. *)
Definition note_received (expert_idx num_tokens_to_send : Z) (m : memory)
  : status memory :=
  match expert_sync_info_buffer m with
  | None => Done m
  | Some infos =>
      match infos !! Z.to_nat expert_idx with
      | Some s =>
          match combine_note_received s (rank P) num_tokens_to_send with
          | Some s' =>
              Done (set_sync m (Some (<[Z.to_nat expert_idx := s']> infos)))
          | None => Fault
          end
      | None => Fault
      end
  end.

(** The finishing flag of one warp (lines 1079-1120). *)
Definition put_flag (expert_idx dst_rank local_expert_idx num_tokens_to_send
    warp_id : Z) (st : send_state) : status send_state :=
  if (num_tokens_to_send >? 0) && (sub_warp_id warp_id =? 1) then
    if atomic_clean_flag (s_mem st) =? 0 then Hang
    else
      m ← note_received expert_idx num_tokens_to_send (s_mem st);
      Done (emit (with_mem st m) [AddFlag dst_rank local_expert_idx] [])
  else Done st.

(** Lines 1124-1127, for one warp. *)
Definition complete_expert (expert_idx warp_id : Z) (st : send_state)
  : status send_state :=
  if (warp_group_id warp_id =? 0) && (sub_warp_id warp_id =? 0) then
    match expert_sync_info_buffer (s_mem st) with
    | None => Done st
    | Some infos =>
        match infos !! Z.to_nat expert_idx with
        | Some s =>
            Done (with_mem st
                    (set_sync (s_mem st)
                       (Some (<[Z.to_nat expert_idx := mark_complete s]>
                                infos))))
        | None => Fault
        end
    end
  else Done st.

(** One block of the send phase (lines 976-1128): the warps run their
    token loops, meet at the barriers of lines 1074 and 1077, then put
    their flags. *)
Definition send_block (sm_id : Z) (st : send_state) : status send_state :=
  let st :=
    if sm_id =? 0
    then with_mem st (foldl (fun m w => clean_next w m) (s_mem st) warps)
    else st in
  let expert_idx := sm_id in
  if expert_idx <? num_experts P then
    match layout_range I with
    | None => Fault
    | Some layout_range =>
        let dst_rank := expert_idx `quot` num_local_experts P in
        let local_expert_idx := expert_idx `rem` num_local_experts P in
        let '(num_tokens_to_send, offset) :=
          unpack2 (ld layout_range
                      (local_expert_idx * num_ranks P + dst_rank)) in
        let st :=
          foldl (fun st w =>
                   send_warp dst_rank local_expert_idx offset
                             num_tokens_to_send w st)
                st warps in
        if negb ((num_warps_per_group C >? 1) && (num_warp_groups C <? 16))
        then Trap
        else
          st ← for_all warps
                 (put_flag expert_idx dst_rank local_expert_idx
                           num_tokens_to_send) st;
          for_all warps (complete_expert expert_idx) st
    end
  else Done st.

(** The send phase of a launch (skipped without the SEND bit, line 973). *)
Definition send_phase (m : memory) : status send_state :=
  let st := {| s_mem := m; s_out := []; s_events := [] |} in
  if Z.land (phases P) LOW_LATENCY_SEND_PHASE =? 0 then Done st
  else for_all (seqZ 0 (gridDim P)) send_block st.

(** Lines 1155-1166 and 1540-1551. *)
Definition will_receive_data (local_expert_idx : Z) : bool :=
  match layout_range I with
  | None => false
  | Some layout_range =>
      existsb (fun src_rank =>
                 (unpack2 (ld layout_range
                             (local_expert_idx * num_ranks P + src_rank))).1
                 >? 0)
              (seqZ 0 (num_ranks P))
  end.

(** The wait of one block (lines 1145-1226).  Neither loop has an exit but
    its condition: on cells that no thread changes any more it ends at once
    or never. *)
Definition wait_block (sm_id : Z) (m : memory) : status unit :=
  let expert_idx := sm_id in
  if expert_idx <? num_experts P then
    let expert_rank := expert_idx `quot` num_local_experts P in
    if expert_rank =? rank P then
      let local_expert_idx := expert_idx `rem` num_local_experts P in
      if negb (num_warps_per_group C >? 1) then Trap
      else if will_receive_data local_expert_idx then
        match expert_sync_info_buffer m with
        | Some infos =>
            match infos !! Z.to_nat expert_idx with
            | Some sync_info =>
                if total_received_tokens sync_info
                   <? total_expected_tokens sync_info
                then Hang else Done ()
            | None => Fault
            end
        | None =>
            if ld (rdma_recv_flag m) local_expert_idx =? 0 then Hang
            else Done ()
        end
      else Done ()
    else Done ()
  else Done ().

Definition wait_phase (m : memory) : status unit :=
  for_all (seqZ 0 (gridDim P)) (fun sm_id _ => wait_block sm_id m) ().

(** Lines 1570-1580. *)
Definition expected_decrements (local_expert_idx : Z) (layout_range : buffer)
  : Z :=
  foldl (fun n src_rank =>
           if negb (src_rank =? rank P)
              && ((unpack2 (ld layout_range
                               (local_expert_idx * num_ranks P + src_rank))).1
                  >? 0)
           then n + 1 else n)
        0 (seqZ 0 (num_ranks P)).

(** The flag reset of one block (lines 1530-1599). *)
Definition reset_block (sm_id : Z) (m : memory) : memory :=
  let expert_idx := sm_id in
  if expert_idx <? num_experts P then
    let expert_rank := expert_idx `quot` num_local_experts P in
    if expert_rank =? rank P then
      let local_expert_idx := expert_idx `rem` num_local_experts P in
      if local_expert_idx <? num_local_experts P then
        if will_receive_data local_expert_idx then
          match layout_range I with
          | Some layout_range =>
              let n := expected_decrements local_expert_idx layout_range in
              if n >? 0 then
                set_flag m
                  (<[local_expert_idx :=
                       wrap32 (ld (rdma_recv_flag m) local_expert_idx - n)]>
                     (rdma_recv_flag m))
              else m
          | None => m
          end
        else m
      else m
    else m
  else m.

Definition reset_flags (m : memory) : memory :=
  foldl (fun m sm_id => reset_block sm_id m) m (seqZ 0 (gridDim P)).

End Kernel.

(** The kernel arguments the launch wrapper computes (lines 1640-1641); it
    instantiates [combine<hidden, 9>]. *)
Definition host_config (a : CombineHost.combine_args) (zero_copy : bool)
    (num_next_clean_int : Z) : config :=
  let num_warp_groups :=
    ceil_div (CombineHost.c_num_experts a) (CombineHost.c_num_device_sms a) in
  {| num_warp_groups := num_warp_groups;
     num_warps_per_group := Z.min (32 `quot` num_warp_groups) 32;
     zero_copy := zero_copy;
     num_next_clean_int := num_next_clean_int;
     kHidden := CombineHost.c_hidden a |}.

(** The launch of one rank. *)
Record launch : Type := {
  l_params : params;
  l_config : config;
  l_inputs : inputs;
  l_p2p : Z -> bool;
  l_memory : memory
}.

Definition op_dst (op : net_op) : Z :=
  match op with
  | PutHeader dst_rank _ _ => dst_rank
  | PutData dst_rank _ _ _ => dst_rank
  | AddFlag dst_rank _ => dst_rank
  end.

(** The effect of a one-sided operation on the flags of its destination;
    the kernel never loads from [rdma_recv_x]. *)
Definition apply_op (op : net_op) (m : memory) : memory :=
  match op with
  | AddFlag _ local_expert_idx =>
      set_flag m (snd (atomicAdd (rdma_recv_flag m) local_expert_idx 1))
  | _ => m
  end.

Definition deliver_op (w : list memory) (op : net_op) : list memory :=
  if 0 <=? op_dst op then alter (apply_op op) (Z.to_nat (op_dst op)) w else w.

Definition deliver (ops : list net_op) (w : list memory) : list memory :=
  foldl deliver_op w ops.

Fixpoint map_status {A B : Type} (f : A -> status B) (l : list A)
  : status (list B) :=
  match l with
  | [] => Done []
  | a :: l' => b ← f a; bs ← map_status f l'; Done (b :: bs)
  end.

Definition rank_send (l : launch) : status send_state :=
  send_phase (l_params l) (l_config l) (l_inputs l) (l_p2p l) (l_memory l).

(** Every rank runs its send phase and the one-sided operations reach their
    destinations: the memories the waits then read. *)
Definition send_all (ls : list launch) : status (list send_state * list memory) :=
  sends ← map_status rank_send ls;
  Done (sends, deliver (concat (s_out <$> sends)) (s_mem <$> sends)).

End CombineSend.

(** ** What the send phase of combine returns, row by row *)

Module CombineSendSpec.

Import Combine CombineSend.

Section Spec.

Variable P : params.
Variable C : config.
Variable I : inputs.
Variable p2p : Z -> bool.

(** What block [expert_idx] reads from [layout_range]: the number of rows
    it holds for the rank [expert_idx / num_local_experts] and their
    offset. *)
Definition tokens_to_send (expert_idx : Z) : option (Z * Z) :=
  layout_range ← layout_range I;
  Some (unpack2 (ld layout_range
                    (expert_idx `rem` num_local_experts P * num_ranks P
                     + expert_idx `quot` num_local_experts P))).

(** The byte offset, in [rdma_recv_x] of the destination, of slot
    [slot_idx] of the rows of block [expert_idx]. *)
Definition dst_offset_of (expert_idx slot_idx : Z) : Z :=
  (expert_idx `rem` num_local_experts P * num_ranks P
     * num_max_dispatch_tokens_per_rank P
   + rank P * num_max_dispatch_tokens_per_rank P + slot_idx)
  * num_bytes_per_msg C.

(** The row of [x] and of [src_info] that slot holds. *)
Definition src_row_of (expert_idx offset slot_idx : Z) : Z :=
  expert_idx `rem` num_local_experts P * num_ranks P
    * num_max_dispatch_tokens_per_rank P
  + expert_idx `quot` num_local_experts P * num_max_dispatch_tokens_per_rank P
  + (offset + slot_idx).

(** The one-sided operation belongs to a row, or to the flag, of a block
    that has an expert. *)
Definition op_ok (op : net_op) : Prop :=
  exists e num offset,
    (0 <= e < num_experts P /\ e < gridDim P)
    /\ tokens_to_send e = Some (num, offset)
    /\ match op with
       | PutHeader dst off src =>
           dst = e `quot` num_local_experts P
           /\ exists i,
                (0 <= i < num /\ i < num_max_dispatch_tokens_per_rank P)
                /\ off = dst_offset_of e i
                /\ src = ld (src_info I) (src_row_of e offset i)
       | PutData dst off data num_bytes =>
           dst = e `quot` num_local_experts P
           /\ exists i,
                (0 <= i < num /\ i < num_max_dispatch_tokens_per_rank P)
                /\ off = dst_offset_of e i + 16
                /\ (if p2p dst
                    then data = FromX (src_row_of e offset i
                                       * actual_num_int4_per_data P)
                         /\ num_bytes = actual_num_int4_per_data P * 16
                    else data = FromSendBuffer
                                  (src_row_of e offset i * num_bytes_per_data C
                                   + 16)
                         /\ num_bytes = hidden P * 2)
       | AddFlag dst le =>
           dst = e `quot` num_local_experts P
           /\ le = e `rem` num_local_experts P /\ 0 < num
       end.

(** The warps of a block that put the finishing flag. *)
Definition flaggers : Z :=
  Z.of_nat (length (List.filter (fun w => sub_warp_id C w =? 1) (warps P))).

End Spec.

(** The number of increments [ops] hold for the flag [le] of rank [dst]. *)
Definition is_flag (dst le : Z) (op : net_op) : bool :=
  match op with
  | AddFlag d l => (d =? dst) && (l =? le)
  | _ => false
  end.

Definition flags_to (dst le : Z) (ops : list net_op) : Z :=
  Z.of_nat (length (List.filter (is_flag dst le) ops)).

(** How often the send phase of a launch raises the flag [le] of rank
    [dst]: once per flagging warp when the block of expert
    [dst * num_local_experts + le] exists and holds rows. *)
Definition raises (l : launch) (dst le : Z) : Z :=
  let P := l_params l in
  let e := dst * num_local_experts P + le in
  if (0 <=? dst) && ((0 <=? le) && (le <? num_local_experts P))
     && ((e <? num_experts P) && (e <? gridDim P))
  then match tokens_to_send P (l_inputs l) e with
       | Some (num, _) => if num >? 0 then flaggers P (l_config l) else 0
       | None => 0
       end
  else 0.

(** The flags of a rank that is alone in its world, after the send phase,
    the delivery of its own increments, the wait and the flag reset. *)
Definition flags_alone (l : launch) : status memory :=
  '(sends, w) ← send_all [l];
  match w with
  | [m] =>
      _ ← wait_phase (l_params l) (l_config l) (l_inputs l) m;
      Done (reset_flags (l_params l) (l_inputs l) m)
  | _ => Fault
  end.

End CombineSendSpec.

(** ** Where dispatch delivers a token *)

Module DeliverySpec.

Import Dispatch DispatchSpec.

(** The receive slot of message [i] of the pair of expert [e] and the
    sending rank, in the [rdma_recv_x] of the owner of [e]. *)
Definition slot_of (P : params) (e i : Z) : Z :=
  e `rem` num_local_experts P * num_ranks P
    * num_max_dispatch_tokens_per_rank P
  + rank P * num_max_dispatch_tokens_per_rank P + i.

(** A message of the send loop: the staged body of a token that names the
    block's expert in its top-k, in a slot the counter of the pair has
    handed out. *)
Definition put_ok (P : params) (I : inputs) (counters : buffer) (op : net_op)
  : Prop :=
  match op with
  | PutMessage d slot msg =>
      exists e t k i,
        0 <= e < num_experts P
        /\ 0 <= t < num_tokens P /\ 0 <= k < num_topk P
        /\ entry_selected P I e t k = true
        /\ d = e `quot` num_local_experts P
        /\ slot = slot_of P e i
        /\ 0 <= i < ld counters (e * num_ranks P + rank P)
        /\ msg = staged_message I t
  | AddCount _ _ _ => True
  end.

(** No slot receives two different messages. *)
Definition puts_unique (ops : list net_op) : Prop :=
  forall d slot m1 m2,
    PutMessage d slot m1 ∈ ops -> PutMessage d slot m2 ∈ ops -> m1 = m2.

(** Every slot the counters have handed out holds the message of a routed
    token. *)
Definition filled (P : params) (I : inputs) (counters : buffer)
    (ops : list net_op) : Prop :=
  forall e i,
    0 <= i < ld counters (e * num_ranks P + rank P) ->
    exists t k,
      0 <= t < num_tokens P /\ 0 <= k < num_topk P
      /\ entry_selected P I e t k = true
      /\ PutMessage (e `quot` num_local_experts P) (slot_of P e i)
                    (staged_message I t) ∈ ops.

(** The state of the send loops: the counters are those of the log, every
    message is one of a routed token, no slot is used twice and none that
    was handed out is left empty. *)
Definition puts_inv (P : params) (I : inputs) (m : memory) (s : send_state)
  : Prop :=
  send_inv P m s
  /\ Forall (put_ok P I (atomic_counter_per_expert (ss_mem s))) (ss_out s)
  /\ puts_unique (ss_out s)
  /\ filled P I (atomic_counter_per_expert (ss_mem s)) (ss_out s).

End DeliverySpec.

(** ** Where the receive phase stores a scale *)

Module ScaleSpec.

Import Dispatch.

(** The cell of [packed_recv_x_scales] that lines 761-772 address for the
    scale of lane [lane] of the token at [token_idx] of a local expert. *)
Definition scale_cell (P : params) (local_expert_idx token_idx lane : Z) : Z :=
  let elems := if kUseUE8M0 P then 4 else 1 in
  local_expert_idx * num_ranks P * num_max_dispatch_tokens_per_rank P
  * align (num_scales P) elems
  + token_idx * elems
  + lane `quot` elems
    * (num_ranks P * num_max_dispatch_tokens_per_rank P * elems)
  + lane `rem` elems.

End ScaleSpec.

(** ** Further launches *)

Module MoreScenarios.

(** One rank, one expert, capacity 1: all eight tokens pick expert 0. *)
Definition crowded_params : Dispatch.params :=
  {| Dispatch.num_tokens := 8;
     Dispatch.num_max_dispatch_tokens_per_rank := 1;
     Dispatch.num_topk := 1;
     Dispatch.num_experts := 1;
     Dispatch.rank := 0;
     Dispatch.num_ranks := 1;
     Dispatch.num_warp_groups := 1;
     Dispatch.num_warps_per_group := 32;
     Dispatch.phases := 3;
     Dispatch.kUseFP8 := false;
     Dispatch.kUseUE8M0 := false;
     Dispatch.kHidden := 7168 |}.

Definition crowded_inputs : Dispatch.inputs :=
  {| Dispatch.topk_idx := ∅;
     Dispatch.staged := fun t => ([t], []);
     Dispatch.num_recv_tokens_per_rank := {[0 := 8]};
     Dispatch.extract_required_scale_format := fun v => v |}.

(** Rank 0 of two ranks with one expert each, after the counts of both
    source ranks arrived: one token from rank 0, none from rank 1. *)
Definition pair_params (r : Z) : Dispatch.params :=
  {| Dispatch.num_tokens := 2;
     Dispatch.num_max_dispatch_tokens_per_rank := 4;
     Dispatch.num_topk := 1;
     Dispatch.num_experts := 2;
     Dispatch.rank := r;
     Dispatch.num_ranks := 2;
     Dispatch.num_warp_groups := 1;
     Dispatch.num_warps_per_group := 32;
     Dispatch.phases := 3;
     Dispatch.kUseFP8 := false;
     Dispatch.kUseUE8M0 := false;
     Dispatch.kHidden := 7168 |}.

Definition arrived_memory : Dispatch.memory :=
  Dispatch.set_rdma_recv_x
    (Scenarios.memory_with ∅ (<[0 := -2]> {[1 := -1]}))
    {[0 := {| Dispatch.msg_src_idx := 7;
              Dispatch.msg_data := [70; 71];
              Dispatch.msg_scales := [] |}]}.

(** A structure in use, with the given pointer. *)
Definition busy_info (ptr : Z) : Sync.ExpertSyncInfo :=
  {| Sync.expected_tokens_per_rank := [3; 0; 1; 0; 0; 0; 0; 2];
     Sync.received_tokens_per_rank := [3; 0; 0; 0; 0; 0; 0; 2];
     Sync.total_expected_tokens := 6;
     Sync.total_received_tokens := 5;
     Sync.completed_ranks := 1;
     Sync.expert_processing_complete := 1;
     Sync.combined_x_ptr := ptr;
     Sync.padding := [9] |}.

(** A launch of combine outside Pure EP mode: three experts on two
    ranks. *)
Definition mixed_params : Combine.params :=
  {| Combine.num_combined_tokens := 1;
     Combine.hidden := 7168;
     Combine.num_topk := 2;
     Combine.num_max_dispatch_tokens_per_rank := 2;
     Combine.num_experts := 3;
     Combine.rank := 0;
     Combine.num_ranks := 2;
     Combine.phases := 3;
     Combine.gridDim := 3;
     Combine.blockDim := 1024 |}.

(** A call of the launch wrapper of combine with sixteen experts for one
    multiprocessor. *)
Definition dense_call : CombineHost.combine_args :=
  {| CombineHost.c_num_combined_tokens := 1;
     CombineHost.c_hidden := 7168;
     CombineHost.c_num_max_dispatch_tokens_per_rank := 2;
     CombineHost.c_num_topk := 2;
     CombineHost.c_num_experts := 16;
     CombineHost.c_rank := 0;
     CombineHost.c_num_ranks := 1;
     CombineHost.c_num_device_sms := 1;
     CombineHost.c_phases := 3 |}.

Definition dense_params : Combine.params :=
  {| Combine.num_combined_tokens := 1;
     Combine.hidden := 7168;
     Combine.num_topk := 2;
     Combine.num_max_dispatch_tokens_per_rank := 2;
     Combine.num_experts := 16;
     Combine.rank := 0;
     Combine.num_ranks := 1;
     Combine.phases := 3;
     Combine.gridDim := 16;
     Combine.blockDim := 1024 |}.

Definition idle_flags : CombineSend.memory :=
  {| CombineSend.next_clean := ∅;
     CombineSend.atomic_clean_flag := 0;
     CombineSend.rdma_recv_flag := ∅;
     CombineSend.expert_sync_info_buffer := None |}.

(** Inputs of combine that hold nothing but a [layout_range]. *)
Definition holder_inputs (layout_range : buffer) : Combine.inputs :=
  {| Combine.x := ∅;
     Combine.topk_idx := ∅;
     Combine.topk_weights := ∅;
     Combine.src_info := ∅;
     Combine.layout_range := Some layout_range |}.

(** Rank [r] of two, one expert each, launched by the wrapper, every peer
    mapped. *)
Definition flag_launch (r : Z) (layout_range : buffer) : CombineSend.launch :=
  {| CombineSend.l_params := Scenarios.combine_params r 2;
     CombineSend.l_config :=
       CombineSend.host_config (Scenarios.combine_call r 2) false 0;
     CombineSend.l_inputs := holder_inputs layout_range;
     CombineSend.l_p2p := fun _ => true;
     CombineSend.l_memory := idle_flags |}.

(** Rank 0 has sent one token to the expert of rank 1 and rank 1 none: rank
    1 holds one row of rank 0, rank 0 holds nothing. *)
Definition one_way : list CombineSend.launch :=
  [flag_launch 0 ∅; flag_launch 1 {[0 := pack2 1 0]}].

(** One rank with two experts that holds one row for each of them. *)
Definition alone_launch : CombineSend.launch :=
  {| CombineSend.l_params := Scenarios.combine_params 0 1;
     CombineSend.l_config :=
       CombineSend.host_config (Scenarios.combine_call 0 1) false 0;
     CombineSend.l_inputs :=
       Scenarios.combine_inputs Scenarios.one Scenarios.two
                                Scenarios.two Scenarios.one;
     CombineSend.l_p2p := fun _ => true;
     CombineSend.l_memory := idle_flags |}.

(** Rank 0 of two ranks with one expert each, FP8 payloads: a message of
    each source rank sits in the first slot of its section. *)
Definition fp8_params : Dispatch.params :=
  {| Dispatch.num_tokens := 2;
     Dispatch.num_max_dispatch_tokens_per_rank := 4;
     Dispatch.num_topk := 1;
     Dispatch.num_experts := 2;
     Dispatch.rank := 0;
     Dispatch.num_ranks := 2;
     Dispatch.num_warp_groups := 1;
     Dispatch.num_warps_per_group := 32;
     Dispatch.phases := 3;
     Dispatch.kUseFP8 := true;
     Dispatch.kUseUE8M0 := false;
     Dispatch.kHidden := 7168 |}.

Definition scaled_memory : Dispatch.memory :=
  Dispatch.set_rdma_recv_x World.zero_memory
    (<[0 := {| Dispatch.msg_src_idx := 0;
               Dispatch.msg_data := [10];
               Dispatch.msg_scales := [5; 6] |}]>
       {[4 := {| Dispatch.msg_src_idx := 1;
                 Dispatch.msg_data := [20];
                 Dispatch.msg_scales := [8; 9] |}]}).

(** Rank 0 of two ranks with one expert each holds token 0 of its own
    once, in slot 0 of its local expert; nothing came from rank 1.  The
    token names expert 0 with weight [w0] and expert 1, of rank 1, with
    weight [w1]. *)
Definition routed_layout : buffer := {[0 := pack2 1 0]}.

Definition routed_inputs (v0 v1 w0 w1 : spec_float) : Combine.inputs :=
  {| Combine.x := Scenarios.row 0 v0 (Scenarios.row 14336 v1 ∅);
     Combine.topk_idx := <[0 := 0]> {[1 := 1]};
     Combine.topk_weights := <[0 := w0]> {[1 := w1]};
     Combine.src_info := {[0 := 0]};
     Combine.layout_range := Some routed_layout |}.

End MoreScenarios.

(* ===================================================================== *)
(** * Properties *)

(** ** Arithmetic and buffers *)

Lemma wrap32_id z : in_int32 z -> wrap32 z = z.
Proof.
  unfold in_int32, INT_MIN, INT_MAX, wrap32. intros H.
  rewrite Z.mod_small by lia. lia.
Qed.

Lemma wrap32_range z : in_int32 (wrap32 z).
Proof.
  unfold in_int32, INT_MIN, INT_MAX, wrap32.
  pose proof (Z.mod_pos_bound (z + 2147483648) 4294967296). lia.
Qed.

Lemma ld_empty i : ld ∅ i = 0.
Proof. unfold ld. by rewrite lookup_empty. Qed.

Lemma ld_insert_eq (m : buffer) i v : ld (<[i := v]> m) i = v.
Proof. unfold ld. by rewrite lookup_insert_eq. Qed.

Lemma ld_insert_ne (m : buffer) i j v : i ≠ j -> ld (<[i := v]> m) j = ld m j.
Proof. intros H. unfold ld. by rewrite lookup_insert_ne. Qed.

(** ** Loops *)

Lemma for_each_app {A S} (l1 l2 : list A) (body : A -> S -> result S) s :
  for_each (l1 ++ l2) body s = (s' ← for_each l1 body s; for_each l2 body s').
Proof.
  revert s. induction l1 as [|a l1 IH]; intros s; simpl; [done|].
  destruct (body a s) as [s'|f]; simpl; [apply IH | done].
Qed.

Lemma for_each_skip {A S} (l : list A) (body : A -> S -> result S) s :
  (forall a, a ∈ l -> body a s = Ok s) -> for_each l body s = Ok s.
Proof.
  induction l as [|a l IH]; intros H; simpl; [done|].
  rewrite H by left. simpl. apply IH. intros b Hb. apply H. by right.
Qed.

(** An invariant of the state survives a loop that completes. *)
Lemma for_each_inv {A S} (Inv : S -> Prop) (l : list A)
    (body : A -> S -> result S) s s' :
  Inv s ->
  (forall a t t', a ∈ l -> Inv t -> body a t = Ok t' -> Inv t') ->
  for_each l body s = Ok s' -> Inv s'.
Proof.
  revert s. induction l as [|a l IH]; intros s Hs Hstep; simpl.
  - intros [= <-]. done.
  - destruct (body a s) as [t|f] eqn:E; simpl; [|done].
    apply IH.
    + eapply Hstep; [by left | exact Hs | exact E].
    + intros b u u' Hb. apply Hstep. by right.
Qed.

(** A loop fails only with a fault of one of its iterations. *)
Lemma for_each_fault {A S} (Inv : S -> Prop) (Bad : fault -> Prop) (l : list A)
    (body : A -> S -> result S) s f :
  Inv s ->
  (forall a t t', a ∈ l -> Inv t -> body a t = Ok t' -> Inv t') ->
  (forall a t g, a ∈ l -> Inv t -> body a t = Fatal g -> Bad g) ->
  for_each l body s = Fatal f -> Bad f.
Proof.
  revert s. induction l as [|a l IH]; intros s Hs Hstep Hbad; simpl; [done|].
  destruct (body a s) as [t|g] eqn:E; simpl.
  - apply IH.
    + eapply Hstep; [by left | exact Hs | exact E].
    + intros b u u' Hb. apply Hstep. by right.
    + intros b u g Hb. apply Hbad. by right.
  - intros [= <-]. eapply Hbad; [by left | exact Hs | exact E].
Qed.

(** ** The receive phase is guarded by [should_process] *)

Module RecvGuard.

Import Dispatch.

(** C10.  When [num_recv_tokens_per_rank[rank]] is 0 the receive phase of
    dispatch returns the memory it was given and an empty list of polls: it
    never loads [rdma_recv_count] and [packed_recv_x],
    [packed_recv_x_scales], [packed_recv_src_info],
    [packed_recv_layout_range], [packed_recv_count] and
    [cumulative_local_expert_recv_stats] are unchanged. *)
Theorem recv_phase_noop_without_tokens (P : params) (I : inputs) (m : memory) :
  ld (num_recv_tokens_per_rank I) (rank P) = 0 ->
  dispatch_recv_phase P I m = Ok (m, []).
Proof.
  intros H. unfold dispatch_recv_phase.
  destruct (Z.land (phases P) LOW_LATENCY_RECV_PHASE =? 0); [done|].
  apply for_each_skip. intros b _.
  unfold dispatch_recv_block, should_process. rewrite H. done.
Qed.

End RecvGuard.

(** ** ExpertSyncInfo *)

Module SyncFacts.

Import Sync.

Lemma array_add_is_Some (a : list Z) i v :
  0 <= i < Z.of_nat (length a) -> is_Some (array_add a i v).
Proof.
  intros H. unfold array_add.
  destruct (0 <=? i) eqn:E1; [|lia].
  destruct (i <? Z.of_nat (length a)) eqn:E2; [|lia]. simpl. eauto.
Qed.

(** Inside the declared arrays, that is for [rank < 8], both updates
    address an element of the structure. *)
Lemma note_in_bounds (s : ExpertSyncInfo) rank n :
  well_formed s -> 0 <= rank < kSyncRanks ->
  is_Some (dispatch_note_expected s rank) /\
  is_Some (combine_note_received s rank n).
Proof.
  intros [H1 H2] Hr. unfold dispatch_note_expected, combine_note_received.
  destruct (array_add_is_Some (expected_tokens_per_rank s) rank 1) as [a Ha];
    [rewrite H1; unfold kSyncRanks in *; lia|].
  destruct (array_add_is_Some (received_tokens_per_rank s) rank n) as [b Hb];
    [rewrite H2; unfold kSyncRanks in *; lia|].
  rewrite Ha, Hb. simpl. eauto.
Qed.

(** C7.  With [num_ranks = 32], rank 24 is a rank below [num_ranks] whose
    two updates address no element of the 8-element arrays; the byte offset
    of [expected_tokens_per_rank[24]] is the size of the structure and that
    of [received_tokens_per_rank[24]] lies beyond it. *)
Theorem expert_sync_rank_24_outside :
  (0 <= 24 < 32) /\
  dispatch_note_expected zeroed 24 = None /\
  combine_note_received zeroed 24 1 = None /\
  sizeof_ExpertSyncInfo <= offset_expected 24 /\
  sizeof_ExpertSyncInfo <= offset_received 24.
Proof. repeat split; try reflexivity; vm_compute; congruence. Qed.

End SyncFacts.

(** ** The count handshake *)

Module CountFacts.

Import Dispatch World.

Lemma decode_encode n : 0 <= n <= INT_MAX -> decode_count (wrap32 (- n - 1)) = n.
Proof.
  intros H. unfold decode_count.
  rewrite (wrap32_id (- n - 1)) by (unfold in_int32, INT_MIN, INT_MAX in *; lia).
  rewrite wrap32_id by (unfold in_int32, INT_MIN, INT_MAX in *; lia). lia.
Qed.

Lemma count_to_post_nonneg (P : params) e (m : memory) n :
  ld (atomic_counter_per_expert m) (e * num_ranks P + rank P) = n ->
  0 <= n <= INT_MAX ->
  count_to_post P e m = - n - 1.
Proof.
  intros Hn Hr. unfold count_to_post. rewrite Hn.
  replace (n <? 0) with false by lia. rewrite andb_false_r.
  apply wrap32_id. unfold in_int32, INT_MIN, INT_MAX in *. lia.
Qed.

Lemma wait_for_count_arrived v loads k :
  v ≠ 0 -> wait_for_count (v :: loads) k = Arrived v.
Proof. intros H. simpl. destruct (v =? 0) eqn:E; [lia | done]. Qed.

(** The spin loop on a cell nobody writes: [MAX_WAIT + 1] loads of zero
    exhaust the budget. *)
Lemma wait_for_count_zero n k :
  0 <= k <= MAX_WAIT -> MAX_WAIT < k + Z.of_nat n ->
  wait_for_count (replicate n 0) k = PollTimeout.
Proof.
  revert k. induction n as [|n IH]; intros k Hk Hn; [lia|].
  simpl replicate. simpl wait_for_count.
  rewrite (wrap32_id (k + 1)) by (unfold in_int32, INT_MIN, INT_MAX, MAX_WAIT in *; lia).
  destruct (k + 1 >? MAX_WAIT) eqn:E; [done|].
  apply IH; lia.
Qed.

Lemma poll_quiescent_spec v n :
  MAX_WAIT < Z.of_nat n ->
  match poll_quiescent v with
  | Ok v' => wait_for_count (replicate n v) 0 = Arrived v'
  | Fatal _ => wait_for_count (replicate n v) 0 = PollTimeout
  end.
Proof.
  intros Hn. unfold poll_quiescent. destruct (v =? 0) eqn:E; simpl.
  - assert (v = 0) as -> by lia. apply wait_for_count_zero; unfold MAX_WAIT in *; lia.
  - destruct n as [|n]; [unfold MAX_WAIT in *; lia|]. simpl. by rewrite E.
Qed.

End CountFacts.

(** ** The send loop *)

Module SendFacts.

Import Dispatch DispatchSpec.

Section Block.

Variable P : params.
Variable I : inputs.

(** The three ways out of the body of the top-k loop. *)
Lemma send_topk_entry_cases e t k (s : send_state) :
  let counter_idx := e * num_ranks P + rank P in
  let slot_idx := ld (atomic_counter_per_expert (ss_mem s)) counter_idx in
  if entry_selected P I e t k then
    if slot_idx >=? num_max_dispatch_tokens_per_rank P
    then send_topk_entry P I e t k s = Fatal SlotOverflow
    else send_topk_entry P I e t k s =
         Ok {| ss_mem := set_atomic_counter_per_expert (ss_mem s)
                 (<[counter_idx := wrap32 (slot_idx + 1)]>
                    (atomic_counter_per_expert (ss_mem s)));
               ss_log := ss_log s ++
                 [{| res_counter_idx := counter_idx;
                     res_slot_idx := slot_idx |}];
               ss_out := ss_out s ++
                 [PutMessage (e `quot` num_local_experts P)
                    ((e `rem` num_local_experts P) * num_ranks P
                       * num_max_dispatch_tokens_per_rank P
                     + rank P * num_max_dispatch_tokens_per_rank P + slot_idx)
                    (staged_message I t)] |}
  else send_topk_entry P I e t k s = Ok s.
Proof.
  intros counter_idx slot_idx. unfold entry_selected, send_topk_entry.
  set (idx := static_cast_int (ld (topk_idx I) (t * num_topk P + k))).
  unfold owner_rank_for_token.
  destruct (idx <? 0) eqn:E0.
  { replace (0 <=? idx) with false by lia. done. }
  replace (0 <=? idx) with true by lia.
  destruct (idx =? e) eqn:E1; simpl; [|done].
  assert (idx = e) as -> by lia.
  destruct (is_pure_ep_mode P) eqn:Ep; simpl.
  - destruct (rank P =? t `rem` num_ranks P) eqn:E2; simpl; [|done].
    fold counter_idx. fold slot_idx.
    destruct (slot_idx >=? num_max_dispatch_tokens_per_rank P); done.
  - fold counter_idx. fold slot_idx.
    destruct (slot_idx >=? num_max_dispatch_tokens_per_rank P); done.
Qed.

Lemma send_topk_entry_skip e t k s :
  entry_selected P I e t k = false -> send_topk_entry P I e t k s = Ok s.
Proof.
  intros H. pose proof (send_topk_entry_cases e t k s) as C.
  simpl in C. by rewrite H in C.
Qed.

End Block.

End SendFacts.

Lemma filter_none {A} (Q : A -> Prop) `{!forall x, Decision (Q x)} (l : list A) :
  (forall x, x ∈ l -> ¬ Q x) -> filter Q l = [].
Proof.
  induction l as [|a l IH]; intros Hl; [done|].
  rewrite filter_cons_False by (apply Hl; left).
  apply IH. intros x Hx. apply Hl. by right.
Qed.

Lemma filter_seqZ_unique (Q : Z -> Prop) `{!forall x, Decision (Q x)} (n x : Z) :
  0 <= x < n -> Q x -> (forall y, 0 <= y < n -> Q y -> y = x) ->
  filter Q (seqZ 0 n) = [x].
Proof.
  intros Hx HQ Huniq.
  replace n with (x + (1 + (n - x - 1))) by lia.
  rewrite seqZ_app by lia. rewrite (seqZ_app _ 1) by lia.
  rewrite !filter_app.
  rewrite (filter_none Q (seqZ 0 x)).
  2:{ intros y Hy%elem_of_seqZ Hq. specialize (Huniq y ltac:(lia) Hq). lia. }
  rewrite (filter_none Q (seqZ (0 + x + 1) _)).
  2:{ intros y Hy%elem_of_seqZ Hq. specialize (Huniq y ltac:(lia) Hq). lia. }
  change (seqZ (0 + x) 1) with [0 + x]. rewrite filter_cons_True by (by rewrite Z.add_0_l).
  rewrite filter_nil. simpl. f_equal; lia.
Qed.

(** ** Ownership masking in Pure EP mode *)

Module OwnerFacts.

Import Dispatch DispatchSpec SendFacts.

Lemma reserves_iff_selected (P : params) (I : inputs) e t k s :
  reserves P I e t k s = entry_selected P I e t k.
Proof.
  unfold reserves. pose proof (send_topk_entry_cases P I e t k s) as C.
  simpl in C. destruct (entry_selected P I e t k).
  - destruct (_ >=? _); rewrite C; [done|]. simpl.
    rewrite length_app. simpl.
    destruct (_ =? _)%nat eqn:E; [|done]. apply Nat.eqb_eq in E. lia.
  - rewrite C. by rewrite Nat.eqb_refl.
Qed.

(** In Pure EP mode, for a token [t] and a non-padding top-k entry naming
    expert [e]: among the ranks [0 .. R-1] the one that performs the slot
    reservation for the entry is exactly the owner [t mod R]; on any other
    rank the whole top-k loop of token [t] leaves the state of every block
    as it was: no counter is incremented, nothing is sent. *)
Lemma pure_ep_owner_only (P : params) (Is : Z -> inputs) (e t k : Z) :
  is_pure_ep_mode P = true ->
  0 < num_ranks P -> 0 <= t -> 0 <= e ->
  (forall r, static_cast_int (ld (topk_idx (Is r)) (t * num_topk P + k)) = e) ->
  (forall s : Z -> send_state,
     filter (fun r => reserves (with_rank P r) (Is r) e t k (s r) = true)
            (seqZ 0 (num_ranks P))
     = [t mod num_ranks P]) /\
  (forall r e' s, r ≠ t mod num_ranks P ->
     send_token (with_rank P r) (Is r) e' t s = Ok s).
Proof.
  intros Hpure HR Ht He Hentry.
  assert (Hrem : t `rem` num_ranks P = t mod num_ranks P)
    by (apply Z.rem_mod_nonneg; lia).
  assert (Hsel : forall r e', entry_selected (with_rank P r) (Is r) e' t k
                   = (e =? e') && (r =? t mod num_ranks P)).
  { intros r e'. unfold entry_selected. simpl.
    change (is_pure_ep_mode (with_rank P r)) with (is_pure_ep_mode P).
    rewrite Hpure, Hentry, Hrem. simpl.
    replace (0 <=? e) with true by lia. done. }
  split.
  - intros s. apply filter_seqZ_unique.
    + apply Z.mod_pos_bound. lia.
    + rewrite reserves_iff_selected, Hsel, !Z.eqb_refl. done.
    + intros y _. rewrite reserves_iff_selected, Hsel.
      intros [_ H]%andb_true_iff. lia.
  - intros r e' s Hr. unfold send_token. apply for_each_skip.
    intros k' _. apply send_topk_entry_skip.
    unfold entry_selected. simpl.
    change (is_pure_ep_mode (with_rank P r)) with (is_pure_ep_mode P).
    rewrite Hpure, Hrem. simpl.
    replace (r =? t mod num_ranks P) with false by lia.
    by rewrite andb_false_r.
Qed.

End OwnerFacts.

(** ** The send phase of a launch *)

Module SendPhase.

Import Dispatch DispatchSpec World SendFacts.

Lemma set_atomic_counter_id (m : memory) :
  m = set_atomic_counter_per_expert m (atomic_counter_per_expert m).
Proof. by destruct m. Qed.

Lemma increments_snoc log r j :
  increments (log ++ [r]) j
  = increments log j + (if decide (res_counter_idx r = j) then 1 else 0).
Proof.
  unfold increments. rewrite filter_app, length_app.
  rewrite filter_cons, filter_nil. destruct (decide _); simpl; lia.
Qed.

Section Phase.

Variable P : params.
Variable I : inputs.
Variable m : memory.

Hypothesis capacity_is_int :
  0 <= num_max_dispatch_tokens_per_rank P <= INT_MAX.

Lemma send_topk_entry_inv e t k s s' :
  send_inv P m s -> send_topk_entry P I e t k s = Ok s' -> send_inv P m s'.
Proof.
  intros (Hm & Hlog & Hcap & Hout) Hs.
  pose proof (send_topk_entry_cases P I e t k s) as C. simpl in C.
  destruct (entry_selected P I e t k);
    [|rewrite C in Hs; injection Hs as <-; by split_and!].
  set (idx := e * num_ranks P + rank P) in *.
  set (slot := ld (atomic_counter_per_expert (ss_mem s)) idx) in *.
  destruct (slot >=? num_max_dispatch_tokens_per_rank P) eqn:E; [congruence|].
  rewrite C in Hs. injection Hs as <-.
  assert (Hslot : 0 <= slot) by apply Hcap.
  assert (Hw : wrap32 (slot + 1) = slot + 1).
  { apply wrap32_id. unfold in_int32, INT_MIN, INT_MAX in *. lia. }
  unfold send_inv. simpl. rewrite Hw. split_and!.
  - rewrite Hm at 1. done.
  - intros j. rewrite increments_snoc. simpl. destruct (decide (idx = j)) as [<-|Hne].
    + rewrite ld_insert_eq. fold slot. rewrite <-Hlog. done.
    + rewrite ld_insert_ne by done. rewrite Hlog. lia.
  - intros j. destruct (decide (idx = j)) as [<-|Hne].
    + rewrite ld_insert_eq. lia.
    + rewrite ld_insert_ne by done. apply Hcap.
  - apply Forall_app. split; [done|]. by constructor.
Qed.

Lemma dispatch_send_block_inv e s s' :
  send_inv P m s -> dispatch_send_block P I e s = Ok s' -> send_inv P m s'.
Proof.
  intros Hinv. unfold dispatch_send_block.
  destruct (send_tokens_block P I e s) as [s1|f] eqn:E1; simpl; [|done].
  assert (send_inv P m s1) as H1.
  { revert E1. unfold send_tokens_block. apply for_each_inv; [done|].
    intros w u u' _ Hu. unfold send_warp.
    destruct (negb _); [done|]. apply for_each_inv; [done|].
    intros t v v' _ Hv. unfold send_token. apply for_each_inv; [done|].
    intros k x x' _ Hx. by apply send_topk_entry_inv. }
  unfold check_token_drop. destruct (_ && _); [done|]. by intros [= <-].
Qed.

Lemma count_blocks (l : list Z) s :
  (forall e, e ∈ l -> e < num_experts P) ->
  foldl (dispatch_count_block P) s l =
  {| ss_mem := ss_mem s;
     ss_log := ss_log s;
     ss_out := ss_out s ++
       ((fun e => AddCount (e `quot` num_local_experts P)
                    ((e `rem` num_local_experts P) * num_ranks P + rank P)
                    (count_to_post P e (ss_mem s))) <$> l) |}.
Proof.
  revert s. induction l as [|e l IH]; intros s Hl; simpl.
  - rewrite app_nil_r. by destruct s.
  - rewrite IH by (intros e' He'; apply Hl; by right).
    unfold dispatch_count_block.
    replace (e <? num_experts P) with true
      by (specialize (Hl e ltac:(left)); lia).
    simpl. by rewrite <-app_assoc.
Qed.

(** The state a send phase ends in. *)
Lemma send_phase_spec s :
  zeroed (atomic_counter_per_expert m) ->
  Z.land (phases P) LOW_LATENCY_SEND_PHASE ≠ 0 ->
  dispatch_send_phase P I m = Ok s ->
  exists puts,
    send_inv P m {| ss_mem := ss_mem s; ss_log := ss_log s; ss_out := puts |}
    /\ ss_out s = puts ++ count_ops P (ss_mem s).
Proof.
  intros Hz Hph. unfold dispatch_send_phase.
  destruct (Z.land (phases P) LOW_LATENCY_SEND_PHASE =? 0) eqn:E; [lia|].
  destruct (for_each _ _ _) as [s1|f] eqn:E1; simpl; [|done].
  intros [= <-].
  assert (send_inv P m s1) as H1.
  { revert E1. apply for_each_inv.
    - unfold send_inv. simpl. split_and!.
      + apply set_atomic_counter_id.
      + intros j. rewrite Hz. done.
      + intros j. rewrite Hz. lia.
      + constructor.
    - intros e u u' _. apply dispatch_send_block_inv. }
  rewrite count_blocks.
  2:{ intros e He%elem_of_seqZ. unfold gridDim in He. lia. }
  simpl. exists (ss_out s1). split; [by destruct s1|done].
Qed.

End Phase.

End SendPhase.

(** ** The launch wrapper *)

Module HostFacts.

Import Dispatch Host.

Lemma omap_none {A B} (f : A -> option B) (l : list A) :
  (forall x, x ∈ l -> f x = None) -> omap f l = [].
Proof.
  induction l as [|a l IH]; intros Hl; [done|]. simpl.
  rewrite Hl by left. apply IH. intros x Hx. apply Hl. by right.
Qed.

Lemma omap_cons_eq {A B} (f : A -> option B) (a : A) (l : list A) :
  omap f (a :: l) = match f a with Some b => b :: omap f l | None => omap f l end.
Proof. done. Qed.

(** The search always ends on one warp group of 32 warps. *)
Lemma find_warp_config_fixed min_warps_needed num_experts num_device_sms :
  find_warp_config min_warps_needed num_experts num_device_sms = (1, 32).
Proof.
  unfold find_warp_config.
  rewrite (seqZ_cons 1 32) by lia. rewrite omap_cons_eq.
  change (32 `quot` 1) with 32. change (32 >? 0) with true.
  change (1 * 32) with 32. rewrite andb_true_l.
  destruct ((32 >=? min_warps_needed)
            && (1 <=? ceil_div num_experts num_device_sms)) eqn:E; [done|].
  rewrite omap_none; [done|].
  intros wg Hwg%elem_of_seqZ.
  assert (wg * (32 `quot` wg) <= 32) by (apply Z.mul_quot_le; lia).
  apply andb_false_iff in E as [E|E].
  - replace (wg * (32 `quot` wg) >=? min_warps_needed) with false by lia.
    by rewrite andb_false_r.
  - replace (wg <=? ceil_div num_experts num_device_sms) with false by lia.
    by rewrite andb_false_r.
Qed.

Lemma dispatch_Some NW SH a P :
  dispatch NW SH a = Some P ->
  P = {| num_tokens := a_num_tokens a;
         num_max_dispatch_tokens_per_rank := a_num_max_dispatch_tokens_per_rank a;
         num_topk := a_num_topk a;
         num_experts := a_num_experts a;
         rank := a_rank a;
         num_ranks := a_num_ranks a;
         num_warp_groups := 1;
         num_warps_per_group := 32;
         phases := a_phases a;
         kUseFP8 := a_use_fp8 a;
         kUseUE8M0 := a_use_fp8 a && a_use_ue8m0 a;
         kHidden := a_hidden a |}.
Proof.
  unfold dispatch. rewrite find_warp_config_fixed.
  repeat (match goal with |- context [if ?c then _ else _] => destruct c end;
          try done).
  by intros [= <-].
Qed.

End HostFacts.

(** ** Index arithmetic *)

Lemma quot_rem_unique a b q r :
  0 <= r < b -> 0 <= q -> a = q * b + r -> a `quot` b = q /\ a `rem` b = r.
Proof.
  intros Hr Hq ->.
  rewrite Z.quot_div_nonneg, Z.rem_mod_nonneg by nia.
  split.
  - symmetry. apply (Z.div_unique _ _ q r); lia.
  - symmetry. apply (Z.mod_unique _ _ q r); lia.
Qed.

Lemma quot_rem_nonneg a b :
  0 <= a -> 0 < b ->
  0 <= a `quot` b /\ 0 <= a `rem` b < b /\ a = (a `quot` b) * b + a `rem` b.
Proof.
  intros Ha Hb. split_and!.
  - apply Z.quot_pos; lia.
  - apply Z.rem_bound_pos; lia.
  - apply Z.rem_bound_pos; lia.
  - pose proof (Z.quot_rem' a b). lia.
Qed.

(** A cell [l * R + s] of a [[L][R]] buffer determines [l] and [s]. *)
Lemma pair_index_inj R l s l' s' :
  0 <= s < R -> 0 <= s' < R -> l * R + s = l' * R + s' -> l = l' /\ s = s'.
Proof. intros Hs Hs' H. assert (l = l') by nia. split; [done|nia]. Qed.

Lemma omap_seqZ_unique {B} (h : Z -> option B) (n x : Z) (y : B) :
  0 <= x < n -> h x = Some y ->
  (forall z, 0 <= z < n -> z ≠ x -> h z = None) ->
  omap h (seqZ 0 n) = [y].
Proof.
  intros Hx Hy Hothers.
  replace n with (x + (1 + (n - x - 1))) by lia.
  rewrite seqZ_app by lia. rewrite (seqZ_app _ 1) by lia.
  rewrite !omap_app.
  rewrite (HostFacts.omap_none h (seqZ 0 x)).
  2:{ intros z Hz%elem_of_seqZ. apply Hothers; lia. }
  rewrite (HostFacts.omap_none h (seqZ (0 + x + 1) _)).
  2:{ intros z Hz%elem_of_seqZ. apply Hothers; lia. }
  change (seqZ (0 + x) 1) with [0 + x]. rewrite Z.add_0_l. simpl.
  by rewrite Hy.
Qed.

(** ** Delivery of the one-sided operations *)

Module DeliverFacts.

Import Dispatch World DispatchSpec WorldSpec.

Lemma map_result_Forall2 {A B} (f : A -> result B) (l : list A) (l' : list B) :
  map_result f l = Ok l' -> Forall2 (fun a b => f a = Ok b) l l'.
Proof.
  revert l'. induction l as [|a l IH]; intros l'; simpl.
  - intros [= <-]. constructor.
  - destruct (f a) as [b|g] eqn:E; simpl; [|done].
    destruct (map_result f l) as [bs|g] eqn:E'; simpl; [|done].
    intros [= <-]. constructor; [done|]. by apply IH.
Qed.

Lemma map_result_fault {A B} (f : A -> result B) (l : list A) (g : fault) :
  map_result f l = Fatal g -> exists a, a ∈ l /\ f a = Fatal g.
Proof.
  induction l as [|a l IH]; simpl; [done|].
  destruct (f a) as [b|g'] eqn:E; simpl.
  - destruct (map_result f l) as [bs|g'] eqn:E'; simpl; [done|].
    intros [= <-]. destruct IH as (x & Hx & Hf); [done|].
    exists x. split; [by right|done].
  - intros [= <-]. exists a. split; [by left|done].
Qed.

Lemma map_result_Ok {A B} (f : A -> result B) (l : list A) :
  (forall a, a ∈ l -> is_ok (f a) = true) -> exists l', map_result f l = Ok l'.
Proof.
  induction l as [|a l IH]; intros Hl; simpl; [eauto|].
  pose proof (Hl a ltac:(left)) as Ha.
  destruct (f a) as [b|g]; [|done]. simpl.
  destruct IH as [bs Hbs]; [intros x Hx; apply Hl; by right|].
  rewrite Hbs. simpl. eauto.
Qed.

Lemma launches_ok_lookup E R S ls r l :
  launches_ok E R S ls = true -> ls !! r = Some l ->
  launch_ok E R S (Z.of_nat r) l = true.
Proof.
  unfold launches_ok. intros [Hlen Hall]%andb_true_iff Hl.
  rewrite forallb_forall in Hall.
  apply (Hall (Z.of_nat r, l)).
  apply list_elem_of_In, list_elem_of_lookup. exists r.
  apply lookup_zip_Some. split; [|done].
  apply lookup_seqZ. split; [lia|].
  apply lookup_lt_Some in Hl. lia.
Qed.

Lemma contribs_app d i ops1 ops2 :
  contribs d i (ops1 ++ ops2) = contribs d i ops1 ++ contribs d i ops2.
Proof. apply omap_app. Qed.

Lemma contribs_puts d i ops :
  Forall (fun op => is_put op = true) ops -> contribs d i ops = [].
Proof.
  intros H. apply HostFacts.omap_none. intros op Hop.
  rewrite Forall_forall in H. specialize (H op Hop). by destruct op.
Qed.

(** What a rank finds in its memory once [ops] are delivered. *)
Lemma deliver_lookup ops : forall (w : list memory) (d : nat) (m : memory),
  w !! d = Some m ->
  exists m',
    deliver ops w !! d = Some m'
    /\ atomic_counter_per_expert m' = atomic_counter_per_expert m
    /\ packed_recv_count m' = packed_recv_count m
    /\ forall i, ld (rdma_recv_count m') i
                 = foldl (fun acc v => wrap32 (acc + v))
                         (ld (rdma_recv_count m) i)
                         (contribs (Z.of_nat d) i ops).
Proof.
  induction ops as [|op ops IH]; intros w d m Hw.
  - exists m. done.
  - simpl deliver. unfold deliver_op.
    destruct (0 <=? op_dst op) eqn:Edst;
      [apply Z.leb_le in Edst | apply Z.leb_gt in Edst].
    2:{ destruct (IH w d m Hw) as (m' & H1 & H2 & H3 & H4).
        exists m'. split_and!; try done. intros i. rewrite H4.
        unfold contribs. simpl. destruct op as [|d' i' v]; [done|].
        simpl in Edst. destruct (decide _) as [[-> _]|]; [lia|done]. }
    destruct (decide (Z.to_nat (op_dst op) = d)) as [Hd|Hd].
    + destruct (IH (alter (apply_op op) (Z.to_nat (op_dst op)) w) d (apply_op op m))
        as (m' & H1 & H2 & H3 & H4).
      { rewrite Hd, list_lookup_alter_eq, Hw. done. }
      exists m'. split_and!; try done.
      * rewrite H2. by destruct op.
      * rewrite H3. by destruct op.
      * intros i. rewrite H4. unfold contribs. simpl.
        destruct op as [|d' i' v]; [done|]. simpl in *.
        destruct (decide (d' = Z.of_nat d /\ i' = i)) as [[_ ->]|Hne]; simpl.
        -- by rewrite ld_insert_eq.
        -- rewrite ld_insert_ne; [done|]. intros ->. apply Hne. split; [lia|done].
    + destruct (IH (alter (apply_op op) (Z.to_nat (op_dst op)) w) d m)
        as (m' & H1 & H2 & H3 & H4).
      { by rewrite list_lookup_alter_ne. }
      exists m'. split_and!; try done. intros i. rewrite H4.
      unfold contribs. simpl. destruct op as [|d' i' v]; [done|].
      simpl in *. destruct (decide _) as [[-> _]|]; [|done].
      rewrite Nat2Z.id in Hd. done.
Qed.

Lemma deliver_length ops w : length (deliver ops w) = length w.
Proof.
  revert w. induction ops as [|op ops IH]; intros w; [done|].
  simpl. rewrite IH. unfold deliver_op.
  destruct (0 <=? op_dst op); [apply length_alter|done].
Qed.

End DeliverFacts.

Lemma omap_fmap {A B C} (g : B -> option C) (f : A -> B) (l : list A) :
  omap g (f <$> l) = omap (fun a => g (f a)) l.
Proof. induction l as [|a l IH]; [done|]. csimpl. by rewrite IH. Qed.

(** A loop over distinct indices, with an invariant that knows which indices
    were already visited. *)
Lemma for_each_inv_seq {A S} (Inv : list A -> S -> Prop)
    (body : A -> S -> result S) (l : list A) :
  forall visited s s',
    Inv visited s ->
    (forall pre a post t t',
        visited ++ l = pre ++ a :: post ->
        Inv pre t -> body a t = Ok t' -> Inv (pre ++ [a]) t') ->
    for_each l body s = Ok s' -> Inv (visited ++ l) s'.
Proof.
  induction l as [|a l IH]; intros visited s s' Hs Hstep; simpl.
  - intros [= <-]. by rewrite app_nil_r.
  - destruct (body a s) as [t|f] eqn:E; simpl; [|done].
    intros Hrest. replace (visited ++ a :: l) with ((visited ++ [a]) ++ l)
      by (by rewrite <-app_assoc).
    apply (IH (visited ++ [a]) t s'); [|..|done].
    + by apply (Hstep visited a l s t).
    + intros pre b post u u' Heq. apply (Hstep pre b post u u').
      rewrite <-Heq. by rewrite <-app_assoc.
Qed.

(** The same for a loop that is shown to complete. *)
Lemma for_each_ok_seq {A S} (Inv : list A -> S -> Prop)
    (body : A -> S -> result S) (l : list A) :
  forall visited s,
    Inv visited s ->
    (forall pre a post t,
        visited ++ l = pre ++ a :: post ->
        Inv pre t -> exists t', body a t = Ok t' /\ Inv (pre ++ [a]) t') ->
    exists s', for_each l body s = Ok s' /\ Inv (visited ++ l) s'.
Proof.
  induction l as [|a l IH]; intros visited s Hs Hstep; simpl.
  - exists s. by rewrite app_nil_r.
  - destruct (Hstep visited a l s) as (t & Ht & Hinv); [done..|].
    rewrite Ht. simpl.
    replace (visited ++ a :: l) with ((visited ++ [a]) ++ l)
      by (by rewrite <-app_assoc).
    apply IH; [done|].
    intros pre b post u Heq. apply (Hstep pre b post u).
    rewrite <-Heq. by rewrite <-app_assoc.
Qed.

Lemma NoDup_app_middle {A} (pre post : list A) (a : A) :
  NoDup (pre ++ a :: post) -> a ∉ pre.
Proof.
  intros H Ha. apply NoDup_app in H as (_ & H & _).
  apply (H a Ha). by left.
Qed.

(** ** The count sends of one rank *)

Module CountOps.

Import Dispatch World DispatchSpec WorldSpec DeliverFacts.

Lemma num_local_experts_eq (P : params) L R :
  num_ranks P = R -> num_experts P = L * R -> 0 < R ->
  num_local_experts P = L.
Proof.
  intros HR HE Hpos. unfold num_local_experts. rewrite HR, HE.
  apply Z.quot_mul. lia.
Qed.

(** With [E = L * R] the kernel always detects Pure EP mode. *)
Lemma divisible_is_pure (P : params) L R :
  num_ranks P = R -> num_experts P = L * R -> 0 < R -> 0 < L ->
  is_pure_ep_mode P = true.
Proof.
  intros HR HE HRpos HLpos. unfold is_pure_ep_mode.
  rewrite (num_local_experts_eq P L R) by done.
  rewrite HR, HE. rewrite Z.mul_comm, Z.quot_mul by lia. lia.
Qed.

Lemma contribs_count_ops (P : params) (m : memory) L R d l s :
  num_ranks P = R -> num_experts P = L * R -> 0 < L -> 0 < R ->
  0 <= rank P < R -> 0 <= d < R -> 0 <= l < L -> 0 <= s < R ->
  contribs d (l * R + s) (count_ops P m)
  = if decide (rank P = s) then [count_to_post P (d * L + l) m] else [].
Proof.
  intros HR HE HL HRpos Hrank Hd Hl Hs.
  unfold count_ops, contribs. rewrite omap_fmap.
  rewrite (num_local_experts_eq P L R) by done. rewrite HR, HE.
  destruct (decide (rank P = s)) as [Heq|Hne].
  - apply (omap_seqZ_unique _ _ (d * L + l)).
    + nia.
    + destruct (quot_rem_unique (d * L + l) L d l) as [-> ->]; [lia..|].
      rewrite Heq. by rewrite decide_True.
    + intros e He Hne. destruct (quot_rem_nonneg e L) as (Hq & Hr & Hsplit); [lia..|].
      rewrite decide_False; [done|]. intros [H1 H2].
      apply pair_index_inj in H2 as [H2 _]; [|lia..]. apply Hne. lia.
  - apply HostFacts.omap_none. intros e He%elem_of_seqZ.
    rewrite decide_False; [done|]. intros [H1 H2].
    apply pair_index_inj in H2 as [_ H2]; [|lia..]. done.
Qed.

Lemma count_to_post_cell (P : params) (m : memory) e S :
  0 <= ld (atomic_counter_per_expert m) (e * num_ranks P + rank P) <= S ->
  S <= INT_MAX ->
  count_to_post P e m
  = - ld (atomic_counter_per_expert m) (e * num_ranks P + rank P) - 1.
Proof.
  intros Hc HS. apply (CountFacts.count_to_post_nonneg P e m); [done|lia].
Qed.

End CountOps.

(** ** The receive phase of a launch *)

Module RecvFacts.

Import Dispatch World DispatchSpec WorldSpec.

Lemma bind_Ok_inv {A B} (r : result A) (k : A -> result B) (b : B) :
  (r ≫= k) = Ok b -> exists a, r = Ok a /\ k a = Ok b.
Proof. destruct r as [a|f]; simpl; [eauto|done]. Qed.

Lemma for_each_singleton {A S} (a : A) (body : A -> S -> result S) s :
  for_each [a] body s = body a s.
Proof. simpl. by destruct (body a s). Qed.

Section Block.

Variable P : params.
Variable I : inputs.

(** The three ways out of the wait and the reservation. *)
Lemma recv_reserve_cases l s (m : memory) (evs : list event) :
  let idx := l * num_ranks P + s in
  let v := ld (rdma_recv_count m) idx in
  let n := decode_count v in
  let begin := ld (packed_recv_count m) idx in
  if v =? 0 then recv_reserve P l s (m, evs) = Fatal CountTimeout
  else if wrap32 (begin + n) >? num_max_dispatch_tokens_per_rank P
  then recv_reserve P l s (m, evs) = Fatal RecvOverflow
  else recv_reserve P l s (m, evs) =
       Ok (set_reservation m
             (<[idx := wrap32 (begin + n)]> (packed_recv_count m))
             (<[idx := pack2 n begin]> (packed_recv_layout_range m))
             ((fun b => snd (atomicAdd b l n))
                <$> cumulative_local_expert_recv_stats m),
           evs ++ [EvPoll idx v], n, begin).
Proof.
  intros idx v n begin. unfold recv_reserve, poll_quiescent.
  fold idx. fold v. destruct (v =? 0) eqn:E; simpl; [done|].
  rewrite E. simpl. fold n. unfold atomicAdd. fold begin.
  destruct (wrap32 (begin + n) >? _); done.
Qed.

Lemma recv_copy_token_frame l s begin i (m m' : memory) :
  recv_copy_token P I l s begin i m = Ok m' ->
  rdma_recv_count m' = rdma_recv_count m
  /\ packed_recv_count m' = packed_recv_count m.
Proof.
  unfold recv_copy_token.
  destruct (_ >=? _); [done|]. destruct (kUseFP8 P); by intros [= <-].
Qed.

Lemma recv_warp_group_spec l s g (m m' : memory) (evs evs' : list event) :
  recv_warp_group P I l s g (m, evs) = Ok (m', evs') ->
  let idx := l * num_ranks P + s in
  let v := ld (rdma_recv_count m) idx in
  let total := wrap32 (ld (packed_recv_count m) idx + decode_count v) in
  v ≠ 0
  /\ total <= num_max_dispatch_tokens_per_rank P
  /\ rdma_recv_count m' = rdma_recv_count m
  /\ packed_recv_count m' = <[idx := total]> (packed_recv_count m).
Proof.
  intros H idx v total. unfold recv_warp_group in H.
  pose proof (recv_reserve_cases l s m evs) as C. cbv zeta in C.
  fold idx in C. fold v in C. fold total in C.
  destruct (v =? 0) eqn:Ev; [by rewrite C in H|].
  destruct (total >? _) eqn:Et; [by rewrite C in H|].
  rewrite C in H. simpl in H.
  split; [lia|]. split; [lia|].
  destruct (decode_count v =? 0); [by injection H as <- _|].
  destruct (negb _); [done|].
  apply bind_Ok_inv in H as (m1 & Hcopy & [= <- _]).
  revert Hcopy.
  set (Inv := fun x : memory =>
           rdma_recv_count x = rdma_recv_count m
           /\ packed_recv_count x = <[idx := total]> (packed_recv_count m)).
  apply (for_each_inv Inv); [done|].
  intros sw u u' _ Hu.
  apply (for_each_inv Inv); [done|].
  intros i x x' _ [Hx1 Hx2] Hx.
  apply recv_copy_token_frame in Hx as [Hy1 Hy2].
  split; congruence.
Qed.

Hypothesis one_warp_group : num_warp_groups P = 1.

Lemma dispatch_recv_block_spec b (m m' : memory) (evs evs' : list event) :
  should_process P I = true ->
  0 < num_ranks P ->
  0 <= b < num_local_experts P * num_ranks P ->
  dispatch_recv_block P I b (m, evs) = Ok (m', evs') ->
  let v := ld (rdma_recv_count m) b in
  let total := wrap32 (ld (packed_recv_count m) b + decode_count v) in
  v ≠ 0
  /\ total <= num_max_dispatch_tokens_per_rank P
  /\ rdma_recv_count m' = rdma_recv_count m
  /\ packed_recv_count m' = <[b := total]> (packed_recv_count m).
Proof.
  intros Hsp HR Hb. unfold dispatch_recv_block. rewrite Hsp.
  replace (b <? num_local_experts P * num_ranks P) with true by lia. simpl.
  destruct (negb _); [done|]. destruct (negb _); [done|].
  rewrite one_warp_group. change (seqZ 0 1) with [0].
  rewrite for_each_singleton. intros H.
  apply recv_warp_group_spec in H.
  destruct (quot_rem_nonneg b (num_ranks P)) as (_ & _ & Hsplit); [lia..|].
  rewrite <-Hsplit in H. exact H.
Qed.

End Block.

End RecvFacts.

(** ** A dispatch on all ranks *)

Module WorldFacts.

Import Dispatch World Host DispatchSpec WorldSpec.
Import DeliverFacts CountOps RecvFacts.

Section Run.

Variable NW : Z.
Variable SH : Z -> bool.
Variables E R L S : Z.

Hypothesis R_pos : 0 < R.
Hypothesis L_pos : 0 < L.
Hypothesis E_split : E = L * R.
Hypothesis S_int : 0 <= S <= INT_MAX.

(** The kernel arguments of a well-formed launch. *)
Lemma launch_params_facts (l : launch) (r : Z) (P : params) :
  launch_ok E R S r l = true -> launch_params NW SH l = Ok P ->
  num_experts P = E /\ num_ranks P = R
  /\ num_max_dispatch_tokens_per_rank P = S /\ rank P = r
  /\ num_warp_groups P = 1 /\ num_warps_per_group P = 32 /\ phases P = 3.
Proof.
  unfold launch_ok, launch_params.
  intros ((((H1 & H2)%andb_true_iff & H3)%andb_true_iff
           & H4)%andb_true_iff & H5)%andb_true_iff.
  destruct (dispatch NW SH (l_args l)) as [P'|] eqn:HP; [|done].
  destruct (layout_asserts P'); [|done].
  intros [= ->]. apply HostFacts.dispatch_Some in HP. subst P. simpl.
  repeat split; lia.
Qed.

Lemma rank_send_eq lm :
  rank_send NW SH lm
  = (launch_params NW SH lm.1 ≫= fun P => dispatch_send_phase P (l_inputs lm.1) lm.2).
Proof. reflexivity. Qed.

Lemma rank_recv_eq lm :
  rank_recv NW SH lm
  = (launch_params NW SH lm.1 ≫= fun P => dispatch_recv_phase P (l_inputs lm.1) lm.2).
Proof. reflexivity. Qed.

Lemma rank_send_inv (l : launch) (m : memory) s :
  rank_send NW SH (l, m) = Ok s ->
  exists P, launch_params NW SH l = Ok P
            /\ dispatch_send_phase P (l_inputs l) m = Ok s.
Proof.
  intros Hsend. rewrite rank_send_eq in Hsend.
  destruct (launch_params NW SH (l, m).1) as [P|] eqn:HP; [|discriminate Hsend].
  exists P. split; [exact HP|exact Hsend].
Qed.

Lemma rank_recv_inv (l : launch) (m : memory) x :
  rank_recv NW SH (l, m) = Ok x ->
  exists P, launch_params NW SH l = Ok P
            /\ dispatch_recv_phase P (l_inputs l) m = Ok x.
Proof.
  intros Hrecv. rewrite rank_recv_eq in Hrecv.
  destruct (launch_params NW SH (l, m).1) as [P|] eqn:HP; [|discriminate Hrecv].
  exists P. split; [exact HP|exact Hrecv].
Qed.

Lemma rank_send_facts (l : launch) (r : Z) (m : memory) (s : send_state) :
  launch_ok E R S r l = true -> clean m -> rank_send NW SH (l, m) = Ok s ->
  exists P puts,
    launch_params NW SH l = Ok P
    /\ send_inv P m {| ss_mem := ss_mem s; ss_log := ss_log s; ss_out := puts |}
    /\ ss_out s = puts ++ count_ops P (ss_mem s).
Proof.
  intros Hok (Hz & _ & _) Hsend.
  apply rank_send_inv in Hsend as (P & HP & Hsend).
  destruct (launch_params_facts l r P Hok HP)
    as (HE & HR & HS & Hr & Hwg & Hwpg & Hph).
  assert (Hcap : 0 <= num_max_dispatch_tokens_per_rank P <= INT_MAX)
    by (rewrite HS; exact S_int).
  assert (Hbit : Z.land (phases P) LOW_LATENCY_SEND_PHASE ≠ 0)
    by (rewrite Hph; vm_compute; discriminate).
  destruct (SendPhase.send_phase_spec P (l_inputs l) m Hcap s Hz Hbit Hsend)
    as (puts & Hinv & Hout).
  exists P, puts. split; [exact HP|]. split; [exact Hinv|exact Hout].
Qed.

(** The receive phase reserves, for every pair, what the count cell of
    the pair decodes to. *)
Lemma recv_phase_spec (P : params) (I : inputs) (m m' : memory)
    (evs' : list event) :
  num_experts P = E -> num_ranks P = R ->
  num_max_dispatch_tokens_per_rank P = S ->
  num_warp_groups P = 1 -> phases P = 3 ->
  should_process P I = true ->
  zeroed (packed_recv_count m) ->
  dispatch_recv_phase P I m = Ok (m', evs') ->
  forall b, 0 <= b < E ->
    ld (rdma_recv_count m) b ≠ 0
    /\ ld (packed_recv_count m') b = decode_count (ld (rdma_recv_count m) b)
    /\ decode_count (ld (rdma_recv_count m) b) <= S.
Proof.
  intros HE HR HS Hwg Hph Hsp Hz. unfold dispatch_recv_phase.
  rewrite Hph. change (Z.land 3 LOW_LATENCY_RECV_PHASE =? 0) with false.
  unfold gridDim. rewrite HE.
  set (Inv := fun (visited : list Z) (st : memory * list event) =>
    rdma_recv_count st.1 = rdma_recv_count m
    /\ (forall j, j ∉ visited -> ld (packed_recv_count st.1) j = 0)
    /\ (forall j, j ∈ visited ->
          ld (rdma_recv_count m) j ≠ 0
          /\ ld (packed_recv_count st.1) j
             = decode_count (ld (rdma_recv_count m) j)
          /\ decode_count (ld (rdma_recv_count m) j) <= S)).
  intros Hrun.
  assert (Inv ([] ++ seqZ 0 E) (m', evs')) as (_ & _ & Hfin).
  { revert Hrun. apply (for_each_inv_seq Inv).
    - split_and!; [done| |]. { intros j _. apply Hz. }
      intros j Hj. by apply not_elem_of_nil in Hj.
    - intros pre a post [t tev] [t' tev'] Hsplit (Hrc & Hfresh & Hdone) Hstep.
      simpl in Hsplit, Hrc, Hfresh, Hdone.
      assert (a ∈ seqZ 0 E) as Ha
        by (rewrite Hsplit; apply elem_of_app; right; left).
      apply elem_of_seqZ in Ha.
      assert (a ∉ pre) as Hnew.
      { apply (NoDup_app_middle pre post). rewrite <-Hsplit. apply NoDup_seqZ. }
      apply (dispatch_recv_block_spec P I Hwg) in Hstep
        as (Hv & Htot & Hrc' & Hpc'); try done.
      2:{ rewrite HR. done. }
      2:{ rewrite (num_local_experts_eq P L R), HR by (rewrite ?HE; done). lia. }
      cbv zeta in Hv, Htot, Hpc'. cbn [fst snd] in Hv, Htot, Hrc', Hpc'.
      rewrite Hrc in Hv, Htot, Hpc'.
      rewrite (Hfresh a Hnew), Z.add_0_l in Htot, Hpc'.
      rewrite (wrap32_id (decode_count _)) in Htot, Hpc' by apply wrap32_range.
      unfold Inv. simpl. split_and!.
      + congruence.
      + intros j Hj. rewrite Hpc'.
        rewrite ld_insert_ne by (intros ->; apply Hj, elem_of_app; right; left).
        apply Hfresh. intros Hin. apply Hj, elem_of_app. by left.
      + intros j [Hj|Hj%list_elem_of_singleton]%elem_of_app.
        * rewrite Hpc', ld_insert_ne by (intros ->; done). by apply Hdone.
        * subst j. rewrite Hpc', ld_insert_eq. rewrite HS in Htot. done. }
  intros b Hb. apply Hfin. simpl. apply elem_of_seqZ. lia.
Qed.

Lemma contribs_concat_unique d i (outs : list (list net_op)) (r : nat) o :
  outs !! r = Some o ->
  (forall j o', outs !! j = Some o' -> j ≠ r -> contribs d i o' = []) ->
  contribs d i (concat outs) = contribs d i o.
Proof.
  revert r. induction outs as [|x outs IH]; intros r Hr Hothers; [done|].
  simpl. rewrite contribs_app. destruct r as [|r]; simpl in Hr.
  - injection Hr as ->.
    assert (contribs d i (concat outs) = []) as ->; [|by rewrite app_nil_r].
    clear IH. induction outs as [|y outs IH]; [done|].
    simpl. rewrite contribs_app.
    rewrite (Hothers 1%nat y) by done.
    rewrite IH; [done|]. intros [|j] o' Ho' Hj; [done|].
    apply (Hothers (Datatypes.S (Datatypes.S j)) o'); done.
  - rewrite (Hothers 0%nat x) by done. simpl.
    apply (IH r); [done|]. intros j o' Ho' Hj.
    apply (Hothers (Datatypes.S j) o'); [done|lia].
Qed.

Lemma bind_Ok {A B} (a : A) (k : A -> result B) : (Ok a ≫= k) = k a.
Proof. reflexivity. Qed.

Lemma send_inv_frame (P : params) (m : memory) (s : send_state) :
  send_inv P m s ->
  rdma_recv_count (ss_mem s) = rdma_recv_count m
  /\ packed_recv_count (ss_mem s) = packed_recv_count m.
Proof. intros (-> & _). done. Qed.

(** What the send phases of a dispatch leave behind, rank by rank. *)
Lemma senders (ls : list launch) (w : list memory) (sends : list send_state) :
  launches_ok E R S ls = true -> Forall clean w ->
  Forall2 (fun lm s => rank_send NW SH lm = Ok s) (zip ls w) sends ->
  forall j sj, sends !! j = Some sj ->
    exists lj mj P puts,
      ls !! j = Some lj /\ w !! j = Some mj /\ clean mj
      /\ launch_params NW SH lj = Ok P
      /\ num_experts P = E /\ num_ranks P = R
      /\ num_max_dispatch_tokens_per_rank P = S /\ rank P = Z.of_nat j
      /\ send_inv P mj {| ss_mem := ss_mem sj; ss_log := ss_log sj;
                          ss_out := puts |}
      /\ ss_out sj = puts ++ count_ops P (ss_mem sj).
Proof.
  intros Hok Hclean Hsends j sj Hj.
  destruct (Forall2_lookup_r _ _ _ _ _ Hsends Hj) as ([lj mj] & Hzip & Hsend).
  apply lookup_zip_Some in Hzip as [Hlj Hmj].
  pose proof (launches_ok_lookup E R S ls j lj Hok Hlj) as Hlok.
  assert (clean mj) as Hc by (eapply Forall_lookup_1; eauto).
  destruct (rank_send_facts lj (Z.of_nat j) mj sj Hlok Hc Hsend)
    as (P & puts & HP & Hinv & Hout).
  destruct (launch_params_facts lj (Z.of_nat j) P Hlok HP)
    as (HE & HR & HS & Hr & _).
  exists lj, mj, P, puts. split_and!; done.
Qed.

Lemma launches_length (ls : list launch) :
  launches_ok E R S ls = true -> Z.of_nat (length ls) = R.
Proof. unfold launches_ok. intros [H _]%andb_true_iff. lia. Qed.

Lemma owner_range e :
  0 <= e < E ->
  0 <= e `quot` L < R /\ 0 <= e `rem` L < L
  /\ e = (e `quot` L) * L + e `rem` L.
Proof.
  intros He. destruct (quot_rem_nonneg e L) as (H1 & H2 & H3); [lia..|].
  split_and!; try lia. apply Z.quot_lt_upper_bound; lia.
Qed.

(** The count cell of the pair [(e, r)] on the owner of [e] receives one
    atomic add: the encoded final counter of rank [r]. *)
Lemma delivered_count (ls : list launch) (w : list memory)
    (sends : list send_state) e r sr :
  launches_ok E R S ls = true -> length w = length ls -> Forall clean w ->
  Forall2 (fun lm s => rank_send NW SH lm = Ok s) (zip ls w) sends ->
  0 <= e < E -> 0 <= r < R ->
  sends !! Z.to_nat r = Some sr ->
  contribs (e `quot` L) (e `rem` L * R + r) (concat (ss_out <$> sends))
  = [- increments (ss_log sr) (e * R + r) - 1]
  /\ 0 <= increments (ss_log sr) (e * R + r) <= S.
Proof.
  intros Hok Hlen Hclean Hsends He Hr Hsr.
  destruct (owner_range e He) as (Hd & Hl & Hsplit).
  pose proof (launches_length ls Hok) as HlenR.
  assert (Hlens : length sends = length ls).
  { apply Forall2_length in Hsends. rewrite length_zip in Hsends. lia. }
  assert (Hcontrib : forall j sj, sends !! j = Some sj ->
            contribs (e `quot` L) (e `rem` L * R + r) (ss_out sj)
            = if decide (Z.of_nat j = r)
              then [- increments (ss_log sj) (e * R + r) - 1] else []).
  { intros j sj Hj.
    destruct (senders ls w sends Hok Hclean Hsends j sj Hj)
      as (lj & mj & P & puts & Hlj & Hmj & Hc & HP & HE & HR & HS & Hrk
          & Hinv & Hout).
    rewrite Hout, contribs_app.
    rewrite contribs_puts by (destruct Hinv as (_ & _ & _ & H); exact H).
    simpl app.
    rewrite (contribs_count_ops P (ss_mem sj) L R); try done; try lia.
    2:{ rewrite Hrk. apply lookup_lt_Some in Hj. lia. }
    rewrite Hrk. destruct (decide (Z.of_nat j = r)) as [Hjr|]; [|done].
    f_equal. rewrite <-Hsplit.
    destruct Hinv as (_ & Hlog & Hcap & _). simpl in Hlog, Hcap.
    rewrite (count_to_post_cell P (ss_mem sj) e S).
    - rewrite HR, Hrk, Hjr. by rewrite Hlog.
    - rewrite <-HS. apply Hcap.
    - lia. }
  split.
  - rewrite (contribs_concat_unique _ _ (ss_out <$> sends) (Z.to_nat r) (ss_out sr)).
    + rewrite (Hcontrib _ _ Hsr). rewrite decide_True by lia. done.
    + by rewrite list_lookup_fmap, Hsr.
    + intros j o' Ho' Hj. rewrite list_lookup_fmap in Ho'.
      destruct (sends !! j) as [sj|] eqn:Hsj; [|done].
      injection Ho' as <-. rewrite (Hcontrib _ _ Hsj).
      rewrite decide_False by lia. done.
  - destruct (senders ls w sends Hok Hclean Hsends _ sr Hsr)
      as (lj & mj & P & puts & Hlj & Hmj & Hc & HP & HE & HR & HS & Hrk
          & Hinv & Hout).
    destruct Hinv as (_ & Hlog & Hcap & _). simpl in Hlog, Hcap.
    rewrite <-Hlog, <-HS. apply Hcap.
Qed.

(** The state of the world between the two phases of a dispatch and
    after it. *)
Lemma dispatch_all_inv (ls : list launch) (w : list memory) (o : outcome) :
  dispatch_all NW SH ls w = Ok o ->
  exists sends recvs,
    Forall2 (fun lm s => rank_send NW SH lm = Ok s) (zip ls w) sends
    /\ Forall2 (fun lm x => rank_recv NW SH lm = Ok x)
         (zip ls (deliver (concat (ss_out <$> sends)) (ss_mem <$> sends)))
         recvs
    /\ o_world o = fst <$> recvs
    /\ o_logs o = ss_log <$> sends.
Proof.
  unfold dispatch_all. intros Hrun.
  destruct (map_result (rank_send NW SH) (zip ls w)) as [sends|] eqn:Hsends;
    [|discriminate Hrun].
  rewrite bind_Ok in Hrun.
  destruct (map_result (rank_recv NW SH) _) as [recvs|] eqn:Hrecvs;
    [|discriminate Hrun].
  rewrite bind_Ok in Hrun. injection Hrun as <-.
  exists sends, recvs. split_and!; [| |done..].
  - by apply map_result_Forall2.
  - by apply map_result_Forall2.
Qed.

(** C3, amended.  After a dispatch with both phases on all ranks, started
    from zeroed protocol buffers, for every expert [e] and source rank
    [r]: if the rank owning [e] was launched with
    [num_recv_tokens_per_rank[rank] > 0], then its
    [packed_recv_count[e_local * R + r]] equals the number of atomic
    increments rank [r] performed on [counter[e * R + r]], and that
    number is at most the capacity. *)
Theorem packed_recv_count_matches_increments
    (ls : list launch) (w : list memory) (o : outcome) :
  launches_ok E R S ls = true ->
  length w = length ls -> Forall clean w ->
  dispatch_all NW SH ls w = Ok o ->
  forall e r lo,
    0 <= e < E -> 0 <= r < R ->
    ls !! Z.to_nat (e `quot` L) = Some lo ->
    ld (num_recv_tokens_per_rank (l_inputs lo)) (e `quot` L) > 0 ->
    exists md log,
      o_world o !! Z.to_nat (e `quot` L) = Some md
      /\ o_logs o !! Z.to_nat r = Some log
      /\ ld (packed_recv_count md) (e `rem` L * R + r)
         = increments log (e * R + r)
      /\ increments log (e * R + r) <= S.
Proof.
  intros Hok Hlen Hclean Hrun e r lo He Hr Hlo Hsp.
  destruct (dispatch_all_inv ls w o Hrun)
    as (sends & recvs & Hsends & Hrecvs & Hworld & Hlogs).
  destruct (owner_range e He) as (Hd & Hl & Hsplit).
  pose proof (launches_length ls Hok) as HlenR.
  assert (Hlens : length sends = length ls).
  { apply Forall2_length in Hsends. rewrite length_zip in Hsends. lia. }
  set (d := Z.to_nat (e `quot` L)) in *.
  (* the sender *)
  destruct (lookup_lt_is_Some_2 sends (Z.to_nat r)) as [sr Hsr]; [lia|].
  destruct (delivered_count ls w sends e r sr) as [Hcontrib Hrange]; try done.
  (* the owner, after its own send phase *)
  destruct (lookup_lt_is_Some_2 sends d) as [sd Hsd]; [unfold d; lia|].
  destruct (senders ls w sends Hok Hclean Hsends d sd Hsd)
    as (ld' & md0 & Pd & puts & Hld & Hmd0 & Hcd & HPd & HEd & HRd & HSd & Hrkd
        & Hinvd & Houtd).
  assert (ld' = lo) as -> by congruence.
  apply send_inv_frame in Hinvd as [Hrc0 Hpc0]. simpl in Hrc0, Hpc0.
  (* the owner, after delivery *)
  destruct (deliver_lookup (concat (ss_out <$> sends)) (ss_mem <$> sends) d
                           (ss_mem sd))
    as (m2 & Hm2 & _ & Hpc2 & Hrc2); [by rewrite list_lookup_fmap, Hsd|].
  specialize (Hrc2 (e `rem` L * R + r)).
  unfold d in Hrc2. rewrite Z2Nat.id in Hrc2 by lia. fold d in Hrc2.
  rewrite Hcontrib, Hrc0 in Hrc2. simpl in Hrc2.
  destruct Hcd as (_ & Hzrc & Hzpc). rewrite Hzrc, Z.add_0_l in Hrc2.
  (* the owner's receive phase *)
  destruct (Forall2_lookup_l _ _ _ d (lo, m2) Hrecvs) as ([md evs] & Hmd & Hrecv).
  { apply lookup_zip_Some. done. }
  apply rank_recv_inv in Hrecv as (Pd' & HPd' & Hrecv).
  assert (Pd' = Pd) as -> by congruence.
  pose proof (launches_ok_lookup E R S ls d lo Hok Hlo) as Hlok.
  destruct (launch_params_facts lo (Z.of_nat d) Pd Hlok HPd)
    as (_ & _ & _ & _ & Hwg & _ & Hph).
  destruct (recv_phase_spec Pd (l_inputs lo) m2 md evs HEd HRd HSd Hwg Hph)
    with (b := e `rem` L * R + r) as (_ & Hfinal & _); try done.
  - unfold should_process. rewrite Hrkd. unfold d.
    rewrite Z2Nat.id by lia. lia.
  - intros j. rewrite Hpc2, Hpc0. apply Hzpc.
  - nia.
  - exists md, (ss_log sr). split_and!.
    + by rewrite Hworld, list_lookup_fmap, Hmd.
    + by rewrite Hlogs, list_lookup_fmap, Hsr.
    + rewrite Hfinal, Hrc2. apply CountFacts.decode_encode. lia.
    + lia.
Qed.

End Run.

End WorldFacts.

(** ** The count encoding end to end *)

Module Handshake.

Import Dispatch World DispatchSpec CountFacts RecvFacts.


(** C9.  Every count a completed send phase posts is at most [-1] and
    decodes to a non-negative number of tokens, provided the slot counters
    started at zero; in Pure EP mode the posted count is at most [-1]
    whatever [int] the counter cell holds, negative ones included. *)
Theorem posted_counts_negative (P : params) (I : inputs) :
  0 <= num_max_dispatch_tokens_per_rank P <= INT_MAX ->
  (forall (m : memory) (s : send_state),
      zeroed (atomic_counter_per_expert m) ->
      dispatch_send_phase P I m = Ok s ->
      forall dst_rank offset v,
        AddCount dst_rank offset v ∈ ss_out s ->
        v <= -1 /\ 0 <= decode_count v)
  /\ (is_pure_ep_mode P = true ->
      forall (m : memory) e,
        in_int32 (ld (atomic_counter_per_expert m) (e * num_ranks P + rank P)) ->
        count_to_post P e m <= -1 /\ 0 <= decode_count (count_to_post P e m)).
Proof.
  intros Hcap. split.
  - intros m s Hz Hrun d off v Hin.
    destruct (Z.land (phases P) LOW_LATENCY_SEND_PHASE =? 0) eqn:Hph.
    { unfold dispatch_send_phase in Hrun. rewrite Hph in Hrun.
      injection Hrun as <-. simpl in Hin. by apply elem_of_nil in Hin. }
    destruct (SendPhase.send_phase_spec P I m Hcap s Hz ltac:(lia) Hrun)
      as (puts & (_ & _ & Hcells & Hputs) & Hout).
    simpl in Hcells, Hputs. rewrite Hout in Hin.
    apply elem_of_app in Hin as [Hin|Hin].
    { rewrite Forall_forall in Hputs. by apply Hputs in Hin. }
    unfold count_ops in Hin. apply list_elem_of_fmap in Hin as (e & Heq & _).
    injection Heq as _ _ ->.
    rewrite (CountOps.count_to_post_cell P (ss_mem s) e
               (num_max_dispatch_tokens_per_rank P)); [|apply Hcells|lia].
    specialize (Hcells (e * num_ranks P + rank P)).
    split; [lia|].
    rewrite <-(wrap32_id (- _ - 1))
      by (unfold in_int32, INT_MIN, INT_MAX in *; lia).
    rewrite decode_encode; lia.
  - intros Hpure m e Hint. unfold count_to_post. rewrite Hpure. simpl.
    set (c := ld _ _) in *.
    destruct (c <? 0) eqn:Hc.
    + change (wrap32 (- 0 - 1)) with (-1). split; [lia|]. by vm_compute.
    + assert (0 <= c <= INT_MAX) by (unfold in_int32 in Hint; lia).
      rewrite decode_encode by done.
      rewrite wrap32_id; unfold in_int32, INT_MIN, INT_MAX in *; lia.
Qed.

End Handshake.

(** ** The round-robin partition of the tokens over the warps *)

Lemma elem_of_strided start bound step x :
  0 < step ->
  x ∈ strided start bound step <->
  exists i, 0 <= i /\ x = start + i * step /\ x < bound.
Proof.
  intros Hstep. unfold strided. rewrite list_elem_of_fmap.
  setoid_rewrite elem_of_seqZ. split.
  - intros (i & -> & Hi). exists i. split_and!; [lia|done|].
    assert (i + 1 <= (bound - start + step - 1) `div` step) as Hle by lia.
    assert ((i + 1) * step <= bound - start + step - 1); [|lia].
    etrans; [apply Z.mul_le_mono_nonneg_r; [lia|exact Hle]|].
    rewrite Z.mul_comm. apply Z.mul_div_le. lia.
  - intros (i & Hi & -> & Hlt). exists i. split; [done|]. split; [lia|].
    assert (i + 1 <= (bound - start + step - 1) `div` step); [|lia].
    apply Z.div_le_lower_bound; lia.
Qed.

Lemma NoDup_strided start bound step : 0 < step -> NoDup (strided start bound step).
Proof.
  intros Hstep. unfold strided. apply NoDup_fmap_2_strong; [|apply NoDup_seqZ].
  intros i j _ _ H. nia.
Qed.

(** Every index below [bound] is visited by exactly one of the [step] strided
    loops that start at [0 .. step - 1]. *)
Lemma strided_partition bound step :
  0 < step ->
  (seqZ 0 step ≫= fun w => strided w bound step) ≡ₚ seqZ 0 bound.
Proof.
  intros Hstep. apply NoDup_Permutation.
  - apply NoDup_bind; [| |apply NoDup_seqZ].
    + intros w1 w2 y Hw1%elem_of_seqZ Hw2%elem_of_seqZ
        (i1 & Hi1 & -> & _)%elem_of_strided (i2 & Hi2 & Heq & _)%elem_of_strided;
        [|done..].
      assert (i1 = i2) by nia. nia.
    + intros w _. by apply NoDup_strided.
  - apply NoDup_seqZ.
  - intros x. rewrite list_elem_of_bind, elem_of_seqZ. split.
    + intros (w & (i & Hi & -> & Hlt)%elem_of_strided & Hw%elem_of_seqZ); [|done].
      nia.
    + intros Hx. exists (x mod step). split.
      * apply elem_of_strided; [done|]. exists (x `div` step).
        split; [apply Z.div_pos; lia|]. split; [|lia].
        pose proof (Z.div_mod x step). lia.
      * apply elem_of_seqZ. pose proof (Z.mod_pos_bound x step). lia.
Qed.

Lemma list_bind_assoc {A B C} (f : A -> list B) (g : B -> list C) (l : list A) :
  (l ≫= f) ≫= g = l ≫= (fun a => f a ≫= g).
Proof.
  induction l as [|a l IH]; [done|].
  rewrite !bind_cons, bind_app. by rewrite IH.
Qed.

Lemma for_each_bind {A B S} (g : A -> list B) (body : B -> S -> result S)
    (l : list A) s :
  for_each (l ≫= g) body s = for_each l (fun a => for_each (g a) body) s.
Proof.
  revert s. induction l as [|a l IH]; intros s; [done|].
  rewrite bind_cons, for_each_app. simpl.
  destruct (for_each (g a) body s); simpl; [apply IH|done].
Qed.

Lemma for_each_ext {A S} (body1 body2 : A -> S -> result S) (l : list A) s :
  (forall a t, body1 a t = body2 a t) -> for_each l body1 s = for_each l body2 s.
Proof.
  intros H. revert s. induction l as [|a l IH]; intros s; [done|].
  simpl. rewrite H. destruct (body2 a s); simpl; [apply IH|done].
Qed.

Module ScheduleFacts.

Import Dispatch DispatchSpec.

Section Block.

Variable P : params.
Variable I : inputs.

Lemma count_selected_app e l1 l2 :
  count_selected P I e (l1 ++ l2)
  = count_selected P I e l1 + count_selected P I e l2.
Proof. unfold count_selected. rewrite filter_app, length_app. lia. Qed.

Lemma count_selected_nonneg e l : 0 <= count_selected P I e l.
Proof. unfold count_selected. lia. Qed.

Lemma count_selected_cons e t k l :
  count_selected P I e ((t, k) :: l)
  = (if entry_selected P I e t k then 1 else 0) + count_selected P I e l.
Proof.
  unfold count_selected. destruct (entry_selected P I e t k) eqn:Hsel.
  - rewrite filter_cons_True by exact Hsel. simpl length. lia.
  - rewrite filter_cons_False by (simpl; congruence). lia.
Qed.

(** The send loops of a block visit the entries of [send_schedule]. *)
Lemma send_tokens_block_schedule e s :
  kHidden P `rem` 8 = 0 ->
  send_tokens_block P I e s
  = for_each (send_schedule P)
             (fun tk => send_topk_entry P I e tk.1 tk.2) s.
Proof.
  intros Hal. unfold send_tokens_block, send_schedule.
  rewrite for_each_bind. apply for_each_ext. intros w t.
  unfold send_warp. rewrite Hal. simpl negb. cbv iota.
  rewrite for_each_bind. apply for_each_ext. intros tok u.
  unfold send_token. rewrite for_each_bind. apply for_each_ext. intros k v.
  by rewrite RecvFacts.for_each_singleton.
Qed.

(** The two schedules hold the same entries. *)
Lemma schedules_agree e :
  0 < num_warps P - 1 ->
  count_selected P I e (send_schedule P) = count_selected P I e (scan_schedule P).
Proof.
  intros Hw. unfold count_selected, send_schedule, scan_schedule.
  rewrite <-(list_bind_assoc (fun w => strided w (num_tokens P) (num_warps P - 1))).
  by rewrite (strided_partition (num_tokens P) (num_warps P - 1)).
Qed.

(** The token-drop detector counts the selected entries of its scan. *)
Lemma expected_count_scan e :
  expected_count P I e = count_selected P I e (scan_schedule P).
Proof.
  unfold expected_count, scan_schedule.
  assert (Hinner : forall t ks acc,
    foldl (fun expected_count k =>
      let idx := static_cast_int (ld (topk_idx I) (t * num_topk P + k)) in
      if idx <? 0 then expected_count
      else if idx =? e then
        if negb (is_pure_ep_mode P) then expected_count + 1
        else if t `rem` num_ranks P =? rank P
             then expected_count + 1 else expected_count
      else expected_count) acc ks
    = acc + count_selected P I e (ks ≫= fun k => [(t, k)])).
  { intros t ks. induction ks as [|k ks IH]; intros acc.
    - unfold count_selected. simpl. lia.
    - rewrite bind_cons. simpl foldl. rewrite IH.
      rewrite count_selected_app.
      set (X := count_selected P I e (ks ≫= _)).
      rewrite (count_selected_cons e t k []).
      change (count_selected P I e []) with 0.
      unfold entry_selected. cbv zeta.
      set (idx := static_cast_int _).
      rewrite (Z.eqb_sym (rank P)).
      destruct (idx <? 0) eqn:E0.
      { replace (0 <=? idx) with false by lia. simpl. lia. }
      replace (0 <=? idx) with true by lia. simpl.
      destruct (idx =? e); simpl; [|lia].
      destruct (is_pure_ep_mode P); simpl; [|lia].
      destruct (_ =? _); lia. }
  enough (Houter : forall ts acc,
    foldl (fun expected_count token_idx =>
      foldl (fun expected_count k =>
        let idx :=
          static_cast_int (ld (topk_idx I) (token_idx * num_topk P + k)) in
        if idx <? 0 then expected_count
        else if idx =? e then
          if negb (is_pure_ep_mode P) then expected_count + 1
          else if token_idx `rem` num_ranks P =? rank P
               then expected_count + 1 else expected_count
        else expected_count)
        expected_count (seqZ 0 (num_topk P))) acc ts
    = acc + count_selected P I e
              (ts ≫= fun t => seqZ 0 (num_topk P) ≫= fun k => [(t, k)])).
  { rewrite Houter. lia. }
  intros ts. induction ts as [|t ts IH]; intros acc.
  - unfold count_selected. simpl. lia.
  - rewrite bind_cons. simpl foldl. rewrite Hinner, IH.
    rewrite count_selected_app. lia.
Qed.

End Block.

End ScheduleFacts.

(** ** Capacity *)

Module CapacityFacts.

Import Dispatch World Host DispatchSpec WorldSpec.
Import SendFacts ScheduleFacts DeliverFacts CountOps RecvFacts WorldFacts.

Section Block.

Variable P : params.
Variable I : inputs.

Hypothesis capacity_is_int : num_max_dispatch_tokens_per_rank P <= INT_MAX.

(** A run of the top-k loop body over a list of entries completes when
    the selected entries fit behind the current counter value. *)
Lemma send_entries_ok e (entries : list (Z * Z)) : forall s,
  let idx := e * num_ranks P + rank P in
  let c0 := ld (atomic_counter_per_expert (ss_mem s)) idx in
  0 <= c0 ->
  c0 + count_selected P I e entries <= num_max_dispatch_tokens_per_rank P ->
  exists s',
    for_each entries (fun tk => send_topk_entry P I e tk.1 tk.2) s = Ok s'
    /\ ld (atomic_counter_per_expert (ss_mem s')) idx
       = c0 + count_selected P I e entries
    /\ forall j, j ≠ idx ->
         ld (atomic_counter_per_expert (ss_mem s')) j
         = ld (atomic_counter_per_expert (ss_mem s)) j.
Proof.
  induction entries as [|[t k] entries IH]; intros s; cbv zeta; intros Hc0 Hfit.
  - exists s. unfold count_selected. simpl. split_and!; [done|lia|done].
  - rewrite count_selected_cons in Hfit |- *.
    pose proof (count_selected_nonneg P I e entries) as Hnn.
    pose proof (send_topk_entry_cases P I e t k s) as C. cbv zeta in C.
    simpl for_each.
    destruct (entry_selected P I e t k).
    + replace (_ >=? num_max_dispatch_tokens_per_rank P) with false in C by lia.
      rewrite C. clear C.
      rewrite (wrap32_id (_ + 1))
        by (unfold in_int32, INT_MIN, INT_MAX in *; lia).
      match goal with |- context [Ok ?x ≫= _] => set (s1 := x) end.
      assert (Hs1 : ld (atomic_counter_per_expert (ss_mem s1))
                       (e * num_ranks P + rank P)
                    = ld (atomic_counter_per_expert (ss_mem s))
                         (e * num_ranks P + rank P) + 1).
      { unfold s1. simpl. by rewrite ld_insert_eq. }
      destruct (IH s1) as (s' & Hrun & Hcell & Hother).
      { rewrite Hs1. lia. }
      { rewrite Hs1. lia. }
      exists s'. rewrite bind_Ok. split; [exact Hrun|]. split.
      * rewrite Hcell, Hs1. lia.
      * intros j Hj. rewrite (Hother j Hj). unfold s1. simpl.
        by rewrite ld_insert_ne.
    + rewrite C. clear C.
      destruct (IH s) as (s' & Hrun & Hcell & Hother); [done|lia|].
      exists s'. rewrite bind_Ok. split; [exact Hrun|]. split; [|done].
      rewrite Hcell. lia.
Qed.

Hypothesis processing_warps : 0 < num_warps P - 1.
Hypothesis hidden_aligned : kHidden P `rem` 8 = 0.

(** The send loop of a block whose counter starts at zero completes when
    the traffic of its expert fits in the capacity. *)
Lemma dispatch_send_block_ok e s :
  ld (atomic_counter_per_expert (ss_mem s)) (e * num_ranks P + rank P) = 0 ->
  expected_count P I e <= num_max_dispatch_tokens_per_rank P ->
  exists s',
    dispatch_send_block P I e s = Ok s'
    /\ forall j, j ≠ e * num_ranks P + rank P ->
         ld (atomic_counter_per_expert (ss_mem s')) j
         = ld (atomic_counter_per_expert (ss_mem s)) j.
Proof.
  intros Hzero Hfit. unfold dispatch_send_block.
  rewrite send_tokens_block_schedule by exact hidden_aligned.
  rewrite expected_count_scan, <-schedules_agree in Hfit by done.
  destruct (send_entries_ok e (send_schedule P) s) as (s' & Hrun & Hcell & Hother).
  { rewrite Hzero. done. }
  { rewrite Hzero. lia. }
  rewrite Hrun. exists s'. split; [|done].
  rewrite bind_Ok. unfold check_token_drop.
  rewrite Hcell, Hzero, expected_count_scan, <-schedules_agree by done.
  rewrite Z.ltb_irrefl. by rewrite andb_false_r.
Qed.

Lemma dispatch_send_phase_ok (m : memory) :
  zeroed (atomic_counter_per_expert m) ->
  0 < num_ranks P ->
  (forall e, 0 <= e < num_experts P ->
             expected_count P I e <= num_max_dispatch_tokens_per_rank P) ->
  exists s, dispatch_send_phase P I m = Ok s.
Proof.
  intros Hz HR Hfit. unfold dispatch_send_phase.
  destruct (_ =? 0); [eauto|].
  set (Inv := fun (visited : list Z) (s : send_state) =>
    forall e, e ∉ visited ->
      ld (atomic_counter_per_expert (ss_mem s)) (e * num_ranks P + rank P) = 0).
  destruct (for_each_ok_seq Inv (dispatch_send_block P I) (seqZ 0 (gridDim P)) []
              {| ss_mem := m; ss_log := []; ss_out := [] |})
    as (s & Hrun & _).
  - intros e _. apply Hz.
  - intros pre a post t Hsplit Hinv.
    assert (a ∈ seqZ 0 (gridDim P)) as Ha.
    { simpl in Hsplit. rewrite Hsplit. apply elem_of_app. right. left. }
    apply elem_of_seqZ in Ha. unfold gridDim in Ha.
    assert (a ∉ pre) as Hnew.
    { apply (NoDup_app_middle pre post). simpl in Hsplit. rewrite <-Hsplit.
      apply NoDup_seqZ. }
    destruct (dispatch_send_block_ok a t) as (t' & Hrun & Hother).
    + by apply Hinv.
    + apply Hfit. lia.
    + exists t'. split; [exact Hrun|]. intros e He.
      rewrite Hother.
      * apply Hinv. intros Hin. apply He, elem_of_app. by left.
      * intros Heq. apply He, elem_of_app. right.
        apply list_elem_of_singleton. nia.
  - rewrite Hrun. rewrite bind_Ok. eauto.
Qed.

End Block.

Lemma for_each_fault_seq {A S} (Inv : list A -> S -> Prop) (Bad : fault -> Prop)
    (body : A -> S -> result S) (l : list A) :
  forall visited s f,
    Inv visited s ->
    (forall pre a post t t',
        visited ++ l = pre ++ a :: post ->
        Inv pre t -> body a t = Ok t' -> Inv (pre ++ [a]) t') ->
    (forall pre a post t g,
        visited ++ l = pre ++ a :: post ->
        Inv pre t -> body a t = Fatal g -> Bad g) ->
    for_each l body s = Fatal f -> Bad f.
Proof.
  induction l as [|a l IH]; intros visited s f Hs Hstep Hbad; simpl; [done|].
  destruct (body a s) as [t|g] eqn:Hbody; simpl.
  - apply (IH (visited ++ [a]) t f).
    + by apply (Hstep visited a l s t).
    + intros pre b post u u' Heq. apply (Hstep pre b post u u').
      rewrite <-Heq. by rewrite <-app_assoc.
    + intros pre b post u g Heq. apply (Hbad pre b post u g).
      rewrite <-Heq. by rewrite <-app_assoc.
  - intros [= <-]. by apply (Hbad visited a l s g).
Qed.

Section Recv.

Variable P : params.
Variable I : inputs.

Hypothesis one_warp_group : num_warp_groups P = 1.

Lemma recv_copy_token_ok l s begin i (m : memory) :
  begin + i < num_max_dispatch_tokens_per_rank P ->
  exists m', recv_copy_token P I l s begin i m = Ok m'.
Proof.
  intros Hlt. unfold recv_copy_token.
  replace (begin + i >=? num_max_dispatch_tokens_per_rank P) with false by lia.
  destruct (kUseFP8 P); eauto.
Qed.

(** A warp group that reserves behind a zero [packed_recv_count] cell a
    count that fits in the capacity fires no capacity assertion. *)
Lemma recv_warp_group_fault l s g (m : memory) (evs : list event) f :
  let idx := l * num_ranks P + s in
  ld (packed_recv_count m) idx = 0 ->
  (ld (rdma_recv_count m) idx ≠ 0 ->
   0 <= decode_count (ld (rdma_recv_count m) idx)
     <= num_max_dispatch_tokens_per_rank P) ->
  0 < num_warps_per_group P ->
  recv_warp_group P I l s g (m, evs) = Fatal f -> benign f.
Proof.
  intros idx Hfresh Hfit Hwpg. unfold recv_warp_group.
  pose proof (recv_reserve_cases P l s m evs) as C. cbv zeta in C.
  fold idx in C. rewrite Hfresh, Z.add_0_l in C.
  rewrite (wrap32_id (decode_count _)) in C by apply wrap32_range.
  destruct (ld (rdma_recv_count m) idx =? 0) eqn:Ev.
  { rewrite C. intros [= <-]. by left. }
  specialize (Hfit ltac:(lia)).
  replace (decode_count _ >? _) with false in C by lia.
  rewrite C, bind_Ok. clear C.
  set (n := decode_count _) in *.
  destruct (n =? 0); [done|].
  destruct (negb _); [intros [= <-]; by right|].
  match goal with |- context [for_each ?l ?b ?x] =>
    destruct (for_each l b x) as [m'|f'] eqn:Hloop end; [done|].
  exfalso. revert Hloop.
  apply (for_each_fault (fun _ => True) (fun _ => False)); [done|done|].
  intros sw t g' Hsw%elem_of_seqZ _.
  apply (for_each_fault (fun _ => True) (fun _ => False)); [done|done|].
  intros i u g'' (j & Hj & -> & Hlt)%elem_of_strided _ Hcopy; [|done].
  destruct (recv_copy_token_ok l s 0 (sw + j * num_warps_per_group P) u)
    as (u' & Hu'); [lia|].
  congruence.
Qed.

Lemma dispatch_recv_block_fault b (m : memory) (evs : list event) f :
  0 < num_ranks P -> 0 <= b ->
  ld (packed_recv_count m) b = 0 ->
  (ld (rdma_recv_count m) b ≠ 0 ->
   0 <= decode_count (ld (rdma_recv_count m) b)
     <= num_max_dispatch_tokens_per_rank P) ->
  dispatch_recv_block P I b (m, evs) = Fatal f -> benign f.
Proof.
  intros HR Hb Hfresh Hfit. unfold dispatch_recv_block.
  destruct (_ && _); [|done].
  destruct (negb _); [intros [= <-]; by right|].
  destruct (negb _) eqn:Hwarps; [intros [= <-]; by right|].
  rewrite one_warp_group. change (seqZ 0 1) with [0].
  rewrite for_each_singleton.
  destruct (quot_rem_nonneg b (num_ranks P)) as (_ & _ & Hsplit); [lia..|].
  apply recv_warp_group_fault.
  - by rewrite <-Hsplit.
  - by rewrite <-Hsplit.
  - apply negb_false_iff, andb_true_iff in Hwarps as [Hw _]. lia.
Qed.

(** A receive phase whose count cells all decode to counts that fit in
    the capacity, started from zeroed reservations, fires no capacity
    assertion. *)
Lemma dispatch_recv_phase_fault (m : memory) f :
  0 < num_ranks P ->
  zeroed (packed_recv_count m) ->
  (forall b, 0 <= b < num_experts P ->
     ld (rdma_recv_count m) b ≠ 0 ->
     0 <= decode_count (ld (rdma_recv_count m) b)
       <= num_max_dispatch_tokens_per_rank P) ->
  dispatch_recv_phase P I m = Fatal f -> benign f.
Proof.
  intros HR Hz Hfit. unfold dispatch_recv_phase.
  destruct (_ =? 0); [done|].
  set (Inv := fun (visited : list Z) (st : memory * list event) =>
    rdma_recv_count st.1 = rdma_recv_count m
    /\ forall j, j ∉ visited -> ld (packed_recv_count st.1) j = 0).
  apply (for_each_fault_seq Inv benign _ _ []).
  - split; [done|]. intros j _. apply Hz.
  - intros pre a post [t tev] [t' tev'] Hsplit (Hrc & Hfresh) Hstep.
    simpl in Hsplit, Hrc, Hfresh.
    assert (a ∉ pre) as Hnew.
    { apply (NoDup_app_middle pre post). rewrite <-Hsplit. apply NoDup_seqZ. }
    unfold Inv. simpl.
    unfold dispatch_recv_block in Hstep.
    destruct (_ && _) eqn:Hguard.
    2:{ injection Hstep as <- <-. split; [done|]. intros j Hj. apply Hfresh.
        intros Hin. apply Hj, elem_of_app. by left. }
    assert (a ∈ seqZ 0 (gridDim P)) as Ha
      by (rewrite Hsplit; apply elem_of_app; right; left).
    apply elem_of_seqZ in Ha.
    apply andb_true_iff in Hguard as [Hsp Hlt].
    assert (dispatch_recv_block P I a (t, tev) = Ok (t', tev')) as Hblock.
    { unfold dispatch_recv_block. rewrite Hsp, Hlt. exact Hstep. }
    apply (dispatch_recv_block_spec P I one_warp_group) in Hblock
      as (_ & _ & Hrc' & Hpc'); [|done|done|lia].
    split; [congruence|]. intros j Hj. rewrite Hpc'.
    rewrite ld_insert_ne by (intros ->; apply Hj, elem_of_app; right; left).
    apply Hfresh. intros Hin. apply Hj, elem_of_app. by left.
  - intros pre a post [t tev] g Hsplit (Hrc & Hfresh) Hstep.
    simpl in Hsplit, Hrc, Hfresh.
    assert (a ∉ pre) as Hnew.
    { apply (NoDup_app_middle pre post). rewrite <-Hsplit. apply NoDup_seqZ. }
    assert (a ∈ seqZ 0 (gridDim P)) as Ha
      by (rewrite Hsplit; apply elem_of_app; right; left).
    apply elem_of_seqZ in Ha. unfold gridDim in Ha.
    apply (dispatch_recv_block_fault a t tev g); [done|lia| | |done].
    + by apply Hfresh.
    + rewrite Hrc. apply Hfit. lia.
Qed.

End Recv.

Lemma launch_params_fault NW SH l g :
  launch_params NW SH l = Fatal g -> g = HostAssert \/ benign g.
Proof.
  unfold launch_params, benign.
  destruct (Host.dispatch NW SH (l_args l)) as [P|]; [|intros [= <-]; by left].
  destruct (layout_asserts P); [done|]. intros [= <-]. right. by right.
Qed.

(** With processing warps and a hidden size that is no multiple of 8, the
    send phase stops at the assertion of line 213. *)
Lemma dispatch_send_phase_misaligned P I m g :
  0 < num_warps P - 1 -> kHidden P `rem` 8 ≠ 0 ->
  dispatch_send_phase P I m = Fatal g -> g = DeviceAssert.
Proof.
  intros Hw Hal. unfold dispatch_send_phase.
  destruct (_ =? 0); [done|].
  destruct (for_each _ _ _) as [s|g'] eqn:Hrun; simpl; [done|].
  intros [= ->]. revert Hrun.
  apply (for_each_fault (fun _ => True) (fun g => g = DeviceAssert));
    [done|done|].
  intros e t h _ _. unfold dispatch_send_block, send_tokens_block.
  rewrite (seqZ_cons 0 (num_warps P - 1)) by lia. simpl.
  assert (Hwarp : send_warp P I e 0 t = Fatal DeviceAssert).
  { unfold send_warp. by replace (kHidden P `rem` 8 =? 0) with false by lia. }
  rewrite Hwarp. simpl. congruence.
Qed.

Lemma traffic_fits_lookup NW SH S ls (l : launch) P e :
  traffic_fits NW SH S ls = true -> l ∈ ls -> launch_params NW SH l = Ok P ->
  0 <= e < num_experts P -> expected_count P (l_inputs l) e <= S.
Proof.
  unfold traffic_fits. rewrite forallb_forall. intros Hall Hl HP He.
  specialize (Hall l). rewrite HP in Hall.
  rewrite list_elem_of_In in Hl. specialize (Hall Hl).
  rewrite forallb_forall in Hall. specialize (Hall e).
  rewrite <-list_elem_of_In, elem_of_seqZ in Hall. specialize (Hall ltac:(lia)).
  lia.
Qed.

Section Run.

Variable NW : Z.
Variable SH : Z -> bool.
Variables E R L S : Z.

Hypothesis R_pos : 0 < R.
Hypothesis L_pos : 0 < L.
Hypothesis E_split : E = L * R.
Hypothesis S_int : 0 <= S <= INT_MAX.

Lemma rank_send_no_overflow (ls : list launch) (w : list memory) lm g :
  launches_ok E R S ls = true -> Forall clean w ->
  traffic_fits NW SH S ls = true ->
  lm ∈ zip ls w -> rank_send NW SH lm = Fatal g -> g = HostAssert \/ benign g.
Proof.
  intros Hok Hclean Hfit Hin Hsend. destruct lm as [l m].
  apply list_elem_of_lookup in Hin as [j Hj].
  apply lookup_zip_Some in Hj as [Hl Hm].
  rewrite rank_send_eq in Hsend. simpl fst in Hsend. simpl snd in Hsend.
  destruct (launch_params NW SH l) as [P|g'] eqn:HP.
  2:{ injection Hsend as <-. by apply (launch_params_fault NW SH l). }
  rewrite bind_Ok in Hsend.
  pose proof (launches_ok_lookup E R S ls j l Hok Hl) as Hlok.
  destruct (launch_params_facts NW SH E R S l (Z.of_nat j) P Hlok HP)
    as (HE & HR & HS & Hr & Hwg & Hwpg & Hph).
  assert (clean m) as (Hz & _) by (eapply Forall_lookup_1; eauto).
  assert (Hwarps : 0 < num_warps P - 1)
    by (unfold num_warps; rewrite Hwg, Hwpg; lia).
  destruct (decide (kHidden P `rem` 8 = 0)) as [Hal|Hal].
  2:{ right. right.
      by apply (dispatch_send_phase_misaligned P (l_inputs l) m g). }
  destruct (dispatch_send_phase_ok P (l_inputs l)) with (m := m) as [s Hs].
  - rewrite HS. lia.
  - exact Hwarps.
  - exact Hal.
  - exact Hz.
  - rewrite HR. exact R_pos.
  - intros e He. rewrite HS.
    apply (traffic_fits_lookup NW SH S ls l P e Hfit); [|done|done].
    apply list_elem_of_lookup. eauto.
  - congruence.
Qed.

Lemma rank_recv_no_overflow (ls : list launch) (w : list memory)
    (sends : list send_state) lm g :
  launches_ok E R S ls = true -> length w = length ls -> Forall clean w ->
  Forall2 (fun lm s => rank_send NW SH lm = Ok s) (zip ls w) sends ->
  lm ∈ zip ls (deliver (concat (ss_out <$> sends)) (ss_mem <$> sends)) ->
  rank_recv NW SH lm = Fatal g -> g = HostAssert \/ benign g.
Proof.
  intros Hok Hlen Hclean Hsends Hin Hrecv. destruct lm as [l m2].
  apply list_elem_of_lookup in Hin as [d Hd].
  apply lookup_zip_Some in Hd as [Hl Hm2].
  rewrite rank_recv_eq in Hrecv. simpl fst in Hrecv. simpl snd in Hrecv.
  destruct (launch_params NW SH l) as [P|g'] eqn:HP.
  2:{ injection Hrecv as <-. by apply (launch_params_fault NW SH l). }
  rewrite bind_Ok in Hrecv. right.
  pose proof (launches_ok_lookup E R S ls d l Hok Hl) as Hlok.
  destruct (launch_params_facts NW SH E R S l (Z.of_nat d) P Hlok HP)
    as (HE & HR & HS & Hr & Hwg & Hwpg & Hph).
  pose proof (launches_length E R S ls Hok) as HlenR.
  assert (Hlens : length sends = length ls).
  { apply Forall2_length in Hsends. rewrite length_zip in Hsends. lia. }
  assert (Hdlt : (d < length ls)%nat) by (by apply lookup_lt_Some in Hl).
  destruct (lookup_lt_is_Some_2 sends d) as [sd Hsd]; [lia|].
  destruct (senders NW SH E R S S_int ls w sends Hok Hclean Hsends d sd Hsd)
    as (ld' & md0 & Pd & puts & Hld & Hmd0 & Hcd & HPd & HEd & HRd & HSd & Hrkd
        & Hinvd & Houtd).
  apply send_inv_frame in Hinvd as [Hrc0 Hpc0]. simpl in Hrc0, Hpc0.
  destruct Hcd as (_ & Hzrc & Hzpc).
  destruct (deliver_lookup (concat (ss_out <$> sends)) (ss_mem <$> sends) d
                           (ss_mem sd))
    as (m2' & Hm2' & _ & Hpc2 & Hrc2); [by rewrite list_lookup_fmap, Hsd|].
  assert (m2' = m2) as -> by congruence.
  apply (dispatch_recv_phase_fault P (l_inputs l) Hwg m2 g); [lia| | |done].
  - intros j. rewrite Hpc2, Hpc0. apply Hzpc.
  - intros b Hb _. rewrite HE in Hb. rewrite HS.
    destruct (quot_rem_nonneg b R) as (Hq & Hrem & Hsplit); [lia..|].
    assert (b `quot` R < L) by (apply Z.quot_lt_upper_bound; lia).
    set (e := Z.of_nat d * L + b `quot` R).
    assert (0 <= e < E) as He by (unfold e; nia).
    destruct (quot_rem_unique e L (Z.of_nat d) (b `quot` R)) as [Heq Her];
      [lia|lia|done|].
    destruct (lookup_lt_is_Some_2 sends (Z.to_nat (b `rem` R))) as [sr Hsr];
      [lia|].
    destruct (delivered_count NW SH E R L S R_pos L_pos E_split S_int
                ls w sends e (b `rem` R) sr)
      as [Hcontrib Hrange]; try done.
    rewrite Heq, Her, <-Hsplit in Hcontrib.
    rewrite Hrc2, Hcontrib, Hrc0, Hzrc. simpl. rewrite Z.add_0_l.
    rewrite CountFacts.decode_encode; lia.
Qed.

(** C4.  The sender's assertion fires exactly when a selected entry
    reserves a slot index at or beyond the capacity, and the top-k loop
    body raises no other fault.  The receiver's assertion fires exactly
    when the count has arrived and the reserved range, begin plus
    [num_recv_tokens], exceeds the capacity (the sum being an [int]).
    In a dispatch with both phases on all ranks, started from zeroed
    protocol buffers, in which the traffic of every (expert, rank) pair
    fits in the capacity, neither assertion fires, nor does the bound
    check of the copy loop. *)
Theorem capacity_assertions :
  (forall (P : params) (I : inputs) e t k (s : send_state),
      (send_topk_entry P I e t k s = Fatal SlotOverflow <->
       entry_selected P I e t k = true
       /\ ld (atomic_counter_per_expert (ss_mem s)) (e * num_ranks P + rank P)
          >= num_max_dispatch_tokens_per_rank P)
      /\ (forall f, send_topk_entry P I e t k s = Fatal f -> f = SlotOverflow))
  /\ (forall (P : params) l sr (m : memory) (evs : list event),
        let idx := l * num_ranks P + sr in
        let v := ld (rdma_recv_count m) idx in
        let recv_token_begin_idx := ld (packed_recv_count m) idx in
        in_int32 (recv_token_begin_idx + decode_count v) ->
        (recv_reserve P l sr (m, evs) = Fatal RecvOverflow <->
         v ≠ 0
         /\ recv_token_begin_idx + decode_count v
            > num_max_dispatch_tokens_per_rank P))
  /\ (forall (ls : list launch) (w : list memory) f,
        launches_ok E R S ls = true ->
        length w = length ls -> Forall clean w ->
        traffic_fits NW SH S ls = true ->
        dispatch_all NW SH ls w = Fatal f ->
        f ≠ SlotOverflow /\ f ≠ RecvOverflow /\ f ≠ SlotIndexOverflow).
Proof.
  split_and!.
  - intros P I e t k s.
    pose proof (send_topk_entry_cases P I e t k s) as C. cbv zeta in C.
    destruct (entry_selected P I e t k).
    + destruct (_ >=? _) eqn:Hge; rewrite C.
      * split; [|by intros f [= <-]].
        split; [intros _; split; [done|lia]|done].
      * split; [|done]. split; [done|]. intros [_ ?]. lia.
    + rewrite C. split; [|done]. split; [done|]. by intros [? _].
  - intros P l sr m evs idx v begin Hint.
    pose proof (recv_reserve_cases P l sr m evs) as C. cbv zeta in C.
    fold idx in C. fold v in C. fold begin in C.
    rewrite (wrap32_id _ Hint) in C.
    destruct (v =? 0) eqn:Hv.
    { rewrite C. split; [done|]. intros [? _]. lia. }
    destruct (_ >? _) eqn:Hgt; rewrite C.
    + split; [|done]. intros _. lia.
    + split; [done|]. intros [_ ?]. lia.
  - intros ls w f Hok Hlen Hclean Hfit. unfold dispatch_all.
    destruct (map_result (rank_send NW SH) (zip ls w)) as [sends|g] eqn:Hsends.
    2:{ intros [= <-].
        apply map_result_fault in Hsends as (lm & Hin & Hsend).
        destruct (rank_send_no_overflow ls w lm g) as [->|[->| ->]]; done. }
    rewrite bind_Ok.
    destruct (map_result (rank_recv NW SH) _) as [recvs|g] eqn:Hrecvs; [done|].
    intros [= <-].
    apply map_result_fault in Hrecvs as (lm & Hin & Hrecv).
    apply map_result_Forall2 in Hsends.
    destruct (rank_recv_no_overflow ls w sends lm g) as [->|[->| ->]]; done.
Qed.

End Run.

End CapacityFacts.

(** ** The local partial of combine *)

Lemma foldl_filter {A B} (p : B -> bool) (f : A -> B -> A) (a : A) (l : list B) :
  foldl (fun acc b => if p b then f acc b else acc) a l
  = foldl f a (filter (fun b => p b = true) l).
Proof.
  revert a. induction l as [|b l IH]; intros a; [done|].
  simpl. destruct (p b) eqn:Hp.
  - rewrite filter_cons_True by done. simpl. apply IH.
  - rewrite filter_cons_False by congruence. apply IH.
Qed.

Lemma foldl_omap {A B C} (g : B -> option C) (f : A -> C -> A) (a : A) (l : list B) :
  foldl (fun acc b => match g b with Some c => f acc c | None => acc end) a l
  = foldl f a (omap g l).
Proof.
  revert a. induction l as [|b l IH]; intros a; [done|].
  simpl. destruct (g b); simpl; apply IH.
Qed.

Lemma foldl_ext_in {A B} (f g : A -> B -> A) (a : A) (l : list B) :
  (forall acc b, b ∈ l -> f acc b = g acc b) -> foldl f a l = foldl g a l.
Proof.
  revert a. induction l as [|b l IH]; intros a H; [done|].
  simpl. rewrite H by left. apply IH. intros acc c Hc. apply H. by right.
Qed.

Module CombineFacts.

Import F32 Combine CombineSpec.

Section Chunk.

Variable P : params.
Variable I : inputs.
Variable layout : buffer.

Lemma scan_slots_spec token_idx int4_idx l from_rank off w slots acc :
  scan_slots P I token_idx int4_idx l from_rank off w slots acc
  = match head (omap (fun slot =>
             let packed_slot_idx := off + slot in
             if packed_slot_idx >=? num_max_dispatch_tokens_per_rank P then None
             else if ld (src_info I)
                        (l * num_ranks P * num_max_dispatch_tokens_per_rank P
                         + from_rank * num_max_dispatch_tokens_per_rank P
                         + packed_slot_idx) =? token_idx
             then Some packed_slot_idx else None) slots) with
    | Some packed_slot_idx =>
        accumulate acc (load_slot P I l from_rank packed_slot_idx int4_idx) w
    | None => acc
    end.
Proof.
  induction slots as [|slot slots IH]; [done|].
  simpl. destruct (off + slot >=? _); [exact IH|].
  destruct (_ =? token_idx); simpl; [done|exact IH].
Qed.

Lemma scan_rank_spec token_idx int4_idx l w acc from_rank :
  scan_rank P I layout token_idx int4_idx l w acc from_rank
  = match first_match P I layout l token_idx from_rank with
    | Some packed_slot_idx =>
        accumulate acc (load_slot P I l from_rank packed_slot_idx int4_idx) w
    | None => acc
    end.
Proof.
  unfold scan_rank, first_match.
  destruct (unpack2 _) as [num off]. apply scan_slots_spec.
Qed.

Lemma first_match_bounds l token_idx from_rank packed_slot_idx :
  first_match P I layout l token_idx from_rank = Some packed_slot_idx ->
  (unpack2 (ld layout (l * num_ranks P + from_rank))).2 <= packed_slot_idx
  /\ packed_slot_idx < num_max_dispatch_tokens_per_rank P.
Proof.
  unfold first_match. destruct (unpack2 _) as [num off]. simpl.
  intros H. apply head_Some_elem_of in H.
  apply list_elem_of_omap in H as (slot & Hslot%elem_of_seqZ & Hsome).
  cbv zeta in Hsome.
  destruct (off + slot >=? _) eqn:Hge; [done|].
  destruct (_ =? token_idx); [|done].
  injection Hsome as <-. lia.
Qed.

Hypothesis L_pos : 0 < num_local_experts P.
Hypothesis R_pos : 0 < num_ranks P.
Hypothesis offsets_ok : layout_offsets_ok P layout = true.

(** Inside the buffer the bound check of line 1351 loads the row. *)
Lemma load_slot_payload l token_idx from_rank packed_slot_idx int4_idx :
  0 <= l < num_local_experts P -> 0 <= from_rank < num_ranks P ->
  0 <= int4_idx < actual_num_int4_per_data P ->
  first_match P I layout l token_idx from_rank = Some packed_slot_idx ->
  load_slot P I l from_rank packed_slot_idx int4_idx
  = payload P I l from_rank packed_slot_idx int4_idx.
Proof.
  intros Hl Hfr Hc Hm. apply first_match_bounds in Hm as [Hlo Hhi].
  assert (0 <= (unpack2 (ld layout (l * num_ranks P + from_rank))).2) as Hoff.
  { unfold layout_offsets_ok in offsets_ok.
    rewrite forallb_forall in offsets_ok.
    specialize (offsets_ok l). rewrite <-list_elem_of_In, elem_of_seqZ in offsets_ok.
    specialize (offsets_ok ltac:(lia)).
    rewrite forallb_forall in offsets_ok. specialize (offsets_ok from_rank).
    rewrite <-list_elem_of_In, elem_of_seqZ in offsets_ok.
    specialize (offsets_ok ltac:(lia)). lia. }
  unfold load_slot, payload. cbv zeta.
  set (S := num_max_dispatch_tokens_per_rank P) in *.
  set (n4 := actual_num_int4_per_data P) in *.
  set (R := num_ranks P) in *. set (L := num_local_experts P) in *.
  assert (0 <= packed_slot_idx < S) as Hps by lia. clear Hlo Hhi Hoff.
  assert (0 <= l * R + from_rank /\ l * R + from_rank + 1 <= L * R) as [Ha Hb]
    by nia.
  assert ((l * R + from_rank + 1) * S <= L * R * S) as Hc'
    by (apply Z.mul_le_mono_nonneg_r; lia).
  assert (0 <= (l * R + from_rank) * S) as Hd by (apply Z.mul_nonneg_nonneg; lia).
  assert (0 <= l * R * S + from_rank * S + packed_slot_idx < L * R * S) by lia.
  replace (l * R * S * n4 + (from_rank * S + packed_slot_idx) * n4 + int4_idx)
    with ((l * R * S + from_rank * S + packed_slot_idx) * n4 + int4_idx) by lia.
  set (row := l * R * S + from_rank * S + packed_slot_idx) in *.
  assert (0 <= row * n4) by (apply Z.mul_nonneg_nonneg; lia).
  assert ((row + 1) * n4 <= L * R * S * n4)
    by (apply Z.mul_le_mono_nonneg_r; lia).
  replace (_ <? 0) with false by lia.
  replace (_ >=? _) with false by lia. done.
Qed.

(** The loop over the source ranks visits the matching slots. *)
Lemma scan_ranks_spec token_idx int4_idx l w acc :
  0 <= l < num_local_experts P ->
  0 <= int4_idx < actual_num_int4_per_data P ->
  foldl (scan_rank P I layout token_idx int4_idx l w) acc (seqZ 0 (num_ranks P))
  = foldl (fun acc slot =>
             accumulate acc (payload P I l slot.1 slot.2 int4_idx) w)
          acc (matching_slots P I layout l token_idx).
Proof.
  intros Hl Hc. unfold matching_slots. rewrite <-foldl_omap.
  apply foldl_ext_in. intros a from_rank Hfr%elem_of_seqZ.
  rewrite scan_rank_spec.
  destruct (first_match P I layout l token_idx from_rank) as [ps|] eqn:Hm; [|done].
  simpl. by rewrite (load_slot_payload l token_idx) by (done || lia).
Qed.

(** The [combined_values] the kernel computes for a chunk of a token are
    the sum, started at zero and taken in top-k order over the entries
    that are not padding and whose expert this rank owns, and for each
    over the source ranks, of the weight of the entry times the payload
    chunk of the first slot of the source rank that holds the token. *)
Lemma combine_chunk_local_sum (safe_num_topk token_idx int4_idx : Z) :
  layout_range I = Some layout ->
  0 <= int4_idx < actual_num_int4_per_data P ->
  combine_chunk P I safe_num_topk token_idx int4_idx
  = local_sum P I layout safe_num_topk token_idx int4_idx.
Proof.
  intros Hlayout Hc.
  unfold combine_chunk, local_sum, topk_entries.
  rewrite <-foldl_filter. rewrite foldl_fmap.
  apply foldl_ext_in. intros acc i Hi.
  unfold accumulate_entry, is_local. cbv zeta. simpl fst. simpl snd.
  rewrite Hlayout.
  set (e := static_cast_int _). set (w := ldf _ _).
  destruct (e <? 0) eqn:He.
  { replace (0 <=? e) with false by lia. done. }
  replace (0 <=? e) with true by lia. simpl.
  destruct (e `quot` num_local_experts P =? rank P) eqn:Hown; [|done].
  destruct (quot_rem_nonneg e (num_local_experts P)) as (_ & Hl & _); [lia..|].
  by rewrite scan_ranks_spec.
Qed.

(** When at most one source rank holds the token for each local expert
    among its entries, the sum has one term for each of these entries: the
    weight times the payload of the slot that holds the token. *)
Lemma local_sum_unique (safe_num_topk token_idx int4_idx : Z) :
  unique_slots P I layout safe_num_topk token_idx = true ->
  local_sum P I layout safe_num_topk token_idx int4_idx
  = local_partial P I layout safe_num_topk token_idx int4_idx.
Proof.
  intros Huniq. unfold local_sum, local_partial.
  apply foldl_ext_in. intros acc ew Hew.
  assert (length (matching_slots P I layout (ew.1 `rem` num_local_experts P)
                                 token_idx) <= 1)%nat as Hlen.
  { unfold unique_slots in Huniq. rewrite forallb_forall in Huniq.
    apply Nat.leb_le, Huniq. by apply list_elem_of_In. }
  unfold find_slot.
  destruct (matching_slots _ _ _ _ _) as [|[fr ps] [|? ?]];
    simpl in Hlen |- *; [done|done|lia].
Qed.

(** Without entries of local experts the sum is zero. *)
Lemma local_sum_none (safe_num_topk token_idx int4_idx : Z) :
  (forall ew, ew ∈ topk_entries I safe_num_topk token_idx ->
              is_local P ew = false) ->
  local_sum P I layout safe_num_topk token_idx int4_idx = zero_vec.
Proof.
  intros Hnone. unfold local_sum.
  rewrite filter_none; [done|].
  intros ew Hew. rewrite (Hnone ew Hew). done.
Qed.

End Chunk.

End CombineFacts.

(** ** Zero weights *)

Module ZeroFacts.

Import F32 Combine CombineSpec.

Lemma mul_zero_weight v w :
  is_finite v = true -> is_zero w = true -> is_zero (mul v w) = true.
Proof. by destruct v, w. Qed.

Lemma add_zero_zero v : is_zero v = true -> add zero v = zero.
Proof. destruct v as [[|]| | |]; done. Qed.

Lemma to_bf16_zero : to_bf16 zero = zero.
Proof. done. Qed.

Lemma ldf_insert_eq (m : gmap Z spec_float) i v : ldf (<[i := v]> m) i = v.
Proof. unfold ldf. by rewrite lookup_insert_eq. Qed.

Lemma ldf_insert_ne (m : gmap Z spec_float) i j v :
  i ≠ j -> ldf (<[i := v]> m) j = ldf m j.
Proof. intros H. unfold ldf. by rewrite lookup_insert_ne. Qed.

Lemma store_all_snoc ws iv m :
  store_all (ws ++ [iv]) m = <[iv.1 := iv.2]> (store_all ws m).
Proof. unfold store_all. by rewrite foldl_app. Qed.

(** A cell some store of the sequence addresses holds a stored value. *)
Lemma store_all_in (Q : spec_float -> Prop) ws m i :
  (forall iv, iv ∈ ws -> Q iv.2) -> i ∈ ws.*1 -> Q (ldf (store_all ws m) i).
Proof.
  induction ws as [|iv ws IH] using rev_ind; intros Hall Hin.
  - by apply elem_of_nil in Hin.
  - rewrite store_all_snoc. destruct (decide (iv.1 = i)) as [<-|Hne].
    + rewrite ldf_insert_eq. apply Hall, elem_of_app. right. by left.
    + rewrite ldf_insert_ne by done. apply IH.
      * intros iv' Hiv'. apply Hall, elem_of_app. by left.
      * rewrite fmap_app in Hin. apply elem_of_app in Hin as [Hin|Hin]; [done|].
        apply list_elem_of_singleton in Hin. done.
Qed.

(** A property of the cells that every store preserves. *)
Lemma store_all_inv (Q : spec_float -> Prop) ws m i :
  (forall iv, iv ∈ ws -> Q iv.2) -> Q (ldf m i) -> Q (ldf (store_all ws m) i).
Proof.
  induction ws as [|iv ws IH] using rev_ind; intros Hall Hm; [done|].
  rewrite store_all_snoc. destruct (decide (iv.1 = i)) as [<-|Hne].
  - rewrite ldf_insert_eq. apply Hall, elem_of_app. right. by left.
  - rewrite ldf_insert_ne by done. apply IH; [|done].
    intros iv' Hiv'. apply Hall, elem_of_app. by left.
Qed.

Lemma foldl_fixed {A B} (f : A -> B -> A) (a : A) (l : list B) :
  (forall b, b ∈ l -> f a b = a) -> foldl f a l = a.
Proof.
  induction l as [|b l IH]; intros H; [done|].
  simpl. rewrite H by left. apply IH. intros c Hc. apply H. by right.
Qed.

Section Rank.

Variable P : params.
Variable I : inputs.

Hypothesis weights_zero : zero_weights I.
Hypothesis outputs_finite : finite_outputs I.

Lemma accumulate_zero (xs : list spec_float) w (n : nat) :
  length xs = n -> Forall (fun v => is_finite v = true) xs ->
  is_zero w = true ->
  accumulate (replicate n zero) xs w = replicate n zero.
Proof.
  intros Hlen Hfin Hw. unfold accumulate. revert n Hlen.
  induction Hfin as [|v xs Hv Hfin IH]; intros n Hlen; subst n; [done|].
  cbn -[add mul zero]. rewrite IH by done.
  rewrite add_zero_zero by (by apply mul_zero_weight). done.
Qed.

Lemma load_slot_finite l from_rank packed_slot_idx int4_idx :
  length (load_slot P I l from_rank packed_slot_idx int4_idx) = 8%nat
  /\ Forall (fun v => is_finite v = true)
            (load_slot P I l from_rank packed_slot_idx int4_idx).
Proof.
  unfold load_slot. cbv zeta. destruct (_ || _).
  - split; [done|]. unfold zero_vec. apply Forall_replicate. done.
  - unfold load_x_vec. split; [by rewrite length_fmap, length_seqZ|].
    apply Forall_fmap, Forall_forall. intros j _. apply outputs_finite.
Qed.

Lemma scan_slots_zero token_idx int4_idx l from_rank off w slots :
  is_zero w = true ->
  scan_slots P I token_idx int4_idx l from_rank off w slots zero_vec = zero_vec.
Proof.
  intros Hw. induction slots as [|slot slots IH]; [done|].
  simpl. destruct (_ >=? _); [exact IH|].
  destruct (negb _); [exact IH|].
  destruct (load_slot_finite l from_rank (off + slot) int4_idx) as [Hlen Hfin].
  by apply (accumulate_zero _ w 8).
Qed.

(** With zero weights and finite expert outputs every chunk is zero. *)
Lemma combine_chunk_zero safe_num_topk token_idx int4_idx :
  combine_chunk P I safe_num_topk token_idx int4_idx = zero_vec.
Proof.
  unfold combine_chunk. apply foldl_fixed. intros i _.
  unfold accumulate_entry. cbv zeta.
  destruct (_ <? 0); [done|].
  destruct (layout_range I) as [layout|]; [|done].
  destruct (_ =? rank P); [|done].
  apply foldl_fixed. intros from_rank _. unfold scan_rank.
  destruct (unpack2 _) as [num off].
  apply scan_slots_zero, weights_zero.
Qed.

Lemma chunk_writes_zero token_idx int4_idx iv :
  iv ∈ chunk_writes P token_idx int4_idx zero_vec -> iv.2 = zero.
Proof.
  unfold chunk_writes. destruct (skip_recv_phase P); [by intros ?%elem_of_nil|].
  destruct (_ <? _); [|by intros ?%elem_of_nil].
  destruct (is_pure_ep_mode P);
    intros ([j v] & -> & Hjv)%list_elem_of_fmap; simpl;
    apply elem_of_zip_r in Hjv; apply elem_of_replicate in Hjv as [-> _]; done.
Qed.

Lemma partial_writes_zero safe_num_topk iv :
  iv ∈ partial_writes P I safe_num_topk -> iv.2 = zero.
Proof.
  unfold partial_writes.
  intros (sm & (th & (t & (c & Hiv & _)%list_elem_of_bind
                      & _)%list_elem_of_bind
                & _)%list_elem_of_bind & _)%list_elem_of_bind.
  rewrite combine_chunk_zero in Hiv. by apply chunk_writes_zero in Hiv.
Qed.

End Rank.

End ZeroFacts.

(** ** Coverage of the output by the blocks and threads *)

Lemma foldl_inv {A B} (Inv : A -> Prop) (f : A -> B -> A) (a : A) (l : list B) :
  Inv a -> (forall a b, b ∈ l -> Inv a -> Inv (f a b)) -> Inv (foldl f a l).
Proof.
  revert a. induction l as [|b l IH]; intros a Ha H; [done|].
  simpl. apply IH.
  - apply H; [by left|done].
  - intros a' b' Hb'. apply H. by right.
Qed.

(** [b] times the rounded-up quotient covers [a]. *)
Lemma ceil_quot_covers a b : 0 <= a -> 0 < b -> a <= b * ((a + b - 1) `quot` b).
Proof.
  intros Ha Hb. rewrite Z.quot_div_nonneg by lia.
  pose proof (Z.div_mod (a + b - 1) b ltac:(lia)).
  pose proof (Z.mod_pos_bound (a + b - 1) b Hb). lia.
Qed.

Lemma quot_lt_of_lt_mul a b c : 0 <= a -> 0 < b -> a < b * c -> a `quot` b < c.
Proof. intros. apply Z.quot_lt_upper_bound; lia. Qed.

Module CoverFacts.

Import F32 Combine CombineSpec ZeroFacts.

Section Rank.

Variable P : params.
Variable I : inputs.

Hypothesis grid_pos : 0 < gridDim P.
Hypothesis block_pos : 0 < blockDim P.
Hypothesis hidden_aligned : hidden P `rem` 8 = 0.

Lemma elements_per_token_hidden : 0 <= hidden P -> elements_per_token P = hidden P.
Proof.
  intros HH. unfold elements_per_token, actual_num_int4_per_data, kNumElemsPerInt4.
  rewrite Z.rem_mod_nonneg in hidden_aligned by lia.
  rewrite Z.quot_div_nonneg by lia.
  pose proof (Z.div_mod (hidden P) 8 ltac:(lia)).
  replace (hidden P * 2) with ((hidden P `div` 8) * 16) by lia.
  rewrite Z.div_mul by lia. lia.
Qed.

(** An element of a token splits into its [int4] chunk and lane. *)
Lemma split_element elem :
  0 <= elem < hidden P ->
  exists c j, 0 <= c < actual_num_int4_per_data P /\ 0 <= j < 8
              /\ elem = c * 8 + j.
Proof.
  intros He. pose proof (elements_per_token_hidden ltac:(lia)) as Hept.
  unfold elements_per_token, kNumElemsPerInt4 in Hept.
  exists (elem `div` 8), (elem mod 8).
  pose proof (Z.div_mod elem 8 ltac:(lia)).
  pose proof (Z.mod_pos_bound elem 8 ltac:(lia)).
  split_and!; try lia;
    first [apply Z.div_pos; lia | apply Z.div_lt_upper_bound; lia].
Qed.

Lemma in_strided_of_mod x bound step :
  0 < step -> 0 <= x < bound -> x ∈ strided (x mod step) bound step.
Proof.
  intros Hs Hx. apply elem_of_strided; [done|]. exists (x `div` step).
  split; [apply Z.div_pos; lia|]. split; [|lia].
  pose proof (Z.div_mod x step). lia.
Qed.

Lemma zip_lanes j (v : spec_float) :
  0 <= j < 8 -> (j, v) ∈ zip (seqZ 0 kNumElemsPerInt4) (replicate 8 v).
Proof.
  intros Hj. apply list_elem_of_lookup. exists (Z.to_nat j).
  apply lookup_zip_Some. split.
  - apply lookup_seqZ. unfold kNumElemsPerInt4. lia.
  - apply lookup_replicate_2. lia.
Qed.

Hypothesis weights_zero : zero_weights I.
Hypothesis outputs_finite : finite_outputs I.

(** The reduction loops store to every element of every token. *)
Lemma partial_writes_cover safe_num_topk t elem :
  skip_recv_phase P = false ->
  0 <= t < num_combined_tokens P -> 0 <= elem < hidden P ->
  t * hidden P + elem ∈ (partial_writes P I safe_num_topk).*1.
Proof.
  intros Hskip Ht He.
  destruct (split_element elem He) as (c & j & Hc & Hj & ->).
  pose proof (elements_per_token_hidden ltac:(lia)) as Hept.
  apply list_elem_of_fmap.
  set (idx := t * hidden P + (c * 8 + j)).
  exists (idx, if is_pure_ep_mode P then zero else to_bf16 zero).
  split; [done|].
  unfold partial_writes.
  apply list_elem_of_bind. exists (t mod gridDim P). split.
  2:{ apply elem_of_seqZ. pose proof (Z.mod_pos_bound t (gridDim P)). lia. }
  apply list_elem_of_bind. exists (c mod blockDim P). split.
  2:{ apply elem_of_seqZ. pose proof (Z.mod_pos_bound c (blockDim P)). lia. }
  apply list_elem_of_bind. exists t. split; [|by apply in_strided_of_mod].
  apply list_elem_of_bind. exists c. split; [|by apply in_strided_of_mod].
  rewrite combine_chunk_zero by done.
  unfold chunk_writes. rewrite Hskip.
  replace (t <? num_combined_tokens P) with true by lia.
  destruct (is_pure_ep_mode P).
  - apply list_elem_of_fmap. exists (j, zero). split; [|by apply zip_lanes].
    simpl. unfold idx. rewrite Hept. unfold kNumElemsPerInt4. done.
  - apply list_elem_of_fmap. exists (j, zero). split; [|by apply zip_lanes].
    simpl. unfold idx. rewrite <-Hept.
    unfold elements_per_token, kNumElemsPerInt4. f_equal. lia.
Qed.

Lemma zero_writes_cover t elem :
  0 <= t < num_combined_tokens P -> 0 <= elem < hidden P ->
  t * hidden P + elem ∈ (zero_writes P).*1.
Proof.
  intros Ht He. pose proof (elements_per_token_hidden ltac:(lia)) as Hept.
  apply list_elem_of_fmap. exists (t * hidden P + elem, zero). split; [done|].
  unfold zero_writes.
  apply list_elem_of_bind. exists t. split; [|apply elem_of_seqZ; lia].
  apply list_elem_of_bind. exists (elem mod blockDim P). split.
  2:{ apply elem_of_seqZ. pose proof (Z.mod_pos_bound elem (blockDim P)). lia. }
  apply list_elem_of_bind. exists elem. split.
  - rewrite Hept. by left.
  - apply in_strided_of_mod; [done|]. rewrite Hept. done.
Qed.

Lemma zero_writes_zero iv : iv ∈ zero_writes P -> iv.2 = zero.
Proof.
  unfold zero_writes.
  intros (t & (th & (e & ->%list_elem_of_singleton & _)%list_elem_of_bind
                & _)%list_elem_of_bind & _)%list_elem_of_bind.
  done.
Qed.

(** The conversion loops store to every element of every token, and read
    only such elements. *)
Lemma convert_writes_cover ws t elem :
  0 <= t < num_combined_tokens P -> 0 <= elem < hidden P ->
  t * hidden P + elem ∈ (convert_writes P ws).*1.
Proof.
  intros Ht He. pose proof (elements_per_token_hidden ltac:(lia)) as Hept.
  apply list_elem_of_fmap.
  exists (t * hidden P + elem, to_bf16 (ldf ws (t * hidden P + elem))).
  split; [done|]. unfold convert_writes. cbv zeta. rewrite Hept.
  set (tpb := (num_combined_tokens P + gridDim P - 1) `quot` gridDim P).
  set (ept := (hidden P + blockDim P - 1) `quot` blockDim P).
  assert (num_combined_tokens P <= gridDim P * tpb)
    by (apply ceil_quot_covers; lia).
  assert (hidden P <= blockDim P * ept) by (apply ceil_quot_covers; lia).
  assert (0 < tpb) by nia. assert (0 < ept) by nia.
  destruct (quot_rem_nonneg t tpb) as (Hq1 & Hr1 & Hs1); [lia..|].
  destruct (quot_rem_nonneg elem ept) as (Hq2 & Hr2 & Hs2); [lia..|].
  apply list_elem_of_bind. exists (t `quot` tpb). split.
  2:{ apply elem_of_seqZ. split; [lia|].
      rewrite Z.add_0_l. apply quot_lt_of_lt_mul; nia. }
  apply list_elem_of_bind. exists t. split; [|apply elem_of_seqZ; lia].
  apply list_elem_of_bind. exists (elem `quot` ept). split.
  2:{ apply elem_of_seqZ. split; [lia|].
      rewrite Z.add_0_l. apply quot_lt_of_lt_mul; nia. }
  apply list_elem_of_bind. exists elem. split; [by left|].
  apply elem_of_seqZ. lia.
Qed.

Lemma convert_writes_range ws iv :
  0 <= hidden P ->
  iv ∈ convert_writes P ws ->
  exists t elem, 0 <= t < num_combined_tokens P /\ 0 <= elem < hidden P
                 /\ iv = (t * hidden P + elem,
                          to_bf16 (ldf ws (t * hidden P + elem))).
Proof.
  intros HH. pose proof (elements_per_token_hidden HH) as Hept.
  unfold convert_writes. cbv zeta. rewrite Hept.
  set (tpb := (num_combined_tokens P + gridDim P - 1) `quot` gridDim P).
  set (ept := (hidden P + blockDim P - 1) `quot` blockDim P).
  intros (blk & (t & (th & (e & ->%list_elem_of_singleton
                            & He%elem_of_seqZ)%list_elem_of_bind
                      & Hth%elem_of_seqZ)%list_elem_of_bind
                & Ht%elem_of_seqZ)%list_elem_of_bind
          & Hblk%elem_of_seqZ)%list_elem_of_bind.
  exists t, e. split_and!; try done; try lia.
  - assert (0 <= blk * tpb); [|lia].
    destruct (Z_lt_le_dec tpb 0); [lia|]. apply Z.mul_nonneg_nonneg; lia.
  - assert (0 <= th * ept); [|lia].
    destruct (Z_lt_le_dec ept 0); [lia|]. apply Z.mul_nonneg_nonneg; lia.
Qed.

End Rank.

End CoverFacts.

(** ** The zero-weight combine on all ranks *)

Module ZeroCombine.

Import F32 Combine CombineSpec ZeroFacts CoverFacts.

Lemma foldl_add_zero (peers : list (gmap Z spec_float)) idx :
  Forall (fun peer => ldf peer idx = zero) peers ->
  foldl (fun acc peer => add acc (ldf peer idx)) zero peers = zero.
Proof.
  induction 1 as [|peer peers Hp _ IH]; [done|].
  simpl. rewrite Hp. exact IH.
Qed.

Lemma sum_reduce_zero n H peers base count ws :
  (forall i, 0 <= i < count ->
     exists t elem, 0 <= t < n /\ 0 <= elem < H /\ base + i = t * H + elem) ->
  Forall (zero_on n H) peers -> zero_on n H ws ->
  zero_on n H (sum_reduce peers base count ws).
Proof.
  intros Hrange Hpeers Hws. unfold sum_reduce.
  apply (foldl_inv (zero_on n H)); [done|].
  intros ws' i Hi%elem_of_seqZ Hws' t elem Ht He.
  destruct (decide (base + i = t * H + elem)) as [Heq|Hne].
  - rewrite Heq, ldf_insert_eq, (Hws' t elem Ht He).
    apply foldl_add_zero. eapply Forall_impl; [exact Hpeers|].
    intros peer Hpeer. by apply Hpeer.
  - rewrite ldf_insert_ne by done. by apply Hws'.
Qed.

Lemma reduce_all_zero P peers ws :
  0 <= elements_per_token P ->
  Forall (zero_on (num_combined_tokens P) (elements_per_token P)) peers ->
  zero_on (num_combined_tokens P) (elements_per_token P) ws ->
  zero_on (num_combined_tokens P) (elements_per_token P) (reduce_all P peers ws).
Proof.
  intros Hept Hpeers Hws. unfold reduce_all. cbv zeta.
  apply (foldl_inv (zero_on _ _)); [done|].
  intros ws1 t Ht%elem_of_seqZ Hws1.
  apply (foldl_inv (zero_on _ _)); [done|].
  intros ws2 c Hc%elem_of_seqZ Hws2.
  apply sum_reduce_zero; [|done..].
  intros i Hi. exists t, (c * 256 + i). split_and!; lia.
Qed.

Lemma same_shape_facts n H E R l :
  same_shape n H E R l = true ->
  num_combined_tokens (l_params l) = n /\ hidden (l_params l) = H
  /\ num_experts (l_params l) = E /\ num_ranks (l_params l) = R
  /\ 0 < gridDim (l_params l) /\ 0 < blockDim (l_params l)
  /\ num_topk (l_params l) <= kNumMaxTopk.
Proof. unfold same_shape. intros H0. repeat case_bool_decide; lia. Qed.

Lemma same_shape_mode n H E R l l' :
  same_shape n H E R l = true -> same_shape n H E R l' = true ->
  is_pure_ep_mode (l_params l') = is_pure_ep_mode (l_params l).
Proof.
  intros (_ & _ & HE & HR & _)%same_shape_facts
         (_ & _ & HE' & HR' & _)%same_shape_facts.
  unfold is_pure_ep_mode, num_local_experts. by rewrite HE, HR, HE', HR'.
Qed.

(** A rank in Pure EP mode enters the collective with a zero workspace. *)
Lemma workspace_zero n H E R l :
  same_shape n H E R l = true ->
  zero_weights (l_inputs l) -> finite_outputs (l_inputs l) ->
  H `rem` 8 = 0 ->
  is_pure_ep_mode (l_params l) = true ->
  zero_on n H (workspace_before_reduce (l_params l) (l_inputs l)
                 (num_topk (l_params l)) (l_memory l)).
Proof.
  intros (Hn & HH & _ & _ & Hg & Hb & _)%same_shape_facts Hw Hf Hal Hpure.
  subst n H. intros t elem Ht He.
  unfold workspace_before_reduce, combine_partial. cbv zeta. rewrite Hpure.
  destruct (skip_recv_phase (l_params l)) eqn:Hskip; simpl.
  - apply (store_all_in (fun v => v = zero)).
    + intros iv. apply zero_writes_zero.
    + by apply zero_writes_cover.
  - apply (store_all_in (fun v => v = zero)).
    + intros iv. by apply partial_writes_zero.
    + by apply partial_writes_cover.
Qed.

(** C6, amended.  When every top-k weight is zero and every expert output is
    finite, on every rank, a rank that runs the receive phase of combine
    leaves every element of its [num_combined_tokens] tokens of [combined_x]
    zero, in Pure EP mode and in mixed mode; and the kernel completes when
    its assertions hold. *)
Theorem zero_weight_combine_is_zero n H E R (ls : list launch) (r : nat) l :
  Forall (fun l => same_shape n H E R l = true) ls ->
  Forall (fun l => zero_weights (l_inputs l)) ls ->
  Forall (fun l => finite_outputs (l_inputs l)) ls ->
  ls !! r = Some l ->
  skip_recv_phase (l_params l) = false ->
  (forall out evs, combine_all ls !! r = Some (Ok (out, evs)) ->
                   zero_on n H (combined_x out))
  /\ (H `rem` 8 = 0 ->
      H `quot` 8 <= blockDim (l_params l) -> 0 < n -> 0 < H ->
      exists out evs, combine_all ls !! r = Some (Ok (out, evs))).
Proof.
  intros Hshape Hw Hf Hl Hskip.
  pose proof (proj1 (Forall_forall _ _) Hshape) as Hshape'.
  pose proof (proj1 (Forall_forall _ _) Hw) as Hw'.
  pose proof (proj1 (Forall_forall _ _) Hf) as Hf'.
  assert (Hin : l ∈ ls) by (by eapply list_elem_of_lookup_2).
  destruct (same_shape_facts _ _ _ _ _ (Hshape' l Hin))
    as (Hn & HH & HE & HR & Hg & Hb & Htopk).
  unfold combine_all. rewrite list_lookup_imap, Hl. simpl.
  set (wss := _ <$> ls).
  unfold combine_reduce.
  destruct (validate_num_topk (num_topk (l_params l))) as [k corrupted] eqn:Hv.
  assert (Hk : k <= kNumMaxTopk).
  { unfold validate_num_topk in Hv. injection Hv as <- _.
    destruct (_ || _); [by unfold kNumMaxTopk|done]. }
  replace (k >? kNumMaxTopk) with false by lia.
  assert (Hq : actual_num_int4_per_data (l_params l) = H `quot` 8).
  { unfold actual_num_int4_per_data. rewrite HH.
    change 16 with (2 * 8).
    rewrite <-(Z.quot_quot (H * 2) 2 8) by lia. by rewrite Z.quot_mul by lia. }
  split.
  - intros out evs [= Hrun]. revert Hrun.
    destruct (negb _) eqn:Ha1; [done|].
    destruct (negb (num_topk _ <=? 32)) eqn:Ha2; [done|].
    destruct (negb (actual_num_int4_per_data _ <=? _)) eqn:Ha3; [done|].
    assert (Hal : hidden (l_params l) `rem` 8 = 0).
    { apply negb_false_iff, andb_true_iff in Ha1 as [Ha1 _].
      unfold kNumElemsPerInt4 in Ha1. lia. }
    destruct (is_pure_ep_mode (l_params l)) eqn:Hpure.
    + rewrite Hskip.
      destruct (negb ((elements_per_token _ >? 0) && _)) eqn:Ha4; [done|].
      intros [= <- _]. simpl. intros t elem Ht He.
      pose proof (elements_per_token_hidden (l_params l) Hal ltac:(lia)) as Hept.
      assert (Hred : zero_on n H
                (reduce_all (l_params l) (delete r wss)
                   (fp32_workspace (combine_partial (l_params l) (l_inputs l)
                                      k (l_memory l))))).
      { rewrite <-Hn, <-HH, <-Hept. apply reduce_all_zero; [lia|..].
        - rewrite Hn, Hept, HH. apply Forall_forall.
          intros ws Hws%list_elem_of_delete_inv.
          apply list_elem_of_fmap in Hws as (l' & -> & Hl').
          apply (workspace_zero n H E R);
            [by apply Hshape'|by apply Hw'|by apply Hf'|by rewrite <-HH|].
          by rewrite (same_shape_mode n H E R l l') by auto.
        - rewrite Hn, Hept, HH. intros t' e' Ht' He'.
          unfold combine_partial. rewrite Hpure. simpl. subst n H.
          apply (store_all_in (fun v => v = zero)).
          + intros iv. by apply partial_writes_zero; auto.
          + by apply partial_writes_cover; auto. }
      subst n H.
      apply (store_all_in (fun v => v = zero)).
      * intros iv (t' & e' & Ht' & He' & ->)%convert_writes_range;
          [|done..|lia]. simpl. by rewrite (Hred t' e').
      * by apply convert_writes_cover.
    + intros [= <- _]. unfold combine_partial. rewrite Hpure. simpl.
      intros t elem Ht He. subst n H.
      apply (store_all_in (fun v => v = zero)).
      * intros iv. by apply partial_writes_zero; auto.
      * by apply partial_writes_cover; auto.
  - intros Hal Hblock Hnpos HHpos.
    replace (negb _) with false.
    2:{ symmetry. apply negb_false_iff, andb_true_iff. unfold kNumElemsPerInt4.
        rewrite HH. split; [lia|].
        apply Z.eqb_eq. rewrite Z.rem_mod_nonneg in * by lia.
        pose proof (Z.div_mod H 8 ltac:(lia)).
        replace (H * 2) with ((H `div` 8) * 16) by lia. apply Z.mod_mul. lia. }
    replace (negb (num_topk _ <=? 32)) with false
      by (unfold kNumMaxTopk in Htopk; lia).
    replace (negb (actual_num_int4_per_data _ <=? _)) with false by lia.
    destruct (is_pure_ep_mode (l_params l)); [|by eauto].
    replace (negb (_ && _)) with false; [by eauto|].
    symmetry. apply negb_false_iff, andb_true_iff.
    unfold elements_per_token, kNumElemsPerInt4. rewrite Hq, Hn.
    assert (0 < H `quot` 8); [|lia].
    rewrite Z.rem_mod_nonneg in Hal by lia. rewrite Z.quot_div_nonneg by lia.
    pose proof (Z.div_mod H 8 ltac:(lia)). lia.
Qed.

End ZeroCombine.

(** ** The corruption guard of combine *)

Module GuardFacts.

Import F32 Combine.

Lemma validate_num_topk_corrupted cached :
  cached <= 0 \/ 32 < cached -> validate_num_topk cached = (1, true).
Proof.
  intros Hc. unfold validate_num_topk. cbv zeta.
  replace ((cached <=? 0) || (cached >? 32)) with true; [done|].
  symmetry. apply orb_true_iff. lia.
Qed.

Lemma validate_num_topk_one : validate_num_topk 1 = (1, false).
Proof. done. Qed.

(** C8.  A cached [num_topk] outside [1, 32] is replaced by 1 and the
    violation is logged; the kernel then runs exactly as it does for the
    value 1, assertions included, and in Pure EP mode it passes the four grid
    synchronisations that follow the guard. *)
Theorem corruption_guard_continues P I cached peers m :
  cached <= 0 \/ 32 < cached ->
  validate_num_topk cached = (1, true)
  /\ combine_reduce P I cached peers m
     = match combine_reduce P I 1 peers m with
       | Ok (out, evs) => Ok (out, EvCorrupted cached :: evs)
       | Fatal f => Fatal f
       end
  /\ (is_pure_ep_mode P = true ->
      hidden P `rem` 8 = 0 -> 0 < hidden P -> num_topk P <= 32 ->
      actual_num_int4_per_data P <= blockDim P -> 0 < num_combined_tokens P ->
      exists out,
        combine_reduce P I cached peers m
        = Ok (out, [EvCorrupted cached; EvGridSync; EvGridSync; EvGridSync;
                    EvGridSync])).
Proof.
  intros Hc. pose proof (validate_num_topk_corrupted cached Hc) as Hv.
  split; [done|].
  assert (Hrun : combine_reduce P I cached peers m
     = match combine_reduce P I 1 peers m with
       | Ok (out, evs) => Ok (out, EvCorrupted cached :: evs)
       | Fatal f => Fatal f
       end).
  { unfold combine_reduce. rewrite Hv, validate_num_topk_one.
    destruct (negb (_ && _)); [done|].
    destruct (negb (num_topk P <=? 32)); [done|].
    destruct (negb (actual_num_int4_per_data P <=? _)); [done|].
    destruct (is_pure_ep_mode P); [|done].
    destruct (negb ((elements_per_token P >? 0) && _)); done. }
  split; [exact Hrun|].
  intros Hpure Hal HH Htopk Hblock Hn. rewrite Hrun.
  unfold combine_reduce. rewrite validate_num_topk_one, Hpure.
  assert (H8 : exists q, hidden P = 8 * q /\ 0 < q).
  { rewrite Z.rem_mod_nonneg in Hal by lia.
    exists (hidden P `div` 8). pose proof (Z.div_mod (hidden P) 8 ltac:(lia)). lia. }
  destruct H8 as (q & Hq & Hqpos).
  assert (Hn4 : actual_num_int4_per_data P = q).
  { unfold actual_num_int4_per_data. rewrite Hq.
    replace (8 * q * 2) with (q * 16) by lia. apply Z.quot_mul. lia. }
  replace (negb (_ && _)) with false.
  2:{ symmetry. apply negb_false_iff, andb_true_iff. unfold kNumElemsPerInt4.
      split; [lia|]. apply Z.eqb_eq. rewrite Hq.
      replace (8 * q * 2) with (q * 16) by lia. apply Z.rem_mul. lia. }
  replace (negb (num_topk P <=? 32)) with false by lia.
  replace (negb (actual_num_int4_per_data P <=? _)) with false by lia.
  replace (negb ((elements_per_token P >? 0) && _)) with false; [by eauto|].
  symmetry. apply negb_false_iff, andb_true_iff.
  unfold elements_per_token, kNumElemsPerInt4. rewrite Hn4. lia.
Qed.

End GuardFacts.

(** ** The theorems on concrete launches *)

(** Closed comparisons, by evaluation. *)
Ltac by_eval := vm_compute; repeat split; first [discriminate | reflexivity].

(** A property of the default and of every stored cell holds of every load. *)
Lemma ldf_forall (Q : spec_float -> bool) (m : gmap Z spec_float) :
  Q F32.zero = true ->
  forallb (fun iv => Q iv.2) (map_to_list m) = true ->
  forall i, Q (F32.ldf m i) = true.
Proof.
  intros H0 Hall i. unfold F32.ldf.
  destruct (m !! i) as [v|] eqn:Hi; [|done]. simpl.
  apply elem_of_map_to_list in Hi.
  rewrite forallb_forall in Hall.
  apply (Hall (i, v)). by apply list_elem_of_In.
Qed.

Lemma clean_zero_memory : WorldSpec.clean World.zero_memory.
Proof. repeat split; intros i; apply ld_empty. Qed.

Module DispatchExamples.

Import Dispatch World Host DispatchSpec WorldSpec Scenarios.

Lemma recv_phase_noop_without_tokens_witness :
  ld (num_recv_tokens_per_rank s4_inputs) (rank s4_params) = 0
  /\ dispatch_recv_phase s4_params s4_inputs (memory_with ∅ {[0 := -2]})
     = Ok (memory_with ∅ {[0 := -2]}, []).
Proof.
  split; [reflexivity|].
  apply RecvGuard.recv_phase_noop_without_tokens. reflexivity.
Defined.


Lemma posted_counts_negative_witness :
  0 <= num_max_dispatch_tokens_per_rank s4_params <= INT_MAX
  /\ (forall s dst_rank offset v,
        dispatch_send_phase s4_params s4_inputs zero_memory = Ok s ->
        AddCount dst_rank offset v ∈ ss_out s ->
        v <= -1 /\ 0 <= decode_count v)
  /\ count_to_post s4_params 2 (memory_with {[8 := -5]} ∅) <= -1.
Proof.
  assert (Hcap : 0 <= num_max_dispatch_tokens_per_rank s4_params <= INT_MAX)
    by (by_eval).
  destruct (Handshake.posted_counts_negative s4_params s4_inputs Hcap)
    as [Hsend Hpure].
  split; [exact Hcap|]. split.
  - intros s dst_rank offset v Hrun.
    apply (Hsend zero_memory s); [intros i; apply ld_empty|exact Hrun].
  - apply (Hpure eq_refl (memory_with {[8 := -5]} ∅) 2).
    by_eval.
Defined.

End DispatchExamples.

Module WorldExamples.

Import Dispatch World Host DispatchSpec WorldSpec Scenarios.

Lemma pair_clean : Forall clean [zero_memory; zero_memory].
Proof. repeat constructor; intros i; apply ld_empty. Qed.

Lemma packed_recv_count_matches_increments_witness :
  launches_ok 2 2 4 pair_launches = true
  /\ exists o md log,
       dispatch_all 1024 switch_7168 pair_launches [zero_memory; zero_memory] = Ok o
       /\ o_world o !! 0%nat = Some md
       /\ o_logs o !! 1%nat = Some log
       /\ ld (packed_recv_count md) 1 = increments log 1
       /\ increments log 1 <= 4.
Proof.
  split; [reflexivity|].
  destruct (dispatch_all 1024 switch_7168 pair_launches [zero_memory; zero_memory])
    as [o|f] eqn:Hrun; [|vm_compute in Hrun; discriminate].
  destruct (WorldFacts.packed_recv_count_matches_increments
              1024 switch_7168 2 2 1 4 ltac:(reflexivity) ltac:(reflexivity) eq_refl
              ltac:(by_eval) pair_launches [zero_memory; zero_memory] o
              eq_refl eq_refl pair_clean Hrun 0 1
              {| l_args := pair_args 0; l_inputs := pair_inputs |}
              ltac:(by_eval) ltac:(by_eval) eq_refl ltac:(reflexivity))
    as (md & log & Hmd & Hlog & Heq & Hle).
  exists o, md, log. repeat split; assumption.
Defined.

(** C3, as the specification words it, fails: the rank that owns the expert
    is launched with [num_recv_tokens_per_rank[rank] = 0]; the dispatch
    completes, the sender has incremented the counter of the pair once and
    the owner's [packed_recv_count] cell is still 0. *)
Lemma packed_recv_count_skipped_receive :
  launches_ok 1 1 4 solo_launches = true
  /\ Forall clean [zero_memory]
  /\ exists o md log,
       dispatch_all 1024 switch_7168 solo_launches [zero_memory] = Ok o
       /\ o_world o !! 0%nat = Some md
       /\ o_logs o !! 0%nat = Some log
       /\ increments log 0 = 1
       /\ ld (packed_recv_count md) 0 = 0.
Proof.
  split; [reflexivity|]. split; [repeat constructor; intros i; apply ld_empty|].
  eexists _, _, _. split; [vm_compute; reflexivity|].
  split; [reflexivity|]. split; [reflexivity|]. split; reflexivity.
Qed.

Lemma capacity_assertions_witness :
  launches_ok 2 2 4 pair_launches = true
  /\ traffic_fits 1024 switch_7168 4 pair_launches = true
  /\ send_topk_entry (with_rank s4_params 1) s4_inputs 2 5 0
       (state_with {[9 := 8]}) = Fatal SlotOverflow
  /\ recv_reserve s4_params 0 0 (memory_with ∅ {[0 := -10]}, [])
     = Fatal RecvOverflow
  /\ (forall f,
        dispatch_all 1024 switch_7168 pair_launches [zero_memory; zero_memory] = Fatal f ->
        f ≠ SlotOverflow /\ f ≠ RecvOverflow /\ f ≠ SlotIndexOverflow)
  /\ is_ok (dispatch_all 1024 switch_7168 pair_launches [zero_memory; zero_memory]) = true.
Proof.
  destruct (CapacityFacts.capacity_assertions
              1024 switch_7168 2 2 1 4 ltac:(reflexivity) ltac:(reflexivity) eq_refl
              ltac:(by_eval))
    as (Hsend & Hrecv & Hfit).
  split; [reflexivity|]. split; [reflexivity|]. split.
  { apply (proj1 (Hsend (with_rank s4_params 1) s4_inputs 2 5 0
                        (state_with {[9 := 8]}))).
    split; [reflexivity|by_eval]. }
  split.
  { apply (Hrecv s4_params 0 0 (memory_with ∅ {[0 := -10]}) []); by_eval. }
  split.
  { intros f. apply Hfit; [reflexivity|reflexivity|exact pair_clean|reflexivity]. }
  vm_compute. reflexivity.
Defined.

End WorldExamples.

Module CombineExamples.

Import F32 Combine CombineSpec Scenarios.

(** The launches of the examples are those the wrapper makes. *)
Lemma combine_params_launched :
  CombineHost.combine 1024 (combine_call 0 1) = Some (combine_params 0 1)
  /\ CombineHost.combine 1024 (combine_call 0 2) = Some (combine_params 0 2)
  /\ CombineHost.combine 1024 (combine_call 1 2) = Some (combine_params 1 2).
Proof. repeat split. Qed.

Lemma zero_weights_example v0 v1 :
  zero_weights (combine_inputs v0 v1 zero zero).
Proof. intros i. apply (ldf_forall is_zero); reflexivity. Qed.

Lemma finite_outputs_example :
  finite_outputs (combine_inputs one two zero zero).
Proof. intros i. apply (ldf_forall is_finite); vm_compute; reflexivity. Qed.

Lemma zero_weight_combine_is_zero_witness :
  same_shape 1 7168 2 2 (combine_launch 0 2 one two zero zero) = true
  /\ same_shape 1 7168 2 2 (combine_launch 1 2 one two zero zero) = true
  /\ is_pure_ep_mode (combine_params 1 2) = true
  /\ exists out evs,
       combine_all [combine_launch 0 2 one two zero zero;
                    combine_launch 1 2 one two zero zero] !! 1%nat
       = Some (Ok (out, evs))
       /\ zero_on 1 7168 (combined_x out).
Proof.
  destruct (ZeroCombine.zero_weight_combine_is_zero 1 7168 2 2
              [combine_launch 0 2 one two zero zero;
               combine_launch 1 2 one two zero zero]
              1 (combine_launch 1 2 one two zero zero))
    as [Hzero Hruns].
  - repeat constructor.
  - repeat constructor; apply zero_weights_example.
  - repeat constructor; apply finite_outputs_example.
  - reflexivity.
  - reflexivity.
  - split; [reflexivity|]. split; [reflexivity|]. split; [reflexivity|].
    destruct Hruns as (out & evs & Hrun); [by_eval..|].
    exists out, evs. split; [exact Hrun|exact (Hzero out evs Hrun)].
Defined.

(** C6, as the specification words it, fails: every weight is zero and one
    expert output is an infinity; the product of zero and an infinity is
    not a number, and so is every element of the output. *)
Lemma zero_weight_combine_of_infinity :
  zero_weights (combine_inputs (S754_infinity false) two zero zero)
  /\ skip_recv_phase (combine_params 0 1) = false
  /\ output_cell
       (combine_all [combine_launch 0 1 (S754_infinity false) two zero zero]
          !! 0%nat) 0
     = Some S754_nan.
Proof.
  split; [apply zero_weights_example|]. split; [reflexivity|].
  vm_compute. reflexivity.
Qed.

Lemma corruption_guard_continues_witness :
  (0 <= 0 \/ 32 < 0)
  /\ validate_num_topk 0 = (1, true)
  /\ exists out,
       combine_reduce (combine_params 0 1) (combine_inputs one two two one)
                      0 [] stale_memory
       = Ok (out, [EvCorrupted 0; EvGridSync; EvGridSync; EvGridSync;
                   EvGridSync]).
Proof.
  assert (Hc : 0 <= 0 \/ 32 < 0) by (left; discriminate).
  destruct (GuardFacts.corruption_guard_continues
              (combine_params 0 1) (combine_inputs one two two one)
              0 [] stale_memory Hc)
    as (Hv & _ & Hsync).
  split; [exact Hc|]. split; [exact Hv|].
  apply Hsync; by_eval.
Defined.

End CombineExamples.

(** * Further properties of the kernels *)

(** ** The mode, the launch wrapper and the schedules of dispatch *)

Module DispatchMore.

Import Dispatch Host DispatchSpec World Scenarios MoreScenarios.

(** The test of line 157 holds whenever the experts divide evenly over the
    ranks: the mixed mode takes a number of experts that is no multiple of
    the number of ranks. *)
Theorem pure_ep_mode_of_divisible (P : params) :
  0 < num_ranks P -> 0 < num_experts P ->
  num_experts P `rem` num_ranks P = 0 ->
  is_pure_ep_mode P = true.
Proof.
  intros HR HE Hrem.
  destruct (quot_rem_nonneg (num_experts P) (num_ranks P)) as (Hq & _ & Hsplit);
    [lia..|].
  rewrite Hrem, Z.add_0_r in Hsplit.
  apply (CountOps.divisible_is_pure P (num_experts P `quot` num_ranks P)
           (num_ranks P)); [done|done|done|nia].
Qed.

Lemma pure_ep_mode_of_divisible_witness :
  num_experts s4_params `rem` num_ranks s4_params = 0
  /\ is_pure_ep_mode s4_params = true.
Proof.
  split; [reflexivity|].
  apply pure_ep_mode_of_divisible; reflexivity.
Defined.

(** The launch wrapper of dispatch (lines 788-884), for [int] arguments.
    It launches the kernel exactly when [num_topk <= 9], the [size_t] value
    of eight times the [int] product [num_experts * num_ranks] is at most
    [NUM_WORKSPACE_BYTES], [use_ue8m0] comes with [round_scale] and the
    switch has a case for [hidden]; when the product is a non-negative
    [int] the second condition is
    [num_experts * num_ranks * 8 <= NUM_WORKSPACE_BYTES].  Its search for a
    warp configuration always ends on one warp group of 32 warps, and the
    grid has [num_experts] blocks. *)
Theorem host_dispatch_launch_condition NW SH (a : dispatch_args) :
  in_int32 (a_num_topk a) ->
  (is_Some (dispatch NW SH a) <->
   a_num_topk a <= 9
   /\ to_size_t (wrap32 (a_num_experts a * a_num_ranks a) * 8) <= to_size_t NW
   /\ (a_use_ue8m0 a = true -> a_round_scale a = true)
   /\ SH (a_hidden a) = true)
  /\ (0 <= a_num_experts a * a_num_ranks a <= INT_MAX ->
      0 <= NW < 18446744073709551616 ->
      (to_size_t (wrap32 (a_num_experts a * a_num_ranks a) * 8) <= to_size_t NW
       <-> a_num_experts a * a_num_ranks a * 8 <= NW))
  /\ (forall P, dispatch NW SH a = Some P ->
        num_warp_groups P = 1 /\ num_warps_per_group P = 32
        /\ gridDim P = a_num_experts a /\ kHidden P = a_hidden a).
Proof.
  intros Htopk. split; [|split].
  - unfold dispatch. rewrite HostFacts.find_warp_config_fixed.
    cbv zeta. unfold kNumMaxTopK.
    assert (Hsz : forall c,
              to_size_t (to_size_t (to_size_t c * 4) * 2) = to_size_t (c * 8)).
    { intros c. unfold to_size_t.
      rewrite Z.mul_mod_idemp_l by done.
      replace (c `mod` 18446744073709551616 * 4 * 2)
        with (c `mod` 18446744073709551616 * 8) by lia.
      by rewrite Z.mul_mod_idemp_l. }
    rewrite Hsz.
    destruct (1 * 32 <? wrap32 (a_num_topk a + 1)) eqn:H1.
    { split; [by intros [? ?]|]. intros (H9 & _).
      rewrite wrap32_id in H1 by (unfold in_int32, INT_MIN, INT_MAX in *; lia).
      lia. }
    change (negb ((1 >? 0) && (32 >? 0))) with false. cbv iota.
    change (negb (9 + 1 <=? 1 * 32)) with false. cbv iota.
    destruct (negb (a_num_topk a <=? 9)) eqn:H2.
    { split; [by intros [? ?]|]. lia. }
    destruct (negb (_ <=? to_size_t NW)) eqn:H3.
    { split; [by intros [? ?]|]. lia. }
    destruct (a_use_ue8m0 a), (a_round_scale a), (SH (a_hidden a)); simpl;
      (split; [intros [? ?]; try done; split_and!; (lia || done)
              |intros (_ & _ & Hr & Hs); try done; try (by eauto);
               by specialize (Hr eq_refl)]).
  - intros Hprod HNW.
    rewrite wrap32_id by (unfold in_int32, INT_MIN, INT_MAX in *; lia).
    unfold to_size_t. unfold INT_MAX in Hprod.
    rewrite !Z.mod_small by lia. done.
  - intros P HP. apply HostFacts.dispatch_Some in HP. by subst P.
Qed.

Lemma host_dispatch_launch_condition_witness :
  is_Some (dispatch 1024 switch_7168 (pair_args 0))
  /\ ~ is_Some (dispatch 8 switch_7168 (pair_args 0))
  /\ ~ is_Some (dispatch 1024 (fun hidden => hidden =? 2048) (pair_args 0)).
Proof.
  destruct (host_dispatch_launch_condition 1024 switch_7168 (pair_args 0))
    as (Hyes & _ & _); [by (unfold in_int32, INT_MIN, INT_MAX; simpl; lia)|].
  destruct (host_dispatch_launch_condition 8 switch_7168 (pair_args 0))
    as (Hno & _ & _); [by (unfold in_int32, INT_MIN, INT_MAX; simpl; lia)|].
  destruct (host_dispatch_launch_condition 1024 (fun hidden => hidden =? 2048)
              (pair_args 0))
    as (Hsw & _ & _); [by (unfold in_int32, INT_MIN, INT_MAX; simpl; lia)|].
  split; [|split].
  - apply Hyes. by_eval.
  - intros Hl. apply Hno in Hl as (_ & Hw & _). vm_compute in Hw.
    by apply Hw.
  - intros Hl. apply Hsw in Hl as (_ & _ & _ & Hs). discriminate Hs.
Defined.

(** With at least one processing warp, the strided token loops of the
    warps (line 230) visit every (token, top-k offset) pair exactly once:
    their schedule is a permutation of the row-major scan. *)
Theorem warps_visit_each_entry_once (P : params) :
  0 < num_warps P - 1 -> send_schedule P ≡ₚ scan_schedule P.
Proof.
  intros Hw. unfold send_schedule, scan_schedule.
  rewrite <-(list_bind_assoc
               (fun w => strided w (num_tokens P) (num_warps P - 1))).
  by rewrite (strided_partition (num_tokens P) (num_warps P - 1)).
Qed.

Lemma warps_visit_each_entry_once_witness :
  0 < num_warps s4_params - 1
  /\ send_schedule s4_params ≡ₚ scan_schedule s4_params.
Proof.
  split; [reflexivity|].
  apply warps_visit_each_entry_once. reflexivity.
Defined.

End DispatchMore.

(** ** The send loop, the detector and the counts *)

Module SendMore.

Import Dispatch Host DispatchSpec World Scenarios MoreScenarios.

Section Block.

Variable P : params.
Variable I : inputs.

Hypothesis capacity_is_int : num_max_dispatch_tokens_per_rank P <= INT_MAX.

(** The counter of a block's expert after the entries of a schedule went
    through the top-k loop body. *)
Lemma send_entries_counter e (entries : list (Z * Z)) : forall s s',
  let idx := e * num_ranks P + rank P in
  0 <= ld (atomic_counter_per_expert (ss_mem s)) idx ->
  for_each entries (fun tk => send_topk_entry P I e tk.1 tk.2) s = Ok s' ->
  ld (atomic_counter_per_expert (ss_mem s')) idx
  = ld (atomic_counter_per_expert (ss_mem s)) idx
    + count_selected P I e entries.
Proof.
  induction entries as [|[t k] entries IH]; intros s s' idx Hc0; simpl.
  - intros [= <-]. unfold count_selected. simpl. lia.
  - rewrite ScheduleFacts.count_selected_cons.
    pose proof (SendFacts.send_topk_entry_cases P I e t k s) as C.
    cbv zeta in C. fold idx in C.
    destruct (entry_selected P I e t k).
    + destruct (_ >=? _) eqn:Hge; rewrite C; [done|]. simpl.
      intros Hrun. apply IH in Hrun; fold idx in Hrun |- *; simpl in Hrun |- *.
      * rewrite Hrun, ld_insert_eq. rewrite wrap32_id; [lia|].
        unfold in_int32, INT_MIN, INT_MAX in *. lia.
      * rewrite ld_insert_eq. rewrite wrap32_id; [lia|].
        unfold in_int32, INT_MIN, INT_MAX in *. lia.
    + rewrite C. simpl. intros Hrun. apply IH in Hrun; [|done].
      fold idx in Hrun. lia.
Qed.

Lemma send_entries_fault e (entries : list (Z * Z)) s f :
  for_each entries (fun tk => send_topk_entry P I e tk.1 tk.2) s = Fatal f ->
  f = SlotOverflow.
Proof.
  apply (for_each_fault (fun _ => True) (fun f => f = SlotOverflow));
    [done|done|].
  intros [t k] u g _ _. simpl.
  pose proof (SendFacts.send_topk_entry_cases P I e t k u) as C.
  cbv zeta in C. destruct (entry_selected P I e t k).
  - destruct (_ >=? _); rewrite C; [congruence|done].
  - by rewrite C.
Qed.

End Block.

(** The token-drop detector (lines 415-446) cannot fire in a block with a
    processing warp whose counter started at zero: the send loops either
    stop at the capacity assertion or leave in the counter the very number
    the detector recomputes. *)
Theorem token_drop_never_fires (P : params) (I : inputs) e s f :
  0 < num_warps P - 1 ->
  kHidden P `rem` 8 = 0 ->
  num_max_dispatch_tokens_per_rank P <= INT_MAX ->
  ld (atomic_counter_per_expert (ss_mem s)) (e * num_ranks P + rank P) = 0 ->
  dispatch_send_block P I e s = Fatal f -> f = SlotOverflow.
Proof.
  intros Hw Hal Hcap Hzero. unfold dispatch_send_block.
  rewrite ScheduleFacts.send_tokens_block_schedule by exact Hal.
  destruct (for_each _ _ s) as [s1|g] eqn:Hrun; simpl.
  - apply send_entries_counter in Hrun; [|exact Hcap|lia].
    unfold check_token_drop.
    rewrite Hrun, Hzero, ScheduleFacts.expected_count_scan,
      <-ScheduleFacts.schedules_agree by exact Hw.
    rewrite Z.add_0_l, Z.ltb_irrefl, andb_false_r. done.
  - intros [= <-]. eapply send_entries_fault. exact Hrun.
Qed.

Lemma token_drop_never_fires_witness :
  ld (atomic_counter_per_expert (ss_mem fresh_state))
     (0 * num_ranks crowded_params + rank crowded_params) = 0
  /\ dispatch_send_block crowded_params crowded_inputs 0 fresh_state
     = Fatal SlotOverflow
  /\ forall f,
       dispatch_send_block crowded_params crowded_inputs 0 fresh_state
       = Fatal f -> f = SlotOverflow.
Proof.
  split; [reflexivity|]. split; [vm_compute; reflexivity|].
  intros f. apply token_drop_never_fires; by_eval.
Defined.

(** A send phase that completes, started from zeroed slot counters, posts
    exactly one count per expert and no other count, whatever the order in
    which the blocks post them: the counts among its one-sided operations
    are, up to their order, for every expert [e] the addition of [-n - 1]
    to cell [e_local * R + rank] of the owner of [e], [n] being the number
    of slots the rank reserved for [e]; so [-1] when it sent it nothing. *)
Theorem send_phase_posts_one_count_per_expert
    (P : params) (I : inputs) (m : memory) (s : send_state) :
  0 <= num_max_dispatch_tokens_per_rank P <= INT_MAX ->
  zeroed (atomic_counter_per_expert m) ->
  Z.land (phases P) LOW_LATENCY_SEND_PHASE ≠ 0 ->
  dispatch_send_phase P I m = Ok s ->
  filter (fun op => is_put op = false) (ss_out s)
  ≡ₚ (fun e => AddCount (e `quot` num_local_experts P)
                 (e `rem` num_local_experts P * num_ranks P + rank P)
                 (- increments (ss_log s) (e * num_ranks P + rank P) - 1))
       <$> seqZ 0 (num_experts P).
Proof.
  intros Hcap Hz Hph Hrun.
  destruct (SendPhase.send_phase_spec P I m Hcap s Hz Hph Hrun)
    as (puts & (_ & Hlog & Hrange & Hputs) & Hout).
  simpl in Hlog, Hrange, Hputs.
  rewrite Hout, filter_app.
  assert (filter (fun op => is_put op = false) puts = []) as ->.
  { clear Hout. induction Hputs as [|op puts Hop _ IH]; [done|].
    rewrite filter_cons_False; [exact IH|]. by rewrite Hop. }
  simpl.
  assert (Hall : forall l : list Z,
            filter (fun op => is_put op = false)
                   ((fun e => AddCount (e `quot` num_local_experts P)
                                (e `rem` num_local_experts P * num_ranks P
                                 + rank P)
                                (count_to_post P e (ss_mem s))) <$> l)
            = (fun e => AddCount (e `quot` num_local_experts P)
                          (e `rem` num_local_experts P * num_ranks P + rank P)
                          (count_to_post P e (ss_mem s))) <$> l).
  { induction l as [|e l IH]; [done|].
    rewrite fmap_cons, filter_cons_True by done. by rewrite IH. }
  unfold count_ops. rewrite Hall.
  match goal with
  | |- ?a ≡ₚ ?b => assert (a = b) as Heq; [|by rewrite Heq]
  end.
  apply list_fmap_ext. intros i e _. f_equal.
  rewrite <-Hlog.
  apply (CountOps.count_to_post_cell P (ss_mem s) e
           (num_max_dispatch_tokens_per_rank P)); [apply Hrange|lia].
Qed.

Lemma send_phase_posts_one_count_per_expert_witness :
  zeroed (atomic_counter_per_expert zero_memory)
  /\ exists s,
       dispatch_send_phase (with_rank s4_params 1) s4_inputs zero_memory = Ok s
       /\ filter (fun op => is_put op = false) (ss_out s)
          ≡ₚ (fun e => AddCount e 1 (- increments (ss_log s) (e * 4 + 1) - 1))
               <$> seqZ 0 4.
Proof.
  assert (Hz : zeroed (atomic_counter_per_expert zero_memory))
    by (intros i; apply ld_empty).
  split; [exact Hz|].
  destruct (dispatch_send_phase (with_rank s4_params 1) s4_inputs zero_memory)
    as [s|f] eqn:Hrun; [|vm_compute in Hrun; discriminate].
  pose proof (send_phase_posts_one_count_per_expert
                (with_rank s4_params 1) s4_inputs zero_memory s
                ltac:(by_eval) Hz ltac:(by_eval) Hrun) as Hout.
  exists s. split; [reflexivity|exact Hout].
Defined.

End SendMore.

(** ** The receive phase: time-out and frame *)

Module RecvMore.

Import Dispatch Host DispatchSpec World Scenarios MoreScenarios.



Lemma recv_copy_token_keeps (P : params) (I : inputs) l sr begin i
    (m m' : memory) :
  recv_copy_token P I l sr begin i m = Ok m' ->
  rdma_recv_count m' = rdma_recv_count m
  /\ rdma_recv_x m' = rdma_recv_x m
  /\ atomic_counter_per_expert m' = atomic_counter_per_expert m.
Proof.
  unfold recv_copy_token. cbv zeta.
  destruct (_ >=? _); [done|].
  destruct (kUseFP8 P); by intros [= <-].
Qed.

(** The receive phase reads the symmetric receive buffers and never writes
    them: a receive phase that completes leaves [rdma_recv_count] (the counts
    are not consumed), [rdma_recv_x] and the slot counters of the send phase
    as they were. *)
Theorem recv_phase_frame (P : params) (I : inputs) (m m' : memory)
    (evs : list event) :
  dispatch_recv_phase P I m = Ok (m', evs) ->
  rdma_recv_count m' = rdma_recv_count m
  /\ rdma_recv_x m' = rdma_recv_x m
  /\ atomic_counter_per_expert m' = atomic_counter_per_expert m.
Proof.
  unfold dispatch_recv_phase. destruct (_ =? 0); [by intros [= <- _]|].
  set (Inv := fun st : memory * list event =>
         rdma_recv_count st.1 = rdma_recv_count m
         /\ rdma_recv_x st.1 = rdma_recv_x m
         /\ atomic_counter_per_expert st.1 = atomic_counter_per_expert m).
  intros Hrun. change (Inv (m', evs)). revert Hrun.
  apply (for_each_inv Inv); [done|].
  intros b u u' _ Hu. unfold dispatch_recv_block.
  destruct (_ && _); [|by intros [= <-]]. cbv zeta.
  destruct (negb _); [done|]. destruct (negb _); [done|].
  apply (for_each_inv Inv); [exact Hu|].
  intros g [v ev] [v' ev'] _ Hv. unfold recv_warp_group.
  pose proof (RecvFacts.recv_reserve_cases P (b `quot` num_ranks P)
                (b `rem` num_ranks P) v ev) as C.
  cbv zeta in C.
  destruct (_ =? 0); [by rewrite C|].
  destruct (_ >? _); rewrite C; [done|]. simpl.
  destruct (decode_count _ =? 0); [by intros [= <- _]|].
  destruct (negb _); [done|].
  intros (m1 & Hcopy & [= <- _])%RecvFacts.bind_Ok_inv.
  revert Hcopy.
  set (Keep := fun x : memory =>
         rdma_recv_count x = rdma_recv_count m
         /\ rdma_recv_x x = rdma_recv_x m
         /\ atomic_counter_per_expert x = atomic_counter_per_expert m).
  apply (for_each_inv Keep); [exact Hv|].
  intros sw x x' _ Hx. apply (for_each_inv Keep); [exact Hx|].
  intros i y y' _ (Hy1 & Hy2 & Hy3) Hstep.
  apply recv_copy_token_keeps in Hstep as (Hz1 & Hz2 & Hz3).
  unfold Keep. split_and!; congruence.
Qed.

Lemma recv_phase_frame_witness :
  exists m' evs,
    dispatch_recv_phase (pair_params 0) pair_inputs arrived_memory
    = Ok (m', evs)
    /\ ld (packed_recv_count m') 0 = 1
    /\ rdma_recv_count m' = rdma_recv_count arrived_memory
    /\ rdma_recv_x m' = rdma_recv_x arrived_memory.
Proof.
  destruct (dispatch_recv_phase (pair_params 0) pair_inputs arrived_memory)
    as [[m' evs]|f] eqn:Hrun; [|vm_compute in Hrun; discriminate].
  destruct (recv_phase_frame _ _ _ _ _ Hrun) as (H1 & H2 & _).
  exists m', evs. split; [reflexivity|]. split; [|by split].
  vm_compute in Hrun. injection Hrun as <- _. reflexivity.
Defined.

End RecvMore.

(** ** The buffer cleaners *)

Lemma foldl_bind {A B C} (f : A -> C -> A) (g : B -> list C) (a : A)
    (l : list B) :
  foldl f a (l ≫= g) = foldl (fun a x => foldl f a (g x)) a l.
Proof.
  revert a. induction l as [|x l IH]; intros a; [done|].
  simpl. by rewrite foldl_app, IH.
Qed.

Lemma to_nat_seqZ n : Z.to_nat <$> seqZ 0 n = seq 0 (Z.to_nat n).
Proof.
  unfold seqZ. rewrite <-list_fmap_compose.
  rewrite <-(list_fmap_id (seq 0 (Z.to_nat n))) at 2.
  apply list_fmap_ext. intros i x _. simpl. lia.
Qed.

(** The threads of a block-strided loop cover [0, bound) once. *)
Lemma threads_cover bound step :
  0 < step ->
  Z.to_nat <$> (seqZ 0 step ≫= fun w => strided w bound step)
  ≡ₚ seq 0 (Z.to_nat bound).
Proof.
  intros H. rewrite (strided_partition bound step H). by rewrite to_nat_seqZ.
Qed.

Module CleanFacts.

Import Sync Clean.

Lemma ld_zeroed_cells (l : list Z) (b : buffer) i :
  ld (foldl (fun b i => <[i := 0]> b) b l) i
  = if decide (i ∈ l) then 0 else ld b i.
Proof.
  revert b. induction l as [|a l IH]; intros b.
  - destruct (decide (i ∈ [])) as [H%elem_of_nil|]; done.
  - simpl foldl. rewrite IH.
    destruct (decide (i ∈ l)) as [Hin|Hout], (decide (i ∈ a :: l)) as [Hin'|Hout'].
    + done.
    + exfalso. apply Hout'. by right.
    + apply elem_of_cons in Hin' as [->|?]; [|done]. apply ld_insert_eq.
    + apply ld_insert_ne. intros ->. apply Hout'. by left.
Qed.

Lemma zero_loop_spec n (b : buffer) i :
  ld (zero_loop n b) i = if (0 <=? i) && (i <? n) then 0 else ld b i.
Proof.
  unfold zero_loop.
  rewrite <-(foldl_bind (fun b i => <[i := 0]> b)
               (fun w => strided w n kNumThreads)).
  rewrite ld_zeroed_cells.
  pose proof (strided_partition n kNumThreads ltac:(done)) as Hperm.
  destruct (decide (i ∈ _)) as [Hin|Hout].
  - rewrite Hperm in Hin. apply elem_of_seqZ in Hin.
    by replace ((0 <=? i) && (i <? n)) with true by lia.
  - rewrite Hperm, elem_of_seqZ in Hout.
    by replace ((0 <=? i) && (i <? n)) with false by lia.
Qed.

Lemma cleaned_zero_loop (c : option buffer) n : cleaned c n (zero_loop n <$> c).
Proof. destruct c as [b|]; simpl; [|done]. intros i. apply zero_loop_spec. Qed.

Lemma cleaned_skip (c : option buffer) n :
  is_null c || (n =? 0) = true -> cleaned c n c.
Proof.
  destruct c as [b|]; simpl; [|done]. intros Hn i.
  by replace ((0 <=? i) && (i <? n)) with false by lia.
Qed.

(** Whether it launches the kernel or returns at once, the wrapper leaves
    the first [num_clean_int] cells of each buffer that is not null at zero
    and every other cell as it was: the early return is taken only when
    there is no cell to clear. *)
Theorem clean_low_latency_buffer_clears c0 n0 c1 n1 :
  cleaned c0 n0 (clean_low_latency_buffer c0 n0 c1 n1).1
  /\ cleaned c1 n1 (clean_low_latency_buffer c0 n0 c1 n1).2.
Proof.
  unfold clean_low_latency_buffer.
  destruct (_ && _) eqn:Hskip; simpl.
  - apply andb_true_iff in Hskip as [H0 H1].
    split; by apply cleaned_skip.
  - split; apply cleaned_zero_loop.
Qed.

Lemma alter_each {A} (f : A -> A) (idxs : list nat) : forall (l : list A) j,
  NoDup idxs ->
  foldl (fun l k => alter f k l) l idxs !! j
  = (if decide (j ∈ idxs) then f else id) <$> l !! j.
Proof.
  induction idxs as [|k idxs IH]; intros l j Hnd.
  - simpl. destruct (decide (j ∈ [])) as [H%elem_of_nil|]; [done|].
    by destruct (l !! j).
  - apply NoDup_cons in Hnd as [Hk Hnd]. simpl foldl. rewrite IH by done.
    destruct (decide (j = k)) as [->|Hne].
    + rewrite list_lookup_alter_eq.
      rewrite decide_False by done. rewrite decide_True by left.
      by destruct (l !! k).
    + rewrite list_lookup_alter_ne by done.
      destruct (decide (j ∈ idxs)) as [Hin|Hout].
      * by rewrite decide_True by (by right).
      * rewrite decide_False; [done|].
        intros [?|?]%elem_of_cons; congruence.
Qed.

Lemma insert_each {A} (x : A) (idxs : list nat) : forall (l : list A) j,
  foldl (fun l k => <[k := x]> l) l idxs !! j
  = (if decide (j ∈ idxs) then fun _ => x else id) <$> l !! j.
Proof.
  induction idxs as [|k idxs IH]; intros l j.
  - simpl. destruct (decide (j ∈ [])) as [H%elem_of_nil|]; [done|].
    by destruct (l !! j).
  - simpl foldl. rewrite IH.
    destruct (decide (j = k)) as [->|Hne].
    + rewrite (decide_True (P := k ∈ k :: idxs)) by left.
      destruct (l !! k) as [y|] eqn:Hk.
      * rewrite list_lookup_insert_eq by (by eapply lookup_lt_Some).
        by destruct (decide _).
      * assert (<[k := x]> l !! k = None) as ->; [|by destruct (decide _)].
        apply lookup_ge_None. rewrite length_insert.
        by apply lookup_ge_None.
    + rewrite list_lookup_insert_ne by done.
      destruct (decide (j ∈ idxs)) as [Hin|Hout].
      * by rewrite decide_True by (by right).
      * rewrite decide_False; [done|].
        intros [?|?]%elem_of_cons; congruence.
Qed.

Lemma clear_counters_struct (s : ExpertSyncInfo) :
  is_struct s -> clear_counters s = idle_info (combined_x_ptr s).
Proof.
  destruct s as [ex re te tr cr ec ptr pad]. unfold is_struct. simpl.
  intros (H1 & H2 & H3).
  do 9 (destruct ex as [|? ex]; try discriminate H1).
  do 9 (destruct re as [|? re]; try discriminate H2).
  do 2 (destruct pad as [|? pad]; try discriminate H3).
  reflexivity.
Qed.

Lemma clean_sync_lookup E (info : list ExpertSyncInfo) j :
  clean_sync E info !! j
  = (if Z.of_nat j <? E then clear_counters else id) <$> info !! j.
Proof.
  unfold clean_sync.
  rewrite <-(foldl_bind (fun l e => alter clear_counters (Z.to_nat e) l)
               (fun w => strided w E kNumThreads)).
  rewrite <-(foldl_fmap (fun l k => alter clear_counters k l)).
  pose proof (threads_cover E kNumThreads ltac:(done)) as Hperm.
  rewrite alter_each by (rewrite Hperm; apply NoDup_seq).
  destruct (decide (j ∈ _)) as [Hin|Hout].
  - rewrite Hperm in Hin. apply elem_of_seq in Hin.
    by replace (Z.of_nat j <? E) with true by lia.
  - rewrite Hperm, elem_of_seq in Hout.
    by replace (Z.of_nat j <? E) with false by lia.
Qed.

(** The cleaner with sync info resets every counter of the structures of
    the first [num_experts] experts and keeps their [combined_x_ptr]; the
    structures beyond stay as they were, and the two buffers are cleared as
    by the plain cleaner. *)
Theorem clean_with_sync_keeps_pointer c0 n0 c1 n1
    (info : list ExpertSyncInfo) E :
  Forall is_struct info -> E <= Z.of_nat (length info) ->
  exists c0' c1',
    clean_low_latency_buffer_with_sync c0 n0 c1 n1 (Some info) E
    = Some (c0', c1',
            Some (imap (fun i s => if Z.of_nat i <? E
                                   then idle_info (combined_x_ptr s) else s)
                       info))
    /\ cleaned c0 n0 c0' /\ cleaned c1 n1 c1'.
Proof.
  intros Hstruct Hlen. unfold clean_low_latency_buffer_with_sync.
  rewrite andb_false_r.
  unfold clean_low_latency_buffer_with_sync_kernel. cbv zeta.
  replace (Z.of_nat (length info) <? E) with false by lia.
  eexists _, _. split; [|split; apply cleaned_zero_loop].
  do 3 f_equal. apply list_eq. intros j.
  rewrite clean_sync_lookup, list_lookup_imap.
  destruct (info !! j) as [s|] eqn:Hj; [|done]. simpl.
  destruct (Z.of_nat j <? E); [|done].
  f_equal. apply clear_counters_struct.
  by eapply (Forall_lookup_1 _ _ _ _ Hstruct).
Qed.

(** Dispatch starts by zeroing the structures of the first [num_experts]
    experts whole, [combined_x_ptr] included, and touches no other. *)
Theorem dispatch_init_sync_erases (info : list ExpertSyncInfo) E :
  E <= Z.of_nat (length info) ->
  dispatch_init_sync E (Some info)
  = Some (Some (imap (fun i s => if Z.of_nat i <? E then zeroed else s) info)).
Proof.
  intros Hlen. unfold dispatch_init_sync.
  replace (Z.of_nat (length info) <? E) with false by lia.
  do 2 f_equal. apply list_eq. intros j.
  rewrite <-(foldl_fmap (fun l k => <[k := zeroed]> l)).
  rewrite insert_each, list_lookup_imap, to_nat_seqZ.
  destruct (decide (j ∈ _)) as [Hin|Hout].
  - apply elem_of_seq in Hin.
    by replace (Z.of_nat j <? E) with true by lia.
  - rewrite elem_of_seq in Hout.
    replace (Z.of_nat j <? E) with false by lia. by destruct (info !! j).
Qed.

Lemma clean_with_sync_keeps_pointer_witness :
  Forall is_struct [MoreScenarios.busy_info 77; MoreScenarios.busy_info 88]
  /\ exists c0' c1',
       clean_low_latency_buffer_with_sync (Some {[0 := 5]}) 1 None 0
         (Some [MoreScenarios.busy_info 77; MoreScenarios.busy_info 88]) 1
       = Some (c0', c1',
               Some [idle_info 77; MoreScenarios.busy_info 88]).
Proof.
  assert (Hs : Forall is_struct
                 [MoreScenarios.busy_info 77; MoreScenarios.busy_info 88])
    by (repeat constructor).
  split; [exact Hs|].
  destruct (clean_with_sync_keeps_pointer (Some {[0 := 5]}) 1 None 0
              [MoreScenarios.busy_info 77; MoreScenarios.busy_info 88] 1 Hs)
    as (c0' & c1' & Heq & _); [by_eval|].
  exists c0', c1'. exact Heq.
Defined.

Lemma dispatch_init_sync_erases_witness :
  1 <= Z.of_nat (length [MoreScenarios.busy_info 77; MoreScenarios.busy_info 88])
  /\ dispatch_init_sync 1
       (Some [MoreScenarios.busy_info 77; MoreScenarios.busy_info 88])
     = Some (Some [zeroed; MoreScenarios.busy_info 88]).
Proof.
  split; [by_eval|].
  apply (dispatch_init_sync_erases
           [MoreScenarios.busy_info 77; MoreScenarios.busy_info 88] 1).
  by_eval.
Defined.

End CleanFacts.

(** ** The launch wrapper of combine *)

Module CombineHostFacts.

Import F32 Combine CombineHost Scenarios.

Lemma combine_pure_of_divisible (P : params) :
  0 < num_ranks P -> 0 < num_experts P ->
  num_experts P `rem` num_ranks P = 0 ->
  is_pure_ep_mode P = true.
Proof.
  intros HR HE Hrem.
  destruct (quot_rem_nonneg (num_experts P) (num_ranks P)) as (Hq & _ & Hsplit);
    [lia..|].
  rewrite Hrem, Z.add_0_r in Hsplit.
  unfold is_pure_ep_mode, num_local_experts.
  set (L := num_experts P `quot` num_ranks P) in *.
  assert (0 < L) by nia.
  rewrite Hsplit at 1. rewrite Z.mul_comm, Z.quot_mul by lia. lia.
Qed.

Lemma combine_Some NW a P :
  combine NW a = Some P ->
  0 < c_num_combined_tokens a
  /\ 0 < c_hidden a /\ c_hidden a `rem` 128 = 0
  /\ 0 < c_num_experts a /\ c_num_experts a `rem` c_num_ranks a = 0
  /\ 0 < c_num_ranks a
  /\ 0 < c_num_topk a <= 9
  /\ num_combined_tokens P = c_num_combined_tokens a
  /\ hidden P = c_hidden a
  /\ num_topk P = c_num_topk a
  /\ num_experts P = c_num_experts a
  /\ num_ranks P = c_num_ranks a
  /\ rank P = c_rank a
  /\ gridDim P = c_num_experts a
  /\ c_hidden a `quot` 8 <= blockDim P.
Proof.
  unfold combine.
  destruct (negb (_ >? 0)) eqn:H1; [done|].
  destruct (negb ((c_hidden a >? 0) && _)) eqn:H2; [done|].
  destruct (negb ((c_num_experts a >? 0) && _)) eqn:H3; [done|].
  destruct (negb (c_num_ranks a >? 0)) eqn:H4; [done|].
  destruct (negb ((c_num_topk a >? 0) && _)) eqn:H5; [done|].
  cbv zeta.
  destruct (negb ((ceil_div _ _ >? 0) && _)) eqn:H6; [done|].
  destruct (negb (4 <=? NW)) eqn:H7; [done|].
  intros [= <-]. simpl.
  apply negb_false_iff in H1, H2, H3, H4, H5.
  apply andb_true_iff in H2 as [H2 H2'], H3 as [H3 H3'], H5 as [H5 H5'].
  split_and!; try lia.
  destruct (_ >? c_hidden a `quot` 8) eqn:Hmax; lia.
Qed.

(** Every launch the wrapper of combine makes runs in Pure EP mode, passes
    every device assertion of the reduction, does not trip the corruption
    guard and goes through its four grid synchronisations: the wrapper's
    checks exclude the mixed mode and every failure of the reduce part. *)
Theorem host_combine_launch_completes NW (a : combine_args) (P : params)
    (I : inputs) peers (m : memory) :
  0 < c_num_device_sms a ->
  combine NW a = Some P ->
  is_pure_ep_mode P = true
  /\ gridDim P = num_experts P
  /\ actual_num_int4_per_data P <= blockDim P
  /\ exists out,
       combine_reduce P I (num_topk P) peers m
       = Ok (out, [EvGridSync; EvGridSync; EvGridSync; EvGridSync]).
Proof.
  intros _ HP.
  destruct (combine_Some NW a P HP)
    as (Hn & HH & HH128 & HE & HER & HR & Htopk & Pn & PH & Ptopk & PE & PR & _
        & Pgrid & Pblock).
  assert (H8 : exists q, hidden P = 8 * q /\ 0 < q).
  { rewrite Z.rem_mod_nonneg in HH128 by lia.
    exists (16 * (c_hidden a `div` 128)).
    pose proof (Z.div_mod (c_hidden a) 128 ltac:(lia)). lia. }
  destruct H8 as (q & Hq & Hqpos).
  assert (Hn4 : actual_num_int4_per_data P = q).
  { unfold actual_num_int4_per_data. rewrite Hq.
    replace (8 * q * 2) with (q * 16) by lia. apply Z.quot_mul. lia. }
  assert (Hpure : is_pure_ep_mode P = true).
  { apply combine_pure_of_divisible; rewrite ?PE, ?PR; done. }
  assert (Hblock : actual_num_int4_per_data P <= blockDim P).
  { rewrite Hn4. rewrite <-PH, Hq in Pblock.
    rewrite Z.mul_comm, Z.quot_mul in Pblock by lia. done. }
  split; [exact Hpure|]. split; [lia|]. split; [exact Hblock|].
  unfold combine_reduce.
  replace (negb (_ && _)) with false.
  2:{ symmetry. apply negb_false_iff, andb_true_iff. unfold kNumElemsPerInt4.
      rewrite Hq. split.
      - apply Z.eqb_eq. rewrite Z.mul_comm. apply Z.rem_mul. lia.
      - apply Z.eqb_eq. replace (8 * q * 2) with (q * 16) by lia.
        apply Z.rem_mul. lia. }
  replace (negb (num_topk P <=? 32)) with false by lia.
  replace (negb (actual_num_int4_per_data P <=? _)) with false by lia.
  unfold validate_num_topk. cbv zeta.
  replace ((num_topk P <=? 0) || (num_topk P >? 32)) with false by lia.
  replace (num_topk P >? kNumMaxTopk) with false by (unfold kNumMaxTopk; lia).
  rewrite Hpure.
  replace (negb ((elements_per_token P >? 0) && _)) with false; [by eauto|].
  symmetry. apply negb_false_iff, andb_true_iff.
  unfold elements_per_token, kNumElemsPerInt4. rewrite Hn4. lia.
Qed.

Lemma host_combine_launch_completes_witness :
  combine 1024 (combine_call 0 1) = Some (combine_params 0 1)
  /\ is_pure_ep_mode (combine_params 0 1) = true
  /\ exists out,
       combine_reduce (combine_params 0 1) (combine_inputs one two two one)
                      2 [] stale_memory
       = Ok (out, [EvGridSync; EvGridSync; EvGridSync; EvGridSync]).
Proof.
  destruct (host_combine_launch_completes 1024 (combine_call 0 1)
              (combine_params 0 1) (combine_inputs one two two one) []
              stale_memory)
    as (Hpure & _ & _ & Hrun); [by_eval|reflexivity|].
  split; [reflexivity|]. split; [exact Hpure|exact Hrun].
Defined.

End CombineHostFacts.

(** ** The output of combine *)

Module CombineOutFacts.

Import F32 Combine CombineSpec CombineOut ZeroFacts CoverFacts.

(** A cell some store of the sequence addresses holds a value that stands
    in the given relation with the cell. *)
Lemma store_all_rel (Q : Z -> spec_float -> Prop) ws m i :
  (forall iv, iv ∈ ws -> Q iv.1 iv.2) -> i ∈ ws.*1 ->
  Q i (ldf (store_all ws m) i).
Proof.
  induction ws as [|iv ws IH] using rev_ind; intros Hall Hin.
  - by apply elem_of_nil in Hin.
  - rewrite store_all_snoc. destruct (decide (iv.1 = i)) as [<-|Hne].
    + rewrite ldf_insert_eq. apply Hall, elem_of_app. right. by left.
    + rewrite ldf_insert_ne by done. apply IH.
      * intros iv' Hiv'. apply Hall, elem_of_app. by left.
      * rewrite fmap_app in Hin. apply elem_of_app in Hin as [Hin|Hin]; [done|].
        apply list_elem_of_singleton in Hin. done.
Qed.

(** A cell no store of the sequence addresses keeps its value. *)
Lemma store_all_frame ws (m : gmap Z spec_float) i :
  i ∉ ws.*1 -> ldf (store_all ws m) i = ldf m i.
Proof.
  induction ws as [|iv ws IH] using rev_ind; intros Hin; [done|].
  rewrite store_all_snoc, fmap_app in *.
  rewrite ldf_insert_ne; [apply IH|]; intros ?; apply Hin, elem_of_app.
  - by left.
  - right. subst i. by left.
Qed.

Section Lengths.

Variable P : params.
Variable I : inputs.

Lemma load_slot_length l from_rank slot c :
  length (load_slot P I l from_rank slot c) = 8%nat.
Proof.
  unfold load_slot. cbv zeta. destruct (_ || _); [done|].
  unfold load_x_vec. by rewrite length_fmap, length_seqZ.
Qed.

Lemma scan_slots_length t c l from_rank off w slots cv :
  length cv = 8%nat ->
  length (scan_slots P I t c l from_rank off w slots cv) = 8%nat.
Proof.
  intros Hcv. induction slots as [|slot slots IH]; [done|].
  simpl. destruct (_ >=? _); [exact IH|]. destruct (negb _); [exact IH|].
  unfold accumulate. rewrite length_zip_with, Hcv, load_slot_length. done.
Qed.

Lemma combine_chunk_length k t c : length (combine_chunk P I k t c) = 8%nat.
Proof.
  unfold combine_chunk.
  apply (foldl_inv (fun cv => length cv = 8%nat)); [done|].
  intros cv i _ Hcv. unfold accumulate_entry. cbv zeta.
  destruct (_ <? 0); [done|].
  destruct (layout_range I) as [layout|]; [|done].
  destruct (_ =? rank P); [|done].
  apply (foldl_inv (fun cv => length cv = 8%nat)); [done|].
  intros cv' from_rank _ Hcv'. unfold scan_rank.
  destruct (unpack2 _) as [num off]. by apply scan_slots_length.
Qed.

(** The lanes a chunk is stored from. *)
Lemma zip_lanes_elem (v : list spec_float) j x :
  (j, x) ∈ zip (seqZ 0 kNumElemsPerInt4) v -> 0 <= j < 8 /\ x = lane v j.
Proof.
  intros (i & Hi)%list_elem_of_lookup.
  apply lookup_zip_Some in Hi as [Hj Hx].
  apply lookup_seqZ in Hj as [-> Hlt]. unfold kNumElemsPerInt4 in Hlt.
  split; [lia|]. unfold lane. rewrite Z.add_0_l, Nat2Z.id, Hx. done.
Qed.

Lemma zip_lanes_in (v : list spec_float) j :
  length v = 8%nat -> 0 <= j < 8 ->
  (j, lane v j) ∈ zip (seqZ 0 kNumElemsPerInt4) v.
Proof.
  intros Hlen Hj.
  destruct (lookup_lt_is_Some_2 v (Z.to_nat j)) as [x Hx]; [lia|].
  apply list_elem_of_lookup. exists (Z.to_nat j).
  apply lookup_zip_Some. split.
  - apply lookup_seqZ. unfold kNumElemsPerInt4. lia.
  - unfold lane. by rewrite Hx.
Qed.

End Lengths.

(** The cell of lane [j] of chunk [c] of token [t]. *)
Lemma cell_inj n4 t c j t' c' j' :
  0 <= c < n4 -> 0 <= c' < n4 -> 0 <= j < 8 -> 0 <= j' < 8 ->
  (t * n4 + c) * 8 + j = (t' * n4 + c') * 8 + j' ->
  t = t' /\ c = c' /\ j = j'.
Proof.
  intros Hc Hc' Hj Hj' Heq.
  assert (t * n4 + c = t' * n4 + c' /\ j = j') as [Heq' ->] by lia.
  assert (t = t') as -> by nia. lia.
Qed.

Section Partial.

Variable P : params.
Variable I : inputs.

Hypothesis grid_pos : 0 < gridDim P.
Hypothesis block_pos : 0 < blockDim P.

Lemma chunk_writes_elem t c v iv :
  iv ∈ chunk_writes P t c v ->
  t < num_combined_tokens P
  /\ exists j, 0 <= j < 8
       /\ iv = ((t * actual_num_int4_per_data P + c) * 8 + j, stored P (lane v j)).
Proof.
  unfold chunk_writes, stored.
  destruct (skip_recv_phase P); [by intros ?%elem_of_nil|].
  destruct (t <? num_combined_tokens P) eqn:Ht; [|by intros ?%elem_of_nil].
  intros Hiv. split; [lia|].
  destruct (is_pure_ep_mode P);
    apply list_elem_of_fmap in Hiv as ([j x] & -> & (Hj & ->)%zip_lanes_elem);
    exists j; (split; [done|]); simpl; f_equal;
    unfold elements_per_token, kNumElemsPerInt4; lia.
Qed.

Lemma partial_writes_elem k iv :
  iv ∈ partial_writes P I k ->
  exists t c j,
    0 <= t < num_combined_tokens P /\ 0 <= c < actual_num_int4_per_data P
    /\ 0 <= j < 8
    /\ iv = ((t * actual_num_int4_per_data P + c) * 8 + j,
             stored P (lane (combine_chunk P I k t c) j)).
Proof.
  unfold partial_writes.
  intros (sm & (th & (t & (c & Hiv & Hc)%list_elem_of_bind
                      & Ht)%list_elem_of_bind
                & Hth%elem_of_seqZ)%list_elem_of_bind
          & Hsm%elem_of_seqZ)%list_elem_of_bind.
  apply elem_of_strided in Ht as (it & Hit & -> & Hlt); [|done].
  apply elem_of_strided in Hc as (ic & Hic & -> & Hlc); [|done].
  apply chunk_writes_elem in Hiv as (_ & j & Hj & ->).
  exists (sm + it * gridDim P), (th + ic * blockDim P), j.
  split_and!; try done; nia.
Qed.

Lemma partial_writes_in k t c j :
  skip_recv_phase P = false ->
  0 <= t < num_combined_tokens P -> 0 <= c < actual_num_int4_per_data P ->
  0 <= j < 8 ->
  ((t * actual_num_int4_per_data P + c) * 8 + j,
   stored P (lane (combine_chunk P I k t c) j)) ∈ partial_writes P I k.
Proof.
  intros Hskip Ht Hc Hj. unfold partial_writes.
  apply list_elem_of_bind. exists (t mod gridDim P). split.
  2:{ apply elem_of_seqZ. pose proof (Z.mod_pos_bound t (gridDim P)). lia. }
  apply list_elem_of_bind. exists (c mod blockDim P). split.
  2:{ apply elem_of_seqZ. pose proof (Z.mod_pos_bound c (blockDim P)). lia. }
  apply list_elem_of_bind. exists t. split; [|by apply in_strided_of_mod].
  apply list_elem_of_bind. exists c. split; [|by apply in_strided_of_mod].
  unfold chunk_writes, stored. rewrite Hskip.
  replace (t <? num_combined_tokens P) with true by lia.
  destruct (is_pure_ep_mode P);
    apply list_elem_of_fmap; exists (j, lane (combine_chunk P I k t c) j);
    (split; [|by apply zip_lanes_in; [apply combine_chunk_length|]]);
    simpl; f_equal; unfold elements_per_token, kNumElemsPerInt4; lia.
Qed.

(** After the reduction loops every lane of every chunk of every token
    holds the partial of that chunk. *)
Lemma partial_cell k (m : gmap Z spec_float) t c j :
  skip_recv_phase P = false ->
  0 <= t < num_combined_tokens P -> 0 <= c < actual_num_int4_per_data P ->
  0 <= j < 8 ->
  ldf (store_all (partial_writes P I k) m)
      ((t * actual_num_int4_per_data P + c) * 8 + j)
  = stored P (lane (combine_chunk P I k t c) j).
Proof.
  intros Hskip Ht Hc Hj.
  apply (store_all_rel
           (fun i v => forall t c j,
              0 <= c < actual_num_int4_per_data P -> 0 <= j < 8 ->
              i = (t * actual_num_int4_per_data P + c) * 8 + j ->
              v = stored P (lane (combine_chunk P I k t c) j))
           _ m ((t * actual_num_int4_per_data P + c) * 8 + j)); [| |done..].
  - intros iv (t' & c' & j' & Ht' & Hc' & Hj' & ->)%partial_writes_elem.
    simpl. intros t0 c0 j0 Hc0 Hj0 Heq.
    apply cell_inj in Heq as (-> & -> & ->); done.
  - apply list_elem_of_fmap.
    exists ((t * actual_num_int4_per_data P + c) * 8 + j,
            stored P (lane (combine_chunk P I k t c) j)).
    split; [done|]. by apply partial_writes_in.
Qed.

(** The stores of the reduction loops stay inside the tokens. *)
Lemma partial_frame k (m : gmap Z spec_float) i :
  (forall t c j, 0 <= t < num_combined_tokens P ->
                 0 <= c < actual_num_int4_per_data P -> 0 <= j < 8 ->
                 i ≠ (t * actual_num_int4_per_data P + c) * 8 + j) ->
  ldf (store_all (partial_writes P I k) m) i = ldf m i.
Proof.
  intros Hout. apply store_all_frame.
  intros ([i' v] & -> & Hiv)%list_elem_of_fmap.
  apply partial_writes_elem in Hiv as (t & c & j & Ht & Hc & Hj & [= -> _]).
  by apply (Hout t c j).
Qed.

End Partial.

(** ** The collective *)

Section Reduce.

Variable peers : list (gmap Z spec_float).

(** A sequence of in-place reductions of distinct cells reduces each of them
    once. *)
Lemma reduce_cells (idxs : list Z) (ws : gmap Z spec_float) idx :
  NoDup idxs ->
  ldf (foldl (fun ws i =>
                <[i := foldl (fun acc peer => add acc (ldf peer i))
                             (ldf ws i) peers]> ws) ws idxs) idx
  = if decide (idx ∈ idxs)
    then foldl (fun acc peer => add acc (ldf peer idx)) (ldf ws idx) peers
    else ldf ws idx.
Proof.
  intros Hnd. revert ws.
  induction Hnd as [|i idxs Hi Hnd IH]; intros ws; [done|].
  simpl foldl. rewrite IH.
  destruct (decide (idx = i)) as [->|Hne].
  - rewrite ldf_insert_eq.
    destruct (decide (i ∈ idxs)); [done|].
    destruct (decide (i ∈ i :: idxs)) as [|Hn]; [done|].
    exfalso. apply Hn. by left.
  - rewrite ldf_insert_ne by done.
    destruct (decide (idx ∈ idxs)) as [Hin|Hin];
      destruct (decide (idx ∈ i :: idxs)) as [Hin'|Hin']; try done.
    + exfalso. apply Hin'. by right.
    + apply elem_of_cons in Hin' as [?|?]; done.
Qed.

Variable P : params.

(** The cells the collective of lines 1450-1492 reduces, in its order. *)
Lemma reduce_all_cells ws :
  reduce_all P peers ws
  = foldl (fun ws i =>
             <[i := foldl (fun acc peer => add acc (ldf peer i))
                          (ldf ws i) peers]> ws) ws
      (t ← seqZ 0 (num_combined_tokens P);
       c ← seqZ 0 ((elements_per_token P + 256 - 1) `quot` 256);
       i ← seqZ 0 (Z.min (c * 256 + 256) (elements_per_token P) - c * 256);
       [t * elements_per_token P + c * 256 + i]).
Proof.
  unfold reduce_all, sum_reduce. cbv zeta.
  rewrite foldl_bind. apply foldl_ext_in. intros ws1 t _.
  rewrite foldl_bind. apply foldl_ext_in. intros ws2 c _.
  rewrite foldl_bind. apply foldl_ext_in. intros ws3 i _. done.
Qed.

(** Every element of every token is reduced exactly once: it holds its own
    value plus the peers', added in their order. *)
Lemma reduce_all_cell ws t e :
  0 <= t < num_combined_tokens P -> 0 <= e < elements_per_token P ->
  ldf (reduce_all P peers ws) (t * elements_per_token P + e)
  = foldl (fun acc peer => add acc (ldf peer (t * elements_per_token P + e)))
          (ldf ws (t * elements_per_token P + e)) peers.
Proof.
  intros Ht He. rewrite reduce_all_cells, reduce_cells.
  - destruct (decide _) as [|Hn]; [done|]. exfalso. apply Hn.
    set (ept := elements_per_token P) in *.
    pose proof (Z.div_mod e 256 ltac:(lia)).
    pose proof (Z.mod_pos_bound e 256 ltac:(lia)).
    assert (0 <= e `div` 256) by (apply Z.div_pos; lia).
    apply list_elem_of_bind. exists t. split; [|apply elem_of_seqZ; lia].
    apply list_elem_of_bind. exists (e `div` 256). split.
    2:{ apply elem_of_seqZ. split; [lia|]. rewrite Z.add_0_l.
        rewrite <-(Z.quot_div_nonneg e 256) by lia.
        apply quot_lt_of_lt_mul; [lia..|].
        pose proof (ceil_quot_covers ept 256 ltac:(lia) ltac:(lia)). lia. }
    apply list_elem_of_bind. exists (e mod 256). split.
    + replace (t * ept + e `div` 256 * 256 + e mod 256) with (t * ept + e) by lia.
      by left.
    + apply elem_of_seqZ. lia.
  - set (ept := elements_per_token P) in *.
    apply NoDup_bind; [| |apply NoDup_seqZ].
    + intros t1 t2 y _ _
        (c1 & (i1 & ->%list_elem_of_singleton & Hi1%elem_of_seqZ)%list_elem_of_bind
            & Hc1%elem_of_seqZ)%list_elem_of_bind
        (c2 & (i2 & Heq%list_elem_of_singleton & Hi2%elem_of_seqZ)%list_elem_of_bind
            & Hc2%elem_of_seqZ)%list_elem_of_bind.
      nia.
    + intros t1 _. apply NoDup_bind; [| |apply NoDup_seqZ].
      * intros c1 c2 y _ _
          (i1 & ->%list_elem_of_singleton & Hi1%elem_of_seqZ)%list_elem_of_bind
          (i2 & Heq%list_elem_of_singleton & Hi2%elem_of_seqZ)%list_elem_of_bind.
        lia.
      * intros c1 _. apply NoDup_bind; [| |apply NoDup_seqZ].
        -- intros i1 i2 y _ _ ->%list_elem_of_singleton
             Heq%list_elem_of_singleton. lia.
        -- intros i1 _. apply NoDup_singleton.
Qed.

(** Other cells are left as they were. *)
Lemma reduce_all_frame ws idx :
  (forall t e, 0 <= t < num_combined_tokens P ->
               0 <= e < elements_per_token P ->
               idx ≠ t * elements_per_token P + e) ->
  ldf (reduce_all P peers ws) idx = ldf ws idx.
Proof.
  intros Hout. rewrite reduce_all_cells.
  apply (foldl_inv (fun ws' => ldf ws' idx = ldf ws idx)); [done|].
  intros ws' i
    (t & (c & (i' & ->%list_elem_of_singleton & Hi%elem_of_seqZ)%list_elem_of_bind
          & Hc%elem_of_seqZ)%list_elem_of_bind
     & Ht%elem_of_seqZ)%list_elem_of_bind Hws'.
  rewrite ldf_insert_ne; [done|]. intros Heq.
  apply (Hout t (c * 256 + i')); lia.
Qed.

End Reduce.

(** ** The output in Pure EP mode *)

Lemma int4_per_data_quot P :
  hidden P `rem` 8 = 0 -> 0 <= hidden P ->
  actual_num_int4_per_data P = hidden P `quot` 8
  /\ hidden P = hidden P `quot` 8 * 8.
Proof.
  intros Hal HH. unfold actual_num_int4_per_data.
  rewrite Z.rem_mod_nonneg in Hal by lia.
  rewrite (Z.quot_div_nonneg (hidden P) 8) by lia.
  pose proof (Z.div_mod (hidden P) 8 ltac:(lia)).
  replace (hidden P * 2) with ((hidden P `div` 8) * 16) at 1 by lia.
  rewrite Z.quot_mul by lia. lia.
Qed.

(** The workspace a rank in Pure EP mode enters the collective with holds
    its contribution in every lane. *)
Lemma workspace_cell n H E R l t c j :
  same_shape n H E R l = true ->
  H `rem` 8 = 0 -> 0 <= H ->
  is_pure_ep_mode (l_params l) = true ->
  0 <= t < n -> 0 <= c < H `quot` 8 -> 0 <= j < 8 ->
  ldf (workspace_before_reduce (l_params l) (l_inputs l)
         (num_topk (l_params l)) (l_memory l)) (t * H + (c * 8 + j))
  = contribution l t c j.
Proof.
  intros (Hn & HH & _ & _ & Hg & Hb & _)%ZeroCombine.same_shape_facts
         Hal Hpos Hpure Ht Hc Hj.
  subst n H.
  destruct (int4_per_data_quot (l_params l) Hal Hpos) as [Hn4 H8].
  unfold workspace_before_reduce, combine_partial, contribution. cbv zeta.
  rewrite Hpure.
  destruct (skip_recv_phase (l_params l)) eqn:Hskip; simpl.
  - apply (store_all_in (fun v => v = zero)).
    + intros iv. apply zero_writes_zero.
    + apply zero_writes_cover; [done..|lia].
  - replace (t * hidden (l_params l) + (c * 8 + j))
      with ((t * actual_num_int4_per_data (l_params l) + c) * 8 + j)
      by (rewrite Hn4; lia).
    rewrite partial_cell by (rewrite ?Hn4; done).
    unfold stored. by rewrite Hpure.
Qed.

(** In Pure EP mode the kernel completes on a rank whose assertions hold,
    and every element of every token of its [combined_x] is the bfloat16 of
    the sum of the contributions of all ranks to that element: the rank's
    own, then the other ranks' in rank order, a rank that skips its receive
    phase contributing zero.  Cells outside the tokens keep their
    contents. *)
Theorem pure_ep_output_is_sum n H E R (ls : list launch) (r : nat) l :
  Forall (fun l => same_shape n H E R l = true) ls ->
  ls !! r = Some l ->
  is_pure_ep_mode (l_params l) = true ->
  H `rem` 8 = 0 -> 0 < H -> 0 < n -> H `quot` 8 <= blockDim (l_params l) ->
  exists out evs,
    combine_all ls !! r = Some (Ok (out, evs))
    /\ (forall t c j,
          0 <= t < n -> 0 <= c < H `quot` 8 -> 0 <= j < 8 ->
          ldf (combined_x out) (t * H + (c * 8 + j))
          = to_bf16 (foldl (fun acc l' => add acc (contribution l' t c j))
                           (contribution l t c j) (delete r ls)))
    /\ (forall i, i < 0 \/ n * H <= i ->
          ldf (combined_x out) i = ldf (combined_x (l_memory l)) i).
Proof.
  intros Hshape Hl Hpure Hal HHpos Hnpos Hblock.
  pose proof (proj1 (Forall_forall _ _) Hshape) as Hshape'.
  assert (Hin : l ∈ ls) by (by eapply list_elem_of_lookup_2).
  destruct (ZeroCombine.same_shape_facts _ _ _ _ _ (Hshape' l Hin))
    as (Hn & HH & HE & HR & Hg & Hb & Htopk).
  subst n H.
  destruct (int4_per_data_quot (l_params l) Hal ltac:(lia)) as [Hn4 H8].
  pose proof (elements_per_token_hidden (l_params l) Hal ltac:(lia)) as Hept.
  unfold combine_all. rewrite list_lookup_imap, Hl. simpl.
  rewrite <-list_fmap_delete.
  set (wss := _ <$> delete r ls).
  pose proof (fun t c j =>
                workspace_cell _ _ E R l t c j (Hshape' l Hin) Hal ltac:(lia)
                               Hpure) as Hown.
  unfold workspace_before_reduce in Hown. cbv zeta in Hown.
  unfold combine_reduce.
  destruct (validate_num_topk (num_topk (l_params l))) as [k corrupted] eqn:Hv.
  simpl in Hown.
  assert (Hk : k <= kNumMaxTopk).
  { unfold validate_num_topk in Hv. injection Hv as <- _.
    destruct (_ || _); [by unfold kNumMaxTopk|done]. }
  replace (k >? kNumMaxTopk) with false by lia.
  replace (negb _) with false.
  2:{ symmetry. apply negb_false_iff, andb_true_iff. unfold kNumElemsPerInt4.
      split; [lia|]. apply Z.eqb_eq. rewrite H8.
      replace (hidden (l_params l) `quot` 8 * 8 * 2)
        with (hidden (l_params l) `quot` 8 * 16) by lia.
      apply Z.rem_mul. lia. }
  replace (negb (num_topk _ <=? 32)) with false
    by (unfold kNumMaxTopk in Htopk; lia).
  replace (negb (actual_num_int4_per_data _ <=? _)) with false by lia.
  rewrite Hpure.
  replace (negb ((elements_per_token _ >? 0) && _)) with false.
  2:{ symmetry. apply negb_false_iff, andb_true_iff. lia. }
  eexists _, _. split; [done|]. simpl. split.
  - intros t c j Ht Hc Hj.
    assert (He : 0 <= c * 8 + j < hidden (l_params l)) by lia.
    match goal with
    | |- context [reduce_all _ _ ?w] =>
        set (red := reduce_all (l_params l) wss w)
    end.
    transitivity
      (to_bf16 (ldf red (t * hidden (l_params l) + (c * 8 + j)))).
    { apply (store_all_rel (fun i v => v = to_bf16 (ldf red i))).
      - intros iv (t' & e' & _ & _ & ->)%convert_writes_range; [done..|lia].
      - apply convert_writes_cover; [done..|lia|lia]. }
    f_equal. unfold red. rewrite <-Hept.
    rewrite reduce_all_cell by lia. rewrite Hept.
    rewrite (Hown t c j) by done.
    unfold wss. rewrite foldl_fmap. apply foldl_ext_in.
    intros acc l' Hl'%list_elem_of_delete_inv. f_equal.
    apply (workspace_cell (num_combined_tokens (l_params l))
                          (hidden (l_params l)) E R);
      try done; [by apply Hshape'|lia|].
    by rewrite (ZeroCombine.same_shape_mode
                  (num_combined_tokens (l_params l)) (hidden (l_params l))
                  E R l l') by auto.
  - intros i Hi. rewrite store_all_frame.
    + unfold combine_partial. by rewrite Hpure.
    + intros ([i' v] & -> & Hiv)%list_elem_of_fmap.
      apply convert_writes_range in Hiv as (t' & e' & Ht' & He' & [= -> _]);
        [|done|lia].
      simpl in Hi. nia.
Qed.

Lemma pure_ep_output_is_sum_witness :
  exists out evs,
    combine_all [Scenarios.combine_launch 0 2 Scenarios.one Scenarios.two
                   Scenarios.two Scenarios.one;
                 Scenarios.combine_launch 1 2 Scenarios.one Scenarios.two
                   Scenarios.two Scenarios.one] !! 0%nat
    = Some (Ok (out, evs))
    /\ ldf (combined_x out) 0 = S754_finite false 144 (-4).   (* 6 + 3 *)
Proof.
  destruct (pure_ep_output_is_sum 1 7168 2 2
              [Scenarios.combine_launch 0 2 Scenarios.one Scenarios.two
                 Scenarios.two Scenarios.one;
               Scenarios.combine_launch 1 2 Scenarios.one Scenarios.two
                 Scenarios.two Scenarios.one]
              0 (Scenarios.combine_launch 0 2 Scenarios.one Scenarios.two
                   Scenarios.two Scenarios.one))
    as (out & evs & Hrun & Hcell & _).
  - repeat constructor.
  - reflexivity.
  - reflexivity.
  - reflexivity.
  - reflexivity.
  - reflexivity.
  - by_eval.
  - exists out, evs. split; [exact Hrun|].
    specialize (Hcell 0 0 0).
    change (0 * 7168 + (0 * 8 + 0)) with 0 in Hcell.
    rewrite Hcell; [vm_compute; reflexivity|by_eval..].
Defined.

(** ** The output outside Pure EP mode *)

(** Outside Pure EP mode a rank that runs its receive phase and whose
    assertions hold completes without a grid synchronisation, leaves the
    workspace alone, and stores to every lane of every chunk of every token
    of [combined_x] the bfloat16 of the rank's own partial; no other rank
    takes part, and cells outside the tokens keep their contents. *)
Theorem mixed_mode_output P I cached peers (m : memory) :
  0 < gridDim P -> 0 < blockDim P ->
  is_pure_ep_mode P = false -> skip_recv_phase P = false ->
  hidden P `rem` 8 = 0 -> 0 <= hidden P -> num_topk P <= 32 ->
  actual_num_int4_per_data P <= blockDim P -> 0 < cached <= kNumMaxTopk ->
  exists out,
    combine_reduce P I cached peers m = Ok (out, [])
    /\ fp32_workspace out = fp32_workspace m
    /\ (forall t c j,
          0 <= t < num_combined_tokens P ->
          0 <= c < actual_num_int4_per_data P -> 0 <= j < 8 ->
          ldf (combined_x out) ((t * actual_num_int4_per_data P + c) * 8 + j)
          = to_bf16 (lane (combine_chunk P I cached t c) j))
    /\ (forall i, i < 0 \/ num_combined_tokens P * hidden P <= i ->
          ldf (combined_x out) i = ldf (combined_x m) i).
Proof.
  intros Hg Hb Hmixed Hskip Hal HH Htopk Hblock Hcached.
  destruct (int4_per_data_quot P Hal HH) as [Hn4 H8].
  unfold combine_reduce, validate_num_topk. cbv zeta.
  replace ((cached <=? 0) || (cached >? 32)) with false.
  2:{ symmetry. apply orb_false_iff. unfold kNumMaxTopk in Hcached. lia. }
  replace (cached >? kNumMaxTopk) with false by lia.
  replace (negb _) with false.
  2:{ symmetry. apply negb_false_iff, andb_true_iff. unfold kNumElemsPerInt4.
      split; [lia|]. apply Z.eqb_eq. rewrite H8.
      replace (hidden P `quot` 8 * 8 * 2) with (hidden P `quot` 8 * 16) by lia.
      apply Z.rem_mul. lia. }
  replace (negb (num_topk P <=? 32)) with false by lia.
  replace (negb (actual_num_int4_per_data P <=? _)) with false by lia.
  rewrite Hmixed. unfold combine_partial. rewrite Hmixed.
  eexists. split; [done|]. simpl. split; [done|]. split.
  - intros t c j Ht Hc Hj. rewrite partial_cell by done.
    unfold stored. by rewrite Hmixed.
  - intros i Hi. apply partial_frame; [done..|].
    intros t c j Ht Hc Hj ->. rewrite Hn4 in *. nia.
Qed.

Lemma mixed_mode_output_witness :
  is_pure_ep_mode MoreScenarios.mixed_params = false
  /\ exists out,
       combine_reduce MoreScenarios.mixed_params
         (Scenarios.combine_inputs Scenarios.one Scenarios.two
            Scenarios.two Scenarios.one) 2 [] Scenarios.stale_memory
       = Ok (out, [])
       /\ ldf (combined_x out) 0 = S754_finite false 192 (-5).   (* 6 *)
Proof.
  split; [reflexivity|].
  destruct (mixed_mode_output MoreScenarios.mixed_params
              (Scenarios.combine_inputs Scenarios.one Scenarios.two
                 Scenarios.two Scenarios.one) 2 [] Scenarios.stale_memory)
    as (out & Hrun & _ & Hcell & _); [by_eval..|].
  exists out. split; [exact Hrun|].
  specialize (Hcell 0 0 0).
  change ((0 * _ + 0) * 8 + 0) with 0 in Hcell.
  rewrite Hcell; [vm_compute; reflexivity|by_eval..].
Defined.

End CombineOutFacts.

(** ** The send phase, the wait and the flag reset of combine *)

Module CombineSendFacts.

Import Sync Combine CombineHost CombineSend.

Lemma for_all_inv {A S} (Inv : S -> Prop) (body : A -> S -> status S)
    (l : list A) (s s' : S) :
  Inv s ->
  (forall a s s', a ∈ l -> Inv s -> body a s = Done s' -> Inv s') ->
  for_all l body s = Done s' -> Inv s'.
Proof.
  revert s. induction l as [|a l IH]; intros s Hs Hbody; simpl.
  - by intros [= <-].
  - destruct (body a s) as [s1| | |] eqn:Ha; try done. simpl.
    apply IH.
    + apply (Hbody a s); [by left|done..].
    + intros a' s2 s3 Ha'. apply Hbody. by right.
Qed.

Lemma for_all_no_trap {A S} (body : A -> S -> status S) (l : list A) (s : S) :
  (forall a s, a ∈ l -> body a s ≠ Trap) -> for_all l body s ≠ Trap.
Proof.
  revert s. induction l as [|a l IH]; intros s Hbody; simpl; [done|].
  destruct (body a s) as [s1| | |] eqn:Ha; try done; simpl.
  - apply IH. intros a' s' Ha'. apply Hbody. by right.
  - intros _. by apply (Hbody a s); [left|].
Qed.

Section Block.

Variable P : params.
Variable C : config.
Variable I : inputs.
Variable p2p : Z -> bool.

Lemma put_flag_no_trap e dst le num w st :
  put_flag P C e dst le num w st ≠ Trap.
Proof.
  unfold put_flag. destruct (_ && _); [|done].
  destruct (_ =? 0); [done|].
  unfold note_received.
  destruct (expert_sync_info_buffer _) as [infos|]; [|done].
  destruct (infos !! _) as [s|]; [|done].
  destruct (combine_note_received _ _ _); done.
Qed.

Lemma complete_expert_no_trap e w st : complete_expert C e w st ≠ Trap.
Proof.
  unfold complete_expert. destruct (_ && _); [|done].
  destruct (expert_sync_info_buffer _) as [infos|]; [|done].
  destruct (infos !! _); done.
Qed.

(** A block of the send phase traps exactly on the assertion of
    line 1073. *)
Lemma send_block_trap sm_id st :
  0 <= sm_id < num_experts P -> layout_range I ≠ None ->
  send_block P C I p2p sm_id st = Trap
  <-> ~ (1 < num_warps_per_group C /\ num_warp_groups C < 16).
Proof.
  intros He HI. unfold send_block. cbv zeta.
  replace (sm_id <? num_experts P) with true by lia.
  destruct (layout_range I) as [layout|]; [|done].
  destruct (unpack2 _) as [num offset].
  destruct (negb _) eqn:Hassert.
  - split; [|done]. intros _ [H1 H2].
    apply negb_true_iff, andb_false_iff in Hassert. lia.
  - apply negb_false_iff, andb_true_iff in Hassert. split; [|lia].
    intros Htrap. exfalso. revert Htrap.
    match goal with
    | |- context [for_all (warps P) ?b ?s] =>
        destruct (for_all (warps P) b s) as [st1| | |] eqn:Hflags
    end; simpl; try done.
    + apply for_all_no_trap. intros. apply complete_expert_no_trap.
    + exfalso. revert Hflags. apply for_all_no_trap.
      intros. apply put_flag_no_trap.
Qed.

Lemma send_block_no_trap sm_id st :
  1 < num_warps_per_group C -> num_warp_groups C < 16 ->
  send_block P C I p2p sm_id st ≠ Trap.
Proof.
  intros Hw Hg. unfold send_block. cbv zeta.
  destruct (sm_id <? num_experts P); [|done].
  destruct (layout_range I) as [layout|]; [|done].
  destruct (unpack2 _) as [num offset].
  replace (negb _) with false.
  2:{ symmetry. apply negb_false_iff, andb_true_iff. lia. }
  match goal with
  | |- context [for_all (warps P) ?b ?s] =>
      destruct (for_all (warps P) b s) as [st1| | |] eqn:Hflags
  end; simpl; try done.
  - apply for_all_no_trap. intros. apply complete_expert_no_trap.
  - exfalso. revert Hflags. apply for_all_no_trap.
    intros. apply put_flag_no_trap.
Qed.

End Block.

(** The warp configuration of the launch wrapper passes the assertion of
    line 1073 exactly when there are at most fifteen experts per
    multiprocessor. *)
Lemma host_config_assert a zc nc :
  0 < c_num_device_sms a -> 0 < c_num_experts a ->
  (1 < num_warps_per_group (host_config a zc nc)
   /\ num_warp_groups (host_config a zc nc) < 16)
  <-> c_num_experts a <= 15 * c_num_device_sms a.
Proof.
  intros Hs HE. unfold host_config, ceil_div. simpl.
  set (E := c_num_experts a) in *. set (s := c_num_device_sms a) in *.
  destruct (quot_rem_nonneg (E + s - 1) s) as (Hq & Hr & Hsplit); [lia..|].
  set (g := (E + s - 1) `quot` s) in *.
  assert (1 <= g) by nia.
  split.
  - intros [_ Hg]. nia.
  - intros HE15. assert (Hg : g < 16) by nia. split; [|done].
    destruct (quot_rem_nonneg 32 g) as (Hq' & Hr' & Hsplit'); [lia..|].
    assert (2 <= 32 `quot` g) by nia. lia.
Qed.

(** With the SEND bit set, a launch the wrapper of combine accepts fails
    the assertion of line 1073 in its send phase exactly when it has more
    than fifteen experts per multiprocessor: the wrapper lets such launches
    through (it only asks for positive warp counts), and every other launch
    passes the assertion in every block. *)
Theorem host_combine_send_assertion NW (a : combine_args) (P : params)
    (zc : bool) (nc : Z) (I : inputs) (p2p : Z -> bool) (m : memory) :
  0 < c_num_device_sms a ->
  combine NW a = Some P ->
  Z.land (phases P) LOW_LATENCY_SEND_PHASE ≠ 0 ->
  layout_range I ≠ None ->
  send_phase P (host_config a zc nc) I p2p m = Trap
  <-> 15 * c_num_device_sms a < c_num_experts a.
Proof.
  intros Hs HP Hsend HI.
  destruct (CombineHostFacts.combine_Some NW a P HP)
    as (_ & _ & _ & HE & _ & _ & _ & _ & _ & _ & PE & _ & _ & Pgrid & _).
  pose proof (host_config_assert a zc nc Hs HE) as Hassert.
  unfold send_phase. cbv zeta.
  destruct (Z.land _ _ =? 0) eqn:Hbit; [lia|]. rewrite Pgrid.
  split.
  - intros Htrap. destruct (Z_lt_le_dec (15 * c_num_device_sms a)
                                         (c_num_experts a)) as [|Hle]; [done|].
    exfalso. revert Htrap. apply for_all_no_trap. intros sm st _.
    apply send_block_no_trap; by apply Hassert.
  - intros Hgt. rewrite seqZ_cons by lia. simpl.
    replace (send_block P (host_config a zc nc) I p2p 0 _) with (@Trap send_state);
      [done|].
    symmetry. apply send_block_trap; [lia|done|].
    intros Hok. apply Hassert in Hok. lia.
Qed.

Lemma host_combine_send_assertion_witness :
  combine 1024 MoreScenarios.dense_call = Some MoreScenarios.dense_params
  /\ send_phase MoreScenarios.dense_params
       (host_config MoreScenarios.dense_call false 0)
       (Scenarios.combine_inputs Scenarios.one Scenarios.two
          Scenarios.two Scenarios.one)
       (fun _ => true) MoreScenarios.idle_flags
     = Trap.
Proof.
  split; [reflexivity|].
  apply (host_combine_send_assertion 1024 MoreScenarios.dense_call);
    [by_eval|reflexivity|by_eval|by_eval|by_eval].
Defined.

(** *** What the send phase puts *)

Section Ops.

Import CombineSendSpec.

Variable P : params.
Variable C : config.
Variable I : inputs.
Variable p2p : Z -> bool.

Hypothesis warps_per_group_pos : 0 < num_warps_per_group C.

Lemma sub_warp_id_nonneg w : w ∈ warps P -> 0 <= sub_warp_id C w.
Proof.
  intros Hw%elem_of_seqZ. unfold sub_warp_id.
  apply Z.rem_nonneg; lia.
Qed.

Lemma send_token_mem dst le offset t st :
  s_mem (send_token P C I p2p dst le offset t st) = s_mem st.
Proof.
  unfold send_token. cbv zeta.
  destruct (_ || _); [done|]. destruct (negb _); done.
Qed.

Lemma send_warp_mem dst le offset num w st :
  s_mem (send_warp P C I p2p dst le offset num w st) = s_mem st.
Proof.
  unfold send_warp.
  apply (foldl_inv (fun st' => s_mem st' = s_mem st)); [done|].
  intros st' t _ <-. apply send_token_mem.
Qed.

Lemma send_token_ok e num offset i st :
  0 <= e < num_experts P -> e < gridDim P ->
  tokens_to_send P I e = Some (num, offset) -> 0 <= i < num ->
  Forall (op_ok P C I p2p) (s_out st) ->
  Forall (op_ok P C I p2p)
    (s_out (send_token P C I p2p (e `quot` num_local_experts P)
              (e `rem` num_local_experts P) offset (offset + i) st)).
Proof.
  intros He Hgrid Hlayout Hi Hst. unfold send_token. cbv zeta.
  replace (offset + i - offset) with i by lia.
  destruct (_ || _) eqn:Hslot; simpl; [by rewrite app_nil_r|].
  apply orb_false_iff in Hslot as [_ Hslot].
  assert (Hrange : 0 <= i < num /\ i < num_max_dispatch_tokens_per_rank P)
    by lia.
  set (dst := e `quot` num_local_experts P) in *.
  set (lx := e `rem` num_local_experts P) in *.
  assert (Hhead : op_ok P C I p2p
            (PutHeader dst
               ((lx * num_ranks P * num_max_dispatch_tokens_per_rank P
                 + rank P * num_max_dispatch_tokens_per_rank P + i)
                * num_bytes_per_msg C)
               (ld (src_info I)
                   (lx * num_ranks P * num_max_dispatch_tokens_per_rank P
                    + dst * num_max_dispatch_tokens_per_rank P
                    + (offset + i))))).
  { unfold op_ok. exists e, num, offset. split; [done|]. split; [exact Hlayout|].
    split; [reflexivity|]. exists i. split; [exact Hrange|].
    split; reflexivity. }
  destruct (p2p dst) eqn:Hp2p; simpl; apply Forall_app; (split; [exact Hst|]);
    apply Forall_cons; (split; [exact Hhead|]);
    apply Forall_cons; (split; [|by apply Forall_nil]);
    unfold op_ok; exists e, num, offset; (split; [done|]); (split; [exact Hlayout|]);
    (split; [reflexivity|]); exists i; (split; [exact Hrange|]);
    (split; [reflexivity|]); fold dst; rewrite Hp2p;
    (split; [f_equal; unfold src_row_of; fold dst lx; ring|reflexivity]).
Qed.

Lemma send_warp_ok e num offset w st :
  0 <= e < num_experts P -> e < gridDim P ->
  tokens_to_send P I e = Some (num, offset) -> w ∈ warps P ->
  Forall (op_ok P C I p2p) (s_out st) ->
  Forall (op_ok P C I p2p)
    (s_out (send_warp P C I p2p (e `quot` num_local_experts P)
              (e `rem` num_local_experts P) offset num w st)).
Proof.
  intros He Hgrid Hlayout Hw Hst. unfold send_warp.
  apply (foldl_inv (fun st' => Forall (op_ok P C I p2p) (s_out st')));
    [done|].
  intros st' t (k & Hk & -> & Hlt)%elem_of_strided Hst'; [|done].
  pose proof (sub_warp_id_nonneg w Hw).
  replace (offset + sub_warp_id C w + k * num_warps_per_group C)
    with (offset + (sub_warp_id C w + k * num_warps_per_group C)) by lia.
  assert (0 <= k * num_warps_per_group C) by (apply Z.mul_nonneg_nonneg; lia).
  apply (send_token_ok e num); try done. lia.
Qed.

Lemma note_received_keeps e n m m' :
  note_received P e n m = Done m' ->
  rdma_recv_flag m' = rdma_recv_flag m
  /\ atomic_clean_flag m' = atomic_clean_flag m
  /\ (expert_sync_info_buffer m = None -> expert_sync_info_buffer m' = None).
Proof.
  unfold note_received.
  destruct (expert_sync_info_buffer m) as [infos|] eqn:Hsync.
  - destruct (infos !! _) as [s|]; [|done].
    destruct (combine_note_received _ _ _); [|done]. by intros [= <-].
  - intros [= <-]. by rewrite Hsync.
Qed.

Lemma put_flag_inv e num offset w st st' :
  0 <= e < num_experts P -> e < gridDim P ->
  tokens_to_send P I e = Some (num, offset) ->
  put_flag P C e (e `quot` num_local_experts P) (e `rem` num_local_experts P)
           num w st = Done st' ->
  rdma_recv_flag (s_mem st') = rdma_recv_flag (s_mem st)
  /\ atomic_clean_flag (s_mem st') = atomic_clean_flag (s_mem st)
  /\ (expert_sync_info_buffer (s_mem st) = None ->
      expert_sync_info_buffer (s_mem st') = None)
  /\ (Forall (op_ok P C I p2p) (s_out st) ->
      Forall (op_ok P C I p2p) (s_out st')).
Proof.
  intros He Hgrid Hlayout. unfold put_flag.
  destruct (_ && _) eqn:Hcond; [|by intros [= <-]].
  apply andb_true_iff in Hcond as [Hnum _].
  destruct (_ =? 0); [done|].
  destruct (note_received _ _ _ _) as [m'| | |] eqn:Hnote; try done.
  simpl. intros [= <-]. simpl.
  destruct (note_received_keeps _ _ _ _ Hnote) as (Hf & Ha & Hs).
  split_and!; try done.
  intros Hst. apply Forall_app. split; [done|].
  apply Forall_cons. split; [|by apply Forall_nil].
  unfold op_ok. exists e, num, offset. split_and!; try done; lia.
Qed.

Lemma complete_expert_inv e w st st' :
  complete_expert C e w st = Done st' ->
  rdma_recv_flag (s_mem st') = rdma_recv_flag (s_mem st)
  /\ atomic_clean_flag (s_mem st') = atomic_clean_flag (s_mem st)
  /\ (expert_sync_info_buffer (s_mem st) = None ->
      expert_sync_info_buffer (s_mem st') = None)
  /\ s_out st' = s_out st.
Proof.
  unfold complete_expert. destruct (_ && _); [|by intros [= <-]].
  destruct (expert_sync_info_buffer (s_mem st)) as [infos|] eqn:Hsync.
  - destruct (infos !! _); [|done]. by intros [= <-].
  - by intros [= <-].
Qed.

Lemma clean_next_keeps w m :
  rdma_recv_flag (clean_next P C w m) = rdma_recv_flag m
  /\ expert_sync_info_buffer (clean_next P C w m) = expert_sync_info_buffer m.
Proof. unfold clean_next. by destruct (_ && _). Qed.

(** A block of the send phase leaves the flags of its own rank alone,
    keeps a null [expert_sync_info_buffer] null and emits operations of its
    expert only. *)
Lemma send_block_inv sm_id st st' :
  0 <= sm_id < gridDim P ->
  send_block P C I p2p sm_id st = Done st' ->
  rdma_recv_flag (s_mem st') = rdma_recv_flag (s_mem st)
  /\ (expert_sync_info_buffer (s_mem st) = None ->
      expert_sync_info_buffer (s_mem st') = None)
  /\ (Forall (op_ok P C I p2p) (s_out st) ->
      Forall (op_ok P C I p2p) (s_out st')).
Proof.
  intros Hsm. unfold send_block. cbv zeta.
  set (st0 := if sm_id =? 0 then _ else st).
  assert (Hst0 : rdma_recv_flag (s_mem st0) = rdma_recv_flag (s_mem st)
                 /\ expert_sync_info_buffer (s_mem st0)
                    = expert_sync_info_buffer (s_mem st)
                 /\ s_out st0 = s_out st).
  { unfold st0. destruct (sm_id =? 0); [|done]. simpl.
    split_and!; [| |done];
      apply (foldl_inv (fun m => _ m = _ (s_mem st))); try done;
      intros m w _ <-; apply clean_next_keeps. }
  destruct Hst0 as (Hf0 & Hs0 & Ho0). rewrite <-Hf0, <-Hs0, <-Ho0.
  clearbody st0. clear Hf0 Hs0 Ho0.
  destruct (sm_id <? num_experts P) eqn:He; [|by intros [= <-]].
  destruct (layout_range I) as [layout|] eqn:Hlayout; [|done].
  destruct (unpack2 _) as [num offset] eqn:Hunpack.
  assert (Htokens : tokens_to_send P I sm_id = Some (num, offset)).
  { unfold tokens_to_send. rewrite Hlayout. simpl. by rewrite Hunpack. }
  destruct (negb _); [done|].
  set (st1 := foldl _ st0 (warps P)).
  assert (Hst1 : s_mem st1 = s_mem st0
                 /\ (Forall (op_ok P C I p2p) (s_out st0) ->
                     Forall (op_ok P C I p2p) (s_out st1))).
  { unfold st1.
    apply (foldl_inv (fun sa => s_mem sa = s_mem st0
                                /\ (Forall (op_ok P C I p2p) (s_out st0) ->
                                    Forall (op_ok P C I p2p) (s_out sa))));
      [done|].
    intros sa w Hw [Hm Hops]. split.
    - by rewrite send_warp_mem.
    - intros H0. apply (send_warp_ok sm_id num offset); try done; [lia..|].
      by apply Hops. }
  destruct Hst1 as [Hm1 Ho1]. rewrite <-Hm1. clearbody st1.
  destruct (for_all (warps P) _ st1) as [st2| | |] eqn:Hflags; try done.
  simpl. intros Hdone.
  assert (H2 : rdma_recv_flag (s_mem st2) = rdma_recv_flag (s_mem st1)
               /\ (expert_sync_info_buffer (s_mem st1) = None ->
                   expert_sync_info_buffer (s_mem st2) = None)
               /\ (Forall (op_ok P C I p2p) (s_out st1) ->
                   Forall (op_ok P C I p2p) (s_out st2))).
  { revert Hflags.
    apply (for_all_inv
             (fun sa => rdma_recv_flag (s_mem sa) = rdma_recv_flag (s_mem st1)
                        /\ (expert_sync_info_buffer (s_mem st1) = None ->
                            expert_sync_info_buffer (s_mem sa) = None)
                        /\ (Forall (op_ok P C I p2p) (s_out st1) ->
                            Forall (op_ok P C I p2p) (s_out sa)))); [done|].
    intros w sa sb _ (Hf & Hs & Ho) Hput.
    apply (put_flag_inv sm_id num offset) in Hput as (Hf' & _ & Hs' & Ho');
      [|lia|lia|done].
    rewrite Hf'. split_and!; [done|by auto|by auto]. }
  destruct H2 as (Hf2 & Hs2 & Ho2).
  assert (H3 : rdma_recv_flag (s_mem st') = rdma_recv_flag (s_mem st2)
               /\ (expert_sync_info_buffer (s_mem st2) = None ->
                   expert_sync_info_buffer (s_mem st') = None)
               /\ s_out st' = s_out st2).
  { revert Hdone.
    apply (for_all_inv
             (fun sa => rdma_recv_flag (s_mem sa) = rdma_recv_flag (s_mem st2)
                        /\ (expert_sync_info_buffer (s_mem st2) = None ->
                            expert_sync_info_buffer (s_mem sa) = None)
                        /\ s_out sa = s_out st2)); [done|].
    intros w sa sb _ (Hf & Hs & Ho) Hc.
    apply complete_expert_inv in Hc as (Hf' & _ & Hs' & Ho').
    rewrite Hf', Ho'. split_and!; [done|by auto|done]. }
  destruct H3 as (Hf3 & Hs3 & Ho3). rewrite Hf3, Ho3, Hf2.
  split_and!; [done|by auto|by auto].
Qed.

(** The send phase as a whole. *)
Lemma send_phase_inv m st :
  send_phase P C I p2p m = Done st ->
  rdma_recv_flag (s_mem st) = rdma_recv_flag m
  /\ (expert_sync_info_buffer m = None ->
      expert_sync_info_buffer (s_mem st) = None)
  /\ Forall (op_ok P C I p2p) (s_out st).
Proof.
  unfold send_phase. cbv zeta. destruct (_ =? 0).
  - intros [= <-]. simpl. split_and!; [done..|apply Forall_nil_2].
  - apply (for_all_inv
             (fun sa => rdma_recv_flag (s_mem sa) = rdma_recv_flag m
                        /\ (expert_sync_info_buffer m = None ->
                            expert_sync_info_buffer (s_mem sa) = None)
                        /\ Forall (op_ok P C I p2p) (s_out sa)));
      [simpl; split_and!; [done..|apply Forall_nil_2]|].
    intros sm sa sb Hsm%elem_of_seqZ (Hf & Hs & Ho) Hblock.
    apply send_block_inv in Hblock as (Hf' & Hs' & Ho'); [|lia].
    rewrite Hf'. split_and!; [done|by auto|by auto].
Qed.

(** Operations, once emitted, stay. *)
Lemma send_token_mono dst le offset t st op :
  op ∈ s_out st -> op ∈ s_out (send_token P C I p2p dst le offset t st).
Proof.
  intros Hop. unfold send_token. cbv zeta.
  destruct (_ || _); simpl; [by rewrite app_nil_r|].
  destruct (negb _); simpl; apply elem_of_app; by left.
Qed.

Lemma send_warp_mono dst le offset num w st op :
  op ∈ s_out st -> op ∈ s_out (send_warp P C I p2p dst le offset num w st).
Proof.
  intros Hop. unfold send_warp.
  apply (foldl_inv (fun sa => op ∈ s_out sa)); [done|].
  intros sa t _. apply send_token_mono.
Qed.

Lemma put_flag_mono e dst le num w st st' op :
  put_flag P C e dst le num w st = Done st' ->
  op ∈ s_out st -> op ∈ s_out st'.
Proof.
  unfold put_flag. destruct (_ && _); [|by intros [= <-]].
  destruct (_ =? 0); [done|].
  destruct (note_received _ _ _ _) as [m'| | |]; try done.
  simpl. intros [= <-] Hop. simpl. apply elem_of_app. by left.
Qed.

Lemma send_block_mono sm_id st st' op :
  send_block P C I p2p sm_id st = Done st' ->
  op ∈ s_out st -> op ∈ s_out st'.
Proof.
  unfold send_block. cbv zeta.
  set (st0 := if sm_id =? 0 then _ else st).
  assert (Ho0 : s_out st0 = s_out st) by (unfold st0; by destruct (_ =? 0)).
  rewrite <-Ho0. clearbody st0. clear Ho0.
  destruct (sm_id <? num_experts P); [|by intros [= <-]].
  destruct (layout_range I) as [layout|]; [|done].
  destruct (unpack2 _) as [num offset].
  destruct (negb _); [done|].
  set (st1 := foldl _ st0 (warps P)).
  destruct (for_all (warps P) _ st1) as [st2| | |] eqn:Hflags; try done.
  simpl. intros Hdone Hop.
  assert (H1 : op ∈ s_out st1).
  { unfold st1. apply (foldl_inv (fun sa => op ∈ s_out sa)); [done|].
    intros sa w _. apply send_warp_mono. }
  assert (H2 : op ∈ s_out st2).
  { revert Hflags. apply (for_all_inv (fun sa => op ∈ s_out sa)); [done|].
    intros w sa sb _ Hsa Hput. by eapply put_flag_mono. }
  revert Hdone. apply (for_all_inv (fun sa => op ∈ s_out sa)); [done|].
  intros w sa sb _ Hsa Hc.
  apply complete_expert_inv in Hc as (_ & _ & _ & ->). done.
Qed.

Lemma foldl_reach {A B} (Q : A -> Prop) (f : A -> B -> A) (l : list B)
    (a0 : A) (b : B) :
  b ∈ l -> (forall a, Q (f a b)) -> (forall a b', Q a -> Q (f a b')) ->
  Q (foldl f a0 l).
Proof.
  intros Hb Hhit Hkeep. revert a0.
  induction l as [|b' l IH]; intros a0; [by apply elem_of_nil in Hb|].
  simpl. apply elem_of_cons in Hb as [->|Hb].
  - apply (foldl_inv Q); [apply Hhit|]. intros a1 b1 _. apply Hkeep.
  - by apply IH.
Qed.

Lemma for_all_reach {A S} (Q : S -> Prop) (body : A -> S -> status S)
    (l : list A) (s s' : S) (a : A) :
  a ∈ l ->
  (forall s s', body a s = Done s' -> Q s') ->
  (forall b s s', Q s -> body b s = Done s' -> Q s') ->
  for_all l body s = Done s' -> Q s'.
Proof.
  intros Ha Hhit Hkeep. revert s.
  induction l as [|b l IH]; intros s; [by apply elem_of_nil in Ha|].
  simpl. destruct (body b s) as [s1| | |] eqn:Hb; try done. simpl.
  apply elem_of_cons in Ha as [->|Ha].
  - apply (for_all_inv Q); [by eapply Hhit|].
    intros b1 s2 s3 _ H2 H3. by eapply Hkeep.
  - by apply IH.
Qed.

(** The token loops of a block reach every row below the capacity. *)
Lemma send_token_emits e offset i st :
  0 <= i < num_max_dispatch_tokens_per_rank P ->
  let dst := e `quot` num_local_experts P in
  let src := ld (src_info I) (src_row_of P e offset i) in
  PutHeader dst (dst_offset_of P C e i) src
    ∈ s_out (send_token P C I p2p dst (e `rem` num_local_experts P) offset
               (offset + i) st).
Proof.
  intros Hi dst src. unfold send_token. cbv zeta.
  replace (offset + i - offset) with i by lia.
  replace ((i <? 0) || (i >=? num_max_dispatch_tokens_per_rank P))
    with false.
  2:{ symmetry. apply orb_false_iff. lia. }
  destruct (negb _); simpl; apply elem_of_app; right; by left.
Qed.

Lemma send_block_emits sm_id st st' num offset i :
  0 <= sm_id < num_experts P ->
  num_warps_per_group C <= ceil_div (blockDim P) 32 ->
  tokens_to_send P I sm_id = Some (num, offset) ->
  0 <= i < num -> i < num_max_dispatch_tokens_per_rank P ->
  send_block P C I p2p sm_id st = Done st' ->
  PutHeader (sm_id `quot` num_local_experts P) (dst_offset_of P C sm_id i)
            (ld (src_info I) (src_row_of P sm_id offset i)) ∈ s_out st'.
Proof.
  intros He Hwarps Htokens Hi HS. unfold send_block. cbv zeta.
  set (st0 := if sm_id =? 0 then _ else st). clearbody st0.
  replace (sm_id <? num_experts P) with true by lia.
  unfold tokens_to_send in Htokens.
  destruct (layout_range I) as [layout|]; [|done].
  cbn -[unpack2 ld Z.rem Z.quot Z.mul Z.add] in Htokens.
  apply (inj Some) in Htokens. rewrite Htokens.
  destruct (negb _); [done|].
  set (st1 := foldl _ st0 (warps P)).
  set (op := PutHeader _ _ _).
  destruct (for_all (warps P) _ st1) as [st2| | |] eqn:Hflags; try done.
  simpl. intros Hdone.
  assert (H1 : op ∈ s_out st1).
  { destruct (quot_rem_nonneg i (num_warps_per_group C)) as (Hq & Hr & Hsplit);
      [lia..|].
    unfold st1.
    apply (foldl_reach (fun sa => op ∈ s_out sa) _ _ _
             (i `rem` num_warps_per_group C)).
    - apply elem_of_seqZ. lia.
    - intros sa. unfold send_warp.
      apply (foldl_reach (fun sb => op ∈ s_out sb) _ _ _ (offset + i)).
      + apply elem_of_strided; [done|].
        exists (i `quot` num_warps_per_group C). split; [done|].
        unfold sub_warp_id.
        rewrite (Z.rem_small (i `rem` _)) by lia. lia.
      + intros sb. unfold op. apply send_token_emits. lia.
      + intros sb t. apply send_token_mono.
    - intros sa w. apply send_warp_mono. }
  assert (H2 : op ∈ s_out st2).
  { revert Hflags. apply (for_all_inv (fun sa => op ∈ s_out sa)); [done|].
    intros w sa sb _ Hsa Hput. by eapply put_flag_mono. }
  revert Hdone. apply (for_all_inv (fun sa => op ∈ s_out sa)); [done|].
  intros w sa sb _ Hsa Hc.
  apply complete_expert_inv in Hc as (_ & _ & _ & ->). done.
Qed.

End Ops.


(** With the SEND bit set, a rank whose send phase completes returns the
    rows it holds and nothing else: every one-sided operation belongs to a
    row, or to the flag, of a block that has an expert, and lands in the
    section of the sending rank; no two rows with different source indices
    are put to the same place; and every row below the capacity of block
    [e] is put, slot [i] carrying the source index of row [offset + i]. *)
Theorem send_phase_returns_rows P C I p2p m st :
  0 < num_warps_per_group C ->
  num_warps_per_group C <= ceil_div (blockDim P) 32 ->
  0 < num_local_experts P -> 0 <= rank P < num_ranks P -> 0 <= kHidden C ->
  Z.land (phases P) LOW_LATENCY_SEND_PHASE ≠ 0 ->
  send_phase P C I p2p m = Done st ->
  Forall (CombineSendSpec.op_ok P C I p2p) (s_out st)
  /\ (forall dst off src src',
        PutHeader dst off src ∈ s_out st ->
        PutHeader dst off src' ∈ s_out st -> src = src')
  /\ (forall e num offset i,
        0 <= e < num_experts P -> e < gridDim P ->
        CombineSendSpec.tokens_to_send P I e = Some (num, offset) ->
        0 <= i < num -> i < num_max_dispatch_tokens_per_rank P ->
        PutHeader (e `quot` num_local_experts P)
                  (CombineSendSpec.dst_offset_of P C e i)
                  (ld (src_info I) (CombineSendSpec.src_row_of P e offset i))
          ∈ s_out st).
Proof.
  intros Hw Hwarps HL Hrank Hk Hsend Hrun.
  destruct (send_phase_inv P C I p2p Hw m st Hrun) as (_ & _ & Hops).
  split; [exact Hops|]. split.
  - intros dst off src src' H1 H2.
    pose proof (proj1 (Forall_forall _ _) Hops _ H1)
      as (e1 & n1 & o1 & _ & Ht1 & Hd1 & i1 & Hi1 & Hoff1 & ->).
    pose proof (proj1 (Forall_forall _ _) Hops _ H2)
      as (e2 & n2 & o2 & _ & Ht2 & Hd2 & i2 & Hi2 & Hoff2 & ->).
    unfold CombineSendSpec.dst_offset_of, num_bytes_per_msg,
      num_bytes_per_data in Hoff1, Hoff2.
    set (S := num_max_dispatch_tokens_per_rank P) in *.
    set (R := num_ranks P) in *.
    set (L := num_local_experts P) in *.
    assert (Hcell : e1 `rem` L * R * S + i1 = e2 `rem` L * R * S + i2).
    { assert (Heq : (e1 `rem` L * R * S + rank P * S + i1) * (16 + kHidden C * 2)
                    = (e2 `rem` L * R * S + rank P * S + i2)
                      * (16 + kHidden C * 2)) by lia.
      apply Z.mul_cancel_r in Heq; lia. }
    assert (HRS : S <= R * S) by nia.
    assert (Hle : e1 `rem` L = e2 `rem` L).
    { destruct (Z.lt_trichotomy (e1 `rem` L) (e2 `rem` L)) as [?|[?|?]];
        [|done|]; exfalso; nia. }
    assert (He : e1 = e2).
    { rewrite (Z.quot_rem' e1 L), (Z.quot_rem' e2 L). rewrite Hle.
      f_equal. f_equal. lia. }
    subst e2. rewrite Ht1 in Ht2. injection Ht2 as <- <-.
    f_equal. f_equal. lia.
  - intros e num offset i He Hgrid Htokens Hi HS.
    unfold send_phase in Hrun. cbv zeta in Hrun.
    destruct (Z.land _ _ =? 0) eqn:Hbit; [lia|].
    revert Hrun.
    apply (for_all_reach
             (fun sa =>
                PutHeader (e `quot` num_local_experts P)
                  (CombineSendSpec.dst_offset_of P C e i)
                  (ld (src_info I) (CombineSendSpec.src_row_of P e offset i))
                  ∈ s_out sa) _ _ _ _ e).
    + apply elem_of_seqZ. lia.
    + intros sa sb. by apply (send_block_emits P C I p2p Hw e sa sb num).
    + intros b sa sb Hop Hblock. by eapply send_block_mono.
Qed.

Lemma send_phase_returns_rows_witness :
  exists st,
    send_phase (Scenarios.combine_params 0 1)
      (host_config (Scenarios.combine_call 0 1) false 0)
      (Scenarios.combine_inputs Scenarios.one Scenarios.two
         Scenarios.two Scenarios.one)
      (fun _ => true) MoreScenarios.idle_flags
    = Done st
    /\ PutHeader 0 0 0 ∈ s_out st
    /\ PutHeader 0 (2 * (16 + 7168 * 2)) 0 ∈ s_out st.
Proof.
  assert (Hrun : exists st,
            send_phase (Scenarios.combine_params 0 1)
              (host_config (Scenarios.combine_call 0 1) false 0)
              (Scenarios.combine_inputs Scenarios.one Scenarios.two
                 Scenarios.two Scenarios.one)
              (fun _ => true) MoreScenarios.idle_flags
            = Done st)
    by (eexists; vm_compute; reflexivity).
  destruct Hrun as [st Hrun]. exists st. split; [exact Hrun|].
  destruct (send_phase_returns_rows (Scenarios.combine_params 0 1)
              (host_config (Scenarios.combine_call 0 1) false 0)
              (Scenarios.combine_inputs Scenarios.one Scenarios.two
                 Scenarios.two Scenarios.one)
              (fun _ => true) MoreScenarios.idle_flags st)
    as (_ & _ & Hrows); [by_eval..|exact Hrun|].
  split.
  - exact (Hrows 0 1 0 0 ltac:(by_eval) ltac:(by_eval) eq_refl ltac:(by_eval)
             ltac:(by_eval)).
  - exact (Hrows 1 1 0 0 ltac:(by_eval) ltac:(by_eval) eq_refl ltac:(by_eval)
             ltac:(by_eval)).
Defined.

(** *** The flags on all ranks *)

Lemma map_status_lookup {A B} (f : A -> status B) (l : list A) (bs : list B)
    (i : nat) (a : A) :
  map_status f l = Done bs -> l !! i = Some a ->
  exists b, bs !! i = Some b /\ f a = Done b.
Proof.
  revert bs i. induction l as [|a' l IH]; intros bs i; [done|].
  simpl. destruct (f a') as [b'| | |] eqn:Ha'; try done. simpl.
  destruct (map_status f l) as [bs'| | |]; try done. simpl.
  intros [= <-]. destruct i as [|i]; simpl.
  - intros [= <-]. by exists b'.
  - by apply IH.
Qed.

Lemma map_status_elem {A B} (f : A -> status B) (l : list A) (bs : list B)
    (b : B) :
  map_status f l = Done bs -> b ∈ bs -> exists a, a ∈ l /\ f a = Done b.
Proof.
  revert bs. induction l as [|a' l IH]; intros bs; simpl.
  - intros [= <-] Hb. by apply elem_of_nil in Hb.
  - destruct (f a') as [b'| | |] eqn:Ha'; try done. simpl.
    destruct (map_status f l) as [bs'| | |]; try done. simpl.
    intros [= <-] [->|Hb]%elem_of_cons.
    + exists a'. split; [by left|done].
    + destruct (IH bs' eq_refl Hb) as (a & Ha & Hfa).
      exists a. split; [by right|done].
Qed.

Lemma elem_of_concat {A} (x : A) (ls : list (list A)) :
  x ∈ concat ls <-> exists l, x ∈ l /\ l ∈ ls.
Proof.
  rewrite list_elem_of_In, in_concat.
  split; intros (l & H1 & H2); exists l; rewrite ?list_elem_of_In in *; done.
Qed.

(** A flag no delivered operation addresses keeps its value. *)
Lemma deliver_keeps_flag ops (w : list memory) (d : nat) le m0 :
  w !! d = Some m0 ->
  (forall op, op ∈ ops -> op ≠ AddFlag (Z.of_nat d) le) ->
  exists m,
    deliver ops w !! d = Some m
    /\ ld (rdma_recv_flag m) le = ld (rdma_recv_flag m0) le
    /\ expert_sync_info_buffer m = expert_sync_info_buffer m0.
Proof.
  revert w m0. induction ops as [|op ops IH]; intros w m0 Hw Hops.
  - exists m0. by split.
  - change (deliver (op :: ops) w) with (deliver ops (deliver_op w op)).
    assert (Hrest : forall op', op' ∈ ops -> op' ≠ AddFlag (Z.of_nat d) le)
      by (intros op' Hop'; apply Hops; by right).
    assert (Hop : op ≠ AddFlag (Z.of_nat d) le) by (apply Hops; by left).
    unfold deliver_op. destruct (0 <=? op_dst op) eqn:Hdst.
    2:{ by apply IH. }
    destruct (decide (Z.to_nat (op_dst op) = d)) as [Hd|Hd].
    + destruct (IH (alter (apply_op op) (Z.to_nat (op_dst op)) w)
                   (apply_op op m0)) as (m & Hm & Hf & Hs); [|done|].
      { rewrite Hd, list_lookup_alter_eq, Hw. done. }
      exists m. split; [done|]. rewrite Hf, Hs.
      destruct op as [dst off src|dst off data n|dst le']; try done.
      simpl in *. split; [|done].
      unfold ld. rewrite lookup_insert_ne; [done|].
      intros ->. apply Hop. f_equal. lia.
    + apply IH; [|done]. by rewrite list_lookup_alter_ne.
Qed.

(** No rank that holds no row for rank [d] under its local expert [le]
    raises the flag [le] of rank [d]; when no rank does, a block of rank [d]
    that waits for this flag, having found rows for [le] in its own
    [layout_range], never leaves the loop of lines 1211-1217. *)
Theorem wait_spins_without_reply (ls : list launch) sends (w : list memory)
    (d : nat) (le : Z) (l : launch) :
  send_all ls = Done (sends, w) ->
  ls !! d = Some l ->
  rank (l_params l) = Z.of_nat d ->
  0 <= le < num_local_experts (l_params l) ->
  Z.of_nat d * num_local_experts (l_params l) + le < num_experts (l_params l) ->
  1 < num_warps_per_group (l_config l) ->
  expert_sync_info_buffer (l_memory l) = None ->
  ld (rdma_recv_flag (l_memory l)) le = 0 ->
  will_receive_data (l_params l) (l_inputs l) le = true ->
  Forall (fun l' => 0 < num_warps_per_group (l_config l')) ls ->
  (forall l' e num offset,
     l' ∈ ls ->
     e `quot` num_local_experts (l_params l') = Z.of_nat d ->
     e `rem` num_local_experts (l_params l') = le ->
     CombineSendSpec.tokens_to_send (l_params l') (l_inputs l') e
     = Some (num, offset) ->
     num <= 0) ->
  exists m,
    w !! d = Some m
    /\ wait_block (l_params l) (l_config l) (l_inputs l)
         (Z.of_nat d * num_local_experts (l_params l) + le) m
       = Hang.
Proof.
  intros Hall Hl Hrank Hle He Hw Hsync Hflag Hrecv Hwarps Hothers.
  pose proof (proj1 (Forall_forall _ _) Hwarps) as Hwarps'.
  unfold send_all in Hall.
  destruct (map_status rank_send ls) as [sends'| | |] eqn:Hsends; try done.
  simpl in Hall. injection Hall as <- <-.
  destruct (map_status_lookup _ _ _ _ _ Hsends Hl) as (st & Hst & Hrun).
  assert (Hwl : 0 < num_warps_per_group (l_config l)) by lia.
  destruct (send_phase_inv _ _ _ _ Hwl _ _ Hrun) as (Hf & Hs & _).
  destruct (deliver_keeps_flag (concat (s_out <$> sends')) (s_mem <$> sends')
              d le (s_mem st)) as (m & Hm & Hfm & Hsm).
  { by rewrite list_lookup_fmap, Hst. }
  { intros op Hop ->.
    apply elem_of_concat in Hop
      as (out & Hop & (st' & -> & Hst')%list_elem_of_fmap).
    destruct (map_status_elem _ _ _ _ Hsends Hst') as (l' & Hl' & Hrun').
    destruct (send_phase_inv _ _ _ _ (Hwarps' l' Hl') _ _ Hrun')
      as (_ & _ & Hops).
    pose proof (proj1 (Forall_forall _ _) Hops _ Hop)
      as (e & num & offset & _ & Htokens & Hdst & Hlocal & Hnum).
    pose proof (Hothers l' e num offset Hl' (eq_sym Hdst) (eq_sym Hlocal)
                  Htokens). lia. }
  exists m. split; [exact Hm|].
  set (L := num_local_experts (l_params l)) in *.
  assert (0 <= Z.of_nat d * L) by (apply Z.mul_nonneg_nonneg; lia).
  assert (Hq : (Z.of_nat d * L + le) `quot` L = Z.of_nat d).
  { rewrite Z.quot_div_nonneg by lia.
    replace (Z.of_nat d * L + le) with (le + Z.of_nat d * L) by lia.
    rewrite Z.div_add by lia. rewrite Z.div_small by lia. lia. }
  assert (Hr : (Z.of_nat d * L + le) `rem` L = le).
  { rewrite Z.rem_mod_nonneg by lia.
    replace (Z.of_nat d * L + le) with (le + Z.of_nat d * L) by lia.
    rewrite Z.mod_add by lia. apply Z.mod_small. lia. }
  unfold wait_block. cbv zeta. fold L. rewrite Hq, Hr, Hrank.
  replace (Z.of_nat d * L + le <? num_experts (l_params l)) with true by lia.
  rewrite Z.eqb_refl.
  replace (negb (num_warps_per_group (l_config l) >? 1)) with false by lia.
  rewrite Hrecv, Hsm, (Hs Hsync), Hfm, Hf, Hflag. done.
Qed.

Lemma wait_spins_without_reply_witness :
  exists sends w m,
    send_all MoreScenarios.one_way = Done (sends, w)
    /\ w !! 1%nat = Some m
    /\ wait_block (Scenarios.combine_params 1 2)
         (host_config (Scenarios.combine_call 1 2) false 0)
         (MoreScenarios.holder_inputs {[0 := pack2 1 0]}) 1 m
       = Hang.
Proof.
  assert (Hrun : exists sw, send_all MoreScenarios.one_way = Done sw)
    by (eexists; vm_compute; reflexivity).
  destruct Hrun as [[sends w] Hrun].
  destruct (wait_spins_without_reply MoreScenarios.one_way sends w 1 0
              (MoreScenarios.flag_launch 1 {[0 := pack2 1 0]}) Hrun)
    as (m & Hm & Hhang);
    [reflexivity|reflexivity|by_eval|by_eval|by_eval|reflexivity|reflexivity
    |by_eval|repeat constructor| |].
  - intros l' e num offset Hl' Hq Hr Htokens.
    apply elem_of_cons in Hl' as [->|Hl'];
      [|apply elem_of_cons in Hl' as [->|Hl']; [|by apply elem_of_nil in Hl']];
      change (e `quot` 1 = 1) in Hq; rewrite Z.quot_1_r in Hq; subst e;
      vm_compute in Htokens; injection Htokens as <- _; done.
  - exists sends, w, m. split; [exact Hrun|]. split; [exact Hm|exact Hhang].
Defined.

(** *** Counting the flags *)

Import CombineSendSpec.

Lemma for_all_measure {A S} (c : S -> Z) (g : A -> Z)
    (body : A -> S -> status S) (l : list A) (s s' : S) :
  (forall a s s', a ∈ l -> body a s = Done s' -> c s' = c s + g a) ->
  for_all l body s = Done s' ->
  c s' = c s + foldr (fun a acc => g a + acc) 0 l.
Proof.
  revert s. induction l as [|a l IH]; intros s Hbody; simpl.
  - intros [= <-]. lia.
  - destruct (body a s) as [s1| | |] eqn:Ha; try done. simpl. intros Hrun.
    rewrite (IH s1); [|intros b sa sb Hb; apply Hbody; by right|done].
    rewrite (Hbody a s s1); [lia|by left|done].
Qed.

Lemma sum_indicator {A} (p : A -> bool) (x : Z) (l : list A) :
  foldr (fun a acc => (if p a then x else 0) + acc) 0 l
  = x * Z.of_nat (length (List.filter p l)).
Proof.
  induction l as [|a l IH]; simpl; [lia|].
  rewrite IH. destruct (p a); simpl; lia.
Qed.

Lemma sum_only (g : Z -> Z) (x : Z) (l : list Z) :
  NoDup l -> (forall a, a ∈ l -> a ≠ x -> g a = 0) ->
  foldr (fun a acc => g a + acc) 0 l = if decide (x ∈ l) then g x else 0.
Proof.
  induction 1 as [|a l Ha Hnd IH]; intros Hg; simpl; [done|].
  rewrite IH by (intros b Hb; apply Hg; by right).
  destruct (decide (a = x)) as [->|Hne].
  - rewrite (decide_False (P := x ∈ l)) by done.
    rewrite (decide_True (P := x ∈ x :: l)) by left. lia.
  - rewrite (Hg a) by (done || by left).
    destruct (decide (x ∈ l)) as [Hin|Hin].
    + rewrite (decide_True (P := x ∈ a :: l)) by (by right). done.
    + rewrite (decide_False (P := x ∈ a :: l)); [done|].
      intros [?|?]%elem_of_cons; done.
Qed.

Lemma flags_to_app dst le ops1 ops2 :
  flags_to dst le (ops1 ++ ops2) = flags_to dst le ops1 + flags_to dst le ops2.
Proof. unfold flags_to. rewrite List.filter_app, length_app. lia. Qed.

Section Count.

Variable P : params.
Variable C : config.
Variable I : inputs.
Variable p2p : Z -> bool.
Variables dst le : Z.

Lemma send_token_flags d l offset t st :
  flags_to dst le (s_out (send_token P C I p2p d l offset t st))
  = flags_to dst le (s_out st).
Proof.
  unfold send_token. cbv zeta.
  destruct (_ || _); simpl; [by rewrite app_nil_r|].
  destruct (negb _); simpl; rewrite flags_to_app; unfold flags_to; simpl; lia.
Qed.

Lemma send_warp_flags d l offset num w st :
  flags_to dst le (s_out (send_warp P C I p2p d l offset num w st))
  = flags_to dst le (s_out st).
Proof.
  unfold send_warp.
  apply (foldl_inv (fun sa => flags_to dst le (s_out sa)
                              = flags_to dst le (s_out st))); [done|].
  intros sa t _ <-. apply send_token_flags.
Qed.

Lemma put_flag_flags e d l num w st st' :
  put_flag P C e d l num w st = Done st' ->
  flags_to dst le (s_out st')
  = flags_to dst le (s_out st)
    + (if sub_warp_id C w =? 1
       then if (num >? 0) && ((d =? dst) && (l =? le)) then 1 else 0
       else 0).
Proof.
  unfold put_flag.
  destruct (num >? 0); simpl; [|intros [= <-]; destruct (_ =? 1); lia].
  destruct (sub_warp_id C w =? 1); [|intros [= <-]; lia].
  destruct (_ =? 0); [done|].
  destruct (note_received _ _ _ _) as [m'| | |]; try done.
  simpl. intros [= <-]. simpl. rewrite flags_to_app.
  unfold flags_to at 2. simpl. destruct (_ && _); simpl; lia.
Qed.

(** A block adds one increment per flagging warp to the flag of its
    expert, when it holds rows. *)
Lemma send_block_flags sm_id st st' :
  send_block P C I p2p sm_id st = Done st' ->
  flags_to dst le (s_out st')
  = flags_to dst le (s_out st)
    + (if (sm_id <? num_experts P)
          && ((sm_id `quot` num_local_experts P =? dst)
              && (sm_id `rem` num_local_experts P =? le))
       then match tokens_to_send P I sm_id with
            | Some (num, _) => if num >? 0 then flaggers P C else 0
            | None => 0
            end
       else 0).
Proof.
  unfold send_block. cbv zeta.
  set (st0 := if sm_id =? 0 then _ else st).
  assert (Ho0 : s_out st0 = s_out st) by (unfold st0; by destruct (_ =? 0)).
  rewrite <-Ho0. clearbody st0. clear Ho0.
  destruct (sm_id <? num_experts P); [|intros [= <-]; simpl; lia].
  unfold tokens_to_send.
  destruct (layout_range I) as [layout|]; [|done].
  cbn -[unpack2 ld Z.rem Z.quot Z.mul Z.add Z.gtb].
  destruct (unpack2 _) as [num offset].
  destruct (negb _); [done|].
  set (st1 := foldl _ st0 (warps P)).
  assert (H1 : flags_to dst le (s_out st1) = flags_to dst le (s_out st0)).
  { unfold st1.
    apply (foldl_inv (fun sa => flags_to dst le (s_out sa)
                                = flags_to dst le (s_out st0))); [done|].
    intros sa w _ <-. apply send_warp_flags. }
  rewrite <-H1. clearbody st1. clear H1.
  destruct (for_all (warps P) _ st1) as [st2| | |] eqn:Hflags; try done.
  simpl. intros Hdone.
  apply (for_all_measure (fun sa => flags_to dst le (s_out sa))
           (fun w => if sub_warp_id C w =? 1
                     then if (num >? 0)
                             && ((sm_id `quot` num_local_experts P =? dst)
                                 && (sm_id `rem` num_local_experts P =? le))
                          then 1 else 0
                     else 0)) in Hflags.
  2:{ intros w sa sb _. apply put_flag_flags. }
  assert (H3 : s_out st' = s_out st2).
  { revert Hdone. apply (for_all_inv (fun sa => s_out sa = s_out st2)); [done|].
    intros w sa sb _ Hsa Hc.
    apply complete_expert_inv in Hc as (_ & _ & _ & ->). done. }
  rewrite H3, Hflags, sum_indicator. unfold flaggers.
  destruct ((sm_id `quot` _ =? dst) && _); destruct (num >? 0); simpl; lia.
Qed.

Hypothesis L_pos : 0 < num_local_experts P.

(** The send phase of a rank raises the flag [le] of rank [dst] once per
    flagging warp, when the block of expert [dst * num_local_experts + le]
    holds rows, and not otherwise. *)
Lemma send_phase_flags m st :
  Z.land (phases P) LOW_LATENCY_SEND_PHASE ≠ 0 ->
  send_phase P C I p2p m = Done st ->
  flags_to dst le (s_out st)
  = let e := dst * num_local_experts P + le in
    if (0 <=? dst) && ((0 <=? le) && (le <? num_local_experts P))
       && ((e <? num_experts P) && (e <? gridDim P))
    then match tokens_to_send P I e with
         | Some (num, _) => if num >? 0 then flaggers P C else 0
         | None => 0
         end
    else 0.
Proof.
  intros Hsend. unfold send_phase. cbv zeta.
  destruct (_ =? 0) eqn:Hbit; [lia|]. intros Hrun.
  set (L := num_local_experts P) in *.
  set (g := fun sm_id =>
              if (sm_id <? num_experts P)
                 && ((sm_id `quot` L =? dst) && (sm_id `rem` L =? le))
              then match tokens_to_send P I sm_id with
                   | Some (num, _) => if num >? 0 then flaggers P C else 0
                   | None => 0
                   end
              else 0).
  apply (for_all_measure (fun sa => flags_to dst le (s_out sa)) g) in Hrun.
  2:{ intros sm sa sb _. apply send_block_flags. }
  rewrite Hrun. simpl s_out. change (flags_to dst le []) with 0.
  rewrite Z.add_0_l.
  rewrite (sum_only g (dst * L + le)); [|apply NoDup_seqZ|].
  2:{ intros a Ha%elem_of_seqZ Hne. unfold g.
      destruct ((_ <? num_experts P) && _) eqn:Hc; [|done]. exfalso. apply Hne.
      apply andb_true_iff in Hc as [_ [Hq Hr]%andb_true_iff].
      rewrite (Z.quot_rem' a L). lia. }
  cbv zeta. destruct (decide _) as [Hin%elem_of_seqZ|Hout].
  - unfold g.
    destruct ((0 <=? dst) && ((0 <=? le) && (le <? L))) eqn:Hrange; simpl.
    + apply andb_true_iff in Hrange as [Hd [Hl1 Hl2]%andb_true_iff].
      assert (0 <= dst * L) by (apply Z.mul_nonneg_nonneg; lia).
      assert (Hq : (dst * L + le) `quot` L = dst).
      { rewrite Z.quot_div_nonneg by lia.
        replace (dst * L + le) with (le + dst * L) by lia.
        rewrite Z.div_add by lia. rewrite Z.div_small by lia. lia. }
      assert (Hr : (dst * L + le) `rem` L = le).
      { rewrite Z.rem_mod_nonneg by lia.
        replace (dst * L + le) with (le + dst * L) by lia.
        rewrite Z.mod_add by lia. apply Z.mod_small. lia. }
      rewrite Hq, Hr, !Z.eqb_refl.
      replace (dst * L + le <? gridDim P) with true by lia.
      by rewrite !andb_true_r.
    + destruct ((_ <? num_experts P) && _) eqn:Hc; [|done]. exfalso.
      apply andb_true_iff in Hc as [_ [Hq Hr]%andb_true_iff].
      destruct (quot_rem_nonneg (dst * L + le) L) as (Hq' & Hr' & _); [lia..|].
      apply andb_false_iff in Hrange as [?|Hrange]; [lia|].
      apply andb_false_iff in Hrange as [?|?]; lia.
  - destruct (_ && (_ && _) && _) eqn:Hc; [|done]. exfalso. apply Hout.
    apply andb_true_iff in Hc as [[Hd [Hl1 Hl2]%andb_true_iff]%andb_true_iff
                                  [He Hg]%andb_true_iff].
    apply elem_of_seqZ.
    assert (0 <= dst * L) by (apply Z.mul_nonneg_nonneg; lia). lia.
Qed.

End Count.

Lemma wrap32_add_l a b : wrap32 (wrap32 a + b) = wrap32 (a + b).
Proof.
  unfold wrap32.
  replace ((a + 2147483648) mod 4294967296 - 2147483648 + b + 2147483648)
    with ((a + 2147483648) mod 4294967296 + b) by lia.
  rewrite Zplus_mod_idemp_l. f_equal. f_equal. lia.
Qed.

Lemma flags_to_nonneg dst le ops : 0 <= flags_to dst le ops.
Proof. unfold flags_to. lia. Qed.

(** What a rank finds in its flags once [ops] are delivered. *)
Lemma deliver_flag_count ops (w : list memory) (d : nat) le m0 :
  w !! d = Some m0 ->
  exists m,
    deliver ops w !! d = Some m
    /\ ld (rdma_recv_flag m) le
       = (if flags_to (Z.of_nat d) le ops =? 0 then ld (rdma_recv_flag m0) le
          else wrap32 (ld (rdma_recv_flag m0) le
                       + flags_to (Z.of_nat d) le ops))
    /\ expert_sync_info_buffer m = expert_sync_info_buffer m0.
Proof.
  revert w m0. induction ops as [|op ops IH]; intros w m0 Hw.
  - exists m0. by split.
  - change (deliver (op :: ops) w) with (deliver ops (deliver_op w op)).
    change (op :: ops) with ([op] ++ ops). rewrite flags_to_app.
    pose proof (flags_to_nonneg (Z.of_nat d) le ops) as Hnn.
    unfold deliver_op.
    destruct (0 <=? op_dst op) eqn:Hdst;
      [apply Z.leb_le in Hdst|apply Z.leb_gt in Hdst].
    2:{ destruct (IH w m0 Hw) as (m & Hm & Hf & Hs). exists m.
        split; [done|]. split; [|done]. rewrite Hf.
        replace (flags_to (Z.of_nat d) le [op]) with 0; [done|].
        destruct op as [| |dst le']; try done. unfold flags_to. simpl in *.
        replace (dst =? Z.of_nat d) with false
          by (symmetry; apply Z.eqb_neq; lia).
        done. }
    destruct (decide (Z.to_nat (op_dst op) = d)) as [Hd|Hd].
    + destruct (IH (alter (apply_op op) (Z.to_nat (op_dst op)) w)
                   (apply_op op m0)) as (m & Hm & Hf & Hs).
      { rewrite Hd, list_lookup_alter_eq, Hw. done. }
      exists m. split; [done|]. rewrite Hf, Hs.
      destruct op as [dst off src|dst off data n|dst le']; try done.
      simpl in *. split; [|done].
      assert (dst = Z.of_nat d) as -> by lia.
      assert (Hone : flags_to (Z.of_nat d) le [AddFlag (Z.of_nat d) le']
                     = if le' =? le then 1 else 0).
      { unfold flags_to. simpl. rewrite Z.eqb_refl. simpl.
        by destruct (le' =? le). }
      rewrite Hone. set (k := flags_to (Z.of_nat d) le ops) in *.
      set (v := ld (rdma_recv_flag m0)).
      destruct (le' =? le) eqn:Hle.
      * apply Z.eqb_eq in Hle as ->. unfold ld at 1 2.
        rewrite lookup_insert_eq. simpl.
        replace (1 + k =? 0) with false by (symmetry; apply Z.eqb_neq; lia).
        destruct (k =? 0) eqn:Hk.
        -- apply Z.eqb_eq in Hk. rewrite Hk. f_equal; lia.
        -- rewrite wrap32_add_l. f_equal; lia.
      * apply Z.eqb_neq in Hle. unfold ld at 1 2.
        rewrite lookup_insert_ne by done. done.
    + destruct (IH (alter (apply_op op) (Z.to_nat (op_dst op)) w) m0)
        as (m & Hm & Hf & Hs).
      { by rewrite list_lookup_alter_ne. }
      exists m. split; [done|]. split; [|done]. rewrite Hf.
      replace (flags_to (Z.of_nat d) le [op]) with 0; [done|].
      destruct op as [| |dst le']; try done. unfold flags_to. simpl in *.
      replace (dst =? Z.of_nat d) with false
        by (symmetry; apply Z.eqb_neq; lia).
      done.
Qed.

Lemma flags_to_concat dst le (outs : list (list net_op)) :
  flags_to dst le (concat outs)
  = foldr (fun o acc => flags_to dst le o + acc) 0 outs.
Proof.
  induction outs as [|o outs IH]; [done|].
  simpl. by rewrite flags_to_app, IH.
Qed.

Lemma map_status_sum {A B} (f : A -> status B) (c : B -> Z) (g : A -> Z)
    (l : list A) (bs : list B) :
  (forall a b, a ∈ l -> f a = Done b -> c b = g a) ->
  map_status f l = Done bs ->
  foldr (fun b acc => c b + acc) 0 bs = foldr (fun a acc => g a + acc) 0 l.
Proof.
  revert bs. induction l as [|a l IH]; intros bs Hc; simpl.
  - by intros [= <-].
  - destruct (f a) as [b| | |] eqn:Ha; try done. simpl.
    destruct (map_status f l) as [bs'| | |] eqn:Hl; try done. simpl.
    intros [= <-]. simpl.
    rewrite (IH bs'); [|intros a' b' Ha'; apply Hc; by right|done].
    rewrite (Hc a b); [done|by left|done].
Qed.

(** What the delivery of all send phases leaves in a flag. *)
Lemma flags_delivered (ls : list launch) sends (w : list memory)
    (d : nat) (le : Z) (l : launch) :
  Forall (fun l' => Z.land (phases (l_params l')) LOW_LATENCY_SEND_PHASE ≠ 0
                    /\ 0 < num_local_experts (l_params l')
                    /\ 0 < num_warps_per_group (l_config l')) ls ->
  send_all ls = Done (sends, w) ->
  ls !! d = Some l ->
  exists m,
    w !! d = Some m
    /\ ld (rdma_recv_flag m) le
       = (let k := foldr (fun l' acc => raises l' (Z.of_nat d) le + acc) 0 ls in
          if k =? 0 then ld (rdma_recv_flag (l_memory l)) le
          else wrap32 (ld (rdma_recv_flag (l_memory l)) le + k)).
Proof.
  intros Hall Hrun Hl.
  pose proof (proj1 (Forall_forall _ _) Hall) as Hall'.
  unfold send_all in Hrun.
  destruct (map_status rank_send ls) as [sends'| | |] eqn:Hsends; try done.
  simpl in Hrun. injection Hrun as <- <-.
  destruct (map_status_lookup _ _ _ _ _ Hsends Hl) as (st & Hst & Hsend).
  destruct (deliver_flag_count (concat (s_out <$> sends')) (s_mem <$> sends')
              d le (s_mem st)) as (m & Hm & Hfm & _).
  { by rewrite list_lookup_fmap, Hst. }
  exists m. split; [exact Hm|]. rewrite Hfm. cbv zeta.
  assert (Hf0 : rdma_recv_flag (s_mem st) = rdma_recv_flag (l_memory l)).
  { destruct (Hall' l ltac:(by eapply list_elem_of_lookup_2)) as (_ & _ & Hw).
    by destruct (send_phase_inv _ _ _ _ Hw _ _ Hsend) as (-> & _). }
  rewrite Hf0, flags_to_concat, foldr_fmap.
  rewrite (map_status_sum rank_send
             (fun sa => flags_to (Z.of_nat d) le (s_out sa))
             (fun l' => raises l' (Z.of_nat d) le) ls sends'); [done| |done].
  intros l' sa Hl' Hsa. destruct (Hall' l' Hl') as (Hbit & HL & _).
  unfold raises. by apply (send_phase_flags _ _ _ (l_p2p l') _ _ HL
                             (l_memory l')).
Qed.

(** Flag accounting.  After the send phases of all ranks, the flag [le] of
    rank [d] has grown by what every rank raises it by: once per flagging
    warp of each rank that holds rows of rank [d] under its local expert
    [le]. *)
Theorem flags_after_send (ls : list launch) sends (w : list memory)
    (d : nat) (le : Z) (l : launch) :
  Forall (fun l' => Z.land (phases (l_params l')) LOW_LATENCY_SEND_PHASE ≠ 0
                    /\ 0 < num_local_experts (l_params l')
                    /\ 0 < num_warps_per_group (l_config l')) ls ->
  send_all ls = Done (sends, w) ->
  ls !! d = Some l ->
  exists m,
    w !! d = Some m
    /\ ld (rdma_recv_flag m) le
       = (let k := foldr (fun l' acc => raises l' (Z.of_nat d) le + acc) 0 ls in
          if k =? 0 then ld (rdma_recv_flag (l_memory l)) le
          else wrap32 (ld (rdma_recv_flag (l_memory l)) le + k)).
Proof. apply flags_delivered. Qed.

(** With one rank the flag reset lowers nothing: it only counts the other
    ranks. *)
Lemma reset_flags_alone P I (m : memory) :
  num_ranks P = 1 -> rank P = 0 -> reset_flags P I m = m.
Proof.
  intros HR Hrank. unfold reset_flags.
  apply (foldl_inv (fun m' => m' = m)); [done|].
  intros m' sm _ ->. unfold reset_block. cbv zeta.
  destruct (sm <? num_experts P); [|done].
  destruct (_ =? rank P); [|done].
  destruct (_ <? num_local_experts P); [|done].
  destruct (will_receive_data _ _ _); [|done].
  destruct (layout_range I) as [layout|]; [|done].
  unfold expected_decrements. rewrite HR, Hrank. done.
Qed.

(** A rank that is alone in its world never lowers the flags it raises:
    when the send phase, the wait and the flag reset complete, every flag
    holds its old value plus one increment per flagging warp of the block
    that holds rows for it. *)
Theorem own_flags_stay_raised (l : launch) (m' : memory) (le : Z) :
  num_ranks (l_params l) = 1 -> rank (l_params l) = 0 ->
  Z.land (phases (l_params l)) LOW_LATENCY_SEND_PHASE ≠ 0 ->
  0 < num_experts (l_params l) ->
  0 < num_warps_per_group (l_config l) ->
  flags_alone l = Done m' ->
  ld (rdma_recv_flag m') le
  = (if raises l 0 le =? 0 then ld (rdma_recv_flag (l_memory l)) le
     else wrap32 (ld (rdma_recv_flag (l_memory l)) le + raises l 0 le)).
Proof.
  intros HR Hrank Hbit HE Hw. unfold flags_alone.
  destruct (send_all [l]) as [[sends w]| | |] eqn:Hsend; try done. simpl.
  destruct (flags_delivered [l] sends w 0 le l) as (m & Hm & Hflag);
    [|done|done|].
  { apply Forall_cons. split; [|by apply Forall_nil].
    split; [done|]. split; [|done].
    unfold num_local_experts. rewrite HR, Z.quot_1_r. done. }
  assert (Hw1 : w = [m]).
  { unfold send_all in Hsend.
    destruct (map_status rank_send [l]) as [ss| | |] eqn:Hss; try done.
    simpl in Hsend. injection Hsend as <- <-.
    simpl in Hss. destruct (rank_send l) as [s0| | |]; try done.
    simpl in Hss. injection Hss as <-.
    revert Hm. generalize (concat (s_out <$> [s0])). intros ops.
    assert (Hlen : forall ops (v : list memory),
              length (deliver ops v) = length v).
    { clear. intros ops. induction ops as [|op ops IH]; intros v; [done|].
      change (deliver (op :: ops) v) with (deliver ops (deliver_op v op)).
      rewrite IH. unfold deliver_op.
      destruct (0 <=? op_dst op); [apply length_alter|done]. }
    specialize (Hlen ops (s_mem <$> [s0])).
    destruct (deliver ops (s_mem <$> [s0])) as [|m1 [|m2 rest]]; try done.
    by intros [= ->]. }
  subst w.
  destruct (wait_phase _ _ _ m) as [[]| | |]; try done. simpl.
  intros [= <-]. rewrite reset_flags_alone by done.
  rewrite Hflag. simpl. by rewrite Z.add_0_r.
Qed.

Lemma flags_after_send_witness :
  exists sends w m,
    send_all MoreScenarios.one_way = Done (sends, w)
    /\ w !! 0%nat = Some m
    /\ ld (rdma_recv_flag m) 0 = 1.
Proof.
  assert (Hrun : exists sw, send_all MoreScenarios.one_way = Done sw)
    by (eexists; vm_compute; reflexivity).
  destruct Hrun as [[sends w] Hrun].
  destruct (flags_after_send MoreScenarios.one_way sends w 0 0
              (MoreScenarios.flag_launch 0 ∅))
    as (m & Hm & Hflag); [|exact Hrun|reflexivity|].
  - repeat (apply Forall_cons; split; [by_eval|]). apply Forall_nil_2.
  - exists sends, w, m. split; [exact Hrun|]. split; [exact Hm|].
    rewrite Hflag. vm_compute. reflexivity.
Defined.

Lemma own_flags_stay_raised_witness :
  exists m',
    flags_alone MoreScenarios.alone_launch = Done m'
    /\ ld (rdma_recv_flag m') 0 = 1 /\ ld (rdma_recv_flag m') 1 = 1.
Proof.
  assert (Hrun : exists m', flags_alone MoreScenarios.alone_launch = Done m')
    by (eexists; vm_compute; reflexivity).
  destruct Hrun as [m' Hrun]. exists m'. split; [exact Hrun|].
  split.
  - rewrite (own_flags_stay_raised MoreScenarios.alone_launch m' 0);
      [vm_compute; reflexivity|by_eval..|exact Hrun].
  - rewrite (own_flags_stay_raised MoreScenarios.alone_launch m' 1);
      [vm_compute; reflexivity|by_eval..|exact Hrun].
Defined.

End CombineSendFacts.

(** ** What dispatch delivers *)

Module DeliveryFacts.

Import Dispatch World Host DispatchSpec WorldSpec DeliverySpec.
Import SendFacts SendPhase DeliverFacts CountOps RecvFacts.

(** The slot determines the local expert and the index of the message. *)
Lemma section_inj R S r a i a' i' :
  0 <= r < R -> 0 <= i < S -> 0 <= i' < S ->
  a * R * S + r * S + i = a' * R * S + r * S + i' ->
  a = a' /\ i = i'.
Proof.
  intros Hr Hi Hi' Heq.
  assert (S <= R * S) by nia.
  assert (a = a'); [|by split; [|subst; lia]].
  destruct (Z.lt_trichotomy a a') as [?|[?|?]]; [|done|]; exfalso; nia.
Qed.

Lemma for_each_reach_inv {A S} (Inv Q : S -> Prop) (body : A -> S -> result S)
    (l : list A) (s s' : S) (a : A) :
  Inv s ->
  (forall b s s', b ∈ l -> Inv s -> body b s = Ok s' -> Inv s') ->
  a ∈ l ->
  (forall s s', Inv s -> body a s = Ok s' -> Q s') ->
  (forall b s s', Inv s -> Q s -> body b s = Ok s' -> Q s') ->
  for_each l body s = Ok s' -> Q s'.
Proof.
  intros Hs Hinv Ha Hhit Hkeep. revert s Hs.
  induction l as [|b l IH]; intros s Hs; [by apply elem_of_nil in Ha|].
  simpl. destruct (body b s) as [s1|f] eqn:Hb; [|done]. simpl.
  assert (Hs1 : Inv s1) by (eapply (Hinv b); [by left|done..]).
  apply elem_of_cons in Ha as [->|Ha].
  - intros Hrest.
    assert (Inv s' /\ Q s') as [_ HQ]; [|done].
    revert Hrest. apply (for_each_inv (fun x => Inv x /\ Q x)).
    + split; [done|]. eapply Hhit; [exact Hs|exact Hb].
    + intros b1 s2 s3 Hb1 [H2 H2'] H3.
      split; [eapply (Hinv b1); [by right|done..]|]. by eapply (Hkeep b1 s2).
  - apply IH; [|done|done]. intros b' s2 s3 Hb'. apply Hinv. by right.
Qed.

Section Send.

Variable P : params.
Variable I : inputs.
Variable m : memory.

Hypothesis capacity_is_int :
  0 <= num_max_dispatch_tokens_per_rank P <= INT_MAX.
Hypothesis L_pos : 0 < num_local_experts P.
Hypothesis rank_range : 0 <= rank P < num_ranks P.

Lemma put_ok_mono (c c' : buffer) op :
  (forall j, ld c j <= ld c' j) -> put_ok P I c op -> put_ok P I c' op.
Proof.
  intros Hle. destruct op as [d slot msg|]; [|done].
  intros (e & t & k & i & He & Ht & Hk & Hsel & Hd & Hslot & Hi & Hmsg).
  exists e, t, k, i. specialize (Hle (e * num_ranks P + rank P)).
  split_and!; try done; lia.
Qed.

(** A message put to the slot of a fresh index is new. *)
Lemma fresh_slot e slot (s : send_state) d sl msg :
  puts_inv P I m s ->
  slot = ld (atomic_counter_per_expert (ss_mem s)) (e * num_ranks P + rank P) ->
  slot < num_max_dispatch_tokens_per_rank P ->
  PutMessage d sl msg ∈ ss_out s ->
  d = e `quot` num_local_experts P -> sl = slot_of P e slot -> False.
Proof.
  intros ((_ & _ & Hcap & _) & Hok & _) -> Hlt Hin -> ->.
  pose proof (proj1 (Forall_forall _ _) Hok _ Hin)
    as (e1 & t1 & k1 & i1 & He1 & _ & _ & _ & Hd1 & Hs1 & Hi1 & _).
  pose proof (Hcap (e * num_ranks P + rank P)).
  pose proof (Hcap (e1 * num_ranks P + rank P)).
  unfold slot_of in Hs1.
  apply section_inj in Hs1 as [Hle Hi]; [|done|lia|lia].
  assert (e1 = e).
  { rewrite (Z.quot_rem' e1 (num_local_experts P)),
      (Z.quot_rem' e (num_local_experts P)). congruence. }
  subst e1. lia.
Qed.

Lemma send_topk_entry_puts e t k s s' :
  0 <= e < num_experts P ->
  0 <= t < num_tokens P -> 0 <= k < num_topk P ->
  puts_inv P I m s -> send_topk_entry P I e t k s = Ok s' -> puts_inv P I m s'.
Proof.
  intros He Ht Hk Hall Hs. pose proof Hall as (Hinv & Hok & Huniq & Hfill).
  pose proof (send_topk_entry_inv P I m capacity_is_int e t k s s' Hinv Hs)
    as Hinv'.
  split; [exact Hinv'|].
  pose proof (send_topk_entry_cases P I e t k s) as C. simpl in C.
  destruct (entry_selected P I e t k) eqn:Hsel;
    [|rewrite C in Hs; injection Hs as <-; by split].
  set (idx := e * num_ranks P + rank P) in *.
  set (slot := ld (atomic_counter_per_expert (ss_mem s)) idx) in *.
  destruct (slot >=? num_max_dispatch_tokens_per_rank P) eqn:E; [congruence|].
  rewrite C in Hs. injection Hs as <-. simpl.
  destruct Hinv as (_ & _ & Hcap & _).
  assert (Hslot : 0 <= slot) by apply Hcap.
  assert (Hw : wrap32 (slot + 1) = slot + 1).
  { apply wrap32_id. unfold in_int32, INT_MIN, INT_MAX in *. lia. }
  rewrite Hw.
  assert (Hgrow : forall j,
            ld (atomic_counter_per_expert (ss_mem s)) j
            <= ld (<[idx := slot + 1]> (atomic_counter_per_expert (ss_mem s))) j).
  { intros j. destruct (decide (idx = j)) as [<-|Hne].
    - rewrite ld_insert_eq. fold slot. lia.
    - by rewrite ld_insert_ne. }
  split; [|split].
  - apply Forall_app. split.
    + eapply Forall_impl; [exact Hok|]. intros op. by apply put_ok_mono.
    + apply Forall_cons. split; [|by apply Forall_nil].
      exists e, t, k, slot. split; [done|]. split; [done|]. split; [done|].
      split; [done|]. split; [done|]. split; [reflexivity|]. split; [|done].
      fold idx. rewrite ld_insert_eq. lia.
  - intros d sl m1 m2 [H1|H1%list_elem_of_singleton]%elem_of_app
                      [H2|H2%list_elem_of_singleton]%elem_of_app.
    + by apply (Huniq d sl).
    + exfalso. injection H2 as -> -> ->.
      apply (fresh_slot e slot s _ _ _ Hall eq_refl ltac:(lia) H1); done.
    + exfalso. injection H1 as -> -> ->.
      apply (fresh_slot e slot s _ _ _ Hall eq_refl ltac:(lia) H2); done.
    + congruence.
  - intros e1 i1 Hi1.
    destruct (decide (e1 = e)) as [->|Hne].
    + fold idx in Hi1. rewrite ld_insert_eq in Hi1.
      destruct (decide (i1 = slot)) as [->|Hold].
      * exists t, k. split; [done|]. split; [done|]. split; [done|].
        apply elem_of_app. right. by left.
      * destruct (Hfill e i1) as (t1 & k1 & Ht1 & Hk1 & Hs1 & Hin1).
        { fold idx. fold slot. lia. }
        exists t1, k1. split; [done|]. split; [done|]. split; [done|].
        apply elem_of_app. by left.
    + rewrite ld_insert_ne in Hi1 by (unfold idx; nia).
      destruct (Hfill e1 i1 Hi1) as (t1 & k1 & Ht1 & Hk1 & Hs1 & Hin1).
      exists t1, k1. split; [done|]. split; [done|]. split; [done|].
      apply elem_of_app. by left.
Qed.

Lemma dispatch_send_block_puts e s s' :
  0 <= e < num_experts P ->
  puts_inv P I m s -> dispatch_send_block P I e s = Ok s' -> puts_inv P I m s'.
Proof.
  intros He Hinv. unfold dispatch_send_block.
  destruct (send_tokens_block P I e s) as [s1|f] eqn:E1; simpl; [|done].
  assert (puts_inv P I m s1) as H1.
  { revert E1. unfold send_tokens_block. apply for_each_inv; [done|].
    intros w u u' Hw%elem_of_seqZ Hu. unfold send_warp.
    destruct (negb _); [done|]. apply for_each_inv; [done|].
    intros t v v' Ht Hv.
    apply elem_of_strided in Ht as (j & Hj & -> & Ht); [|lia].
    unfold send_token. apply for_each_inv; [done|].
    intros k x x' Hk%elem_of_seqZ Hx. apply send_topk_entry_puts; [done| |lia|done].
    nia. }
  unfold check_token_drop. destruct (_ && _); [done|]. by intros [= <-].
Qed.

Lemma puts_inv_start :
  zeroed (atomic_counter_per_expert m) ->
  puts_inv P I m {| ss_mem := m; ss_log := []; ss_out := [] |}.
Proof.
  intros Hz. split; [|split; [|split]].
  - unfold send_inv. simpl. split_and!.
    + apply set_atomic_counter_id.
    + intros j. rewrite Hz. done.
    + intros j. rewrite Hz. lia.
    + constructor.
  - apply Forall_nil_2.
  - intros d sl m1 m2 H1. by apply elem_of_nil in H1.
  - intros e i Hi. simpl in Hi. rewrite Hz in Hi. lia.
Qed.

(** The messages of a send phase, before the counts. *)
Lemma send_phase_puts s :
  zeroed (atomic_counter_per_expert m) ->
  Z.land (phases P) LOW_LATENCY_SEND_PHASE ≠ 0 ->
  dispatch_send_phase P I m = Ok s ->
  exists puts,
    puts_inv P I m {| ss_mem := ss_mem s; ss_log := ss_log s; ss_out := puts |}
    /\ ss_out s = puts ++ count_ops P (ss_mem s).
Proof.
  intros Hz Hph. unfold dispatch_send_phase.
  destruct (Z.land (phases P) LOW_LATENCY_SEND_PHASE =? 0) eqn:E; [lia|].
  destruct (for_each _ _ _) as [s1|f] eqn:E1; simpl; [|done].
  intros [= <-].
  assert (puts_inv P I m s1) as H1.
  { revert E1. apply for_each_inv.
    - by apply puts_inv_start.
    - intros e u u' He%elem_of_seqZ. apply dispatch_send_block_puts.
      unfold gridDim in He. lia. }
  rewrite count_blocks.
  2:{ intros e He%elem_of_seqZ. unfold gridDim in He. lia. }
  simpl. exists (ss_out s1). split; [by destruct s1|done].
Qed.

(** Messages, once sent, stay in the list. *)
Lemma send_topk_entry_mono e t k s s' op :
  send_topk_entry P I e t k s = Ok s' -> op ∈ ss_out s -> op ∈ ss_out s'.
Proof.
  pose proof (send_topk_entry_cases P I e t k s) as C. simpl in C.
  destruct (entry_selected P I e t k).
  - destruct (_ >=? _); rewrite C; [done|]. intros [= <-] Hop. simpl.
    apply elem_of_app. by left.
  - rewrite C. by intros [= <-].
Qed.

Lemma dispatch_send_block_mono e s s' op :
  dispatch_send_block P I e s = Ok s' -> op ∈ ss_out s -> op ∈ ss_out s'.
Proof.
  unfold dispatch_send_block.
  destruct (send_tokens_block P I e s) as [s1|f] eqn:E1; simpl; [|done].
  unfold check_token_drop. destruct (_ && _); [done|]. intros [= <-] Hop.
  revert E1. unfold send_tokens_block.
  apply (for_each_inv (fun sa => op ∈ ss_out sa)); [done|].
  intros w u u' _ Hu. unfold send_warp.
  destruct (negb _); [done|].
  apply (for_each_inv (fun sa => op ∈ ss_out sa)); [done|].
  intros t v v' _ Hv. unfold send_token.
  apply (for_each_inv (fun sa => op ∈ ss_out sa)); [done|].
  intros k x x' _ Hx Hstep. by eapply send_topk_entry_mono.
Qed.

Hypothesis processing_warps : 0 < num_warps P - 1.

Lemma in_send_schedule t k :
  0 <= t < num_tokens P -> 0 <= k < num_topk P -> (t, k) ∈ send_schedule P.
Proof.
  intros Ht Hk. unfold send_schedule.
  apply list_elem_of_bind. exists (t mod (num_warps P - 1)). split.
  2:{ apply elem_of_seqZ.
      pose proof (Z.mod_pos_bound t (num_warps P - 1)). lia. }
  apply list_elem_of_bind. exists t. split.
  2:{ by apply CoverFacts.in_strided_of_mod. }
  apply list_elem_of_bind. exists k. split; [by left|].
  apply elem_of_seqZ. lia.
Qed.

Lemma send_schedule_range t k :
  (t, k) ∈ send_schedule P -> 0 <= t < num_tokens P /\ 0 <= k < num_topk P.
Proof.
  unfold send_schedule.
  intros (w & (t' & (k' & Hin & Hk)%list_elem_of_bind & Ht)%list_elem_of_bind
          & Hw)%list_elem_of_bind.
  apply list_elem_of_singleton in Hin as [= -> ->].
  apply elem_of_seqZ in Hw, Hk.
  apply elem_of_strided in Ht as (j & Hj & -> & Ht); [|lia].
  split; [nia|lia].
Qed.

(** Every routed token of the block's expert is sent. *)
Lemma dispatch_send_block_arrives e t k s s' :
  0 <= e < num_experts P ->
  0 <= t < num_tokens P -> 0 <= k < num_topk P ->
  entry_selected P I e t k = true ->
  puts_inv P I m s ->
  dispatch_send_block P I e s = Ok s' ->
  exists i,
    0 <= i < num_max_dispatch_tokens_per_rank P
    /\ PutMessage (e `quot` num_local_experts P) (slot_of P e i)
                  (staged_message I t) ∈ ss_out s'.
Proof.
  intros He Ht Hk Hsel Hinv. unfold dispatch_send_block.
  destruct (send_tokens_block P I e s) as [s1|f] eqn:E1; simpl; [|done].
  unfold check_token_drop. destruct (_ && _); [done|]. intros [= <-].
  assert (Hal : kHidden P `rem` 8 = 0).
  { destruct (decide (kHidden P `rem` 8 = 0)) as [|Hne]; [done|]. exfalso.
    assert (Hwarp : send_warp P I e 0 s = Fatal DeviceAssert).
    { unfold send_warp.
      replace (negb (kHidden P `rem` 8 =? 0)) with true; [done|].
      symmetry. apply negb_true_iff. by apply Z.eqb_neq. }
    revert E1. unfold send_tokens_block.
    rewrite (seqZ_cons 0 (num_warps P - 1)) by lia. simpl.
    by rewrite Hwarp. }
  rewrite ScheduleFacts.send_tokens_block_schedule in E1 by done.
  revert E1.
  apply (for_each_reach_inv (puts_inv P I m)
           (fun sa => exists i,
              0 <= i < num_max_dispatch_tokens_per_rank P
              /\ PutMessage (e `quot` num_local_experts P) (slot_of P e i)
                            (staged_message I t) ∈ ss_out sa) _ _ _ _ (t, k)).
  - done.
  - intros [t' k'] sa sb [Ht' Hk']%send_schedule_range Ha.
    by apply send_topk_entry_puts.
  - by apply in_send_schedule.
  - intros sa sb ((_ & _ & Hcap & _) & _). simpl.
    pose proof (send_topk_entry_cases P I e t k sa) as C. simpl in C.
    rewrite Hsel in C. destruct (_ >=? _) eqn:Hfull; rewrite C; [done|].
    intros [= <-]. simpl. eexists. split; [|apply elem_of_app; right; by left].
    specialize (Hcap (e * num_ranks P + rank P)). lia.
  - intros [t' k'] sa sb _ (i & Hi & Hin) Hstep. exists i. split; [done|].
    by eapply send_topk_entry_mono.
Qed.

Lemma send_phase_arrives e t k s :
  0 <= e < num_experts P ->
  0 <= t < num_tokens P -> 0 <= k < num_topk P ->
  entry_selected P I e t k = true ->
  zeroed (atomic_counter_per_expert m) ->
  Z.land (phases P) LOW_LATENCY_SEND_PHASE ≠ 0 ->
  dispatch_send_phase P I m = Ok s ->
  exists i,
    0 <= i < num_max_dispatch_tokens_per_rank P
    /\ PutMessage (e `quot` num_local_experts P) (slot_of P e i)
                  (staged_message I t) ∈ ss_out s.
Proof.
  intros He Ht Hk Hsel Hz Hph. unfold dispatch_send_phase.
  destruct (Z.land (phases P) LOW_LATENCY_SEND_PHASE =? 0) eqn:E; [lia|].
  destruct (for_each _ _ _) as [s1|f] eqn:E1; simpl; [|done].
  intros [= <-].
  rewrite count_blocks.
  2:{ intros e' He'%elem_of_seqZ. unfold gridDim in He'. lia. }
  simpl.
  assert (H1 : exists i,
            0 <= i < num_max_dispatch_tokens_per_rank P
            /\ PutMessage (e `quot` num_local_experts P) (slot_of P e i)
                          (staged_message I t) ∈ ss_out s1).
  { revert E1.
    apply (for_each_reach_inv (puts_inv P I m)
             (fun sa => exists i,
                0 <= i < num_max_dispatch_tokens_per_rank P
                /\ PutMessage (e `quot` num_local_experts P) (slot_of P e i)
                              (staged_message I t) ∈ ss_out sa) _ _ _ _ e).
    - by apply puts_inv_start.
    - intros b sa sb Hb%elem_of_seqZ. apply dispatch_send_block_puts.
      unfold gridDim in Hb. lia.
    - apply elem_of_seqZ. unfold gridDim. lia.
    - intros sa sb. by apply (dispatch_send_block_arrives e t k).
    - intros b sa sb _ (i & Hi & Hin) Hstep. exists i. split; [done|].
      by eapply dispatch_send_block_mono. }
  destruct H1 as (i & Hi & Hin). exists i. split; [done|].
  apply elem_of_app. by left.
Qed.

(** The operations of a send phase: every message is the staged message
    of a routed token, no two messages share a slot, and every slot that a
    counter handed out holds a message. *)
Lemma send_phase_sound s :
  zeroed (atomic_counter_per_expert m) ->
  Z.land (phases P) LOW_LATENCY_SEND_PHASE ≠ 0 ->
  dispatch_send_phase P I m = Ok s ->
  Forall (put_ok P I (atomic_counter_per_expert (ss_mem s))) (ss_out s)
  /\ puts_unique (ss_out s)
  /\ filled P I (atomic_counter_per_expert (ss_mem s)) (ss_out s).
Proof.
  intros Hz Hbit Hsend.
  destruct (send_phase_puts s Hz Hbit Hsend)
    as (puts & (_ & Hput & Huniq & Hfill) & Hout).
  simpl in Hput, Huniq, Hfill. split; [|split].
  - rewrite Hout. apply Forall_app. split; [done|].
    apply Forall_forall. intros op (e & -> & _)%list_elem_of_fmap. done.
  - intros d slot m1 m2 H1 H2. rewrite Hout in H1, H2.
    apply elem_of_app in H1 as [H1|(e1 & [=] & _)%list_elem_of_fmap].
    apply elem_of_app in H2 as [H2|(e2 & [=] & _)%list_elem_of_fmap].
    by apply (Huniq d slot).
  - intros e i Hi. destruct (Hfill e i Hi) as (t & k & Ht & Hk & Hsel & Hin).
    exists t, k. split; [done|]. split; [done|]. split; [done|].
    rewrite Hout. apply elem_of_app. by left.
Qed.

(** The messages of a send phase that starts from zeroed slot counters and
    completes.  Every message put is the staged message of a token that
    selects an expert [e]; it goes to the rank [e / L], into the slot
    [(e % L) * R * S + rank * S + i] with [i] below the final slot counter
    of [e].  No two messages go to the same slot of the same rank.  Every
    index below a final slot counter has the message of a routed token in
    its slot.  And every selected (expert, token, top-k offset) has its
    message among the messages put. *)
Theorem send_phase_messages s :
  zeroed (atomic_counter_per_expert m) ->
  Z.land (phases P) LOW_LATENCY_SEND_PHASE ≠ 0 ->
  dispatch_send_phase P I m = Ok s ->
  Forall (put_ok P I (atomic_counter_per_expert (ss_mem s))) (ss_out s)
  /\ puts_unique (ss_out s)
  /\ filled P I (atomic_counter_per_expert (ss_mem s)) (ss_out s)
  /\ forall e t k,
       0 <= e < num_experts P ->
       0 <= t < num_tokens P -> 0 <= k < num_topk P ->
       entry_selected P I e t k = true ->
       exists i,
         0 <= i < num_max_dispatch_tokens_per_rank P
         /\ PutMessage (e `quot` num_local_experts P) (slot_of P e i)
                       (staged_message I t) ∈ ss_out s.
Proof.
  intros Hz Hbit Hsend.
  destruct (send_phase_sound s Hz Hbit Hsend) as (Hput & Huniq & Hfill).
  split; [exact Hput|]. split; [exact Huniq|]. split; [exact Hfill|].
  intros e t k He Ht Hk Hsel. by apply (send_phase_arrives e t k).
Qed.

End Send.

Lemma send_phase_messages_witness :
  zeroed (atomic_counter_per_expert zero_memory)
  /\ exists s i,
       dispatch_send_phase (with_rank Scenarios.s4_params 1)
                           Scenarios.s4_inputs zero_memory = Ok s
       /\ puts_unique (ss_out s)
       /\ 0 <= i < 8
       /\ PutMessage 2 (8 + i) (staged_message Scenarios.s4_inputs 5)
            ∈ ss_out s.
Proof.
  assert (Hz : zeroed (atomic_counter_per_expert zero_memory))
    by (intros i; apply ld_empty).
  split; [exact Hz|].
  destruct (dispatch_send_phase (with_rank Scenarios.s4_params 1)
              Scenarios.s4_inputs zero_memory)
    as [s|f] eqn:Hrun; [|vm_compute in Hrun; discriminate].
  destruct (send_phase_messages (with_rank Scenarios.s4_params 1)
              Scenarios.s4_inputs zero_memory ltac:(by_eval) ltac:(by_eval)
              ltac:(by_eval) s Hz ltac:(by_eval) Hrun)
    as (_ & Huniq & _ & Hall).
  destruct (Hall 2 5 0 ltac:(by_eval) ltac:(by_eval) ltac:(by_eval) eq_refl)
    as (i & Hi & Hin).
  exists s, i. split; [reflexivity|]. split; [exact Huniq|].
  split; [exact Hi|exact Hin].
Defined.

(** *** Delivery *)

Lemma deliver_snoc ops op (w : list memory) :
  deliver (ops ++ [op]) w = deliver_op (deliver ops w) op.
Proof. unfold deliver. by rewrite foldl_app. Qed.

(** A slot that one message is put to holds it after delivery. *)
Lemma deliver_put ops (w : list memory) (d : nat) (m0 : memory) slot msg :
  w !! d = Some m0 ->
  PutMessage (Z.of_nat d) slot msg ∈ ops ->
  (forall msg', PutMessage (Z.of_nat d) slot msg' ∈ ops -> msg' = msg) ->
  exists m', deliver ops w !! d = Some m' /\ rdma_recv_x m' !! slot = Some msg.
Proof.
  intros Hw. induction ops as [|op ops IH] using rev_ind; intros Hin Huniq.
  - by apply elem_of_nil in Hin.
  - rewrite deliver_snoc.
    destruct (deliver_lookup ops w d m0 Hw) as (m1 & Hm1 & _).
    assert (Hlast : forall m2,
              deliver ops w !! d = Some m2 ->
              (rdma_recv_x m2 !! slot = Some msg
               \/ op = PutMessage (Z.of_nat d) slot msg) ->
              exists m', deliver_op (deliver ops w) op !! d = Some m'
                         /\ rdma_recv_x m' !! slot = Some msg).
    { intros m2 Hm2 Hcase. unfold deliver_op.
      destruct (0 <=? op_dst op) eqn:Hdst;
        [apply Z.leb_le in Hdst|apply Z.leb_gt in Hdst].
      2:{ exists m2. split; [done|]. destruct Hcase as [?| ->]; [done|].
          simpl in Hdst. lia. }
      destruct (decide (Z.to_nat (op_dst op) = d)) as [Hd|Hd].
      - exists (apply_op op m2). split.
        { by rewrite Hd, list_lookup_alter_eq, Hm2. }
        destruct op as [d' slot' msg'|d' off v]; simpl in *.
        + destruct (decide (slot' = slot)) as [->|Hne].
          * rewrite lookup_insert_eq. f_equal. apply Huniq.
            apply elem_of_app. right. replace (Z.of_nat d) with d' by lia.
            by left.
          * rewrite lookup_insert_ne by done.
            destruct Hcase as [|[= _ ? _]]; done.
        + by destruct Hcase.
      - exists m2. split; [by rewrite list_lookup_alter_ne|].
        destruct Hcase as [?| ->]; [done|]. simpl in Hd.
        rewrite Nat2Z.id in Hd. done. }
    apply elem_of_app in Hin as [Hin|Hin%list_elem_of_singleton].
    + destruct IH as (m2 & Hm2 & Hx); [done|..].
      { intros msg' Hmsg'. apply Huniq, elem_of_app. by left. }
      apply (Hlast m2 Hm2). by left.
    + apply (Hlast m1 Hm1). by right.
Qed.

(** *** The receive phase *)

Section Recv.

Variable P : params.
Variable I : inputs.

(** What the copy of one message stores. *)
Lemma recv_copy_token_spec l s begin i (m m' : memory) :
  recv_copy_token P I l s begin i m = Ok m' ->
  let pair_base :=
    l * num_ranks P * num_max_dispatch_tokens_per_rank P
    + s * num_max_dispatch_tokens_per_rank P in
  let src := default empty_message (rdma_recv_x m !! (pair_base + i)) in
  begin + i < num_max_dispatch_tokens_per_rank P
  /\ rdma_recv_x m' = rdma_recv_x m
  /\ rdma_recv_count m' = rdma_recv_count m
  /\ packed_recv_count m' = packed_recv_count m
  /\ packed_recv_layout_range m' = packed_recv_layout_range m
  /\ packed_recv_src_info m'
     = <[pair_base + i := msg_src_idx src]> (packed_recv_src_info m)
  /\ packed_recv_x m'
     = <[pair_base + (begin + i) := msg_data src]> (packed_recv_x m).
Proof.
  unfold recv_copy_token. cbv zeta.
  destruct (_ >=? _) eqn:Hslot; [done|].
  destruct (kUseFP8 P); intros [= <-]; simpl; split_and!; try done; lia.
Qed.

Hypothesis sub_warps : 0 < num_warps_per_group P.

(** The messages a warp group copies, all of them, and nothing outside the
    section of the pair. *)
Lemma recv_warp_group_data l s g (m m' : memory) (evs evs' : list event) :
  ld (packed_recv_count m) (l * num_ranks P + s) = 0 ->
  recv_warp_group P I l s g (m, evs) = Ok (m', evs') ->
  let idx := l * num_ranks P + s in
  let n := decode_count (ld (rdma_recv_count m) idx) in
  let pair_base :=
    l * num_ranks P * num_max_dispatch_tokens_per_rank P
    + s * num_max_dispatch_tokens_per_rank P in
  rdma_recv_x m' = rdma_recv_x m
  /\ packed_recv_layout_range m'
     = <[idx := pack2 n 0]> (packed_recv_layout_range m)
  /\ (forall i, 0 <= i < n ->
        let src := default empty_message (rdma_recv_x m !! (pair_base + i)) in
        ld (packed_recv_src_info m') (pair_base + i) = msg_src_idx src
        /\ packed_recv_x m' !! (pair_base + i) = Some (msg_data src))
  /\ (forall key,
        ~ (pair_base <= key
           < pair_base + num_max_dispatch_tokens_per_rank P) ->
        ld (packed_recv_src_info m') key = ld (packed_recv_src_info m) key
        /\ packed_recv_x m' !! key = packed_recv_x m !! key).
Proof.
  intros Hbegin H idx n pb. unfold recv_warp_group in H.
  pose proof (recv_reserve_cases P l s m evs) as C. cbv zeta in C.
  fold idx in C, Hbegin. rewrite Hbegin in C. fold n in C.
  destruct (ld (rdma_recv_count m) idx =? 0) eqn:Ev; [by rewrite C in H|].
  destruct (wrap32 (0 + n) >? _) eqn:Et; [by rewrite C in H|].
  rewrite C in H. simpl in H.
  set (m1 := set_reservation m _ _ _) in H.
  destruct (n =? 0) eqn:Hn0.
  { injection H as <- _. simpl. split_and!; try done. intros i Hi. lia. }
  destruct (negb _); [done|].
  apply bind_Ok_inv in H as (m2 & Hcopy & [= <- _]).
  rewrite <-for_each_bind in Hcopy.
  assert (Hn : n <= num_max_dispatch_tokens_per_rank P).
  { rewrite Z.add_0_l, wrap32_id in Et by apply wrap32_range. lia. }
  assert (Hmem : forall i,
            i ∈ (seqZ 0 (num_warps_per_group P)
                 ≫= fun sw => strided sw n (num_warps_per_group P))
            <-> 0 <= i < n).
  { intros i. rewrite (strided_partition n (num_warps_per_group P)) by done.
    rewrite elem_of_seqZ. lia. }
  assert (Hframe :
            rdma_recv_x m2 = rdma_recv_x m
            /\ packed_recv_layout_range m2 = packed_recv_layout_range m1
            /\ forall key,
                 ~ (pb <= key < pb + num_max_dispatch_tokens_per_rank P) ->
                 ld (packed_recv_src_info m2) key
                 = ld (packed_recv_src_info m) key
                 /\ packed_recv_x m2 !! key = packed_recv_x m !! key).
  { revert Hcopy.
    apply (for_each_inv
             (fun x =>
                rdma_recv_x x = rdma_recv_x m
                /\ packed_recv_layout_range x = packed_recv_layout_range m1
                /\ forall key,
                     ~ (pb <= key < pb + num_max_dispatch_tokens_per_rank P) ->
                     ld (packed_recv_src_info x) key
                     = ld (packed_recv_src_info m) key
                     /\ packed_recv_x x !! key = packed_recv_x m !! key));
      [done|].
    intros i x x' Hi%Hmem (Hx & Hl & Hk) Hstep.
    apply recv_copy_token_spec in Hstep
      as (Hlt & Hx' & _ & _ & Hl' & Hs' & Hd').
    fold pb in Hs', Hd'. split; [congruence|]. split; [congruence|].
    intros key Hkey. rewrite Hs', Hd'.
    rewrite ld_insert_ne by lia. rewrite lookup_insert_ne by lia.
    by apply Hk. }
  destruct Hframe as (Hx2 & Hl2 & Hk2).
  split; [done|]. split; [by rewrite Hl2|]. split; [|done].
  intros i Hi src. revert Hcopy.
  apply (for_each_reach_inv
           (fun x => rdma_recv_x x = rdma_recv_x m)
           (fun x => ld (packed_recv_src_info x) (pb + i) = msg_src_idx src
                     /\ packed_recv_x x !! (pb + i) = Some (msg_data src))
           _ _ _ _ i).
  - done.
  - intros j x x' _ Hx Hstep.
    apply recv_copy_token_spec in Hstep as (_ & Hx' & _). congruence.
  - by apply Hmem.
  - intros x x' Hx Hstep.
    apply recv_copy_token_spec in Hstep as (_ & _ & _ & _ & _ & Hs' & Hd').
    fold pb in Hs', Hd'. rewrite Hs', Hd', Hx, Z.add_0_l.
    rewrite ld_insert_eq, lookup_insert_eq. done.
  - intros j x x' Hx [Hq1 Hq2] Hstep.
    apply recv_copy_token_spec in Hstep as (_ & _ & _ & _ & _ & Hs' & Hd').
    fold pb in Hs', Hd'. rewrite Hs', Hd', Hx, Z.add_0_l.
    destruct (decide (j = i)) as [->|Hne].
    + rewrite ld_insert_eq, lookup_insert_eq. done.
    + rewrite ld_insert_ne by lia. rewrite lookup_insert_ne by lia. done.
Qed.

Hypothesis one_warp_group : num_warp_groups P = 1.

Lemma dispatch_recv_block_data b (m m' : memory) (evs evs' : list event) :
  should_process P I = true ->
  0 < num_ranks P ->
  0 <= b < num_local_experts P * num_ranks P ->
  ld (packed_recv_count m) b = 0 ->
  dispatch_recv_block P I b (m, evs) = Ok (m', evs') ->
  let S := num_max_dispatch_tokens_per_rank P in
  let n := decode_count (ld (rdma_recv_count m) b) in
  rdma_recv_x m' = rdma_recv_x m
  /\ packed_recv_layout_range m'
     = <[b := pack2 n 0]> (packed_recv_layout_range m)
  /\ (forall i, 0 <= i < n ->
        let src := default empty_message (rdma_recv_x m !! (b * S + i)) in
        ld (packed_recv_src_info m') (b * S + i) = msg_src_idx src
        /\ packed_recv_x m' !! (b * S + i) = Some (msg_data src))
  /\ (forall key,
        ~ (b * S <= key < b * S + S) ->
        ld (packed_recv_src_info m') key = ld (packed_recv_src_info m) key
        /\ packed_recv_x m' !! key = packed_recv_x m !! key).
Proof.
  intros Hsp HR Hb Hbegin. unfold dispatch_recv_block. rewrite Hsp.
  replace (b <? num_local_experts P * num_ranks P) with true by lia. simpl.
  destruct (negb _); [done|]. destruct (negb _); [done|].
  rewrite one_warp_group. change (seqZ 0 1) with [0].
  rewrite for_each_singleton. intros H.
  destruct (quot_rem_nonneg b (num_ranks P)) as (_ & _ & Hsplit); [lia..|].
  apply recv_warp_group_data in H; [|by rewrite <-Hsplit].
  cbv zeta in H. rewrite <-Hsplit in H.
  replace (b `quot` num_ranks P * num_ranks P
             * num_max_dispatch_tokens_per_rank P
           + b `rem` num_ranks P * num_max_dispatch_tokens_per_rank P)
    with (b * num_max_dispatch_tokens_per_rank P) in H; [exact H|].
  rewrite Hsplit at 1. ring.
Qed.

Hypothesis capacity : 0 <= num_max_dispatch_tokens_per_rank P.

(** After the receive phase every pair has its messages packed. *)
Lemma recv_phase_data (m m' : memory) (evs' : list event) :
  0 < num_ranks P -> 0 < num_local_experts P ->
  num_experts P = num_local_experts P * num_ranks P ->
  phases P = 3 ->
  should_process P I = true ->
  zeroed (packed_recv_count m) ->
  dispatch_recv_phase P I m = Ok (m', evs') ->
  let S := num_max_dispatch_tokens_per_rank P in
  forall b, 0 <= b < num_experts P ->
    let n := decode_count (ld (rdma_recv_count m) b) in
    ld (packed_recv_layout_range m') b = pack2 n 0
    /\ forall i, 0 <= i < n ->
         let src := default empty_message (rdma_recv_x m !! (b * S + i)) in
         ld (packed_recv_src_info m') (b * S + i) = msg_src_idx src
         /\ packed_recv_x m' !! (b * S + i) = Some (msg_data src).
Proof.
  intros HR HL HE Hph Hsp Hz. unfold dispatch_recv_phase.
  rewrite Hph. change (Z.land 3 LOW_LATENCY_RECV_PHASE =? 0) with false.
  unfold gridDim. cbv zeta.
  set (S := num_max_dispatch_tokens_per_rank P) in *.
  set (Inv := fun (visited : list Z) (st : memory * list event) =>
    rdma_recv_count st.1 = rdma_recv_count m
    /\ rdma_recv_x st.1 = rdma_recv_x m
    /\ (forall j, j ∉ visited -> ld (packed_recv_count st.1) j = 0)
    /\ (forall j, j ∈ visited ->
          let n := decode_count (ld (rdma_recv_count m) j) in
          n <= S
          /\ ld (packed_recv_layout_range st.1) j = pack2 n 0
          /\ forall i, 0 <= i < n ->
               let src := default empty_message (rdma_recv_x m !! (j * S + i)) in
               ld (packed_recv_src_info st.1) (j * S + i) = msg_src_idx src
               /\ packed_recv_x st.1 !! (j * S + i) = Some (msg_data src))).
  intros Hrun.
  assert (Inv ([] ++ seqZ 0 (num_experts P)) (m', evs')) as (_ & _ & _ & Hfin).
  { revert Hrun. apply (for_each_inv_seq Inv).
    - split_and!; [done|done| |]. { intros j _. apply Hz. }
      intros j Hj. by apply not_elem_of_nil in Hj.
    - intros pre a post [t tev] [t' tev'] Hsplit (Hrc & Hrx & Hfresh & Hdone)
             Hstep.
      simpl in Hsplit, Hrc, Hrx, Hfresh, Hdone.
      assert (a ∈ seqZ 0 (num_experts P)) as Ha
        by (rewrite Hsplit; apply elem_of_app; right; left).
      apply elem_of_seqZ in Ha.
      assert (a ∉ pre) as Hnew.
      { apply (NoDup_app_middle pre post). rewrite <-Hsplit. apply NoDup_seqZ. }
      pose proof Hstep as Hcount.
      apply (dispatch_recv_block_spec P I one_warp_group) in Hcount
        as (Hv & Htot & Hrc' & Hpc'); [|done|done|lia].
      apply dispatch_recv_block_data in Hstep
        as (Hrx' & Hlr' & Hown & Hframe); [|done|done|lia|by apply Hfresh].
      cbv zeta in Hv, Htot, Hpc', Hlr', Hown, Hframe.
      cbn [fst snd] in Hv, Htot, Hrc', Hpc'.
      rewrite Hrc in Hv, Htot, Hpc', Hlr', Hown.
      rewrite Hrx in Hown.
      rewrite (Hfresh a Hnew), Z.add_0_l in Htot, Hpc'.
      rewrite (wrap32_id (decode_count _)) in Htot, Hpc' by apply wrap32_range.
      fold S in Htot, Hown, Hframe.
      unfold Inv. simpl. split_and!.
      + congruence.
      + congruence.
      + intros j Hj. rewrite Hpc'.
        rewrite ld_insert_ne by (intros ->; apply Hj, elem_of_app; right; left).
        apply Hfresh. intros Hin. apply Hj, elem_of_app. by left.
      + intros j [Hj|Hj%list_elem_of_singleton]%elem_of_app.
        * assert (j ≠ a) by (intros ->; done).
          destruct (Hdone j Hj) as (Hnj & Hlj & Hdj).
          split; [done|]. split.
          { rewrite Hlr', ld_insert_ne by done. done. }
          intros i Hi.
          destruct (Hframe (j * S + i)) as [Hf1 Hf2]; [nia|].
          rewrite Hf1, Hf2. by apply Hdj.
        * subst j. split; [done|]. split; [by rewrite Hlr', ld_insert_eq|].
          done. }
  intros b Hb. destruct (Hfin b) as (_ & Hl & Hd).
  { simpl. apply elem_of_seqZ. lia. }
  split; done.
Qed.

(** What a receive phase packs.  On a rank that processes, with one warp
    group per block and zeroed [packed_recv_count], a receive phase that
    completes leaves for every pair [b] (local expert [b / R], source rank
    [b % R]) the layout entry [pack2 n 0], [n] the count decoded for the
    pair, and for every [i < n] the source index and the payload of the
    message in slot [b * S + i] of [rdma_recv_x] at position [b * S + i] of
    [packed_recv_src_info] and of [packed_recv_x]. *)
Theorem recv_phase_packs (m m' : memory) (evs' : list event) :
  0 < num_ranks P -> 0 < num_local_experts P ->
  num_experts P = num_local_experts P * num_ranks P ->
  phases P = 3 ->
  should_process P I = true ->
  zeroed (packed_recv_count m) ->
  dispatch_recv_phase P I m = Ok (m', evs') ->
  forall b, 0 <= b < num_experts P ->
    let S := num_max_dispatch_tokens_per_rank P in
    let n := decode_count (ld (rdma_recv_count m) b) in
    ld (packed_recv_layout_range m') b = pack2 n 0
    /\ forall i, 0 <= i < n ->
         let src := default empty_message (rdma_recv_x m !! (b * S + i)) in
         ld (packed_recv_src_info m') (b * S + i) = msg_src_idx src
         /\ packed_recv_x m' !! (b * S + i) = Some (msg_data src).
Proof.
  intros HR HL HE Hph Hsp Hz Hrun b Hb.
  by apply (recv_phase_data m m' evs').
Qed.

End Recv.

Lemma recv_phase_packs_witness :
  zeroed (packed_recv_count MoreScenarios.arrived_memory)
  /\ exists m' evs,
       dispatch_recv_phase (MoreScenarios.pair_params 0) Scenarios.pair_inputs
                           MoreScenarios.arrived_memory = Ok (m', evs)
       /\ ld (packed_recv_layout_range m') 0 = pack2 1 0
       /\ ld (packed_recv_src_info m') 0 = 7
       /\ packed_recv_x m' !! 0 = Some [70; 71].
Proof.
  assert (Hz : zeroed (packed_recv_count MoreScenarios.arrived_memory))
    by (intros i; apply ld_empty).
  split; [exact Hz|].
  destruct (dispatch_recv_phase (MoreScenarios.pair_params 0)
              Scenarios.pair_inputs MoreScenarios.arrived_memory)
    as [[m' evs]|f] eqn:Hrun; [|vm_compute in Hrun; discriminate].
  destruct (recv_phase_packs (MoreScenarios.pair_params 0)
              Scenarios.pair_inputs ltac:(by_eval) eq_refl ltac:(by_eval)
              MoreScenarios.arrived_memory m' evs ltac:(by_eval)
              ltac:(by_eval) eq_refl eq_refl eq_refl Hz Hrun 0 ltac:(by_eval))
    as [Hlay Hdata].
  destruct (Hdata 0 ltac:(by_eval)) as [Hsrc Hpay].
  exists m', evs. split; [reflexivity|]. split; [exact Hlay|].
  split; [exact Hsrc|exact Hpay].
Defined.

(** *** Both phases on all ranks *)

Lemma pair_inj n x y x' y' :
  0 <= y < n -> 0 <= y' < n -> x * n + y = x' * n + y' -> x = x' /\ y = y'.
Proof.
  intros Hy Hy' Heq.
  assert (x = x'); [|by split; [|subst; lia]].
  destruct (Z.lt_trichotomy x x') as [?|[?|?]]; [|done|]; exfalso; nia.
Qed.

(** The slot determines the local expert, the sender and the index. *)
Lemma slot_inj R S a r i a' r' i' :
  0 <= r < R -> 0 <= r' < R -> 0 <= i < S -> 0 <= i' < S ->
  a * R * S + r * S + i = a' * R * S + r' * S + i' ->
  a = a' /\ r = r' /\ i = i'.
Proof.
  intros Hr Hr' Hi Hi' Heq.
  destruct (pair_inj S (a * R + r) i (a' * R + r') i') as [Hp ->];
    [done|done|lia|].
  destruct (pair_inj R a r a' r') as [-> ->]; done.
Qed.

Section World.

Variable NW : Z.
Variable SH : Z -> bool.
Variables E R L S : Z.

Hypothesis R_pos : 0 < R.
Hypothesis L_pos : 0 < L.
Hypothesis E_split : E = L * R.
Hypothesis S_int : 0 <= S <= INT_MAX.

(** What one rank sends in a dispatch. *)
Lemma sender_puts (ls : list launch) (w : list memory)
    (sends : list send_state) (j : nat) (sj : send_state) :
  launches_ok E R S ls = true -> Forall clean w ->
  Forall2 (fun lm s => rank_send NW SH lm = Ok s) (zip ls w) sends ->
  sends !! j = Some sj ->
  exists lj mj P,
    ls !! j = Some lj /\ w !! j = Some mj /\ launch_params NW SH lj = Ok P
    /\ dispatch_send_phase P (l_inputs lj) mj = Ok sj
    /\ num_experts P = E /\ num_ranks P = R /\ num_local_experts P = L
    /\ num_max_dispatch_tokens_per_rank P = S /\ rank P = Z.of_nat j
    /\ 0 < num_warps P - 1
    /\ zeroed (atomic_counter_per_expert mj)
    /\ (forall c, ld (atomic_counter_per_expert (ss_mem sj)) c
                  = increments (ss_log sj) c)
    /\ (forall c, ld (atomic_counter_per_expert (ss_mem sj)) c <= S)
    /\ Forall (put_ok P (l_inputs lj) (atomic_counter_per_expert (ss_mem sj)))
              (ss_out sj)
    /\ puts_unique (ss_out sj)
    /\ filled P (l_inputs lj) (atomic_counter_per_expert (ss_mem sj))
              (ss_out sj).
Proof.
  intros Hok Hclean Hsends Hj.
  destruct (Forall2_lookup_r _ _ _ _ _ Hsends Hj) as ([lj mj] & Hzip & Hsend).
  apply lookup_zip_Some in Hzip as [Hlj Hmj].
  pose proof (launches_ok_lookup E R S ls j lj Hok Hlj) as Hlok.
  assert (clean mj) as (Hz & _ & _) by (eapply Forall_lookup_1; eauto).
  apply WorldFacts.rank_send_inv in Hsend as (P & HP & Hsend).
  destruct (WorldFacts.launch_params_facts NW SH E R S lj (Z.of_nat j) P Hlok HP)
    as (HE & HR & HS & Hrk & Hwg & Hwpg & Hph).
  assert (Hcap : 0 <= num_max_dispatch_tokens_per_rank P <= INT_MAX)
    by (rewrite HS; exact S_int).
  assert (Hbit : Z.land (phases P) LOW_LATENCY_SEND_PHASE ≠ 0)
    by (rewrite Hph; vm_compute; discriminate).
  assert (HL : num_local_experts P = L)
    by (apply (num_local_experts_eq P L R); congruence).
  assert (Hrange : 0 <= rank P < num_ranks P).
  { rewrite Hrk, HR. apply lookup_lt_Some in Hlj.
    pose proof (WorldFacts.launches_length E R S ls Hok). lia. }
  destruct (send_phase_puts P (l_inputs lj) mj Hcap Hrange sj Hz Hbit Hsend)
    as (puts & ((_ & Hlog & Hle & _) & _) & _).
  simpl in Hlog, Hle.
  destruct (send_phase_sound P (l_inputs lj) mj Hcap Hrange sj Hz Hbit Hsend)
    as (Hput & Huniq & Hfill).
  exists lj, mj, P. split_and!; try done.
  - unfold num_warps. rewrite Hwg, Hwpg. lia.
  - intros c. rewrite <-HS. apply Hle.
Qed.

(** What the owner of expert [e] holds for the pair of [e] and the source
    rank [r] after a dispatch: the final slot counter of [r] as the count,
    and every message that [r] put into the section of the pair, at its
    index. *)
Lemma pair_received (ls : list launch) (w : list memory)
    (sends : list send_state) (recvs : list (memory * list event))
    r sr e lo :
  launches_ok E R S ls = true ->
  length w = length ls -> Forall clean w ->
  Forall2 (fun lm s => rank_send NW SH lm = Ok s) (zip ls w) sends ->
  Forall2 (fun lm x => rank_recv NW SH lm = Ok x)
    (zip ls (deliver (concat (ss_out <$> sends)) (ss_mem <$> sends))) recvs ->
  0 <= r < R -> 0 <= e < E ->
  sends !! Z.to_nat r = Some sr ->
  ls !! Z.to_nat (e `quot` L) = Some lo ->
  ld (num_recv_tokens_per_rank (l_inputs lo)) (e `quot` L) > 0 ->
  exists md evs,
    recvs !! Z.to_nat (e `quot` L) = Some (md, evs)
    /\ ld (packed_recv_count md) (e `rem` L * R + r)
       = ld (atomic_counter_per_expert (ss_mem sr)) (e * R + r)
    /\ forall i msg,
         0 <= i < S ->
         PutMessage (e `quot` L) ((e `rem` L * R + r) * S + i) msg
           ∈ ss_out sr ->
         0 <= i < ld (packed_recv_count md) (e `rem` L * R + r)
         /\ ld (packed_recv_src_info md) ((e `rem` L * R + r) * S + i)
            = msg_src_idx msg
         /\ packed_recv_x md !! ((e `rem` L * R + r) * S + i)
            = Some (msg_data msg).
Proof.
  intros Hok Hlen Hclean Hsends Hrecvs Hr He Hsr Hlo Hsp.
  destruct (WorldFacts.owner_range E R L L_pos E_split e He)
    as (Hd & Hl & Hsplit).
  pose proof (WorldFacts.launches_length E R S ls Hok) as HlenR.
  assert (Hlens : length sends = length ls).
  { apply Forall2_length in Hsends. rewrite length_zip in Hsends. lia. }
  set (d := Z.to_nat (e `quot` L)) in *.
  set (b := e `rem` L * R + r).
  assert (Hdz : Z.of_nat d = e `quot` L) by (unfold d; lia).
  (* the sender *)
  destruct (sender_puts ls w sends _ sr Hok Hclean Hsends Hsr)
    as (lr & mr & Pr & Hlr & Hmr & HPr & Hsend & HE & HR & HL & HS & Hrk
        & Hwarps & Hz & Hlog & Hcap & Hputs & Huniq & _).
  rewrite Z2Nat.id in Hrk by lia.
  (* the owner, after its own send phase and after delivery *)
  destruct (lookup_lt_is_Some_2 sends d) as [sd Hsd]; [unfold d; lia|].
  destruct (WorldFacts.senders NW SH E R S S_int ls w sends Hok Hclean Hsends
              d sd Hsd)
    as (ld' & md0 & Pd & puts & Hld & Hmd0 & Hcd & HPd & HEd & HRd & HSd & Hrkd
        & Hinvd & Houtd).
  assert (ld' = lo) as -> by congruence.
  apply WorldFacts.send_inv_frame in Hinvd as [Hrc0 Hpc0].
  simpl in Hrc0, Hpc0.
  destruct (deliver_lookup (concat (ss_out <$> sends)) (ss_mem <$> sends) d
                           (ss_mem sd))
    as (m2 & Hm2 & _ & Hpc2 & Hrc2); [by rewrite list_lookup_fmap, Hsd|].
  specialize (Hrc2 b). rewrite Hdz in Hrc2.
  destruct (WorldFacts.delivered_count NW SH E R L S R_pos L_pos E_split S_int
              ls w sends e r sr) as [Hcontrib Hrange]; try done.
  fold b in Hcontrib. rewrite Hcontrib, Hrc0 in Hrc2. simpl in Hrc2.
  destruct Hcd as (_ & Hzrc & Hzpc). rewrite Hzrc, Z.add_0_l in Hrc2.
  assert (Hn : decode_count (ld (rdma_recv_count m2) b)
               = increments (ss_log sr) (e * R + r)).
  { rewrite Hrc2. apply CountFacts.decode_encode. lia. }
  (* the owner's receive phase *)
  destruct (Forall2_lookup_l _ _ _ d (lo, m2) Hrecvs)
    as ([md evs] & Hmd & Hrecv).
  { apply lookup_zip_Some. done. }
  apply WorldFacts.rank_recv_inv in Hrecv as (Pd' & HPd' & Hrecv).
  assert (Pd' = Pd) as -> by congruence.
  pose proof (launches_ok_lookup E R S ls d lo Hok Hlo) as Hlok.
  destruct (WorldFacts.launch_params_facts NW SH E R S lo (Z.of_nat d) Pd Hlok HPd)
    as (_ & _ & _ & _ & Hwg & Hwpg & Hph).
  assert (Hspd : should_process Pd (l_inputs lo) = true).
  { unfold should_process. rewrite Hrkd, Hdz. lia. }
  assert (Hzd : zeroed (packed_recv_count m2)).
  { intros c. rewrite Hpc2, Hpc0. apply Hzpc. }
  assert (Hb : 0 <= b < E) by (unfold b; nia).
  destruct (WorldFacts.recv_phase_spec E R L S R_pos E_split Pd (l_inputs lo)
              m2 md evs HEd HRd HSd Hwg Hph Hspd Hzd Hrecv b Hb)
    as (_ & Hcount & _).
  assert (HLd : num_local_experts Pd = L)
    by (apply (num_local_experts_eq Pd L R); congruence).
  destruct (recv_phase_data Pd (l_inputs lo)) with (m := m2) (m' := md)
    (evs' := evs) (b := b) as (_ & Hdata); try done; try lia.
  rewrite Hn, HSd in Hdata.
  exists md, evs. split; [done|].
  split; [by rewrite Hcount, Hn, Hlog|].
  intros i msg Hi Hin.
  assert (Hslot : e `rem` L * R * S + r * S + i = b * S + i)
    by (unfold b; ring).
  (* the index is below the final counter of the sender *)
  assert (Hbelow : 0 <= i < increments (ss_log sr) (e * R + r)).
  { pose proof (proj1 (Forall_forall _ _) Hputs _ Hin)
      as (e1 & t1 & k1 & i1 & He1 & _ & _ & _ & Hd1 & Hs1 & Hi1 & _).
    unfold slot_of in Hs1. rewrite ?HL, ?HR, ?HS, ?Hrk in *.
    pose proof (Hcap (e1 * R + r)).
    rewrite <-Hslot in Hs1.
    apply section_inj in Hs1 as [Ha <-]; [|lia..].
    assert (e1 = e) as ->.
    { rewrite (Z.quot_rem' e1 L), (Z.quot_rem' e L). congruence. }
    rewrite <-Hlog. done. }
  (* no other message goes to the slot *)
  assert (Hone : forall msg',
            PutMessage (Z.of_nat d) (b * S + i) msg'
              ∈ concat (ss_out <$> sends) -> msg' = msg).
  { intros msg' (out & Hin' & (sj & -> & [j Hsj]%list_elem_of_lookup)
                  %list_elem_of_fmap)%CombineSendFacts.elem_of_concat.
    destruct (sender_puts ls w sends _ sj Hok Hclean Hsends Hsj)
      as (lj & mj & Pj & Hlj & _ & _ & _ & HEj & HRj & HLj & HSj & Hrkj
          & _ & _ & _ & Hcapj & Hputsj & _).
    pose proof (proj1 (Forall_forall _ _) Hputsj _ Hin')
      as (e1 & t1 & k1 & i1 & He1 & _ & _ & _ & Hd1 & Hs1 & Hi1 & _).
    unfold slot_of in Hs1. rewrite ?HLj, ?HRj, ?HSj, ?Hrkj in *.
    pose proof (Hcapj (e1 * R + Z.of_nat j)).
    apply lookup_lt_Some in Hlj.
    rewrite <-Hslot in Hs1.
    apply slot_inj in Hs1 as (_ & Hjr & _); [|lia..].
    assert (j = Z.to_nat r) as -> by lia.
    assert (sj = sr) as -> by congruence.
    apply (Huniq (Z.of_nat d) (b * S + i)); [done|].
    rewrite Hdz. done. }
  destruct (deliver_put (concat (ss_out <$> sends)) (ss_mem <$> sends) d
              (ss_mem sd) (b * S + i) msg)
    as (m2' & Hm2' & Hx2); [by rewrite list_lookup_fmap, Hsd| |done|].
  { apply CombineSendFacts.elem_of_concat. exists (ss_out sr). split.
    - rewrite Hdz. done.
    - apply list_elem_of_fmap. exists sr. split; [done|].
      by eapply list_elem_of_lookup_2. }
  assert (m2' = m2) as -> by congruence.
  specialize (Hdata i Hbelow). cbv zeta in Hdata. rewrite Hx2 in Hdata.
  split; [|exact Hdata]. rewrite Hcount, Hn. done.
Qed.

(** A token that a rank routes to an expert is found, after a dispatch
    with both phases on all ranks that started from zeroed protocol
    buffers, in the packed buffers of the expert's owner: in the section of
    the pair (local expert, source rank), below the received count, with its
    source index and the payload the sender staged. *)
Theorem dispatch_delivers (ls : list launch) (w : list memory) (o : outcome) :
  launches_ok E R S ls = true ->
  length w = length ls -> Forall clean w ->
  dispatch_all NW SH ls w = Ok o ->
  forall r lr Pr e t k lo,
    0 <= r < R -> ls !! Z.to_nat r = Some lr ->
    launch_params NW SH lr = Ok Pr ->
    0 <= e < E -> 0 <= t < num_tokens Pr -> 0 <= k < num_topk Pr ->
    entry_selected Pr (l_inputs lr) e t k = true ->
    ls !! Z.to_nat (e `quot` L) = Some lo ->
    ld (num_recv_tokens_per_rank (l_inputs lo)) (e `quot` L) > 0 ->
    exists md i,
      o_world o !! Z.to_nat (e `quot` L) = Some md
      /\ 0 <= i < ld (packed_recv_count md) (e `rem` L * R + r)
      /\ ld (packed_recv_src_info md) ((e `rem` L * R + r) * S + i) = t
      /\ packed_recv_x md !! ((e `rem` L * R + r) * S + i)
         = Some (fst (staged (l_inputs lr) t)).
Proof.
  intros Hok Hlen Hclean Hrun r lr Pr e t k lo Hr Hlr HPr He Ht Hk Hsel
         Hlo Hsp.
  destruct (WorldFacts.dispatch_all_inv NW SH ls w o Hrun)
    as (sends & recvs & Hsends & Hrecvs & Hworld & _).
  pose proof (WorldFacts.launches_length E R S ls Hok) as HlenR.
  assert (Hlens : length sends = length ls).
  { apply Forall2_length in Hsends. rewrite length_zip in Hsends. lia. }
  destruct (lookup_lt_is_Some_2 sends (Z.to_nat r)) as [sr Hsr]; [lia|].
  destruct (sender_puts ls w sends _ sr Hok Hclean Hsends Hsr)
    as (lr' & mr & P & Hlr' & Hmr & HP & Hsend & HE & HR & HL & HS & Hrk
        & Hwarps & Hz & _).
  assert (lr' = lr) as -> by congruence.
  assert (P = Pr) as -> by congruence.
  rewrite Z2Nat.id in Hrk by lia.
  assert (Hcap0 : 0 <= num_max_dispatch_tokens_per_rank Pr <= INT_MAX)
    by (rewrite HS; exact S_int).
  assert (Hbit : Z.land (phases Pr) LOW_LATENCY_SEND_PHASE ≠ 0).
  { pose proof (launches_ok_lookup E R S ls _ lr Hok Hlr) as Hlok.
    destruct (WorldFacts.launch_params_facts NW SH E R S lr _ Pr Hlok HPr)
      as (_ & _ & _ & _ & _ & _ & ->). vm_compute. discriminate. }
  destruct (send_phase_arrives Pr (l_inputs lr) mr Hcap0 ltac:(lia) Hwarps
              e t k sr) as (i & Hi & Hin); try done; [lia|].
  unfold slot_of in Hin. rewrite HL, HR, HS, Hrk in Hin.
  replace (e `rem` L * R * S + r * S + i)
    with ((e `rem` L * R + r) * S + i) in Hin by ring.
  destruct (pair_received ls w sends recvs r sr e lo)
    as (md & evs & Hmd & _ & Hall); try done.
  destruct (Hall i _ ltac:(lia) Hin) as (Hbelow & Hsrc & Hpay).
  exists md, i. split; [by rewrite Hworld, list_lookup_fmap, Hmd|].
  split; [done|]. split; done.
Qed.

(** And nothing else is found there.  After such a dispatch, every index
    below [packed_recv_count] of the pair of a local expert and a source
    rank [r] holds the source index and the staged payload of a token of
    rank [r] that selects the expert in its top-k. *)
Theorem dispatch_receives_only_routed (ls : list launch) (w : list memory)
    (o : outcome) :
  launches_ok E R S ls = true ->
  length w = length ls -> Forall clean w ->
  dispatch_all NW SH ls w = Ok o ->
  forall r e lo md i,
    0 <= r < R -> 0 <= e < E ->
    ls !! Z.to_nat (e `quot` L) = Some lo ->
    ld (num_recv_tokens_per_rank (l_inputs lo)) (e `quot` L) > 0 ->
    o_world o !! Z.to_nat (e `quot` L) = Some md ->
    0 <= i < ld (packed_recv_count md) (e `rem` L * R + r) ->
    exists lr Pr t k,
      ls !! Z.to_nat r = Some lr /\ launch_params NW SH lr = Ok Pr
      /\ 0 <= t < num_tokens Pr /\ 0 <= k < num_topk Pr
      /\ entry_selected Pr (l_inputs lr) e t k = true
      /\ ld (packed_recv_src_info md) ((e `rem` L * R + r) * S + i) = t
      /\ packed_recv_x md !! ((e `rem` L * R + r) * S + i)
         = Some (fst (staged (l_inputs lr) t)).
Proof.
  intros Hok Hlen Hclean Hrun r e lo md i Hr He Hlo Hsp Hmd Hi.
  destruct (WorldFacts.dispatch_all_inv NW SH ls w o Hrun)
    as (sends & recvs & Hsends & Hrecvs & Hworld & _).
  pose proof (WorldFacts.launches_length E R S ls Hok) as HlenR.
  assert (Hlens : length sends = length ls).
  { apply Forall2_length in Hsends. rewrite length_zip in Hsends. lia. }
  destruct (lookup_lt_is_Some_2 sends (Z.to_nat r)) as [sr Hsr]; [lia|].
  destruct (sender_puts ls w sends _ sr Hok Hclean Hsends Hsr)
    as (lr & mr & Pr & Hlr & Hmr & HPr & Hsend & HE & HR & HL & HS & Hrk
        & Hwarps & Hz & _ & Hcap & _ & _ & Hfill).
  rewrite Z2Nat.id in Hrk by lia.
  destruct (pair_received ls w sends recvs r sr e lo)
    as (md' & evs & Hmd' & Hcount & Hall); try done.
  assert (md' = md) as ->.
  { rewrite Hworld, list_lookup_fmap, Hmd' in Hmd. by injection Hmd. }
  rewrite Hcount in Hi.
  destruct (Hfill e i) as (t & k & Ht & Hk & Hsel & Hin).
  { by rewrite HR, Hrk. }
  unfold slot_of in Hin. rewrite HL, HR, HS, Hrk in Hin.
  replace (e `rem` L * R * S + r * S + i)
    with ((e `rem` L * R + r) * S + i) in Hin by ring.
  pose proof (Hcap (e * R + r)).
  destruct (Hall i _ ltac:(lia) Hin) as (_ & Hsrc & Hpay).
  exists lr, Pr, t, k. split; [exact Hlr|]. split; [exact HPr|].
  split; [exact Ht|]. split; [exact Hk|]. split; [exact Hsel|].
  split; [exact Hsrc|exact Hpay].
Qed.

End World.

Lemma dispatch_delivers_witness :
  launches_ok 2 2 4 Scenarios.pair_launches = true
  /\ exists o md i,
       dispatch_all 1024 Scenarios.switch_7168 Scenarios.pair_launches [zero_memory; zero_memory]
       = Ok o
       /\ o_world o !! 0%nat = Some md
       /\ 0 <= i < ld (packed_recv_count md) 1
       /\ ld (packed_recv_src_info md) (1 * 4 + i) = 1
       /\ packed_recv_x md !! (1 * 4 + i) = Some [1].
Proof.
  split; [reflexivity|].
  destruct (dispatch_all 1024 Scenarios.switch_7168 Scenarios.pair_launches
              [zero_memory; zero_memory])
    as [o|f] eqn:Hrun; [|vm_compute in Hrun; discriminate].
  destruct (dispatch_delivers
              1024 Scenarios.switch_7168 2 2 1 4 ltac:(reflexivity) ltac:(reflexivity) eq_refl
              ltac:(by_eval) Scenarios.pair_launches
              [zero_memory; zero_memory] o
              eq_refl eq_refl WorldExamples.pair_clean Hrun 1
              {| l_args := Scenarios.pair_args 1;
                 l_inputs := Scenarios.pair_inputs |}
              {| num_tokens := 2;
                 num_max_dispatch_tokens_per_rank := 4;
                 num_topk := 1;
                 num_experts := 2;
                 rank := 1;
                 num_ranks := 2;
                 num_warp_groups := 1;
                 num_warps_per_group := 32;
                 phases := 3;
                 kUseFP8 := false;
                 kUseUE8M0 := false;
                 kHidden := 7168 |}
              0 1 0
              {| l_args := Scenarios.pair_args 0;
                 l_inputs := Scenarios.pair_inputs |}
              ltac:(by_eval) eq_refl eq_refl ltac:(by_eval) ltac:(by_eval)
              ltac:(by_eval) eq_refl eq_refl ltac:(reflexivity))
    as (md & i & Hmd & Hi & Hsrc & Hpay).
  exists o, md, i. repeat split; try assumption; apply Hi.
Defined.

Lemma dispatch_receives_only_routed_witness :
  launches_ok 2 2 4 Scenarios.pair_launches = true
  /\ exists o md lr Pr t k,
       dispatch_all 1024 Scenarios.switch_7168 Scenarios.pair_launches [zero_memory; zero_memory]
       = Ok o
       /\ o_world o !! 0%nat = Some md
       /\ 0 <= 0 < ld (packed_recv_count md) 1
       /\ Scenarios.pair_launches !! 1%nat = Some lr
       /\ launch_params 1024 Scenarios.switch_7168 lr = Ok Pr
       /\ entry_selected Pr (l_inputs lr) 0 t k = true
       /\ ld (packed_recv_src_info md) (1 * 4 + 0) = t
       /\ packed_recv_x md !! (1 * 4 + 0) = Some (fst (staged (l_inputs lr) t)).
Proof.
  split; [reflexivity|].
  destruct (dispatch_all 1024 Scenarios.switch_7168 Scenarios.pair_launches
              [zero_memory; zero_memory])
    as [o|f] eqn:Hrun; [|vm_compute in Hrun; discriminate].
  destruct (o_world o !! 0%nat) as [md|] eqn:Hmd.
  2:{ vm_compute in Hrun. injection Hrun as <-. vm_compute in Hmd.
      discriminate. }
  assert (Hi : 0 <= 0 < ld (packed_recv_count md) 1).
  { vm_compute in Hrun. injection Hrun as <-. vm_compute in Hmd.
    injection Hmd as <-. by_eval. }
  destruct (dispatch_receives_only_routed
              1024 Scenarios.switch_7168 2 2 1 4 ltac:(reflexivity) ltac:(reflexivity) eq_refl
              ltac:(by_eval) Scenarios.pair_launches
              [zero_memory; zero_memory] o
              eq_refl eq_refl WorldExamples.pair_clean Hrun 1 0
              {| l_args := Scenarios.pair_args 0;
                 l_inputs := Scenarios.pair_inputs |}
              md 0 ltac:(by_eval) ltac:(by_eval) eq_refl ltac:(reflexivity)
              Hmd Hi)
    as (lr & Pr & t & k & Hlr & HPr & _ & _ & Hsel & Hsrc & Hpay).
  exists o, md, lr, Pr, t, k. split; [reflexivity|]. split; [exact Hmd|].
  split; [exact Hi|]. split; [exact Hlr|]. split; [exact HPr|].
  split; [exact Hsel|]. split; [exact Hsrc|exact Hpay].
Defined.

End DeliveryFacts.

(** ** The FP8 scales of received messages *)

Module ScaleFacts.

Import Dispatch World DispatchSpec ScaleSpec.

Lemma write_scale_eq (P : params) (I : inputs) l tok lane src (b : buffer) :
  write_scale P I l tok lane src b
  = if lane <? num_scales P
    then <[scale_cell P l tok lane :=
             extract_required_scale_format I
               (default 0 (msg_scales src !! Z.to_nat lane))]> b
    else b.
Proof. reflexivity. Qed.

(** Writes that go to the same cells whatever the buffer holds erase what
    earlier writes to these cells left. *)
Lemma foldl_overwrite {A} (f g : buffer -> A -> buffer) (key : A -> list Z) :
  (forall a b k, k ∉ key a -> f b a !! k = b !! k) ->
  (forall a b k, k ∉ key a -> g b a !! k = b !! k) ->
  (forall a b b' k, k ∈ key a -> g b a !! k = g b' a !! k) ->
  forall (l : list A) (b : buffer), foldl g (foldl f b l) l = foldl g b l.
Proof.
  intros Hf Hg Hin l b.
  assert (Hout : forall l b k,
            (forall a, a ∈ l -> k ∉ key a) -> foldl f b l !! k = b !! k).
  { clear l b. induction l as [|a l IH]; intros b k Hk; [done|].
    simpl. rewrite IH by (intros a' Ha'; apply Hk; by right).
    apply Hf, Hk. by left. }
  assert (Hsame : forall l b b',
            (forall k, (forall a, a ∈ l -> k ∉ key a) -> b !! k = b' !! k) ->
            foldl g b l = foldl g b' l).
  { clear l b. induction l as [|a l IH]; intros b b' Hk.
    - apply map_eq. intros k. apply Hk. intros a Ha.
      by apply elem_of_nil in Ha.
    - simpl. apply IH. intros k Hrest.
      destruct (decide (k ∈ key a)) as [Hka|Hka]; [by apply Hin|].
      rewrite !Hg by done. apply Hk.
      intros a' [->|Ha']%elem_of_cons; [done|by apply Hrest]. }
  apply Hsame. intros k Hk. by apply Hout.
Qed.

(** The two writes of a lane (lines 761-772) and the cells they touch. *)
Lemma write_pair_out (P : params) (I : inputs) l tok src lane (b : buffer) k :
  k ∉ (if lane <? num_scales P then [scale_cell P l tok lane] else [])
      ++ (if lane + 32 <? num_scales P
          then [scale_cell P l tok (lane + 32)] else []) ->
  write_scale P I l tok (lane + 32) src (write_scale P I l tok lane src b) !! k
  = b !! k.
Proof.
  intros Hk. rewrite !write_scale_eq.
  destruct (lane <? num_scales P), (lane + 32 <? num_scales P); simpl in Hk.
  - rewrite !lookup_insert_ne; [done|..]; intros <-; apply Hk.
    + by left.
    + right. by left.
  - rewrite lookup_insert_ne; [done|]. intros <-. apply Hk. by left.
  - rewrite lookup_insert_ne; [done|]. intros <-. apply Hk. by left.
  - done.
Qed.

Lemma write_pair_in (P : params) (I : inputs) l tok src lane (b b' : buffer) k :
  k ∈ (if lane <? num_scales P then [scale_cell P l tok lane] else [])
      ++ (if lane + 32 <? num_scales P
          then [scale_cell P l tok (lane + 32)] else []) ->
  write_scale P I l tok (lane + 32) src (write_scale P I l tok lane src b) !! k
  = write_scale P I l tok (lane + 32) src (write_scale P I l tok lane src b')
    !! k.
Proof.
  intros Hk. rewrite !write_scale_eq.
  destruct (lane <? num_scales P), (lane + 32 <? num_scales P); simpl in Hk.
  - destruct (decide (scale_cell P l tok (lane + 32) = k)) as [<-|Hne];
      [by rewrite !lookup_insert_eq|].
    rewrite !(lookup_insert_ne _ _ _ _ Hne).
    apply elem_of_cons in Hk as [->|Hk%list_elem_of_singleton];
      [|by subst k].
    by rewrite !lookup_insert_eq.
  - apply list_elem_of_singleton in Hk as ->. by rewrite !lookup_insert_eq.
  - apply list_elem_of_singleton in Hk as ->. by rewrite !lookup_insert_eq.
  - by apply elem_of_nil in Hk.
Qed.

(** The copy of one message with FP8. *)
Lemma recv_copy_token_fp8 (P : params) (I : inputs) l s begin i (m : memory) :
  kUseFP8 P = true ->
  begin + i < num_max_dispatch_tokens_per_rank P ->
  let pair_base :=
    l * num_ranks P * num_max_dispatch_tokens_per_rank P
    + s * num_max_dispatch_tokens_per_rank P in
  let src := default empty_message (rdma_recv_x m !! (pair_base + i)) in
  exists m',
    recv_copy_token P I l s begin i m = Ok m'
    /\ rdma_recv_x m' = rdma_recv_x m
    /\ packed_recv_x m'
       = <[pair_base + (begin + i) := msg_data src]> (packed_recv_x m)
    /\ packed_recv_x_scales m'
       = foldl (fun b lane_id =>
                  write_scale P I l (begin + i) (lane_id + 32) src
                    (write_scale P I l (begin + i) lane_id src b))
               (packed_recv_x_scales m) (seqZ 0 32).
Proof.
  intros Hfp8 Hslot. unfold recv_copy_token. cbv zeta. rewrite Hfp8.
  replace (begin + i >=? num_max_dispatch_tokens_per_rank P) with false by lia.
  eexists. split; [reflexivity|]. split; [reflexivity|].
  split; reflexivity.
Qed.

(** The cell of a scale does not depend on the source rank.  With FP8,
    copying message [i] of source rank [s2] after message [i] of source rank
    [s1] of the same local expert, with the same begin index, leaves
    [packed_recv_x_scales] as the copy of the second message alone leaves
    it: the scales of the first are gone, while the payloads of both stay, in
    the sections of their pairs. *)
Theorem scales_of_another_source_overwritten (P : params) (I : inputs)
    l s1 s2 begin i (m m1 m2 : memory) :
  kUseFP8 P = true -> 0 <= begin -> 0 <= i ->
  recv_copy_token P I l s1 begin i m = Ok m1 ->
  recv_copy_token P I l s2 begin i m1 = Ok m2 ->
  exists m2',
    recv_copy_token P I l s2 begin i m = Ok m2'
    /\ packed_recv_x_scales m2 = packed_recv_x_scales m2'
    /\ forall s, s = s1 \/ s = s2 ->
         let pair_base :=
           l * num_ranks P * num_max_dispatch_tokens_per_rank P
           + s * num_max_dispatch_tokens_per_rank P in
         packed_recv_x m2 !! (pair_base + (begin + i))
         = Some (msg_data (default empty_message
                             (rdma_recv_x m !! (pair_base + i)))).
Proof.
  intros Hfp8 Hbegin Hi H1 H2.
  pose proof (DeliveryFacts.recv_copy_token_spec P I l s1 begin i m m1 H1)
    as (Hslot & _).
  destruct (recv_copy_token_fp8 P I l s1 begin i m Hfp8 Hslot)
    as (m1' & H1' & Hx1 & Hd1 & Hs1).
  assert (m1' = m1) as -> by congruence.
  destruct (recv_copy_token_fp8 P I l s2 begin i m1 Hfp8 Hslot)
    as (m2a & H2' & Hx2 & Hd2 & Hs2).
  assert (m2a = m2) as -> by congruence.
  destruct (recv_copy_token_fp8 P I l s2 begin i m Hfp8 Hslot)
    as (m2' & H3 & Hx3 & Hd3 & Hs3).
  exists m2'. split; [exact H3|]. split.
  - rewrite Hs2, Hs3, Hs1, Hx1.
    apply (foldl_overwrite _ _
             (fun lane =>
                (if lane <? num_scales P
                 then [scale_cell P l (begin + i) lane] else [])
                ++ (if lane + 32 <? num_scales P
                    then [scale_cell P l (begin + i) (lane + 32)] else []))).
    + intros lane b k. apply write_pair_out.
    + intros lane b k. apply write_pair_out.
    + intros lane b b' k. apply write_pair_in.
  - intros s Hs pair_base. subst pair_base. rewrite Hd2, Hd1, Hx1.
    destruct Hs as [->| ->].
    + destruct (decide (s1 = s2)) as [->|Hne]; [by rewrite lookup_insert_eq|].
      rewrite lookup_insert_ne, lookup_insert_eq; [done|].
      intros Heq. apply Hne. nia.
    + by rewrite lookup_insert_eq.
Qed.

Lemma scales_of_another_source_overwritten_witness :
  exists m1 m2 m2',
    recv_copy_token MoreScenarios.fp8_params Scenarios.pair_inputs 0 0 0 0
                    MoreScenarios.scaled_memory = Ok m1
    /\ recv_copy_token MoreScenarios.fp8_params Scenarios.pair_inputs 0 1 0 0 m1 = Ok m2
    /\ recv_copy_token MoreScenarios.fp8_params Scenarios.pair_inputs 0 1 0 0
                       MoreScenarios.scaled_memory = Ok m2'
    /\ ld (packed_recv_x_scales m1) 0 = 5
    /\ ld (packed_recv_x_scales m2) 0 = 8
    /\ packed_recv_x_scales m2 = packed_recv_x_scales m2'
    /\ packed_recv_x m2 !! 0 = Some [10]
    /\ packed_recv_x m2 !! 4 = Some [20].
Proof.
  destruct (recv_copy_token MoreScenarios.fp8_params Scenarios.pair_inputs 0 0 0 0
              MoreScenarios.scaled_memory)
    as [m1|f] eqn:H1; [|vm_compute in H1; discriminate].
  destruct (recv_copy_token MoreScenarios.fp8_params Scenarios.pair_inputs 0 1 0 0 m1)
    as [m2|f] eqn:H2.
  2:{ vm_compute in H1. injection H1 as <-. vm_compute in H2. discriminate. }
  destruct (scales_of_another_source_overwritten
              MoreScenarios.fp8_params Scenarios.pair_inputs 0 0 1 0 0
              MoreScenarios.scaled_memory m1 m2 eq_refl ltac:(by_eval) ltac:(by_eval)
              H1 H2)
    as (m2' & H3 & Heq & Hpay).
  pose proof (Hpay 0 ltac:(by left)) as Hp0.
  pose proof (Hpay 1 ltac:(by right)) as Hp1.
  exists m1, m2, m2'. split; [reflexivity|]. split; [exact H2|].
  split; [exact H3|].
  split; [vm_compute in H1; injection H1 as <-; reflexivity|].
  split.
  { vm_compute in H1. injection H1 as <-. vm_compute in H2.
    injection H2 as <-. reflexivity. }
  split; [exact Heq|]. split; [exact Hp0|exact Hp1].
Defined.

End ScaleFacts.

(** ** The owner of a token sends it *)

Module OwnerSends.

Import Dispatch DispatchSpec SendFacts Scenarios.

(** The top-k loop of a token in the block of expert [e], from any state
    whose counter of the pair is not negative: every entry that passes the
    guards reserves the next slot of the pair and puts the message of the
    token there; the loop fails only when the capacity is reached. *)
Lemma send_entries_run (P : params) (I : inputs) e t (ks : list Z)
    (s : send_state) :
  num_max_dispatch_tokens_per_rank P <= INT_MAX ->
  0 <= ld (atomic_counter_per_expert (ss_mem s)) (e * num_ranks P + rank P) ->
  let idx := e * num_ranks P + rank P in
  let c := ld (atomic_counter_per_expert (ss_mem s)) idx in
  match for_each ks (send_topk_entry P I e t) s with
  | Ok s' =>
      exists lg out,
        ss_log s' = ss_log s ++ lg /\ ss_out s' = ss_out s ++ out
        /\ ld (atomic_counter_per_expert (ss_mem s')) idx
           = c + Z.of_nat (length lg)
        /\ forall k, k ∈ ks -> entry_selected P I e t k = true ->
             exists slot,
               c <= slot < ld (atomic_counter_per_expert (ss_mem s')) idx
               /\ slot < num_max_dispatch_tokens_per_rank P
               /\ {| res_counter_idx := idx; res_slot_idx := slot |} ∈ lg
               /\ PutMessage (e `quot` num_local_experts P)
                    (e `rem` num_local_experts P * num_ranks P
                       * num_max_dispatch_tokens_per_rank P
                     + rank P * num_max_dispatch_tokens_per_rank P + slot)
                    (staged_message I t) ∈ out
  | Fatal f =>
      f = SlotOverflow
      /\ num_max_dispatch_tokens_per_rank P < c + Z.of_nat (length ks)
  end.
Proof.
  intros Hcap. revert s. induction ks as [|k ks IH]; intros s Hc idx c.
  - simpl. exists [], []. rewrite !app_nil_r. split_and!; try done.
    + simpl. lia.
    + intros k Hk. by apply elem_of_nil in Hk.
  - simpl. pose proof (send_topk_entry_cases P I e t k s) as C. cbv zeta in C.
    fold idx in C. fold c in C. assert (Hc0 : 0 <= c) by exact Hc.
    destruct (entry_selected P I e t k) eqn:Hsel.
    2:{ rewrite C. simpl. specialize (IH s Hc). cbv zeta in IH.
        fold idx in IH. fold c in IH.
        destruct (for_each ks _ s) as [s'|f].
        - destruct IH as (lg & out & Hlg & Hout & Hcnt & Hall).
          exists lg, out. split_and!; try done.
          intros k' [->|Hk']%elem_of_cons Hk'sel; [congruence|].
          exact (Hall k' Hk' Hk'sel).
        - destruct IH as [-> Hlt]. split; [done|]. simpl length. lia. }
    destruct (c >=? num_max_dispatch_tokens_per_rank P) eqn:Hfull.
    { rewrite C. simpl. split; [done|]. lia. }
    rewrite C. simpl.
    set (s1 := {| ss_mem := _; ss_log := _; ss_out := _ |}).
    assert (Hw : wrap32 (c + 1) = c + 1).
    { apply wrap32_id. unfold in_int32, INT_MIN, INT_MAX in *. lia. }
    assert (Hc1 : ld (atomic_counter_per_expert (ss_mem s1)) idx = c + 1).
    { unfold s1. simpl. by rewrite ld_insert_eq. }
    specialize (IH s1). cbv zeta in IH. fold idx in IH. rewrite Hc1 in IH.
    specialize (IH ltac:(lia)).
    destruct (for_each ks _ s1) as [s'|f].
    + destruct IH as (lg & out & Hlg & Hout & Hcnt & Hall).
      eexists (_ :: lg), (_ :: out). split_and!.
      * rewrite Hlg. unfold s1. simpl. by rewrite <-app_assoc.
      * rewrite Hout. unfold s1. simpl. by rewrite <-app_assoc.
      * rewrite Hcnt. simpl length. lia.
      * intros k' [->|Hk']%elem_of_cons Hk'sel.
        -- exists c. split; [lia|]. split; [lia|]. split; by left.
        -- destruct (Hall k' Hk' Hk'sel) as (slot & Hs & Hlt & Hin1 & Hin2).
           exists slot. split; [lia|]. split; [done|]. split; by right.
    + destruct IH as [-> Hlt]. split; [done|]. simpl length. lia.
Qed.



End OwnerSends.

(** ** What the reduction loops store for a token *)

Module LocalPartial.

Import F32 Combine CombineSpec CombineOut Scenarios.




End LocalPartial.
